(* ===== verification/_CoqProject ===== *)
-Q . S2P
Prelude.v
Lmb.v
StringLib.v
Blocks.v
Membuff.v
Qsort.v
Hashtable.v
EnvText.v
Strto.v
Vsprintf.v
Sha1.v
Sha256.v
Md5.v
WgMenu.v
Autoboot.v
EnvAttr.v
EnvFlags.v
Crc32.v
Hash.v
AutobootKeyed.v
Rsa.v
ImageSig.v
EnvStore.v
EnvLoad.v
EnvCmd.v
CliReadline.v
Command.v
EnvEdit.v
Image.v
Fit.v
BootImages.v
Bootm.v
