(* ===== verification/Prelude.v ===== *)
(** * U-Boot for the WatchGuard Firebox: a verification library

    The repository is U-Boot 2018.09 with the additions of the vendor.  On the
    Firebox (target [ls1043aqds_wg_t40_qspi], AArch64) it runs from SPI flash:
    it loads the environment, shows a boot menu of two systems during a
    countdown, lets a console be reached only with a password, and hands the boot
    command to the command interpreter, where [bootm] checks, loads and starts a
    kernel.  This library models that path, but for the interpreter itself, and
    the library code under it.  All source names below are relative to
    [src/u-boot-2018.09].

    ** Parts and files

    - [Prelude.v]: machine integers, arrays, tactics and shared lemmas.
    - [StringLib.v] ([lib/string.c], [lib/ctype.c], [include/linux/ctype.h]):
      string and memory functions, by words where the code does so.
      [Strto.v] ([lib/strto.c]): reading numbers.  [Vsprintf.v]
      ([lib/vsprintf.c], parts of [lib/charset.c] and [lib/uuid.c]): formatted
      output.  [Qsort.v] ([lib/qsort.c]): the shell
      sort.  [Membuff.v] ([lib/membuff.c]): circular buffers.
    - [Lmb.v] ([lib/lmb.c]): the tables of memory and reserved ranges from which
      the boot code allocates.
    - [Blocks.v]: what the digests share, the blocks and the padding of a
      message; the class [Stream] of contexts that are fed piece by piece, with
      its law [StreamOk].  [Sha1.v] ([lib/sha1.c]), [Sha256.v] ([lib/sha256.c])
      and [Md5.v] ([lib/md5.c]) are instances.  [Crc32.v] ([lib/crc32.c]).  [Hash.v]
      ([common/hash.c], [lib/rsa/rsa-checksum.c]): the table of algorithms.
    - [Rsa.v] ([lib/rsa/rsa-mod-exp.c], [lib/rsa/rsa-verify.c]): RSA signatures.
      [ImageSig.v] ([common/image-sig.c]): the signatures of FIT images; what
      libfdt returns for a tree is the record [fdt].
    - [Image.v] ([common/image.c], [include/image.h]): images with a legacy
      header, multi-file images, the tables of names and the place of the ramdisk.
      [Fit.v] ([common/image-fit.c]): FIT images, their hashes, configurations
      and loading.
    - [BootImages.v] ([common/image.c], [common/image-fdt.c]): the monad of a boot,
      whose state is [images], the environment and the memory and which may end
      without returning; the search for the ramdisk, the device tree and the
      loadable images.  [Bootm.v] ([common/bootm.c], [common/bootm_os.c],
      [cmd/bootm.c], [arch/arm/lib/bootm.c]): the states of [bootm], its
      subcommands and the jump into Linux.
    - [Hashtable.v] ([lib/hashtable.c]): the table of variables.  What the table
      calls back is the class [EnvHooks]; [EnvHooksOk] are its laws.
      [EnvText.v]: [hexport_r] and [himport_r] of the same file.
    - [EnvAttr.v] ([env/attr.c]), [EnvFlags.v] ([env/flags.c],
      [env/callback.c]): types, access policies and callbacks of variables.
      [env_hooks] is the instance of [EnvHooks] that the program uses, and
      [env_hooks_ok] discharges the laws.
    - [EnvStore.v] ([env/common.c], [env/sf.c]): the environment in SPI flash,
      with one or two copies.  The flash driver is the class [SpiFlash] with the
      laws [SpiFlashOk].  [EnvLoad.v] ([env/env.c]): the choice of a place.
      [EnvCmd.v] ([cmd/nvedit.c]): [env_get], [env_set] and the commands.
    - [CliReadline.v] ([common/cli_readline.c]): the line editor with its history,
      and the one before relocation.  [Command.v] ([common/command.c]): the table
      of commands, running and completing them.  The editor takes completion as an
      argument with the law [CompletionFits]; [cmd_auto_complete_fits] discharges
      it.  [EnvEdit.v]: [editenv] and [askenv], which use the editor.
    - [WgMenu.v] ([common/wgmenu.c]): the boot menu and what it draws.
    - [Autoboot.v] ([common/autoboot.c], [common/main.c], [common/cli.c]): the
      countdown, the password and the main loop.  [AutobootKeyed.v]: the
      configuration in which a typed string, or one with a given SHA-256, stops
      the countdown.

    ** How the code is translated

    A [w]-bit integer is a [Z] with explicit wraps; a C array is a list, and a C
    string the list of its bytes without the NUL.  A function that can read or
    write out of bounds, or through NULL, returns [None] in that case, so a
    theorem with the result [Some _] also says that the code stays within its
    memory.  Loops are fixpoints on their data, or on fuel where the loop is not
    structural: the fuel is computed from the sizes of the arguments by the
    function itself, and the theorems prove that it is enough.  Static variables
    and [gd] are records that the functions take and return.  The console and the
    clock are scripts of the results of their calls.  Where code keeps a pointer
    while the object may be freed (the boot command in [Autoboot.v]), the model
    has a heap.

    ** What the theorems show

    - The table is a map: every sequence of operations gives the results of the
      same operations on a map ([hashtable_refines_map]), also with the real
      permission checks and the callbacks that change the table while it is being
      changed ([environment_refines_map]); read-only and write-once variables
      stay ([protected_variable_kept]).  Export and import are inverse
      ([export_import_roundtrip]), a save followed by a load gives the same
      variables ([env_save_load]), a damaged environment is noticed
      ([damaged_environment_rejected]), and with two copies no failure or loss of
      power loses both the old and the new variables ([redundant_save_atomic]).
    - The console needs the password ([console_needs_password]) and the password
      opens it ([password_opens_console]); what is selected is booted
      ([menu_boots_selection]), the screen shows what is selected
      ([wgmenu_screen_tracks_selection]).
    - The line editor is a text with a cursor ([command_line_editor],
      [simple_readline_correct]) whose history gives back what was typed
      ([history_recall]); commands are found and completed by name
      ([find_cmd_correct], [completion_correct]), and [editenv] sets what was edited
      ([editenv_appends]).
    - The library functions compute what they should: the optimised ones agree
      with plain definitions ([crc32_correct], [sha1_streaming_correct],
      [sha256_streaming_correct], [memmove_correct], [number_prints]), what is printed
      is read back ([sprintf_strtoul_roundtrip]) and cut to the size of the buffer
      ([vsnprintf_truncates]), the buffers and tables refine queues and sets of
      addresses ([membuff_refines_queue], [lmb_reachable_ok] and others).
    - The exponentiation by Montgomery's method is the power modulo the modulus
      ([pow_mod_correct]), and a configuration of a FIT image is accepted if and
      only if it has the signatures that the keys marked as required ask for
      ([config_verify_correct]); that any key will do in place of a required one
      is [required_key_ignored].
    - A legacy kernel is accepted if and only if its checksums and its processor are
      right ([legacy_kernel_checked]); what is loaded from a FIT image has the
      hashes and signatures it was checked for ([fit_load_verified],
      [fit_image_verified]).  Linux is entered only at the entry point of a kernel
      that passed these checks ([linux_started_checked]); the kernel and the
      ramdisk do not overlap ([kernel_and_ramdisk_placed], [ramdisk_relocated]),
      and the subcommands of [bootm] run in order ([subcommands_in_order]).
    - Where the code does not do what it should, a theorem or an example shows it
      on a concrete input, for instance [autoboot_runs_freed_command],
      [hsearch_overwrites_live_entry], [env_sf_save_nomem_success],
      [editenv_overrun], [modifier_overrun], [no_hash_accepted],
      [fdt_error_ignored], [printf_error_unnoticed].

    ** What is not modelled

    The command interpreter ([common/cli_hush.c]), the regular expressions
    ([lib/slre.c]), the device tree library and the SPI flash driver are
    parameters or classes, since the modelled code only calls them; so are the
    decompressors, the functions that start systems other than Linux, and the
    changes of the device tree for Linux ([image_setup_libfdt]).  Overlays,
    Android images and the functions that only print an image, or write one in a
    host tool, are left out.  Drivers, board and processor setup are sequences of
    register accesses.  File systems and the network stack are not on this path.
    Console output other than the menu, and printed warnings, have no effect on
    the state and are left out. *)

From stdpp Require Export prelude list gmap strings.
From Stdlib Require Export ZArith Lia.

(** ** Machine integers

    A C integer of width [w] is a [Z] kept in range by an explicit wrap.  The
    target is AArch64 (LP64): [int] and [unsigned int] have 32 bits, [long],
    [size_t], [phys_addr_t] and pointers have 64, and plain [char] is
    unsigned. *)

Local Open Scope Z_scope.

Definition wrap (w z : Z) : Z := z mod 2 ^ w.
Definition swrap (w z : Z) : Z := (z + 2 ^ (w - 1)) mod 2 ^ w - 2 ^ (w - 1).
Abbreviation u8 := (wrap 8).
Abbreviation u16 := (wrap 16).
Abbreviation u32 := (wrap 32).
Abbreviation u64 := (wrap 64).
Abbreviation s32 := (swrap 32).
Abbreviation s64 := (swrap 64).

(** ** Arrays

    A C array is a list.  An access outside of it is undefined behaviour and
    is the [None] of the option monad, so a result [Some _] says that no
    access went out of bounds. *)

Definition aget {A} (l : list A) (i : Z) : option A :=
  if 0 <=? i then l !! Z.to_nat i else None.

Definition aset {A} (l : list A) (i : Z) (x : A) : option (list A) :=
  if (0 <=? i) && (i <? Z.of_nat (length l))
  then Some (<[Z.to_nat i := x]> l) else None.

(** ** String literals

    A C string is the list of its bytes, without the terminating NUL. *)

Definition str (s : string) : list Z :=
  (fun a => Z.of_N (Ascii.N_of_ascii a)) <$> String.list_ascii_of_string s.

(** The string in a buffer: the bytes in front of the first NUL. *)
Fixpoint cstr (b : list Z) : list Z :=
  match b with c :: b => if c =? 0 then [] else c :: cstr b | [] => [] end.

(** ** Error numbers ([include/linux/errno.h]) *)

Definition EPERM : Z := 1.
Definition ENOENT : Z := 2.
Definition ESRCH : Z := 3.
Definition EIO : Z := 5.
Definition E2BIG : Z := 7.
Definition EBADF : Z := 9.
Definition ENOMEM : Z := 12.
Definition EACCES : Z := 13.
Definition EFAULT : Z := 14.
Definition EINVAL : Z := 22.
Definition ENOSPC : Z := 28.
Definition EPROTONOSUPPORT : Z := 93.

(** ** Tactics *)

(** Turns boolean comparisons in the context and the goal into propositions. *)
Ltac bool_to_prop :=
  repeat match goal with
  | H : _ && _ = true |- _ => apply andb_true_iff in H as [? ?]
  | H : _ || _ = false |- _ => apply orb_false_iff in H as [? ?]
  | H : _ && _ = false |- _ => apply andb_false_iff in H
  | H : _ || _ = true |- _ => apply orb_true_iff in H
  | H : negb _ = true |- _ => apply negb_true_iff in H
  | H : negb _ = false |- _ => apply negb_false_iff in H
  | H : (_ =? _) = true |- _ => apply Z.eqb_eq in H
  | H : (_ =? _) = false |- _ => apply Z.eqb_neq in H
  | H : (_ <? _) = true |- _ => apply Z.ltb_lt in H
  | H : (_ <? _) = false |- _ => apply Z.ltb_ge in H
  | H : (_ <=? _) = true |- _ => apply Z.leb_le in H
  | H : (_ <=? _) = false |- _ => apply Z.leb_gt in H
  end.

(** Case analysis on the condition of the first [if] of the goal. *)
Ltac case_if :=
  match goal with
  | |- context [if ?b then _ else _] =>
      let E := fresh "E" in destruct b eqn:E; bool_to_prop
  end.

Create HintDb uboot discriminated.

(** ** Lemmas on machine integers *)

Lemma wrap_range w z : 0 <= w -> 0 <= wrap w z < 2 ^ w.
Proof. intros. apply Z.mod_pos_bound. by apply Z.pow_pos_nonneg. Qed.

Lemma wrap_small w z : 0 <= z < 2 ^ w -> wrap w z = z.
Proof. apply Z.mod_small. Qed.

Lemma swrap_small w z :
  0 < w -> - 2 ^ (w - 1) <= z < 2 ^ (w - 1) -> swrap w z = z.
Proof.
  intros Hw Hz. unfold swrap.
  assert (2 ^ w = 2 * 2 ^ (w - 1)) as E.
  { rewrite <- Z.pow_succ_r by lia. f_equal. lia. }
  rewrite Z.mod_small; lia.
Qed.

(** Removes the wraps whose argument is provably in range. *)
Ltac unwrap :=
  repeat match goal with
  | |- context [wrap ?w ?z] => rewrite (wrap_small w z) by lia
  | H : context [wrap ?w ?z] |- _ => rewrite (wrap_small w z) in H by lia
  | |- context [swrap ?w ?z] => rewrite (swrap_small w z) by lia
  | H : context [swrap ?w ?z] |- _ => rewrite (swrap_small w z) in H by lia
  end.

(** ** Lemmas on arrays *)

Lemma aget_lookup {A} (l : list A) (i : nat) : aget l (Z.of_nat i) = l !! i.
Proof. unfold aget. case_if; [by rewrite Nat2Z.id|lia]. Qed.

Lemma aget_Some {A} (l : list A) i x :
  aget l i = Some x -> 0 <= i < Z.of_nat (length l) /\ l !! Z.to_nat i = Some x.
Proof.
  unfold aget. case_if; [|done]. intros H.
  split; [|done]. apply lookup_lt_Some in H. lia.
Qed.

Lemma aget_is_Some {A} (l : list A) i :
  0 <= i < Z.of_nat (length l) -> is_Some (aget l i).
Proof.
  intros. unfold aget. case_if; [|lia]. apply lookup_lt_is_Some. lia.
Qed.

Lemma aset_in {A} (l : list A) i x :
  0 <= i < Z.of_nat (length l) -> aset l i x = Some (<[Z.to_nat i := x]> l).
Proof. intros. unfold aset. case_if; [done|lia]. Qed.

Lemma aset_nat {A} (l : list A) (i : nat) x :
  (i < length l)%nat -> aset l (Z.of_nat i) x = Some (<[i := x]> l).
Proof. intros. rewrite aset_in by lia. by rewrite Nat2Z.id. Qed.

Lemma aset_length {A} (l l' : list A) i x :
  aset l i x = Some l' -> length l' = length l.
Proof. unfold aset. case_if; [|done]. intros [= <-]. apply length_insert. Qed.

(** Reading and writing the element at the border of two lists. *)
Lemma aget_middle {A} (l1 l2 : list A) x i :
  i = Z.of_nat (length l1) -> aget (l1 ++ x :: l2) i = Some x.
Proof. intros ->. rewrite aget_lookup. by apply list_lookup_middle. Qed.

Lemma aset_middle {A} (l1 l2 : list A) x y i :
  i = Z.of_nat (length l1) ->
  aset (l1 ++ x :: l2) i y = Some (l1 ++ y :: l2).
Proof.
  intros ->. rewrite aset_nat by (rewrite length_app; simpl; lia).
  f_equal. rewrite insert_app_r_alt by lia. by rewrite Nat.sub_diag.
Qed.

Lemma aget_middle2 {A} (l1 l2 : list A) x y i :
  i = Z.of_nat (length l1) + 1 -> aget (l1 ++ x :: y :: l2) i = Some y.
Proof.
  intros ->. change (x :: y :: l2) with ([x] ++ y :: l2). rewrite app_assoc.
  apply aget_middle. rewrite length_app. simpl. lia.
Qed.

Lemma aset_middle2 {A} (l1 l2 : list A) x y z i :
  i = Z.of_nat (length l1) + 1 ->
  aset (l1 ++ x :: y :: l2) i z = Some (l1 ++ x :: z :: l2).
Proof.
  intros ->. change (x :: y :: l2) with ([x] ++ y :: l2).
  rewrite app_assoc, aset_middle by (rewrite length_app; simpl; lia).
  by rewrite <- app_assoc.
Qed.

Lemma length_snoc_Z {A} (l : list A) x :
  Z.of_nat (length (l ++ [x])) = Z.of_nat (length l) + 1.
Proof. rewrite length_app. simpl. lia. Qed.

(** Solves arithmetic goals about the lengths of concatenated lists. *)
Ltac len :=
  simpl in *; repeat (rewrite length_app in *; simpl in *); lia.

(** A number below [2 ^ k] fills the low bits of a multiple of [2 ^ k]. *)
Lemma lor_add a b k : 0 <= k -> 0 <= b < 2 ^ k -> Z.lor (a * 2 ^ k) b = a * 2 ^ k + b.
Proof.
  intros Hk Hb. pose proof (Z.add_lor_land (a * 2 ^ k) b) as H.
  replace (Z.land (a * 2 ^ k) b) with 0 in H; [lia|].
  apply Z.bits_inj'. intros n Hn. rewrite Z.bits_0, Z.land_spec, <- Z.shiftl_mul_pow2 by lia.
  destruct (decide (n < k)).
  - by rewrite Z.shiftl_spec_low by lia.
  - rewrite <- (Z.mod_small b (2 ^ k)) by lia. rewrite Z.mod_pow2_bits_high by lia.
    by rewrite andb_false_r.
Qed.

(** Masking with [~(2^k - 1)] in [w] bits clears the low [k] bits. *)
Lemma land_mask w a k :
  0 <= a < 2 ^ w -> 0 <= k < w ->
  Z.land a (wrap w (Z.lnot (2 ^ k - 1))) = 2 ^ k * (a / 2 ^ k).
Proof.
  intros Ha Hk. replace (2 ^ k - 1) with (Z.ones k) by (rewrite Z.ones_equiv; lia).
  rewrite Z.mul_comm, <- Z.shiftr_div_pow2, <- Z.shiftl_mul_pow2 by lia.
  rewrite <- Z.ldiff_ones_r by lia. apply Z.bits_inj'. intros n Hn.
  rewrite Z.land_spec, Z.ldiff_spec. unfold wrap.
  destruct (decide (n < w)).
  - by rewrite Z.mod_pow2_bits_low, Z.lnot_spec by lia.
  - rewrite Z.mod_pow2_bits_high by lia. rewrite andb_false_r.
    destruct (decide (a = 0)) as [->|]; [by rewrite Z.bits_0|].
    rewrite (Z.bits_above_log2 a n); [done|lia|].
    apply Z.lt_le_trans with w; [apply Z.log2_lt_pow2; lia|lia].
Qed.

Lemma land_mask_pow2 a k :
  0 <= a < 2 ^ 64 -> 0 <= k < 64 ->
  Z.land a (u64 (Z.lnot (2 ^ k - 1))) = 2 ^ k * (a / 2 ^ k).
Proof. apply land_mask. Qed.

(** A boolean property of all bytes is decided by evaluation. *)
Lemma byte_enum (P : Z -> bool) :
  forallb P (seqZ 0 256) = true -> forall c, 0 <= c < 256 -> P c = true.
Proof.
  intros H c Hc. rewrite forallb_forall in H. apply H.
  apply list_elem_of_In, elem_of_seqZ. lia.
Qed.

Lemma mbind_Some {A B} (f : A -> option B) x : (Some x ≫= f) = f x.
Proof. done. Qed.

(** Steps over a bind of a known result without reducing anything else. *)
Ltac step_bind := rewrite mbind_Some; cbv beta iota.
