(* ===== verification/Lmb.v ===== *)
(** * Logical memory blocks ([lib/lmb.c], [include/lmb.h])

    U-Boot keeps the banks of RAM and the reserved ranges of a boot in two
    tables of at most [MAX_LMB_REGIONS] ranges each, sorted by address and
    coalesced.  The tables are C arrays of [MAX_LMB_REGIONS + 1] elements, so
    every access is an [aget] or an [aset], and every operation is a partial
    function whose [None] is an access outside of the array (or, for the
    loops, more iterations than the array has elements, which cannot happen
    without such an access). *)

From Stdlib Require Import Sorted.
From S2P Require Import Prelude.
Local Open Scope Z_scope.

(** ** Data *)

Definition MAX_LMB_REGIONS : Z := 8.
Definition LMB_ALLOC_ANYWHERE : Z := 0.

Record lmb_property := mk_property { lp_base : Z; lp_size : Z }.

Record lmb_region := mk_region {
  cnt : Z;
  rsize : Z;
  region : list lmb_property
}.

Record lmb := mk_lmb { memory : lmb_region; reserved : lmb_region }.

Definition set_cnt (n : Z) (rgn : lmb_region) : lmb_region :=
  mk_region n (rsize rgn) (region rgn).

(** [rgn->region[i] = p] *)
Definition set_region (rgn : lmb_region) (i : Z) (p : lmb_property) : option lmb_region :=
  l ← aset (region rgn) i p;
  Some (mk_region (cnt rgn) (rsize rgn) l).

(** Every loop over a region table stops, or reads out of bounds, before it
    has made this many iterations. *)
Definition loop_fuel : nat := 10.

(** ** Operations *)

Definition lmb_addrs_overlap (base1 size1 base2 size2 : Z) : bool :=
  (base1 <? u64 (base2 + size2)) && (base2 <? u64 (base1 + size1)).

Definition lmb_addrs_adjacent (base1 size1 base2 size2 : Z) : Z :=
  if base2 =? u64 (base1 + size1) then 1
  else if base1 =? u64 (base2 + size2) then -1
  else 0.

Definition lmb_regions_adjacent (rgn : lmb_region) (r1 r2 : Z) : option Z :=
  p1 ← aget (region rgn) r1;
  p2 ← aget (region rgn) r2;
  Some (lmb_addrs_adjacent (lp_base p1) (lp_size p1) (lp_base p2) (lp_size p2)).

(** The [for (i = r; i < rgn->cnt - 1; i++)] loop of [lmb_remove_region]. *)
Fixpoint remove_loop (fuel : nat) (rgn : lmb_region) (i : Z) : option lmb_region :=
  match fuel with
  | O => None
  | S fuel =>
      if i <? u64 (cnt rgn - 1) then
        p ← aget (region rgn) (i + 1);
        rgn' ← set_region rgn i p;
        remove_loop fuel rgn' (i + 1)
      else Some rgn
  end.

Definition lmb_remove_region (rgn : lmb_region) (r : Z) : option lmb_region :=
  rgn' ← remove_loop loop_fuel rgn r;
  Some (set_cnt (u64 (cnt rgn' - 1)) rgn').

Definition lmb_coalesce_regions (rgn : lmb_region) (r1 r2 : Z) : option lmb_region :=
  p1 ← aget (region rgn) r1;
  p2 ← aget (region rgn) r2;
  rgn' ← set_region rgn r1 (mk_property (lp_base p1) (u64 (lp_size p1 + lp_size p2)));
  lmb_remove_region rgn' r2.

(** [lmb_init] writes the first element and the counters of both tables; the
    other elements keep what the memory of the structure held. *)
Definition lmb_init (l : lmb) : option lmb :=
  m ← aset (region (memory l)) 0 (mk_property 0 0);
  r ← aset (region (reserved l)) 0 (mk_property 0 0);
  Some (mk_lmb (mk_region 1 0 m) (mk_region 1 0 r)).

(** How the first loop of [lmb_add_region] ends: with [return 0], or at the
    index [i] after [coalesced] coalescings. *)
Inductive scan_result :=
  | scan_return
  | scan_at (i : Z) (coalesced : Z) (rgn : lmb_region).

(** The loop that tries to coalesce the new block with an existing one. *)
Fixpoint scan_loop (fuel : nat) (rgn : lmb_region) (base size i : Z) : option scan_result :=
  match fuel with
  | O => None
  | S fuel =>
      if i <? cnt rgn then
        p ← aget (region rgn) i;
        let rgnbase := lp_base p in
        let rgnsize := lp_size p in
        if (rgnbase =? base) && (rgnsize =? size) then Some scan_return
        else
          let adjacent := lmb_addrs_adjacent base size rgnbase rgnsize in
          if 0 <? adjacent then
            rgn' ← set_region rgn i (mk_property (u64 (rgnbase - size)) (u64 (rgnsize + size)));
            Some (scan_at i 1 rgn')
          else if adjacent <? 0 then
            rgn' ← set_region rgn i (mk_property rgnbase (u64 (rgnsize + size)));
            Some (scan_at i 1 rgn')
          else scan_loop fuel rgn base size (i + 1)
      else Some (scan_at i 0 rgn)
  end.

(** The loop that moves the larger elements up and writes the new block. *)
Fixpoint insert_loop (fuel : nat) (rgn : lmb_region) (base size i : Z) : option lmb_region :=
  match fuel with
  | O => None
  | S fuel =>
      if 0 <=? i then
        p ← aget (region rgn) i;
        if base <? lp_base p then
          rgn' ← set_region rgn (i + 1) p;
          insert_loop fuel rgn' base size (i - 1)
        else set_region rgn (i + 1) (mk_property base size)
      else Some rgn
  end.

Definition lmb_add_region (rgn : lmb_region) (base size : Z) : option (Z * lmb_region) :=
  p0 ← aget (region rgn) 0;
  if (cnt rgn =? 1) && (lp_size p0 =? 0) then
    rgn' ← set_region rgn 0 (mk_property base size);
    Some (0, rgn')
  else
    sc ← scan_loop loop_fuel rgn base size 0;
    match sc with
    | scan_return => Some (0, rgn)
    | scan_at i coalesced rgn =>
        st ← (if i <? u64 (cnt rgn - 1) then
                adj ← lmb_regions_adjacent rgn i (i + 1);
                if negb (adj =? 0) then
                  rgn' ← lmb_coalesce_regions rgn i (i + 1);
                  Some (coalesced + 1, rgn')
                else Some (coalesced, rgn)
              else Some (coalesced, rgn));
        let '(coalesced, rgn) := st in
        if negb (coalesced =? 0) then Some (coalesced, rgn)
        else if MAX_LMB_REGIONS <=? cnt rgn then Some (-1, rgn)
        else
          rgn1 ← insert_loop loop_fuel rgn base size (s64 (cnt rgn - 1));
          p0 ← aget (region rgn1) 0;
          rgn2 ← (if base <? lp_base p0
                  then set_region rgn1 0 (mk_property base size)
                  else Some rgn1);
          Some (0, set_cnt (u64 (cnt rgn2 + 1)) rgn2)
    end.

Definition lmb_add (l : lmb) (base size : Z) : option (Z * lmb) :=
  '(ret, rgn) ← lmb_add_region (memory l) base size;
  Some (ret, mk_lmb rgn (reserved l)).

Definition lmb_reserve (l : lmb) (base size : Z) : option (Z * lmb) :=
  '(ret, rgn) ← lmb_add_region (reserved l) base size;
  Some (ret, mk_lmb (memory l) rgn).

(** The search loop of [lmb_free]: [Some (Some (i, rgnbegin, rgnend))] when it
    breaks at [i], [Some None] when it runs to [rgn->cnt]. *)
Fixpoint free_search (fuel : nat) (rgn : lmb_region) (base e i : Z)
    : option (option (Z * Z * Z)) :=
  match fuel with
  | O => None
  | S fuel =>
      if i <? cnt rgn then
        p ← aget (region rgn) i;
        let rgnbegin := lp_base p in
        let rgnend := u64 (rgnbegin + lp_size p) in
        if (rgnbegin <=? base) && (e <=? rgnend) then Some (Some (i, rgnbegin, rgnend))
        else free_search fuel rgn base e (i + 1)
      else Some None
  end.

Definition lmb_free_region (rgn : lmb_region) (base size : Z) : option (Z * lmb_region) :=
  let e := u64 (base + size) in
  found ← free_search loop_fuel rgn base e 0;
  match found with
  | None => Some (-1, rgn)
  | Some (i, rgnbegin, rgnend) =>
      p ← aget (region rgn) i;
      if (rgnbegin =? base) && (rgnend =? e) then
        rgn' ← lmb_remove_region rgn i;
        Some (0, rgn')
      else if rgnbegin =? base then
        rgn' ← set_region rgn i (mk_property e (u64 (lp_size p - size)));
        Some (0, rgn')
      else if rgnend =? e then
        rgn' ← set_region rgn i (mk_property (lp_base p) (u64 (lp_size p - size)));
        Some (0, rgn')
      else
        rgn' ← set_region rgn i (mk_property (lp_base p) (u64 (base - lp_base p)));
        lmb_add_region rgn' e (u64 (rgnend - e))
  end.

Definition lmb_free (l : lmb) (base size : Z) : option (Z * lmb) :=
  '(ret, rgn) ← lmb_free_region (reserved l) base size;
  Some (ret, mk_lmb (memory l) rgn).

Fixpoint overlaps_loop (fuel : nat) (rgn : lmb_region) (base size i : Z) : option Z :=
  match fuel with
  | O => None
  | S fuel =>
      if i <? cnt rgn then
        p ← aget (region rgn) i;
        if lmb_addrs_overlap base size (lp_base p) (lp_size p) then Some i
        else overlaps_loop fuel rgn base size (i + 1)
      else Some i
  end.

Definition lmb_overlaps_region (rgn : lmb_region) (base size : Z) : option Z :=
  i ← overlaps_loop loop_fuel rgn base size 0;
  Some (if i <? cnt rgn then i else -1).

Definition lmb_align_down (addr size : Z) : Z := Z.land addr (u64 (Z.lnot (size - 1))).

Definition lmb_align_up (addr size : Z) : Z :=
  Z.land (u64 (addr + (size - 1))) (u64 (Z.lnot (size - 1))).

(** How the [while (base && lmbbase <= base)] loop of [__lmb_alloc_base] ends:
    with [return ret] and the updated reservations, or with the loop left. *)
Inductive probe_result :=
  | probe_return (ret : Z) (res : lmb_region)
  | probe_next.

Fixpoint probe_loop (fuel : nat) (res : lmb_region) (size align lmbbase base : Z)
    : option probe_result :=
  match fuel with
  | O => None
  | S fuel =>
      if negb (base =? 0) && (lmbbase <=? base) then
        j ← lmb_overlaps_region res base size;
        if j <? 0 then
          '(ret, res') ← lmb_add_region res base (lmb_align_up size align);
          Some (probe_return (if ret <? 0 then 0 else base) res')
        else
          p ← aget (region res) j;
          let res_base := lp_base p in
          if res_base <? size then Some probe_next
          else probe_loop fuel res size align lmbbase (lmb_align_down (u64 (res_base - size)) align)
      else Some probe_next
  end.

(** The first candidate in a bank; [None] is the [continue]. *)
Definition alloc_start (p : lmb_property) (size align max_addr : Z) : option Z :=
  let lmbbase := lp_base p in
  let lmbsize := lp_size p in
  if lmbsize <? size then None
  else if max_addr =? LMB_ALLOC_ANYWHERE then
    Some (lmb_align_down (u64 (lmbbase + lmbsize - size)) align)
  else if lmbbase <? max_addr then
    let base := u64 (lmbbase + lmbsize) in
    let base := if base <? lmbbase then u64 (-1) else base in
    let base := Z.min base max_addr in
    Some (lmb_align_down (u64 (base - size)) align)
  else None.

(** The [for (i = lmb->memory.cnt - 1; i >= 0; i--)] loop. *)
Fixpoint alloc_loop (fuel : nat) (l : lmb) (size align max_addr i : Z) : option (Z * lmb) :=
  match fuel with
  | O => None
  | S fuel =>
      if 0 <=? i then
        p ← aget (region (memory l)) i;
        match alloc_start p size align max_addr with
        | None => alloc_loop fuel l size align max_addr (i - 1)
        | Some base =>
            pr ← probe_loop loop_fuel (reserved l) size align (lp_base p) base;
            match pr with
            | probe_return ret res => Some (ret, mk_lmb (memory l) res)
            | probe_next => alloc_loop fuel l size align max_addr (i - 1)
            end
        end
      else Some (0, l)
  end.

Definition __lmb_alloc_base (l : lmb) (size align max_addr : Z) : option (Z * lmb) :=
  alloc_loop loop_fuel l size align max_addr (s64 (cnt (memory l) - 1)).

(** [lmb_alloc_base] only adds the error message. *)
Definition lmb_alloc_base (l : lmb) (size align max_addr : Z) : option (Z * lmb) :=
  __lmb_alloc_base l size align max_addr.

Definition lmb_alloc (l : lmb) (size align : Z) : option (Z * lmb) :=
  lmb_alloc_base l size align LMB_ALLOC_ANYWHERE.

Fixpoint is_reserved_loop (fuel : nat) (rgn : lmb_region) (addr i : Z) : option bool :=
  match fuel with
  | O => None
  | S fuel =>
      if i <? cnt rgn then
        p ← aget (region rgn) i;
        let upper := u64 (lp_base p + lp_size p - 1) in
        if (lp_base p <=? addr) && (addr <=? upper) then Some true
        else is_reserved_loop fuel rgn addr (i + 1)
      else Some false
  end.

Definition lmb_is_reserved (l : lmb) (addr : Z) : option bool :=
  is_reserved_loop loop_fuel (reserved l) addr 0.

(** ** Specification

    A table stands for a list of blocks: sorted by address, with a gap between
    any two (adjacent ones are coalesced), none empty and none that reaches
    the end of the address space.  [blocks rgn l] relates the C table to that
    list; the empty list is the dummy block that [lmb_init] writes. *)

Definition lp_end (p : lmb_property) : Z := lp_base p + lp_size p.
Definition in_block (p : lmb_property) (a : Z) : Prop := lp_base p <= a < lp_end p.
Definition covered (l : list lmb_property) (a : Z) : Prop := Exists (fun p => in_block p a) l.

Definition block_ok (p : lmb_property) : Prop :=
  0 <= lp_base p /\ 0 < lp_size p /\ lp_end p < 2 ^ 64.
Definition below (p q : lmb_property) : Prop := lp_end p < lp_base q.
Definition sorted_blocks (l : list lmb_property) : Prop :=
  Forall block_ok l /\ StronglySorted below l.
Definition disjoint_blocks (p q : lmb_property) : Prop :=
  lp_end p <= lp_base q \/ lp_end q <= lp_base p.
Definition touching (p q : lmb_property) : Prop :=
  lp_end p = lp_base q \/ lp_end q = lp_base p.

Definition holds (rgn : lmb_region) (l : list lmb_property) : Prop :=
  exists junk, region rgn = l ++ junk /\ cnt rgn = Z.of_nat (length l) /\
    length (l ++ junk) = 9%nat.

Definition dummy (rgn : lmb_region) : Prop :=
  cnt rgn = 1 /\ length (region rgn) = 9%nat /\ head (region rgn) = Some (mk_property 0 0).

Inductive blocks (rgn : lmb_region) : list lmb_property -> Prop :=
  | blocks_dummy : dummy rgn -> blocks rgn []
  | blocks_cons p l :
      holds rgn (p :: l) -> (length l < 8)%nat -> sorted_blocks (p :: l) -> blocks rgn (p :: l).

(** A table that the operations can index safely, whatever it holds. *)
Definition table_ok (rgn : lmb_region) : Prop :=
  length (region rgn) = 9%nat /\ 1 <= cnt rgn <= 8.

(** ** Lemmas on blocks *)

Lemma adjacent_spec n p :
  block_ok n -> block_ok p ->
  (lp_end n = lp_base p /\
     lmb_addrs_adjacent (lp_base n) (lp_size n) (lp_base p) (lp_size p) = 1) \/
  (lp_end p = lp_base n /\
     lmb_addrs_adjacent (lp_base n) (lp_size n) (lp_base p) (lp_size p) = -1) \/
  (~ touching n p /\
     lmb_addrs_adjacent (lp_base n) (lp_size n) (lp_base p) (lp_size p) = 0).
Proof.
  unfold block_ok, touching, lp_end, lmb_addrs_adjacent. intros Hn Hp. unwrap.
  repeat case_if; lia.
Qed.

Lemma overlap_spec b s p :
  0 <= b -> 0 < s -> b + s < 2 ^ 64 -> 0 <= lp_base p -> 0 <= lp_size p -> lp_end p < 2 ^ 64 ->
  lmb_addrs_overlap b s (lp_base p) (lp_size p) = true <->
  ~ disjoint_blocks (mk_property b s) p.
Proof.
  unfold lp_end, lmb_addrs_overlap, disjoint_blocks, lp_end. intros. unwrap. simpl.
  rewrite andb_true_iff, !Z.ltb_lt. lia.
Qed.

Lemma sorted_blocks_app l1 l2 :
  sorted_blocks (l1 ++ l2) <->
  sorted_blocks l1 /\ sorted_blocks l2 /\ Forall (fun p => Forall (below p) l2) l1.
Proof.
  unfold sorted_blocks. rewrite Forall_app. induction l1 as [|p l1 IH]; simpl.
  - split; [intros [[??]?]|intros [[??] [[??] ?]]]; split_and!; auto using SSorted_nil.
  - rewrite !Forall_cons. split.
    + intros [[[? Ho] Ho2] Hs]. inversion Hs as [|? ? Hs' Hp]; subst.
      apply Forall_app in Hp as [? ?].
      apply proj1 in IH. specialize (IH (conj (conj Ho Ho2) Hs')).
      destruct IH as ([??] & [??] & ?). split_and!; auto using SSorted_cons.
    + intros ([[? Ho] Hs] & [Ho2 Hs2] & Hp & Hl1). inversion Hs; subst.
      apply proj2 in IH. destruct IH as ([??] & ?); [naive_solver|].
      split_and!; auto. apply SSorted_cons; [done|]. by apply Forall_app.
Qed.

Lemma sorted_blocks_cons p l :
  sorted_blocks (p :: l) <-> block_ok p /\ Forall (below p) l /\ sorted_blocks l.
Proof.
  rewrite (sorted_blocks_app [p] l). unfold sorted_blocks at 1.
  rewrite !Forall_singleton. split; [naive_solver|].
  intros (?&?&?). split_and!; auto using SSorted_cons, SSorted_nil.
Qed.

Lemma sorted_blocks_middle l1 p l2 :
  sorted_blocks (l1 ++ p :: l2) <->
  block_ok p /\ sorted_blocks (l1 ++ l2) /\
  Forall (fun q => below q p) l1 /\ Forall (below p) l2.
Proof.
  rewrite !sorted_blocks_app, sorted_blocks_cons.
  enough (Forall (fun q => Forall (below q) (p :: l2)) l1 <->
          Forall (fun q => below q p) l1 /\ Forall (fun q => Forall (below q) l2) l1)
    by naive_solver.
  rewrite <- Forall_and. apply Forall_iff. intros q. by rewrite Forall_cons.
Qed.

Lemma covered_app l1 l2 a : covered (l1 ++ l2) a <-> covered l1 a \/ covered l2 a.
Proof. apply Exists_app. Qed.

Lemma covered_cons p l a : covered (p :: l) a <-> in_block p a \/ covered l a.
Proof. apply Exists_cons. Qed.

(** ** Lemmas on the array loops *)

Lemma set_region_middle n sz l1 x l2 y i :
  i = Z.of_nat (length l1) ->
  set_region (mk_region n sz (l1 ++ x :: l2)) i y = Some (mk_region n sz (l1 ++ y :: l2)).
Proof. intros. unfold set_region. simpl. by rewrite aset_middle. Qed.

(** Removing the block at the end of [l1] moves the blocks of [l2] down. *)
Lemma remove_loop_spec l2 : forall fuel n sz l1 p junk,
  (length l2 < fuel)%nat -> n = Z.of_nat (length (l1 ++ p :: l2)) -> n < 2 ^ 64 ->
  exists q, remove_loop fuel (mk_region n sz (l1 ++ p :: l2 ++ junk)) (Z.of_nat (length l1)) =
    Some (mk_region n sz (l1 ++ l2 ++ q :: junk)).
Proof.
  induction l2 as [|x l2 IH]; intros [|fuel] n sz l1 p junk Hf Hn Hb; simpl in *;
    rewrite length_app in Hn; simpl in Hn; try lia; unwrap; case_if; try lia.
  - by exists p.
  - rewrite aget_middle2 by done. simpl. rewrite set_region_middle by done. simpl.
    destruct (IH fuel n sz (l1 ++ [x]) x junk) as [q Hq];
      [lia|rewrite !length_app; simpl; lia|done|].
    exists q. rewrite length_snoc_Z, <- !app_assoc in Hq. done.
Qed.

Lemma lmb_remove_region_spec rgn l1 p l2 :
  holds rgn (l1 ++ p :: l2) ->
  exists rgn', lmb_remove_region rgn (Z.of_nat (length l1)) = Some rgn' /\ holds rgn' (l1 ++ l2).
Proof.
  destruct rgn as [n sz reg]. intros (junk & Hr & Hc & Hl). simpl in *. subst reg.
  rewrite <- app_assoc in Hl |- *. simpl in *. rewrite !length_app in Hl. simpl in Hl.
  rewrite length_app in Hl. unfold lmb_remove_region.
  destruct (remove_loop_spec l2 loop_fuel n sz l1 p junk) as [q ->];
    [unfold loop_fuel; lia|done|rewrite length_app in Hc; simpl in Hc; lia|].
  eexists; split; [done|]. exists (q :: junk). unfold set_cnt. simpl.
  rewrite length_app in Hc. simpl in Hc. unwrap.
  rewrite <- app_assoc, !length_app. simpl. split_and!; [done|lia|lia].
Qed.

(** The block that replaces [p] when the adjacent block [new] joins it. *)
Definition merge (new p : lmb_property) : lmb_property :=
  mk_property (Z.min (lp_base new) (lp_base p)) (lp_size p + lp_size new).

Ltac unfold_blocks :=
  unfold touching, disjoint_blocks, below, in_block, block_ok, merge, lp_end in *;
  simpl lp_base in *; simpl lp_size in *.

(** Proves that a linear property holds of every block of a list from the
    properties that the context has of every block of that list. *)
Ltac solve_blocks :=
  apply Forall_forall; let x := fresh "x" in let Hx := fresh "Hx" in intros x Hx;
  repeat match goal with
  | H : Forall _ ?l |- _ =>
      match type of Hx with x ∈ l => rewrite Forall_forall in H; specialize (H x Hx) end
  end; unfold_blocks; lia.

Lemma scan_loop_spec l2 : forall fuel n sz l1 junk new,
  (length l2 < fuel)%nat -> n = Z.of_nat (length (l1 ++ l2)) ->
  block_ok new -> Forall block_ok l2 -> Forall (disjoint_blocks new) l2 ->
  (Forall (fun p => ~ touching new p) l2 /\
   scan_loop fuel (mk_region n sz (l1 ++ l2 ++ junk)) (lp_base new) (lp_size new)
     (Z.of_nat (length l1)) = Some (scan_at n 0 (mk_region n sz (l1 ++ l2 ++ junk)))) \/
  (exists la p lb, l2 = la ++ p :: lb /\ touching new p /\
   Forall (fun p => ~ touching new p) la /\
   scan_loop fuel (mk_region n sz (l1 ++ l2 ++ junk)) (lp_base new) (lp_size new)
     (Z.of_nat (length l1)) =
   Some (scan_at (Z.of_nat (length (l1 ++ la))) 1
           (mk_region n sz (l1 ++ la ++ merge new p :: lb ++ junk)))).
Proof.
  induction l2 as [|x l2 IH]; intros [|fuel] n sz l1 junk new Hf Hn Hok Hoks Hdis;
    rewrite length_app in Hn; simpl in *; try lia; case_if; try lia.
  - left. split; [done|]. by replace (Z.of_nat (length l1)) with n by lia.
  - apply Forall_cons in Hoks as [Hx Hoks], Hdis as [Hdx Hdis].
    rewrite aget_middle by done. simpl. case_if; [unfold_blocks; lia|].
    destruct (adjacent_spec new x) as [[Ht ->]|[[Ht ->]|[Ht ->]]]; [done|done|..].
    + right. exists [], x, l2. simpl. rewrite set_region_middle by done. simpl.
      rewrite app_nil_r. split_and!; [done|by left|done|].
      unfold_blocks. unwrap. by replace (Z.min _ _) with (lp_base x - lp_size new) by lia.
    + right. exists [], x, l2. simpl. rewrite set_region_middle by done. simpl.
      rewrite app_nil_r. split_and!; [done|by right|done|].
      unfold_blocks. unwrap. by replace (Z.min _ _) with (lp_base x) by lia.
    + simpl. destruct (IH fuel n sz (l1 ++ [x]) junk new) as [[Hn' H]|(la&p&lb&->&Hp&Hla&H)];
        try done; [lia|rewrite !length_app; simpl; lia|..];
        rewrite length_snoc_Z, <- !app_assoc in H; simpl in H;
        rewrite <- ?app_assoc; simpl; rewrite H.
      * left. split; [by constructor|done].
      * right. exists (x :: la), p, lb. split_and!; [done|done|by constructor|].
        done.
Qed.

(** Blocks of [l2] start above [new]: they move up by one place. *)
Lemma insert_loop_spec l2 : forall fuel n sz l1 y x junk new,
  (length l2 + 1 < fuel)%nat -> Forall (fun p => lp_base new < lp_base p) l2 ->
  lp_base y <= lp_base new ->
  insert_loop fuel (mk_region n sz (l1 ++ y :: l2 ++ x :: junk)) (lp_base new) (lp_size new)
    (Z.of_nat (length l1 + length l2)) = Some (mk_region n sz (l1 ++ y :: new :: l2 ++ junk)).
Proof.
  induction l2 as [|z l2 IH] using rev_ind;
    intros [|fuel] n sz l1 y x junk [nb ns] Hf Hl Hy; simpl in *; try lia; case_if; try lia.
  - rewrite aget_middle by lia. simpl. case_if; [lia|]. unfold set_region. simpl.
    by rewrite aset_middle2 by lia.
  - apply Forall_app in Hl as [Hl [Hz _]%Forall_cons].
    rewrite length_app in *. simpl in *. rewrite <- app_assoc. simpl.
    rewrite app_comm_cons, app_assoc, aget_middle by (rewrite length_app; simpl; lia).
    simpl. case_if; [|lia]. unfold set_region. simpl.
    rewrite aset_middle2 by (rewrite length_app; simpl; lia). simpl.
    rewrite <- app_assoc. simpl.
    replace (Z.of_nat (length l1 + (length l2 + 1)) - 1)
      with (Z.of_nat (length l1 + length l2)) by lia.
    pose proof (IH fuel n sz l1 y z (z :: junk) (mk_property nb ns)) as H. simpl in H.
    rewrite H by (done || lia). by rewrite <- app_assoc.
Qed.

(** When every block starts above [new], the first one is left in place. *)
Lemma insert_loop_front l2 : forall fuel n sz h x junk new,
  (length l2 + 2 < fuel)%nat -> Forall (fun p => lp_base new < lp_base p) (h :: l2) ->
  insert_loop fuel (mk_region n sz (h :: l2 ++ x :: junk)) (lp_base new) (lp_size new)
    (Z.of_nat (length l2)) = Some (mk_region n sz (h :: h :: l2 ++ junk)).
Proof.
  induction l2 as [|z l2 IH] using rev_ind;
    intros [|fuel] n sz h x junk [nb ns] Hf Hl; simpl in *; try lia.
  - apply Forall_cons in Hl as [Hh _]. case_if; [|simpl in *; lia]. unfold set_region. simpl.
    rewrite (aset_middle2 [] junk h x h) by done. simpl. destruct fuel; [lia|]. done.
  - case_if; [|lia]. rewrite length_app in *. simpl in *. rewrite <- app_assoc. simpl.
    rewrite app_comm_cons in Hl |- *. apply Forall_app in Hl as [Hl [Hz _]%Forall_cons].
    rewrite aget_middle by (simpl; lia). simpl. case_if; [|lia]. unfold set_region. simpl.
    rewrite app_comm_cons, aset_middle2 by (simpl; lia). simpl.
    replace (Z.of_nat (length l2 + 1) - 1) with (Z.of_nat (length l2)) by lia.
    pose proof (IH fuel n sz h z (z :: junk) (mk_property nb ns)) as H. simpl in H.
    rewrite H by (done || lia). by rewrite <- app_assoc.
Qed.

#[local] Arguments remove_loop : simpl never.
#[local] Arguments scan_loop : simpl never.
#[local] Arguments insert_loop : simpl never.

(** ** Lemmas on sorted lists of blocks *)

(** Where a block joins a neighbour, the order of the others is kept; only
    the next block may come to touch the joined one. *)
Lemma merge_sorted la p lb new :
  sorted_blocks (la ++ p :: lb) -> block_ok new ->
  Forall (disjoint_blocks new) (la ++ p :: lb) ->
  touching new p -> Forall (fun x => ~ touching new x) la ->
  block_ok (merge new p) /\ Forall (fun x => below x (merge new p)) la /\
  Forall (fun q => lp_end (merge new p) <= lp_base q) lb.
Proof.
  intros Hs Hn Hd Ht Hnt. pose proof Hs as (Hp & [Ho _] & Hla & Hlb)%sorted_blocks_middle.
  apply Forall_app in Hd as [Hda [Hdp Hdb]%Forall_cons], Ho as [Hoa Hob].
  split; [|split].
  - unfold_blocks. lia.
  - solve_blocks.
  - solve_blocks.
Qed.

(** A sorted list splits at the place of a block that it does not overlap. *)
Lemma split_sorted l new :
  sorted_blocks l -> block_ok new -> Forall (disjoint_blocks new) l ->
  exists l1 l2, l = l1 ++ l2 /\
    Forall (fun p => lp_base p <= lp_base new) l1 /\
    Forall (fun p => lp_base new < lp_base p) l2.
Proof.
  induction l as [|p l IH]; intros Hs Hn Hd.
  - by exists [], [].
  - apply sorted_blocks_cons in Hs as (Hp & Hb & Hs). apply Forall_cons in Hd as [Hdp Hd].
    destruct (decide (lp_base p <= lp_base new)).
    + destruct IH as (l1 & l2 & -> & ? & ?); [done..|].
      exists (p :: l1), l2. split_and!; [done|by constructor|done].
    + exists [], (p :: l). split_and!; [done|done|]. constructor; [lia|].
      solve_blocks.
Qed.

Lemma insert_sorted_blocks l1 l2 new :
  sorted_blocks (l1 ++ l2) -> block_ok new ->
  Forall (disjoint_blocks new) (l1 ++ l2) ->
  Forall (fun x => ~ touching new x) (l1 ++ l2) ->
  Forall (fun p => lp_base p <= lp_base new) l1 ->
  Forall (fun p => lp_base new < lp_base p) l2 ->
  sorted_blocks (l1 ++ new :: l2).
Proof.
  intros Hs Hn Hd Ht H1 H2. apply sorted_blocks_middle.
  pose proof Hs as [Ho _]. apply Forall_app in Hd as [Hd1 Hd2], Ht as [Ht1 Ht2], Ho as [Ho1 Ho2].
  split_and!; [done|done|..].
  - solve_blocks.
  - solve_blocks.
Qed.

Lemma merge_in_block new p a :
  block_ok new -> block_ok p -> touching new p ->
  in_block (merge new p) a <-> in_block p a \/ in_block new a.
Proof. unfold_blocks. lia. Qed.

(** ** Adding a block *)

Lemma lmb_coalesce_regions_spec rgn la p q lb :
  holds rgn (la ++ p :: q :: lb) -> block_ok p -> block_ok q -> lp_end p = lp_base q ->
  exists rgn', lmb_coalesce_regions rgn (Z.of_nat (length la)) (Z.of_nat (length la) + 1) = Some rgn' /\
    holds rgn' (la ++ merge q p :: lb).
Proof.
  intros Hh Hp Hq He. destruct rgn as [n sz reg]. destruct Hh as (junk & Hr & Hc & Hl).
  simpl in *. subst reg. rewrite <- app_assoc in Hl |- *. simpl in *.
  unfold lmb_coalesce_regions. simpl.
  rewrite (aget_middle la (q :: lb ++ junk) p (Z.of_nat (length la))) by done. simpl. rewrite aget_middle2 by done. simpl.
  rewrite set_region_middle by done. simpl.
  replace (mk_property (lp_base p) (u64 (lp_size p + lp_size q))) with (merge q p)
    by (unfold_blocks; unwrap; f_equal; lia).
  pose proof (lmb_remove_region_spec
    (mk_region n sz (la ++ merge q p :: q :: lb ++ junk)) (la ++ [merge q p]) q lb) as H.
  rewrite length_snoc_Z, <- !app_assoc in H. simpl in H. apply H.
  exists junk. simpl. rewrite <- app_assoc. split_and!; [done|len|len].
Qed.

(** The end of [lmb_add_region] after a coalescing at index [length la]. *)
Definition add_coalesced (rgn : lmb_region) (i : Z) : option (Z * lmb_region) :=
  if i <? u64 (cnt rgn - 1) then
    adj ← lmb_regions_adjacent rgn i (i + 1);
    if negb (adj =? 0) then
      rgn' ← lmb_coalesce_regions rgn i (i + 1);
      Some (2, rgn')
    else Some (1, rgn)
  else Some (1, rgn).

Lemma add_coalesced_spec rgn la m lb :
  holds rgn (la ++ m :: lb) -> (length (la ++ m :: lb) <= 8)%nat ->
  block_ok m -> sorted_blocks (la ++ lb) ->
  Forall (fun x => below x m) la -> Forall (fun q => lp_end m <= lp_base q) lb ->
  exists ret rgn' m' lb', add_coalesced rgn (Z.of_nat (length la)) = Some (ret, rgn') /\
    1 <= ret /\ holds rgn' (la ++ m' :: lb') /\ sorted_blocks (la ++ m' :: lb') /\
    (length lb' <= length lb)%nat /\
    (forall a, covered (la ++ m' :: lb') a <-> covered (la ++ m :: lb) a).
Proof.
  intros Hh Hlen Hm Hs Hla Hlb. unfold add_coalesced.
  pose proof Hh as (junk & Hr & Hc & Hl). rewrite length_app in Hc, Hlen. simpl in Hc, Hlen.
  unwrap. rewrite Hc. rewrite <- app_assoc in Hr, Hl. destruct lb as [|q lb]; simpl in *.
  { case_if; [lia|]. exists 1, rgn, m, []. split_and!; try done.
    apply sorted_blocks_middle; by rewrite app_nil_r in *. }
  case_if; [|lia]. unfold lmb_regions_adjacent. rewrite Hr.
  rewrite (aget_middle la (q :: lb ++ junk) m (Z.of_nat (length la))) by done. simpl.
  rewrite aget_middle2 by done. simpl. apply Forall_cons in Hlb as [Hq Hlb].
  pose proof Hs as (Hqok & Hs' & Hlaq & Hqlb)%sorted_blocks_middle.
  destruct (adjacent_spec m q) as [[Ht ->]|[[Ht _]|[Ht ->]]]; [done|done|..]; simpl.
  - destruct (lmb_coalesce_regions_spec rgn la m q lb) as (rgn' & -> & Hh'); [done..|].
    simpl. exists 2, rgn', (merge q m), lb. split_and!; try done; [|lia|].
    + apply sorted_blocks_middle. split_and!; [unfold_blocks; lia|done|..].
      * solve_blocks.
      * solve_blocks.
    + intros a. rewrite !covered_app, !covered_cons, merge_in_block by (by try right). tauto.
  - exfalso. unfold_blocks. lia.
  - exists 1, rgn, m, (q :: lb). split_and!; try done.
    apply sorted_blocks_middle. split_and!; [done|done|done|]. constructor.
    + unfold_blocks. lia.
    + solve_blocks.
Qed.

(** The end of [lmb_add_region] when nothing was coalesced. *)
Definition add_insert (rgn : lmb_region) (base size : Z) : option (Z * lmb_region) :=
  rgn1 ← insert_loop loop_fuel rgn base size (s64 (cnt rgn - 1));
  p0 ← aget (region rgn1) 0;
  rgn2 ← (if base <? lp_base p0
          then set_region rgn1 0 (mk_property base size)
          else Some rgn1);
  Some (0, set_cnt (u64 (cnt rgn2 + 1)) rgn2).

Lemma add_insert_spec rgn l1 l2 new :
  holds rgn (l1 ++ l2) -> (0 < length (l1 ++ l2) < 8)%nat -> sorted_blocks (l1 ++ new :: l2) ->
  exists rgn', add_insert rgn (lp_base new) (lp_size new) = Some (0, rgn') /\
    holds rgn' (l1 ++ new :: l2).
Proof.
  intros ([|x junk] & Hr & Hc & Hl) Hlen Hs; [len|]. destruct rgn as [n sz reg]. simpl in *.
  subst reg n. apply sorted_blocks_middle in Hs as (Hn & [Ho _] & H1 & H2).
  apply Forall_app in Ho as [Ho1 Ho2].
  unfold add_insert. simpl. unwrap. destruct l1 as [|y l1 _] using rev_ind; simpl in *.
  - destruct l2 as [|h l2]; [len|]. simpl.
    replace (Z.of_nat (S (length l2)) - 1) with (Z.of_nat (length l2)) by lia.
    rewrite insert_loop_front; [|unfold loop_fuel; len|solve_blocks]. simpl.
    apply Forall_cons in H2 as [Hh _]. case_if; [|unfold_blocks; lia].
    eexists; split; [done|]. exists junk. destruct new. simpl in *. unwrap. split_and!; [done|lia|len].
  - rewrite <- !app_assoc. simpl.
    replace (Z.of_nat _ - 1) with (Z.of_nat (length l1 + length l2)) by len.
    apply Forall_app in H1 as [H1 [Hy _]%Forall_cons], Ho1 as [Ho1 [Hoy _]%Forall_cons].
    rewrite insert_loop_spec; [|unfold loop_fuel; len|solve_blocks|unfold_blocks; lia]. simpl.
    assert (exists p0, aget (l1 ++ y :: new :: l2 ++ junk) 0 = Some p0 /\
              lp_base p0 <= lp_base new) as (p0 & -> & Hp0).
    { destruct l1 as [|z l1].
      - exists y. split; [done|]. unfold_blocks. lia.
      - exists z. split; [done|]. apply Forall_cons in H1 as [Hz _], Ho1 as [Hoz _].
        unfold_blocks. lia. }
    simpl. case_if; [lia|]. eexists; split; [done|]. exists junk. simpl.
    rewrite <- !app_assoc. split_and!; [done|rewrite wrap_small; len|len].
Qed.

Lemma blocks_table_ok rgn l : blocks rgn l -> table_ok rgn.
Proof.
  intros [(Hc & Hl & _)|p l' (junk & Hr & Hc & Hl) Hlen _]; unfold table_ok.
  - by rewrite Hc.
  - rewrite Hr, Hc. len.
Qed.

Lemma blocks_nonempty l : sorted_blocks l -> (length l <= 8)%nat -> forall rgn,
  holds rgn l -> l <> [] -> blocks rgn l.
Proof. destruct l; [done|]. intros ? Hl rgn ? _. apply blocks_cons; [done| |done]. len. Qed.

(** The result of adding [new] to the blocks [l]. *)
Definition add_result (rgn : lmb_region) (l : list lmb_property) (new : lmb_property)
    (ret : Z) (rgn' : lmb_region) : Prop :=
  (ret = -1 /\ rgn' = rgn /\ length l = 8%nat /\ Forall (fun p => ~ touching new p) l) \/
  (0 <= ret /\ exists l', blocks rgn' l' /\
     forall a, covered l' a <-> covered l a \/ in_block new a).

Lemma add_region_dummy rgn new :
  dummy rgn -> block_ok new ->
  exists ret rgn', lmb_add_region rgn (lp_base new) (lp_size new) = Some (ret, rgn') /\
    add_result rgn [] new ret rgn'.
Proof.
  intros (Hc & Hl & Hh) Hn.
  destruct rgn as [n sz [|p0 junk]]; [done|]. simpl in *. injection Hh as ->. subst n.
  exists 0, (mk_region 1 sz (new :: junk)). destruct new as [nb ns]. split; [done|]. right.
  split; [done|]. exists [mk_property nb ns]. split.
  - apply blocks_nonempty; [|simpl; lia|by exists junk|done].
    apply sorted_blocks_cons. split_and!; [done|done|]. split; [done|constructor].
  - intros a. rewrite covered_cons. unfold covered. rewrite Exists_nil. tauto.
Qed.

Lemma add_region_insert rgn l new :
  holds rgn l -> l <> [] -> (length l < 8)%nat -> sorted_blocks l -> block_ok new ->
  Forall (disjoint_blocks new) l -> Forall (fun p => ~ touching new p) l ->
  exists rgn', add_insert rgn (lp_base new) (lp_size new) = Some (0, rgn') /\
    add_result rgn l new 0 rgn'.
Proof.
  intros Hh Hne Hlen Hs Hn Hd Hnt.
  destruct (split_sorted l new) as (l1 & l2 & -> & H1 & H2); [done..|].
  assert (sorted_blocks (l1 ++ new :: l2)) as Hs' by by apply insert_sorted_blocks.
  destruct (add_insert_spec rgn l1 l2 new) as (rgn' & Ha & Hh'); [done| |done|].
  { split; [|done]. destruct (l1 ++ l2); [done|simpl; lia]. }
  exists rgn'. split; [done|]. right. split; [done|]. exists (l1 ++ new :: l2). split.
  - apply blocks_nonempty; [done|len|done|by destruct l1].
  - intros a. rewrite !covered_app, covered_cons. tauto.
Qed.

Lemma add_region_join n sz la q lb junk new :
  holds (mk_region n sz (la ++ q :: lb ++ junk)) (la ++ q :: lb) ->
  (length (la ++ q :: lb) <= 8)%nat -> sorted_blocks (la ++ q :: lb) -> block_ok new ->
  Forall (disjoint_blocks new) (la ++ q :: lb) ->
  touching new q -> Forall (fun p => ~ touching new p) la ->
  exists ret rgn', 1 <= ret /\
    add_coalesced (mk_region n sz (la ++ merge new q :: lb ++ junk)) (Z.of_nat (length la)) =
      Some (ret, rgn') /\
    add_result (mk_region n sz (la ++ q :: lb ++ junk)) (la ++ q :: lb) new ret rgn'.
Proof.
  intros (junk' & Hr & Hc & Hl) Hlen Hs Hn Hd Ht Hnt. simpl in Hc.
  apply (f_equal length) in Hr.
  destruct (merge_sorted la q lb new) as (Hm & Hla & Hlb); [done..|].
  pose proof Hs as (Hq & Hs' & _)%sorted_blocks_middle.
  destruct (add_coalesced_spec (mk_region n sz (la ++ merge new q :: lb ++ junk)) la
    (merge new q) lb) as (ret & rgn' & m' & lb' & Ha & Hret & Hh' & Hs'' & Hlen' & Hcov);
    try done; [|len|].
  { exists junk. simpl. rewrite <- app_assoc. split_and!; [done|len|len]. }
  exists ret, rgn'. split; [done|]. split; [done|]. right. split; [lia|].
  exists (la ++ m' :: lb'). split.
  - apply blocks_nonempty; [done|len|done|by destruct la].
  - intros a. rewrite Hcov, !covered_app, !covered_cons, merge_in_block by done. tauto.
Qed.

(** Adding a block that overlaps no block of the table adds exactly its
    addresses, or fails without any change when the table is full. *)
Lemma add_region_blocks rgn l new :
  blocks rgn l -> block_ok new -> Forall (disjoint_blocks new) l ->
  exists ret rgn', lmb_add_region rgn (lp_base new) (lp_size new) = Some (ret, rgn') /\
    add_result rgn l new ret rgn'.
Proof.
  intros Hb Hn Hd. destruct Hb as [Hdm|p l' Hh Hlen Hs]; [by apply add_region_dummy|].
  pose proof Hh as (junk & Hr & Hc & Hl). destruct rgn as [n sz reg]. simpl in Hr, Hc. subst reg.
  unfold lmb_add_region. simpl.
  replace ((n =? 1) && (lp_size p =? 0)) with false
    by (apply sorted_blocks_cons in Hs as (Hp & _); unfold_blocks; symmetry;
        apply andb_false_iff; right; lia).
  destruct (scan_loop_spec (p :: l') loop_fuel n sz [] junk new)
    as [[Hnt Hsc]|(la & q & lb & Hl' & Ht & Hnt & Hsc)];
    try done; [unfold loop_fuel; len|by destruct Hs|..];
    simpl in Hsc; change (Z.of_nat 0) with 0 in Hsc; rewrite Hsc; simpl.
  - rewrite (proj2 (Z.ltb_ge n (u64 (n - 1)))) by (unwrap; lia). simpl. case_if.
    { exists (-1). eexists. split; [done|]. left. unfold MAX_LMB_REGIONS in *.
      split_and!; [done|done|len|done]. }
    destruct (add_region_insert (mk_region n sz (p :: l' ++ junk)) (p :: l') new)
      as (rgn' & Ha & Hr); try done; [unfold MAX_LMB_REGIONS in *; len|].
    exists 0, rgn'. split; [exact Ha|done].
  - revert Hh Hs Hd Hlen. change (p :: l' ++ junk) with ((p :: l') ++ junk).
    intros. assert (length (p :: l') <= 8)%nat as Hlen8 by len.
    rewrite Hl' in *. rewrite <- app_assoc in Hh |- *. simpl in Hh |- *.
    destruct (add_region_join n sz la q lb junk new) as (ret & rgn' & Hret & Ha & Hr); [done..|].
    exists ret, rgn'. split; [|done].
    match goal with |- ?m ≫= _ = _ =>
      change m with (add_coalesced (mk_region n sz (la ++ merge new q :: lb ++ junk))
                       (Z.of_nat (length la))) end.
    rewrite Ha. simpl.
    by rewrite (proj2 (Z.eqb_neq ret 0)) by lia.
Qed.

(** ** Memory safety: no index leaves the array, whatever is added *)

Lemma set_region_safe rgn i p :
  length (region rgn) = 9%nat -> 0 <= i < 9 ->
  exists rgn', set_region rgn i p = Some rgn' /\ cnt rgn' = cnt rgn /\
    length (region rgn') = 9%nat.
Proof.
  intros Hl Hi. unfold set_region. rewrite aset_in by lia. simpl.
  eexists; split_and!; [done|done|]. simpl. by rewrite length_insert.
Qed.

Lemma aget_region_safe rgn i :
  length (region rgn) = 9%nat -> 0 <= i < 9 -> exists p, aget (region rgn) i = Some p.
Proof. intros Hl Hi. apply aget_is_Some. lia. Qed.

Ltac step_get p :=
  match goal with
  | |- context [aget (region ?r) ?i] =>
      let E := fresh "E" in
      destruct (aget_region_safe r i) as [p E]; [assumption|lia|]; rewrite E; simpl
  end.

Ltac step_set r' :=
  match goal with
  | |- context [set_region ?r ?i ?p] =>
      let E := fresh "E" in let Hc := fresh "Hc" in let Hl := fresh "Hl" in
      destruct (set_region_safe r i p) as (r' & E & Hc & Hl); [assumption|lia|];
      rewrite E; simpl
  end.

Lemma remove_loop_safe fuel : forall rgn i,
  length (region rgn) = 9%nat -> 1 <= cnt rgn <= 9 -> 0 <= i -> cnt rgn - i < Z.of_nat fuel ->
  0 < Z.of_nat fuel ->
  exists rgn', remove_loop fuel rgn i = Some rgn' /\ cnt rgn' = cnt rgn /\
    length (region rgn') = 9%nat.
Proof.
  induction fuel as [|fuel IH]; intros rgn i Hl Hc Hi Hf Hf0; [lia|].
  unfold remove_loop; fold remove_loop. unwrap. case_if; [|by eexists].
  step_get p. step_set rgn1. destruct (IH rgn1 (i + 1)) as (rgn' & -> & ? & ?); [done|lia..|].
  eexists; split_and!; [done|lia|done].
Qed.

Lemma remove_region_safe rgn r :
  length (region rgn) = 9%nat -> 1 <= cnt rgn <= 8 -> 0 <= r ->
  exists rgn', lmb_remove_region rgn r = Some rgn' /\ cnt rgn' = cnt rgn - 1 /\
    length (region rgn') = 9%nat.
Proof.
  intros Hl Hc Hr. unfold lmb_remove_region.
  destruct (remove_loop_safe loop_fuel rgn r) as (rgn' & -> & Hc' & Hl');
    [done|lia|lia|unfold loop_fuel; lia..|].
  eexists; split_and!; [done|simpl; unwrap; lia|done].
Qed.

Lemma scan_loop_safe fuel : forall rgn base size i,
  table_ok rgn -> 0 <= i <= cnt rgn -> cnt rgn - i < Z.of_nat fuel ->
  exists sc, scan_loop fuel rgn base size i = Some sc /\
    match sc with
    | scan_return => True
    | scan_at i' c rgn' => 0 <= i' <= cnt rgn /\ table_ok rgn' /\ cnt rgn' = cnt rgn /\
        (c = 0 /\ i' = cnt rgn \/ c = 1)
    end.
Proof.
  induction fuel as [|fuel IH]; intros rgn base size i [Hl Hc] Hi Hf; [lia|].
  unfold scan_loop; fold scan_loop. case_if.
  - step_get p. repeat case_if; try by (eexists; split).
    + step_set rgn1. eexists; split; [done|]. simpl. unfold table_ok. rewrite Hc0. auto.
    + step_set rgn1. eexists; split; [done|]. simpl. unfold table_ok. rewrite Hc0. auto.
    + apply IH; [done|lia|lia].
  - eexists; split; [done|]. simpl. split_and!; [lia|lia|done|done|lia].
Qed.

Lemma insert_loop_safe fuel : forall rgn base size i,
  length (region rgn) = 9%nat -> -1 <= i < 8 -> i + 1 < Z.of_nat fuel ->
  exists rgn', insert_loop fuel rgn base size i = Some rgn' /\ cnt rgn' = cnt rgn /\
    length (region rgn') = 9%nat.
Proof.
  induction fuel as [|fuel IH]; intros rgn base size i Hl Hi Hf; [lia|].
  unfold insert_loop; fold insert_loop. case_if; [|by eexists].
  step_get p. case_if.
  - step_set rgn1. destruct (IH rgn1 base size (i - 1)) as (rgn' & -> & ? & ?); [done|lia..|].
    eexists; split_and!; [done|lia|done].
  - step_set rgn1. eauto.
Qed.

(** [lmb_add_region] never reads or writes outside of the table, and refuses
    a block only when the table is full. *)
Lemma add_region_safe rgn base size :
  table_ok rgn -> exists ret rgn', lmb_add_region rgn base size = Some (ret, rgn') /\
    table_ok rgn' /\ (ret < 0 -> cnt rgn = 8).
Proof.
  intros Hok. pose proof Hok as [Hl Hc]. unfold lmb_add_region. step_get p0. case_if.
  { step_set rgn1. eexists _, _. split; [done|]. split; [split; lia|lia]. }
  destruct (scan_loop_safe loop_fuel rgn base size 0) as (sc & -> & Hsc);
    [done|lia|unfold loop_fuel; lia|].
  destruct sc as [|i c rgn1]; simpl; [by eexists _, _|].
  destruct Hsc as (Hi & [Hl1 Hb1] & Hc1 & Hci).
  rewrite (wrap_small 64 (cnt rgn1 - 1)) by lia. case_if.
  - destruct Hci as [?| ->]; [lia|]. unfold lmb_regions_adjacent. step_get p1. step_get p2.
    case_if; [|by eexists _, _].
    unfold lmb_coalesce_regions. rewrite E2, E3. simpl. step_set rgn2.
    destruct (remove_region_safe rgn2 (i + 1)) as (rgn3 & -> & ? & ?); [done|lia|lia|].
    simpl. eexists _, _. split; [done|]. split; [split; lia|lia].
  - simpl. unfold MAX_LMB_REGIONS. case_if; [eexists _, _; split; [done|]; split; [done|lia]|].
    case_if; [eexists _, _; split; [done|]; split; [done|lia]|]. unwrap.
    destruct (insert_loop_safe loop_fuel rgn1 base size (cnt rgn1 - 1)) as (rgn2 & -> & Hc2 & Hl2);
      [done|lia|unfold loop_fuel; lia|]. simpl. step_get p1. case_if.
    + step_set rgn3. eexists _, _. split; [done|]. split; [split; [done|]|lia]. simpl. unwrap. lia.
    + eexists _, _. split; [done|]. split; [split; [done|]|lia]. simpl. unwrap. lia.
Qed.

(** ** Freeing a range *)

Definition contains (p q : lmb_property) : Prop :=
  lp_base p <= lp_base q /\ lp_end q <= lp_end p.

#[local] Arguments free_search : simpl never.

Lemma free_search_spec l2 : forall fuel n sz l1 junk base e,
  (length l2 < fuel)%nat -> n = Z.of_nat (length (l1 ++ l2)) -> Forall block_ok l2 ->
  (Forall (fun p => ~ (lp_base p <= base /\ e <= lp_end p)) l2 /\
   free_search fuel (mk_region n sz (l1 ++ l2 ++ junk)) base e (Z.of_nat (length l1)) =
     Some None) \/
  (exists la p lb, l2 = la ++ p :: lb /\ lp_base p <= base /\ e <= lp_end p /\
   free_search fuel (mk_region n sz (l1 ++ l2 ++ junk)) base e (Z.of_nat (length l1)) =
     Some (Some (Z.of_nat (length (l1 ++ la)), lp_base p, lp_end p))).
Proof.
  induction l2 as [|x l2 IH]; intros [|fuel] n sz l1 junk base e Hf Hn Hok;
    rewrite length_app in Hn; simpl in *; try lia;
    unfold free_search; fold free_search; simpl; case_if; try lia.
  - by left.
  - apply Forall_cons in Hok as [Hx Hok]. rewrite aget_middle by done. simpl.
    rewrite (wrap_small 64 (lp_base x + lp_size x)) by (unfold_blocks; lia).
    case_if.
    + right. exists [], x, l2. by rewrite app_nil_r.
    + destruct (IH fuel n sz (l1 ++ [x]) junk base e) as [[Hn' H]|(la&p&lb&->&Hp&He&H)];
        try done; [lia|len|..]; rewrite length_snoc_Z, <- !app_assoc in H; simpl in H;
        rewrite <- ?app_assoc; simpl; rewrite H.
      * left. split; [|done]. constructor; [|done]. unfold_blocks. lia.
      * right. by exists (x :: la), p, lb.
Qed.

(** Replacing one block by part of it. *)
Lemma replace_block rgn la p lb p' :
  holds rgn (la ++ p :: lb) ->
  exists rgn', set_region rgn (Z.of_nat (length la)) p' = Some rgn' /\
    holds rgn' (la ++ p' :: lb) /\ aget (region rgn) (Z.of_nat (length la)) = Some p.
Proof.
  destruct rgn as [n sz reg]. intros (junk & Hr & Hc & Hl). simpl in *. subst reg.
  rewrite <- app_assoc in *. simpl in *. eexists. split; [by apply set_region_middle|].
  split; [|by apply aget_middle].
  exists junk. simpl. rewrite <- app_assoc. split_and!; [done|len|len].
Qed.

Lemma blocks_replace rgn la p lb p' :
  holds rgn (la ++ p' :: lb) -> (length (la ++ p :: lb) <= 8)%nat ->
  sorted_blocks (la ++ p :: lb) -> block_ok p' -> contains p p' ->
  blocks rgn (la ++ p' :: lb).
Proof.
  intros Hh Hlen (Hp & Hs & Hla & Hlb)%sorted_blocks_middle Hp' Hc.
  apply blocks_nonempty; [|len|done|by destruct la].
  apply sorted_blocks_middle. unfold contains in *.
  split_and!; [done|done|solve_blocks|solve_blocks].
Qed.

(** An address of one block of a sorted list is in no other block. *)
Lemma covered_once la p lb a :
  sorted_blocks (la ++ p :: lb) -> in_block p a -> ~ covered (la ++ lb) a.
Proof.
  intros (Hp & [Ho _] & Hla & Hlb)%sorted_blocks_middle Hi [Hc|Hc]%covered_app.
  - apply Forall_app in Ho as [Ho _].
    apply Exists_exists in Hc as (q & Hq & Hqa). rewrite Forall_forall in Hla, Ho.
    specialize (Hla q Hq); specialize (Ho q Hq). unfold_blocks. lia.
  - apply Forall_app in Ho as [_ Ho].
    apply Exists_exists in Hc as (q & Hq & Hqa). rewrite Forall_forall in Hlb, Ho.
    specialize (Hlb q Hq); specialize (Ho q Hq). unfold_blocks. lia.
Qed.

(** Taking a part out of one block takes it out of the covered addresses. *)
Lemma covered_cut la p lb (P : Z -> Prop) l' :
  sorted_blocks (la ++ p :: lb) -> (forall a, P a -> in_block p a) ->
  (forall a, covered l' a <-> covered (la ++ lb) a \/ (in_block p a /\ ~ P a)) ->
  forall a, covered l' a <-> covered (la ++ p :: lb) a /\ ~ P a.
Proof.
  intros Hs HP Hl' a. rewrite Hl', !covered_app, covered_cons.
  pose proof (covered_once la p lb a Hs) as H. rewrite covered_app in H.
  specialize (HP a). tauto.
Qed.

Definition free_result (l : list lmb_property) (p new : lmb_property)
    (ret : Z) (rgn' : lmb_region) : Prop :=
  (l = [p] /\ p = new /\ ret = 0 /\ cnt rgn' = 0) \/
  (ret = -1 /\ length l = 8%nat /\ lp_base p < lp_base new /\ lp_end new < lp_end p /\
   exists l', blocks rgn' l' /\
     forall a, covered l' a <-> covered l a /\ ~ (lp_base new <= a < lp_end p)) \/
  (0 <= ret /\ exists l', blocks rgn' l' /\
     forall a, covered l' a <-> covered l a /\ ~ in_block new a).

(** The split: the front of [p] stays, the rest is added back as a block. *)
Lemma free_split rgn la p lb new :
  holds rgn (la ++ p :: lb) -> (length (la ++ p :: lb) <= 8)%nat ->
  sorted_blocks (la ++ p :: lb) -> block_ok new ->
  lp_base p < lp_base new -> lp_end new < lp_end p ->
  exists ret rgn', (rgn1 ← set_region rgn (Z.of_nat (length la))
                      (mk_property (lp_base p) (lp_base new - lp_base p));
                    lmb_add_region rgn1 (lp_end new) (lp_end p - lp_end new)) = Some (ret, rgn') /\
    free_result (la ++ p :: lb) p new ret rgn'.
Proof.
  intros Hh Hlen Hs Hn Hb He.
  set (front := mk_property (lp_base p) (lp_base new - lp_base p)).
  set (back := mk_property (lp_end new) (lp_end p - lp_end new)).
  destruct (replace_block rgn la p lb front Hh) as (rgn1 & -> & Hh1 & _). simpl.
  pose proof Hs as (Hp & [Ho _] & Hla & Hlb)%sorted_blocks_middle.
  apply Forall_app in Ho as [Hola Holb].
  assert (block_ok front /\ block_ok back) as [Hf Hbk] by (unfold front, back; unfold_blocks; lia).
  assert (blocks rgn1 (la ++ front :: lb)) as Hb1.
  { eapply blocks_replace; [done|done|done|done|]. unfold contains, front. unfold_blocks. lia. }
  destruct (add_region_blocks rgn1 (la ++ front :: lb) back) as (ret & rgn' & Ha & Hr); [done|done|..].
  { apply Forall_app. split; [|constructor]; unfold back, front; [solve_blocks| |solve_blocks].
    unfold_blocks. lia. }
  exists ret, rgn'. split; [exact Ha|]. right.
  destruct Hr as [(-> & -> & Hl8 & _)|(Hret & l' & Hb' & Hcov)]; [left|right].
  - split_and!; [done|len|done|done|]. exists (la ++ front :: lb). split; [done|].
    apply covered_cut; [done|unfold_blocks; lia|]. intros a.
    rewrite !covered_app, covered_cons. unfold front. unfold_blocks. intuition lia.
  - split; [done|]. exists l'. split; [done|].
    apply covered_cut; [done|unfold_blocks; lia|]. intros a. rewrite Hcov, !covered_app, covered_cons.
    unfold front, back. unfold_blocks. intuition lia.
Qed.

Lemma free_in_block rgn la p lb new :
  holds rgn (la ++ p :: lb) -> (length (la ++ p :: lb) <= 8)%nat ->
  sorted_blocks (la ++ p :: lb) -> block_ok new -> contains p new ->
  free_search loop_fuel rgn (lp_base new) (lp_end new) 0 =
    Some (Some (Z.of_nat (length la), lp_base p, lp_end p)) ->
  exists ret rgn', lmb_free_region rgn (lp_base new) (lp_size new) = Some (ret, rgn') /\
    free_result (la ++ p :: lb) p new ret rgn'.
Proof.
  intros Hh Hlen Hs Hn [Hcb Hce] Hsearch. unfold lmb_free_region.
  pose proof Hs as (Hp & Hs' & _)%sorted_blocks_middle.
  rewrite (wrap_small 64 (lp_base new + lp_size new)) by (unfold_blocks; lia).
  fold (lp_end new). rewrite Hsearch. simpl.
  destruct (replace_block rgn la p lb p Hh) as (_ & _ & _ & ->). simpl. case_if; [|case_if; [|case_if]].
  - destruct (lmb_remove_region_spec rgn la p lb Hh) as (rgn' & -> & Hh').
    assert (p = new) as ->.
    { destruct p, new. unfold_blocks. f_equal; lia. }
    simpl. exists 0, rgn'. split; [done|]. destruct (decide (la ++ lb = [])) as [Hnil|Hne].
    + left. apply app_nil in Hnil as [-> ->]. destruct Hh' as (? & _ & -> & _). done.
    + right; right. split; [done|]. exists (la ++ lb). split.
      * apply blocks_nonempty; [done|len|done|done].
      * apply covered_cut; [done|done|]. intros a. tauto.
  - destruct (replace_block rgn la p lb (mk_property (lp_end new) (u64 (lp_size p - lp_size new))) Hh)
      as (rgn' & -> & Hh' & _).
    simpl. exists 0, rgn'. split; [done|]. right; right. split; [done|].
    rewrite wrap_small in Hh' by (unfold_blocks; lia). eexists. split.
    + eapply blocks_replace; [done|done|done|..]; unfold contains; unfold_blocks; lia.
    + apply covered_cut; [done|unfold_blocks; lia|]. intros a.
      rewrite !covered_app, covered_cons. unfold_blocks. intuition lia.
  - destruct (replace_block rgn la p lb (mk_property (lp_base p) (u64 (lp_size p - lp_size new))) Hh)
      as (rgn' & -> & Hh' & _).
    simpl. exists 0, rgn'. split; [done|]. right; right. split; [done|].
    rewrite wrap_small in Hh' by (unfold_blocks; lia). eexists. split.
    + eapply blocks_replace; [done|done|done|..]; unfold contains; unfold_blocks; lia.
    + apply covered_cut; [done|unfold_blocks; lia|]. intros a.
      rewrite !covered_app, covered_cons. unfold_blocks. intuition lia.
  - rewrite !wrap_small by (unfold_blocks; lia).
    apply free_split; [done..| |]; unfold_blocks; lia.
Qed.

Lemma free_region_blocks rgn l new :
  blocks rgn l -> block_ok new ->
  (Forall (fun p => ~ contains p new) l /\
   lmb_free_region rgn (lp_base new) (lp_size new) = Some (-1, rgn)) \/
  (exists p, p ∈ l /\ contains p new /\
   exists ret rgn', lmb_free_region rgn (lp_base new) (lp_size new) = Some (ret, rgn') /\
     free_result l p new ret rgn').
Proof.
  intros [(Hc & Hl & Hhd)|p l' Hh Hlen Hs] Hn.
  - left. split; [done|]. destruct rgn as [n sz [|p0 junk]]; [done|]. simpl in *.
    injection Hhd as ->. subst n. unfold lmb_free_region.
    rewrite (wrap_small 64 (lp_base new + lp_size new)) by (unfold_blocks; lia).
    unfold free_search, loop_fuel. simpl. change (u64 (0 + 0)) with 0.
    case_if; [unfold_blocks; lia|done].
  - pose proof Hh as (junk & Hr & Hc & Hl). destruct rgn as [n sz reg]. simpl in Hr, Hc. subst reg.
    destruct (free_search_spec (p :: l') loop_fuel n sz [] junk (lp_base new) (lp_end new))
      as [[Hno Hsc]|(la & q & lb & Hl' & Hb & He & Hsc)];
      [unfold loop_fuel; len|done|by destruct Hs|..];
      simpl in Hsc; change (Z.of_nat 0) with 0 in Hsc.
    + left. split; [done|]. unfold lmb_free_region.
      rewrite (wrap_small 64 (lp_base new + lp_size new)) by (unfold_blocks; lia).
      fold (lp_end new). by rewrite Hsc.
    + right. exists q. split; [rewrite Hl'; set_solver|]. split; [done|]. rewrite Hl' in *.
      apply free_in_block; try done. rewrite <- Hl'. len.
Qed.

(** ** Searching for overlaps *)

#[local] Arguments overlaps_loop : simpl never.

Lemma overlaps_loop_spec l2 : forall fuel n sz l1 junk b s,
  (length l2 < fuel)%nat -> n = Z.of_nat (length (l1 ++ l2)) -> Forall block_ok l2 ->
  0 <= b -> 0 < s -> b + s < 2 ^ 64 ->
  (Forall (disjoint_blocks (mk_property b s)) l2 /\
   overlaps_loop fuel (mk_region n sz (l1 ++ l2 ++ junk)) b s (Z.of_nat (length l1)) = Some n) \/
  (exists la p lb, l2 = la ++ p :: lb /\ ~ disjoint_blocks (mk_property b s) p /\
   Forall (disjoint_blocks (mk_property b s)) la /\
   overlaps_loop fuel (mk_region n sz (l1 ++ l2 ++ junk)) b s (Z.of_nat (length l1)) =
     Some (Z.of_nat (length (l1 ++ la)))).
Proof.
  induction l2 as [|x l2 IH]; intros [|fuel] n sz l1 junk b s Hf Hn Hok Hb0 Hs Hbs;
    rewrite length_app in Hn; simpl in *; try lia;
    unfold overlaps_loop; fold overlaps_loop; simpl; case_if; try lia.
  - left. split; [done|]. f_equal. lia.
  - apply Forall_cons in Hok as [Hx Hok]. rewrite aget_middle by done. simpl.
    pose proof (overlap_spec b s x) as Ho. case_if.
    + right. exists [], x, l2. rewrite app_nil_r. split_and!; [done| |done|done].
      apply Ho; [unfold_blocks; lia..|done].
    + assert (disjoint_blocks (mk_property b s) x) as Hd.
      { destruct Ho as [_ Ho]; [unfold_blocks; lia..|].
        unfold_blocks. destruct (decide (b + s <= lp_base x)); [lia|].
        destruct (decide (lp_base x + lp_size x <= b)); [lia|]. discriminate Ho. lia. }
      destruct (IH fuel n sz (l1 ++ [x]) junk b s) as [[Hn' H]|(la&p&lb&->&Hp&He&H)];
        try done; [lia|len|..]; rewrite length_snoc_Z, <- !app_assoc in H; simpl in H;
        rewrite <- ?app_assoc; simpl; rewrite H.
      * left. split; [by constructor|done].
      * right. exists (x :: la), p, lb. split_and!; [done|done|by constructor|done].
Qed.

Lemma overlaps_region_blocks rgn l b s :
  blocks rgn l -> 0 <= b -> 0 < s -> b + s < 2 ^ 64 ->
  (Forall (disjoint_blocks (mk_property b s)) l /\ lmb_overlaps_region rgn b s = Some (-1)) \/
  (exists la p lb, l = la ++ p :: lb /\ ~ disjoint_blocks (mk_property b s) p /\
   lmb_overlaps_region rgn b s = Some (Z.of_nat (length la)) /\
   aget (region rgn) (Z.of_nat (length la)) = Some p).
Proof.
  intros [(Hc & Hl & Hhd)|p l' Hh Hlen Hs] Hb0 Hs0 Hbs.
  - left. split; [done|]. destruct rgn as [n sz [|p0 junk]]; [done|]. simpl in *.
    injection Hhd as ->. subst n. unfold lmb_overlaps_region, loop_fuel, overlaps_loop. simpl.
    unfold lmb_addrs_overlap. change (u64 (0 + 0)) with 0. case_if; [lia|done].
  - pose proof Hh as (junk & Hr & Hc & Hl). destruct rgn as [n sz reg]. simpl in Hr, Hc. subst reg.
    unfold lmb_overlaps_region.
    destruct (overlaps_loop_spec (p :: l') loop_fuel n sz [] junk b s)
      as [[Hno Hsc]|(la & q & lb & Hl' & Ho & Hla & Hsc)];
      [unfold loop_fuel; len|done|by destruct Hs|done|done|done|..];
      simpl in Hsc; change (Z.of_nat 0) with 0 in Hsc; rewrite Hsc; simpl.
    + left. split; [done|]. by rewrite Z.ltb_irrefl.
    + right. exists la, q, lb. split; [done|]. split; [done|].
      split; [|].
      * assert (length (p :: l') = length (la ++ q :: lb)) as Hlen' by by rewrite Hl'.
        case_if; [done|len].
      * change (p :: l' ++ junk) with ((p :: l') ++ junk). rewrite Hl', <- app_assoc.
        by apply aget_middle.
Qed.

(** ** Alignment *)

Lemma align_down_spec a k :
  0 <= a < 2 ^ 64 -> 0 <= k < 64 ->
  lmb_align_down a (2 ^ k) = 2 ^ k * (a / 2 ^ k).
Proof. apply land_mask_pow2. Qed.

(** [lmb_align_down] is the greatest aligned address that is not above. *)
Lemma align_down_greatest a k :
  0 <= a < 2 ^ 64 -> 0 <= k < 64 ->
  0 <= lmb_align_down a (2 ^ k) <= a /\ (2 ^ k | lmb_align_down a (2 ^ k)) /\
  forall b, (2 ^ k | b) -> b <= a -> b <= lmb_align_down a (2 ^ k).
Proof.
  intros Ha Hk. rewrite align_down_spec by done.
  assert (0 < 2 ^ k) by (apply Z.pow_pos_nonneg; lia).
  pose proof (Z.mul_div_le a (2 ^ k)). pose proof (Z.div_pos a (2 ^ k)).
  split; [nia|]. split; [apply Z.divide_factor_l|].
  intros b [c ->] Hb. rewrite Z.mul_comm. apply Z.mul_le_mono_nonneg_l; [lia|].
  apply Z.div_le_lower_bound; lia.
Qed.

Lemma align_up_least a k :
  0 <= a -> 0 <= k < 64 -> a + 2 ^ k <= 2 ^ 64 ->
  a <= lmb_align_up a (2 ^ k) < a + 2 ^ k /\ (2 ^ k | lmb_align_up a (2 ^ k)).
Proof.
  intros Ha Hk Hb. assert (0 < 2 ^ k) by (apply Z.pow_pos_nonneg; lia).
  unfold lmb_align_up. rewrite (wrap_small 64 (a + _)) by lia.
  rewrite land_mask_pow2 by lia. split; [|apply Z.divide_factor_l].
  pose proof (Z.div_mod (a + (2 ^ k - 1)) (2 ^ k)). pose proof (Z.mod_pos_bound (a + (2 ^ k - 1)) (2 ^ k)).
  lia.
Qed.

(** ** Allocation *)

#[local] Arguments probe_loop : simpl never.
#[local] Arguments alloc_loop : simpl never.

(** [b] is an aligned, non-zero address for [size] bytes inside the bank [m]
    and below [max_addr]. *)
Definition fits (size align max_addr : Z) (m : lmb_property) (b : Z) : Prop :=
  0 < b /\ (align | b) /\ lp_base m <= b /\ b + size <= lp_end m /\
  (max_addr = LMB_ALLOC_ANYWHERE \/ b + size <= max_addr).

(** No reserved block overlaps the [size] bytes at [b]. *)
Definition free_at (lr : list lmb_property) (size b : Z) : Prop :=
  Forall (disjoint_blocks (mk_property b size)) lr.

Section Allocation.
Context (res : lmb_region) (lr : list lmb_property) (size k : Z).
Hypothesis Hres : blocks res lr.
Hypothesis Hsize : 0 < size.
Hypothesis Hk : 0 <= k < 64.

(** What the search in one bank returns, from the candidate [base] down. *)
Definition probe_spec (lmbbase base : Z) (r : probe_result) : Prop :=
  match r with
  | probe_return ret res' => exists b c,
      lmb_add_region res b (lmb_align_up size (2 ^ k)) = Some (c, res') /\
      ret = (if c <? 0 then 0 else b) /\
      0 < b /\ (2 ^ k | b) /\ lmbbase <= b <= base /\ free_at lr size b /\
      forall b', (2 ^ k | b') -> b < b' <= base -> ~ free_at lr size b'
  | probe_next => forall b', (2 ^ k | b') -> 0 < b' -> lmbbase <= b' <= base -> ~ free_at lr size b'
  end.

Lemma not_free_overlap p b : p ∈ lr -> lp_base p < b + size -> b < lp_end p -> ~ free_at lr size b.
Proof.
  intros Hp H1 H2 Hf. unfold free_at in Hf. rewrite Forall_forall in Hf. specialize (Hf p Hp).
  unfold_blocks. lia.
Qed.

Lemma probe_loop_spec fuel : forall lmbbase base l1 l2,
  lr = l1 ++ l2 -> Forall (fun q => base + size <= lp_base q) l2 -> (length l1 < fuel)%nat ->
  0 <= lmbbase -> 0 <= base -> base + size < 2 ^ 64 -> (2 ^ k | base) ->
  exists r, probe_loop fuel res size (2 ^ k) lmbbase base = Some r /\ probe_spec lmbbase base r.
Proof.
  induction fuel as [|fuel IH]; intros lmbbase base l1 l2 Hlr Hl2 Hf Hlb Hb Hbs Hal; [lia|].
  unfold probe_loop; fold probe_loop. case_if; [|exists probe_next; split; [done|]; simpl; lia].
  destruct (overlaps_region_blocks res lr base size) as [[Hfree ->]|(la & p & lb & Hl & Ho & -> & Hget)];
    [done|lia|done|lia|simpl|simpl].
  - destruct (add_region_safe res base (lmb_align_up size (2 ^ k))) as (c & res' & Hadd & _ & _);
      [by eapply blocks_table_ok|].
    rewrite Hadd. simpl. eexists; split; [done|]. simpl. exists base, c.
    split_and!; try done; lia.
  - assert (p ∈ lr) as Hp by (rewrite Hl; set_solver).
    assert (lp_base p < base + size /\ base < lp_end p) as [Hp1 Hp2] by (unfold_blocks; lia).
    rewrite (proj2 (Z.ltb_ge _ 0)) by lia. rewrite Hget. simpl. case_if.
    + exists probe_next. split; [done|]. simpl. intros b' _ Hb0 Hb'.
      apply (not_free_overlap p); [done|lia|lia].
    + assert (sorted_blocks lr) as Hs by (destruct Hres; [by split; constructor|done]).
      rewrite Hl in Hs. apply sorted_blocks_middle in Hs as (Hpok & [Hos _] & _ & Hlb').
      rewrite wrap_small by (unfold_blocks; lia).
      destruct (align_down_greatest (lp_base p - size) k) as (Hr & Hd & Hg); [unfold_blocks; lia|done|].
      set (b1 := lmb_align_down _ _) in *.
      destruct (IH lmbbase b1 la (p :: lb)) as (r & Hr1 & Hr2); try done; try lia.
      { apply Forall_app in Hos as [_ Hos]. constructor; [lia|]. solve_blocks. }
      { assert (length la < length l1)%nat; [|lia]. destruct (decide (length la < length l1)%nat); [done|].
        assert (p ∈ l2) as Hp'.
        { apply list_elem_of_lookup. exists (length la - length l1)%nat.
          rewrite <- lookup_app_r by lia. rewrite <- Hlr, Hl. by apply list_lookup_middle. }
        rewrite Forall_forall in Hl2. specialize (Hl2 p Hp'). lia. }
      exists r. split; [done|].
      assert (forall b', (2 ^ k | b') -> b1 < b' <= base -> ~ free_at lr size b') as Hgap.
      { intros b' Hdb Hb'. apply (not_free_overlap p); [done| |lia].
        destruct (decide (b' <= lp_base p - size)); [|lia]. specialize (Hg b' Hdb). lia. }
      destruct r as [ret res'|]; simpl in *.
      * destruct Hr2 as (b & c & H1 & H2 & H3 & H4 & H5 & H6 & H7). exists b, c.
        split_and!; try done; try lia. intros b' Hdb Hb'.
        destruct (decide (b' <= b1)); [apply H7|apply Hgap]; (done || lia).
      * intros b' Hdb Hb0 Hb'. destruct (decide (b' <= b1)); [apply Hr2|apply Hgap]; (done || lia).
Qed.

Lemma alloc_start_spec m max :
  block_ok m -> max = LMB_ALLOC_ANYWHERE \/ size <= max < 2 ^ 64 ->
  match alloc_start m size (2 ^ k) max with
  | None => forall b, ~ fits size (2 ^ k) max m b
  | Some base => 0 <= base /\ base + size < 2 ^ 64 /\ (2 ^ k | base) /\
      forall b, (2 ^ k | b) -> 0 < b -> lp_base m <= b ->
        fits size (2 ^ k) max m b <-> b <= base
  end.
Proof.
  intros Hm Hmax. unfold alloc_start, fits, LMB_ALLOC_ANYWHERE in *.
  rewrite (wrap_small 64 (lp_base m + lp_size m)) by (unfold_blocks; lia).
  rewrite (proj2 (Z.ltb_ge (lp_base m + lp_size m) (lp_base m))) by (unfold_blocks; lia).
  case_if; [unfold_blocks; lia|]. case_if; [|case_if; [|unfold_blocks; lia]].
  - rewrite wrap_small by (unfold_blocks; lia).
    destruct (align_down_greatest (lp_base m + lp_size m - size) k) as (Hr & Hd & Hg);
      [unfold_blocks; lia|done|].
    split_and!; [lia|unfold_blocks; lia|done|]. intros b Hdb Hb0 Hmb. specialize (Hg b Hdb).
    unfold_blocks. intuition lia.
  - set (e := Z.min _ _). rewrite wrap_small by (unfold_blocks; lia).
    destruct (align_down_greatest (e - size) k) as (Hr & Hd & Hg); [unfold_blocks; lia|done|].
    split_and!; [lia|unfold_blocks; lia|done|]. intros b Hdb Hb0 Hmb. specialize (Hg b Hdb).
    unfold_blocks. intuition lia.
Qed.

(** The highest place of all banks, or none in any bank. *)
Definition alloc_spec (lm : list lmb_property) (max : Z) (mem : lmb_region)
    (ret : Z) (l' : lmb) : Prop :=
  memory l' = mem /\
  ((exists m b c, m ∈ lm /\ fits size (2 ^ k) max m b /\ free_at lr size b /\
      (forall m' b', m' ∈ lm -> fits size (2 ^ k) max m' b' -> free_at lr size b' -> b' <= b) /\
      lmb_add_region res b (lmb_align_up size (2 ^ k)) = Some (c, reserved l') /\
      ret = (if c <? 0 then 0 else b)) \/
   (ret = 0 /\ reserved l' = res /\
      forall m b, m ∈ lm -> fits size (2 ^ k) max m b -> ~ free_at lr size b)).

Lemma alloc_loop_spec lm1 : forall fuel mem lm2 junk max,
  (length lm1 < fuel)%nat -> region mem = lm1 ++ lm2 ++ junk -> sorted_blocks (lm1 ++ lm2) ->
  max = LMB_ALLOC_ANYWHERE \/ size <= max < 2 ^ 64 ->
  (forall m b, m ∈ lm2 -> fits size (2 ^ k) max m b -> ~ free_at lr size b) ->
  exists ret l', alloc_loop fuel (mk_lmb mem res) size (2 ^ k) max (Z.of_nat (length lm1) - 1) =
      Some (ret, l') /\ alloc_spec (lm1 ++ lm2) max mem ret l'.
Proof.
  induction lm1 as [|m lm1 IH] using rev_ind; intros [|fuel] mem lm2 junk max Hf Hr Hs Hmax Hno;
    try lia; unfold alloc_loop; fold alloc_loop.
  - exists 0, (mk_lmb mem res). split; [done|]. split; [done|]. by right.
  - rewrite length_snoc_Z. case_if; [|lia]. rewrite <- !app_assoc in Hr, Hs. simpl in Hr, Hs.
    simpl memory. rewrite Hr, aget_middle by lia. simpl.
    pose proof Hs as (Hm & _ & Hlt & _)%sorted_blocks_middle.
    pose proof (alloc_start_spec m max Hm Hmax) as Hst.
    replace (Z.of_nat (length lm1) + 1 - 1 - 1) with (Z.of_nat (length lm1) - 1) by lia.
    rewrite length_app in Hf. simpl in Hf.
    assert ((forall b, fits size (2 ^ k) max m b -> ~ free_at lr size b) ->
      exists ret l', alloc_loop fuel (mk_lmb mem res) size (2 ^ k) max (Z.of_nat (length lm1) - 1) =
        Some (ret, l') /\ alloc_spec ((lm1 ++ [m]) ++ lm2) max mem ret l') as Hnext.
    { intros Hm'. rewrite <- app_assoc. simpl. apply IH with junk; [lia|done|done|done|].
      intros m' b [->|Hin]%elem_of_cons; [apply Hm'|by apply Hno]. }
    destruct (alloc_start m size (2 ^ k) max) as [base|];
      [|apply Hnext; intros b Hf'; by destruct (Hst b)].
    destruct Hst as (Hb & Hbs & Hd & Hfit).
    destruct (probe_loop_spec loop_fuel (lp_base m) base lr []) as (r & -> & Hspec);
      try done; [by rewrite app_nil_r| |by destruct Hm|].
    { destruct Hres; unfold loop_fuel; simpl; lia. }
    simpl. destruct r as [ret res'|]; simpl in Hspec.
    + destruct Hspec as (b & c & Hadd & -> & Hb0 & Hdb & Hbb & Hfr & Hmax').
      eexists _, _. split; [done|]. split; [done|]. left. exists m, b, c.
      split_and!; [set_solver|apply Hfit; (done || lia)|done| |done|done].
      intros m' b' Hin Hf' Hfree'. rewrite <- app_assoc in Hin.
      apply elem_of_app in Hin as [Hin|[->|Hin]%elem_of_cons].
      * rewrite Forall_forall in Hlt. specialize (Hlt m' Hin). unfold fits in Hf'.
        unfold_blocks. lia.
      * destruct (decide (b' <= b)); [done|]. exfalso. apply (Hmax' b'); [by destruct Hf' as (_&?&_)| |done].
        split; [lia|]. apply (Hfit b'); try done; by destruct Hf' as (?&?&?&_).
      * exfalso. by apply (Hno m' b').
    + apply Hnext. intros b Hf' Hfree'. pose proof Hf' as (Hb0 & Hdb & Hlo & _).
      apply (Hspec b); try done. split; [done|]. by apply Hfit.
Qed.

Lemma alloc_base_blocks mem lm max :
  blocks mem lm -> max = LMB_ALLOC_ANYWHERE \/ size <= max < 2 ^ 64 ->
  exists ret l', __lmb_alloc_base (mk_lmb mem res) size (2 ^ k) max = Some (ret, l') /\
    alloc_spec lm max mem ret l'.
Proof.
  intros Hmem Hmax. unfold __lmb_alloc_base. simpl.
  destruct Hmem as [(Hc & Hl & Hhd)|p lm (junk & Hr & Hc & Hl) Hlen Hs]; rewrite Hc.
  - destruct mem as [n sz [|p0 reg]]; [done|]. simpl in *. injection Hhd as ->.
    exists 0, (mk_lmb (mk_region n sz (mk_property 0 0 :: reg)) res).
    rewrite swrap_small by lia.
    split; [|split; [done|]; right; split_and!; [done|done|set_solver]].
    unfold alloc_loop, loop_fuel. simpl. unfold alloc_start. simpl.
    by rewrite (proj2 (Z.ltb_lt 0 size)).
  - simpl in Hc. rewrite swrap_small by len.
    destruct (alloc_loop_spec (p :: lm) loop_fuel mem [] junk max) as (ret & l' & Ha & Hsp);
      rewrite ?app_nil_r in *; try done; [unfold loop_fuel; len|set_solver|].
    by exists ret, l'.
Qed.
End Allocation.

(** ** Membership *)

#[local] Arguments is_reserved_loop : simpl never.

Lemma is_reserved_loop_spec l2 : forall fuel n sz l1 junk addr,
  (length l2 < fuel)%nat -> n = Z.of_nat (length (l1 ++ l2)) -> Forall block_ok l2 ->
  exists b, is_reserved_loop fuel (mk_region n sz (l1 ++ l2 ++ junk)) addr
              (Z.of_nat (length l1)) = Some b /\ (b = true <-> covered l2 addr).
Proof.
  induction l2 as [|x l2 IH]; intros [|fuel] n sz l1 junk addr Hf Hn Hok;
    rewrite length_app in Hn; simpl in *; try lia;
    unfold is_reserved_loop; fold is_reserved_loop; simpl; case_if; try lia.
  - exists false. split; [done|]. unfold covered. by rewrite Exists_nil.
  - apply Forall_cons in Hok as [Hx Hok]. rewrite aget_middle by done. simpl.
    rewrite (wrap_small 64 (lp_base x + lp_size x - 1)) by (unfold_blocks; lia).
    case_if.
    + exists true. rewrite covered_cons. split; [done|]. split; [|done].
      left. unfold_blocks. lia.
    + destruct (IH fuel n sz (l1 ++ [x]) junk addr) as (b & H & Hb); [lia|len|done|].
      rewrite length_snoc_Z, <- !app_assoc in H. simpl in H. exists b. split; [done|].
      rewrite Hb, covered_cons. unfold_blocks. intuition lia.
Qed.

Lemma cnt_full rgn l : blocks rgn l -> cnt rgn = 8 -> length l = 8%nat.
Proof.
  intros [(Hc & _)|p l' (junk & _ & Hc & _) _ _] H8; rewrite Hc in H8; [done|]. simpl in *. lia.
Qed.

(** ** The life of the two tables *)

Lemma align_up_aligned a k :
  0 <= a < 2 ^ 64 -> 0 <= k < 64 -> (2 ^ k | a) -> lmb_align_up a (2 ^ k) = a.
Proof.
  intros Ha Hk [c ->]. assert (0 < 2 ^ k) by (apply Z.pow_pos_nonneg; lia).
  assert (2 ^ 64 = 2 ^ (64 - k) * 2 ^ k) as E by (rewrite <- Z.pow_add_r by lia; f_equal; lia).
  assert (c * 2 ^ k + 2 ^ k <= 2 ^ 64).
  { rewrite E in Ha |- *. revert Ha H. generalize (2 ^ k), (2 ^ (64 - k)). intros p q Ha Hp.
    assert (c < q) by nia. nia. }
  unfold lmb_align_up. rewrite (wrap_small 64 (c * 2 ^ k + _)) by lia.
  rewrite land_mask_pow2 by lia. rewrite Z.div_add_l, (Z.div_small (2 ^ k - 1)) by lia. lia.
Qed.

(** One call on the tables, with the conditions its caller must meet. *)
Inductive lmb_step (l : lmb) : lmb -> Prop :=
  | step_add lm base size ret l' :
      blocks (memory l) lm -> block_ok (mk_property base size) ->
      Forall (disjoint_blocks (mk_property base size)) lm ->
      lmb_add l base size = Some (ret, l') -> lmb_step l l'
  | step_reserve lr base size ret l' :
      blocks (reserved l) lr -> block_ok (mk_property base size) ->
      Forall (disjoint_blocks (mk_property base size)) lr ->
      lmb_reserve l base size = Some (ret, l') -> lmb_step l l'
  | step_free lr base size ret l' :
      blocks (reserved l) lr -> block_ok (mk_property base size) ->
      lr <> [mk_property base size] ->
      lmb_free l base size = Some (ret, l') -> lmb_step l l'
  | step_alloc size k max_addr ret l' :
      0 < size -> 0 <= k < 64 -> (2 ^ k | size) ->
      max_addr = LMB_ALLOC_ANYWHERE \/ size <= max_addr < 2 ^ 64 ->
      lmb_alloc_base l size (2 ^ k) max_addr = Some (ret, l') -> lmb_step l l'.

Definition lmb_ok (l : lmb) : Prop :=
  exists lm lr, blocks (memory l) lm /\ blocks (reserved l) lr.

Lemma lmb_init_ok l0 :
  length (region (memory l0)) = 9%nat -> length (region (reserved l0)) = 9%nat ->
  exists l, lmb_init l0 = Some l /\ lmb_ok l.
Proof.
  destruct l0 as [[n1 s1 [|p1 r1]] [n2 s2 [|p2 r2]]]; simpl; try done. intros H1 H2.
  eexists. split; [done|]. exists [], []. by split; apply blocks_dummy.
Qed.

Lemma add_result_blocks rgn l new ret rgn' :
  blocks rgn l -> add_result rgn l new ret rgn' -> exists l', blocks rgn' l'.
Proof. intros Hb [(_ & -> & _)|(_ & l' & Hb' & _)]; eauto. Qed.

Lemma alloc_keeps_ok l size k max_addr ret l' :
  lmb_ok l -> 0 < size -> 0 <= k < 64 -> (2 ^ k | size) ->
  max_addr = LMB_ALLOC_ANYWHERE \/ size <= max_addr < 2 ^ 64 ->
  lmb_alloc_base l size (2 ^ k) max_addr = Some (ret, l') -> lmb_ok l'.
Proof.
  intros (lm & lr & Hm & Hr) Hs Hk Hd Hmax Ha. destruct l as [mem res]. simpl in *.
  destruct (alloc_base_blocks res lr size k Hr Hs Hk mem lm max_addr Hm Hmax)
    as (ret' & l1 & Ha' & Hmem & Hsp).
  unfold lmb_alloc_base in Ha. rewrite Ha' in Ha. simplify_eq.
  destruct Hsp as [(m & b & c & Hin & Hfit & Hfree & _ & Hadd & _)|(_ & Hres & _)].
  - assert (block_ok m) as Hmok.
    { destruct Hm as [|? ? _ _ [Ho _]]; [set_solver|]. rewrite Forall_forall in Ho. auto. }
    destruct Hfit as (Hb0 & _ & Hlo & Hhi & _).
    rewrite align_up_aligned in Hadd by (done || unfold_blocks; lia).
    destruct (add_region_blocks res lr (mk_property b size)) as (c' & res' & Hadd' & Hr');
      [done|unfold_blocks; lia|done|]. simpl in Hadd'. rewrite Hadd in Hadd'. simplify_eq.
    destruct (add_result_blocks _ _ _ _ _ Hr Hr') as [lr' Hb']. by exists lm, lr'.
  - exists lm, lr. by rewrite Hres.
Qed.

Lemma lmb_step_ok l l' : lmb_ok l -> lmb_step l l' -> lmb_ok l'.
Proof.
  intros Hok Hstep. pose proof Hok as (lm & lr & Hm & Hr).
  destruct Hstep as [lm' b s ret l' Hb Hn Hd Ha|lr' b s ret l' Hb Hn Hd Ha
    |lr' b s ret l' Hb Hn Hd Ha|]; [..|by eapply alloc_keeps_ok].
  - unfold lmb_add in Ha. destruct (add_region_blocks _ _ _ Hb Hn Hd) as (c & rgn & Hadd & Hres).
    simpl in Hadd. rewrite Hadd in Ha. simplify_eq/=.
    destruct (add_result_blocks _ _ _ _ _ Hb Hres) as [l1 ?]. by exists l1, lr.
  - unfold lmb_reserve in Ha. destruct (add_region_blocks _ _ _ Hb Hn Hd) as (c & rgn & Hadd & Hres).
    simpl in Hadd. rewrite Hadd in Ha. simplify_eq/=.
    destruct (add_result_blocks _ _ _ _ _ Hb Hres) as [l1 ?]. by exists lm, l1.
  - unfold lmb_free in Ha.
    destruct (free_region_blocks _ _ _ Hb Hn) as [[_ Hf]|(p & _ & _ & c & rgn & Hf & Hres)];
      simpl in Hf; rewrite Hf in Ha; simplify_eq/=; [by exists lm, lr'|].
    destruct Hres as [(-> & -> & _)|[(_ & _ & _ & _ & l1 & ? & _)|(_ & l1 & ? & _)]];
      [done|by exists lm, l1..].
Qed.

(** ** Correctness of the operations *)

(** Adding a block that overlaps none of the table either adds exactly its
    addresses and keeps the table sorted, disjoint and coalesced, or, only when
    the table holds eight blocks and none touches the new one, returns -1 and
    changes nothing. *)
Theorem lmb_add_region_correct rgn l base size :
  blocks rgn l -> block_ok (mk_property base size) ->
  Forall (disjoint_blocks (mk_property base size)) l ->
  exists ret rgn', lmb_add_region rgn base size = Some (ret, rgn') /\
    ((ret = -1 /\ rgn' = rgn /\ length l = 8%nat /\
      Forall (fun p => ~ touching (mk_property base size) p) l) \/
     (0 <= ret /\ exists l', blocks rgn' l' /\
        forall a, covered l' a <-> covered l a \/ base <= a < base + size)).
Proof. apply add_region_blocks. Qed.

(** C26: whatever is added, to whatever a table of one to eight elements holds,
    no access of [lmb_add_region] leaves the array, the table stays in this
    shape, and the call is refused only when the table is full. *)
Theorem lmb_add_region_memory_safe rgn base size :
  table_ok rgn ->
  exists ret rgn', lmb_add_region rgn base size = Some (ret, rgn') /\ table_ok rgn' /\
    (ret < 0 -> cnt rgn = MAX_LMB_REGIONS).
Proof. apply add_region_safe. Qed.

(** Freeing a range that lies in one reserved block removes exactly its
    addresses and keeps the table well formed, with two exceptions: when the
    range is the only block the table is left with no element, and when the
    middle of a block is freed in a full table the call returns -1 after it
    has also released the rest of the block.  A range that lies in no block is
    refused without a change. *)
Theorem lmb_free_correct l lr base size :
  blocks (reserved l) lr -> block_ok (mk_property base size) ->
  (Forall (fun p => ~ contains p (mk_property base size)) lr /\
   lmb_free l base size = Some (-1, l)) \/
  (exists p, p ∈ lr /\ contains p (mk_property base size) /\
   exists ret l', lmb_free l base size = Some (ret, l') /\ memory l' = memory l /\
    ((lr = [mk_property base size] /\ ret = 0 /\ cnt (reserved l') = 0) \/
     (ret = -1 /\ length lr = 8%nat /\ lp_base p < base /\ base + size < lp_end p /\
      exists lr', blocks (reserved l') lr' /\
        forall a, covered lr' a <-> covered lr a /\ ~ (base <= a < lp_end p)) \/
     (0 <= ret /\ exists lr', blocks (reserved l') lr' /\
        forall a, covered lr' a <-> covered lr a /\ ~ (base <= a < base + size)))).
Proof.
  intros Hb Hn. unfold lmb_free.
  destruct (free_region_blocks _ _ _ Hb Hn) as [[Hno Hf]|(p & Hp & Hc & ret & rgn & Hf & Hres)];
    simpl in Hf; rewrite Hf; simpl.
  - left. by destruct l.
  - right. exists p. split; [done|]. split; [done|]. eexists _, _. split; [done|]. split; [done|].
    destruct Hres as [(-> & -> & -> & Hc0)|[H|H]]; [by left|right; by left|right; by right].
Qed.

(** What an allocation returns and reserves: the address is reserved with the
    size rounded up to the alignment. *)
Lemma lmb_alloc_spec l lm lr size k max_addr :
  blocks (memory l) lm -> blocks (reserved l) lr -> 0 < size -> 0 <= k < 64 ->
  max_addr = LMB_ALLOC_ANYWHERE \/ size <= max_addr < 2 ^ 64 ->
  exists ret l', lmb_alloc_base l size (2 ^ k) max_addr = Some (ret, l') /\
    memory l' = memory l /\
    (ret <> 0 -> (exists m, m ∈ lm /\ fits size (2 ^ k) max_addr m ret) /\
       free_at lr size ret /\
       (forall m b, m ∈ lm -> fits size (2 ^ k) max_addr m b -> free_at lr size b -> b <= ret) /\
       exists c, 0 <= c /\ lmb_add_region (reserved l) ret (lmb_align_up size (2 ^ k)) = Some (c, reserved l')) /\
    (ret = 0 -> length lr = 8%nat \/
       forall m b, m ∈ lm -> fits size (2 ^ k) max_addr m b -> ~ free_at lr size b).
Proof.
  intros Hm Hr Hs Hk Hmax. destruct l as [mem res].
  destruct (alloc_base_blocks res lr size k Hr Hs Hk mem lm max_addr Hm Hmax)
    as (ret & l' & Ha & Hmem & Hsp).
  exists ret, l'. split; [done|]. split; [done|].
  destruct Hsp as [(m & b & c & Hin & Hfit & Hfree & Hbest & Hadd & ->)|(-> & Hres & Hno)].
  - destruct (add_region_safe res b (lmb_align_up size (2 ^ k))) as (c' & r' & Hadd' & _ & Hfull);
      [by eapply blocks_table_ok|]. rewrite Hadd in Hadd'. simplify_eq.
    case_if; split; try done.
    + intros _. left. by eapply cnt_full; [|apply Hfull].
    + intros _. split_and!; eauto.
    + intros ->. by destruct Hfit.
  - split; [done|]. by right.
Qed.



(** When at least one range is reserved, [lmb_is_reserved] answers exactly
    whether the address lies in a reserved range. *)
Theorem lmb_is_reserved_correct l lr addr :
  blocks (reserved l) lr -> lr <> [] ->
  exists b, lmb_is_reserved l addr = Some b /\ (b = true <-> covered lr addr).
Proof.
  intros [|p lr' (junk & Hr & Hc & Hl) Hlen [Ho _]] Hne; [done|].
  unfold lmb_is_reserved. destruct (reserved l) as [n sz reg]. simpl in *. subst reg.
  apply (is_reserved_loop_spec (p :: lr') loop_fuel n sz [] junk addr);
    [unfold loop_fuel; len|done|done].
Qed.

(** ** Concrete tables *)

Definition ex_blocks : list lmb_property :=
  [mk_property 0x80000000 0x1000; mk_property 0x90000000 0x2000].
Definition ex_table : lmb_region :=
  mk_region 2 0 (ex_blocks ++ replicate 7 (mk_property 0 0)).
Definition ex_bank : lmb_region :=
  mk_region 1 0 (mk_property 0x80000000 0x40000000 :: replicate 8 (mk_property 0 0)).
Definition ex_lmb : lmb := mk_lmb ex_bank ex_table.
Definition ex_zero : lmb :=
  mk_lmb (mk_region 0 0 (replicate 9 (mk_property 0 0)))
         (mk_region 0 0 (replicate 9 (mk_property 0 0))).

Lemma ex_table_blocks : blocks ex_table ex_blocks.
Proof.
  apply blocks_cons; [by exists (replicate 7 (mk_property 0 0))|simpl; lia|].
  split; [|by repeat constructor]. repeat constructor; simpl; lia.
Qed.

Lemma ex_bank_blocks : blocks ex_bank [mk_property 0x80000000 0x40000000].
Proof.
  apply blocks_cons; [by exists (replicate 8 (mk_property 0 0))|simpl; lia|].
  split; [|by repeat constructor]. repeat constructor; simpl; lia.
Qed.

Lemma lmb_add_region_correct_witness :
  exists ret rgn', lmb_add_region ex_table 0x92000000 0x1000 = Some (ret, rgn') /\
    ((ret = -1 /\ rgn' = ex_table /\ length ex_blocks = 8%nat /\
      Forall (fun p => ~ touching (mk_property 0x92000000 0x1000) p) ex_blocks) \/
     (0 <= ret /\ exists l', blocks rgn' l' /\
        forall a, covered l' a <-> covered ex_blocks a \/
          0x92000000 <= a < 0x92000000 + 0x1000)).
Proof.
  apply lmb_add_region_correct; [apply ex_table_blocks|by repeat split|].
  repeat constructor; unfold_blocks; lia.
Defined.

Lemma lmb_add_region_memory_safe_witness :
  exists ret rgn', lmb_add_region ex_table 0x80000800 0x1000 = Some (ret, rgn') /\
    table_ok rgn' /\ (ret < 0 -> cnt ex_table = MAX_LMB_REGIONS).
Proof. apply lmb_add_region_memory_safe. by repeat split. Defined.

Lemma lmb_free_correct_witness :
  exists p, p ∈ ex_blocks /\ contains p (mk_property 0x90000800 0x800).
Proof.
  destruct (lmb_free_correct ex_lmb ex_blocks 0x90000800 0x800) as [[H _]|(p & Hp & Hc & _)];
    [apply ex_table_blocks|by repeat split| |by exists p].
  exfalso. apply Forall_cons in H as [_ [H _]%Forall_cons]. apply H.
  unfold contains. unfold_blocks. lia.
Defined.



Lemma lmb_is_reserved_correct_witness :
  exists b, lmb_is_reserved ex_lmb 0x90000fff = Some b /\ (b = true <-> covered ex_blocks 0x90000fff).
Proof. apply lmb_is_reserved_correct; [apply ex_table_blocks|done]. Defined.

(** ** Behaviour outside of these conditions *)

(** Freeing the only reserved block leaves a table of no element; the next
    [lmb_reserve] at a higher address then brings the freed block back and
    loses the new one. *)
Example lmb_reserve_after_free_lost :
  (l1 ← lmb_init ex_zero;
   '(_, l2) ← lmb_reserve l1 0x1000 0x1000;
   '(_, l3) ← lmb_free l2 0x1000 0x1000;
   '(ret, l4) ← lmb_reserve l3 0x5000 0x1000;
   old ← lmb_is_reserved l4 0x1000;
   new ← lmb_is_reserved l4 0x5000;
   Some (ret, old, new)) = Some (0, true, false).
Proof. vm_compute. reflexivity. Qed.

(** With a [max_addr] below [size] the candidate wraps around and an address
    outside of every bank is returned. *)
Example lmb_alloc_base_wraps :
  (l1 ← lmb_init ex_zero;
   '(_, l2) ← lmb_add l1 0 0x100000;
   '(ret, _) ← lmb_alloc_base l2 0x2000 0x1000 0x1000;
   Some ret) = Some (2 ^ 64 - 0x1000).
Proof. vm_compute. reflexivity. Qed.

(** With nothing reserved every address is reported as reserved: the dummy
    block of size zero makes [upper] wrap to the last address. *)
Example lmb_is_reserved_fresh :
  (l1 ← lmb_init ex_zero; lmb_is_reserved l1 0x12345) = Some true.
Proof. vm_compute. reflexivity. Qed.

(** A size that is no multiple of the alignment is rounded up only after the
    overlap test, so the reservation may overlap the next block. *)
Example lmb_alloc_rounded_overlap :
  (l1 ← lmb_init ex_zero;
   '(_, l2) ← lmb_add l1 0x1000 0x1000;
   '(_, l3) ← lmb_reserve l2 0x1500 0xb00;
   '(ret, l4) ← lmb_alloc l3 0x400 0x1000;
   Some (ret, take 2 (region (reserved l4)))) =
  Some (0x1000, [mk_property 0x1000 0x1000; mk_property 0x1500 0xb00]).
Proof. vm_compute. reflexivity. Qed.
