(* ===== verification/StringLib.v ===== *)
(** * C strings and memory areas ([lib/string.c], [lib/ctype.c],
      [include/linux/ctype.h])

    A C string is the list of its bytes: the list stands for memory that holds
    these bytes followed by a NUL, so reading at the end of the list gives 0.
    A pointer into a string is the rest of the list from there (or its offset
    where the code returns a pointer).  The functions that write work on a
    memory, a list of bytes indexed by address, with [aget] and [aset]: [None]
    is an access outside of it. *)

From S2P Require Import Prelude.
Local Open Scope Z_scope.

(** [*s] *)
Definition ch (s : list Z) : Z := hd 0 s.

(** [s + n] *)
Definition at_off (s : list Z) (n : Z) : list Z := drop (Z.to_nat n) s.

(** ** Character classes *)

Module Ctype.
Definition _U : Z := 0x01.
Definition _L : Z := 0x02.
Definition _D : Z := 0x04.
Definition _C : Z := 0x08.
Definition _P : Z := 0x10.
Definition _S : Z := 0x20.
Definition _X : Z := 0x40.
Definition _SP : Z := 0x80.

Local Notation "a | b" := (Z.lor a b) (at level 50, left associativity).

(** The table, in the runs of the source. *)
Definition _ctype : list Z :=
  replicate 9 _C ++ replicate 5 (_C | _S) ++ replicate 2 _C ++ replicate 16 _C ++
  [_S | _SP] ++ replicate 15 _P ++
  replicate 10 _D ++ replicate 6 _P ++
  [_P] ++ replicate 6 (_U | _X) ++ replicate 20 _U ++ replicate 5 _P ++
  [_P] ++ replicate 6 (_L | _X) ++ replicate 20 _L ++ replicate 4 _P ++ [_C] ++
  replicate 32 0 ++
  [_S | _SP] ++ replicate 31 _P ++
  replicate 23 _U ++ [_P] ++ replicate 7 _U ++ [_L] ++
  replicate 16 _L ++ replicate 7 _L ++ [_P] ++ replicate 8 _L.

Definition __ismask (x : Z) : Z := nth (Z.to_nat (u8 x)) _ctype 0.
End Ctype.
Import Ctype.

Definition has_mask (c m : Z) : bool := negb (Z.land (__ismask c) m =? 0).

Definition isalnum (c : Z) : bool := has_mask c (Z.lor (Z.lor _U _L) _D).
Definition isdigit (c : Z) : bool := has_mask c _D.
Definition islower (c : Z) : bool := has_mask c _L.
Definition isprint (c : Z) : bool :=
  has_mask c (Z.lor (Z.lor (Z.lor (Z.lor _P _U) _L) _D) _SP).
Definition isspace (c : Z) : bool := has_mask c _S.
Definition isupper (c : Z) : bool := has_mask c _U.
Definition isxdigit (c : Z) : bool := has_mask c (Z.lor _D _X).
Definition isblank (c : Z) : bool := (c =? 32) || (c =? 9).

Definition tolower (c : Z) : Z := if isupper c then u8 (c - (65 - 97)) else c.
Definition toupper (c : Z) : Z := if islower c then u8 (c - (97 - 65)) else c.

(** ** Comparison and search *)

Fixpoint strlen (s : list Z) : Z :=
  match s with
  | [] => 0
  | c :: s => if c =? 0 then 0 else 1 + strlen s
  end.

(** [count] is a [size_t]: the natural number of remaining characters. *)
Fixpoint strnlen (s : list Z) (count : nat) : Z :=
  match count with
  | O => 0
  | S count => if ch s =? 0 then 0 else 1 + strnlen (tl s) count
  end.

(** [__res] is a [signed char]. *)
Fixpoint strcmp (cs ct : list Z) : Z :=
  let res := swrap 8 (ch cs - ch ct) in
  match cs with
  | [] => res
  | c :: cs' => if negb (res =? 0) || (c =? 0) then res else strcmp cs' (tl ct)
  end.

Fixpoint strncmp (cs ct : list Z) (count : nat) : Z :=
  match count with
  | O => 0
  | S count =>
      let res := swrap 8 (ch cs - ch ct) in
      if negb (res =? 0) || (ch cs =? 0) || (Nat.eqb count 0) then res
      else strncmp (tl cs) (tl ct) count
  end.

Fixpoint strncasecmp (s1 s2 : list Z) (len : nat) : Z :=
  match len with
  | O => 0
  | S len =>
      let c1 := ch s1 in
      let c2 := ch s2 in
      if (c1 =? 0) || (c2 =? 0) then c1 - c2
      else
        let '(d1, d2) := if c1 =? c2 then (c1, c2) else (tolower c1, tolower c2) in
        if negb (d1 =? d2) || (Nat.eqb len 0) then d1 - d2
        else strncasecmp (tl s1) (tl s2) len
  end.

(** The offset of the first [(char) c], which may be the NUL. *)
Fixpoint strchr (s : list Z) (c : Z) : option Z :=
  match s with
  | [] => if 0 =? u8 c then Some 0 else None
  | x :: s' =>
      if x =? u8 c then Some 0
      else if x =? 0 then None
      else i ← strchr s' c; Some (1 + i)
  end.

(** The [do .. while (--p >= s)] loop of [strrchr], from the offset [n]. *)
Fixpoint strrchr_loop (s : list Z) (c : Z) (n : nat) : option Z :=
  if nth n s 0 =? u8 c then Some (Z.of_nat n)
  else match n with O => None | S n => strrchr_loop s c n end.

Definition strrchr (s : list Z) (c : Z) : option Z :=
  strrchr_loop s c (Z.to_nat (strlen s)).

(** [for (r = set; *r != '\0'; ++r) if ( *p == *r) ..] *)
Fixpoint in_set (c : Z) (set : list Z) : bool :=
  match set with
  | [] => false
  | r :: set => if r =? 0 then false else (c =? r) || in_set c set
  end.

Fixpoint strcspn (s reject : list Z) : Z :=
  match s with
  | [] => 0
  | c :: s => if (c =? 0) || in_set c reject then 0 else 1 + strcspn s reject
  end.

Fixpoint strspn (s accept : list Z) : Z :=
  match s with
  | [] => 0
  | c :: s => if (c =? 0) || negb (in_set c accept) then 0 else 1 + strspn s accept
  end.

Fixpoint strpbrk (cs ct : list Z) : option Z :=
  match cs with
  | [] => None
  | c :: cs =>
      if c =? 0 then None
      else if in_set c ct then Some 0
      else i ← strpbrk cs ct; Some (1 + i)
  end.

(** [memcmp] of the first [count] bytes. *)
Fixpoint memcmp (cs ct : list Z) (count : nat) : Z :=
  match count with
  | O => 0
  | S count =>
      let res := ch cs - ch ct in
      if negb (res =? 0) then res else memcmp (tl cs) (tl ct) count
  end.

(** The [while (l1 >= l2)] loop of [strstr]: [n] is [l1 - l2 + 1]. *)
Fixpoint strstr_loop (s1 s2 : list Z) (l2 : nat) (n : nat) : option Z :=
  match n with
  | O => None
  | S n =>
      if memcmp s1 s2 l2 =? 0 then Some 0
      else i ← strstr_loop (tl s1) s2 l2 n; Some (1 + i)
  end.

Definition strstr (s1 s2 : list Z) : option Z :=
  let l2 := Z.to_nat (strlen s2) in
  if Nat.eqb l2 0 then Some 0
  else
    let l1 := Z.to_nat (strlen s1) in
    strstr_loop s1 s2 l2 (S l1 - l2)%nat.

(** ** Memory areas *)

(** [while (count--) *d8++ = *s8++] *)
Fixpoint copy_bytes (mem : list Z) (d s : Z) (count : nat) : option (list Z) :=
  match count with
  | O => Some mem
  | S count =>
      c ← aget mem s;
      mem' ← aset mem d c;
      copy_bytes mem' (d + 1) (s + 1) count
  end.

(** One 64-bit load followed by one 64-bit store: the eight bytes. *)
Definition load8 (mem : list Z) (s : Z) : option (list Z) :=
  if (0 <=? s) && (s + 8 <=? Z.of_nat (length mem))
  then Some (take 8 (drop (Z.to_nat s) mem)) else None.

Definition store8 (mem : list Z) (d : Z) (w : list Z) : option (list Z) :=
  if (0 <=? d) && (d + 8 <=? Z.of_nat (length mem))
  then Some (take (Z.to_nat d) mem ++ w ++ drop (Z.to_nat d + 8) mem) else None.

(** The [while (count >= sizeof( *dl))] loop, then the byte loop. *)
Fixpoint copy_words (mem : list Z) (d s : Z) (words : nat) (rest : nat) : option (list Z) :=
  match words with
  | O => copy_bytes mem d s rest
  | S words =>
      w ← load8 mem s;
      mem' ← store8 mem d w;
      copy_words mem' (d + 8) (s + 8) words rest
  end.

Definition memcpy (mem : list Z) (dest src : Z) (count : nat) : option (list Z) :=
  if src =? dest then Some mem
  else if Z.land (Z.lor dest src) 7 =? 0
  then copy_words mem dest src (count / 8) (count mod 8)
  else copy_bytes mem dest src count.

(** [while (count--) *--tmp = *--s], with [tmp] and [s] at the ends. *)
Fixpoint copy_back (mem : list Z) (d s : Z) (count : nat) : option (list Z) :=
  match count with
  | O => Some mem
  | S count =>
      c ← aget mem (s - 1);
      mem' ← aset mem (d - 1) c;
      copy_back mem' (d - 1) (s - 1) count
  end.

Definition memmove (mem : list Z) (dest src : Z) (count : nat) : option (list Z) :=
  if dest <=? src then memcpy mem dest src count
  else copy_back mem (dest + Z.of_nat count) (src + Z.of_nat count) count.

Fixpoint fill_bytes (mem : list Z) (d c : Z) (count : nat) : option (list Z) :=
  match count with
  | O => Some mem
  | S count => mem' ← aset mem d (u8 c); fill_bytes mem' (d + 1) c count
  end.

(** The word [cl] that [memset] builds: [cl <<= 8; cl |= c & 0xff], eight times. *)
Fixpoint memset_word (cl c : Z) (i : nat) : Z :=
  match i with
  | O => cl
  | S i => memset_word (Z.lor (u64 (Z.shiftl cl 8)) (Z.land c 0xff)) c i
  end.

(** The bytes of a little-endian 64-bit word. *)
Fixpoint word_bytes (n : nat) (w : Z) : list Z :=
  match n with
  | O => []
  | S n => u8 w :: word_bytes n (Z.shiftr w 8)
  end.

Fixpoint fill_words (mem : list Z) (d cl c : Z) (words rest : nat) : option (list Z) :=
  match words with
  | O => fill_bytes mem d c rest
  | S words =>
      mem' ← store8 mem d (word_bytes 8 cl);
      fill_words mem' (d + 8) cl c words rest
  end.

Definition memset (mem : list Z) (s c : Z) (count : nat) : option (list Z) :=
  if Z.land s 7 =? 0
  then fill_words mem s (memset_word 0 c 8) c (count / 8) (count mod 8)
  else fill_bytes mem s c count.

(** [memscan]: the offset of the first [c], or [size]. *)
Fixpoint memscan (s : list Z) (c : Z) (size : nat) : Z :=
  match size with
  | O => 0
  | S size => if ch s =? c then 0 else 1 + memscan (tl s) c size
  end.

Fixpoint memchr (s : list Z) (c : Z) (n : nat) : option Z :=
  match n with
  | O => None
  | S n => if u8 c =? ch s then Some 0 else i ← memchr (tl s) c n; Some (1 + i)
  end.

Fixpoint check_bytes8 (start : list Z) (value : Z) (bytes : nat) : option Z :=
  match bytes with
  | O => None
  | S bytes =>
      if negb (ch start =? value) then Some 0
      else i ← check_bytes8 (tl start) value bytes; Some (1 + i)
  end.

(** A little-endian load of the bytes [bs]. *)
Fixpoint word_of (bs : list Z) : Z :=
  match bs with
  | [] => 0
  | b :: bs => b + 256 * word_of bs
  end.

(** The [while (words)] loop of [memchr_inv] and the check of the last bytes;
    [off] is how far [start] has advanced. *)
Fixpoint inv_words (start : list Z) (value value64 off : Z) (words rest : nat) : option Z :=
  match words with
  | O => Z.add off <$> check_bytes8 start value rest
  | S words =>
      if negb (word_of (take 8 start) =? value64)
      then Z.add off <$> check_bytes8 start value 8
      else inv_words (drop 8 start) value value64 (off + 8) words rest
  end.

(** [value64 = value; value64 |= value64 << 8; .. << 16; .. << 32] *)
Definition inv_value64 (value : Z) : Z :=
  let v := Z.lor value (u64 (Z.shiftl value 8)) in
  let v := Z.lor v (u64 (Z.shiftl v 16)) in
  Z.lor v (u64 (Z.shiftl v 32)).

(** [addr] is the address of [start]; [words] is an [unsigned int]. *)
Definition memchr_inv (addr : Z) (start : list Z) (c : Z) (bytes : nat) : option Z :=
  let value := u8 c in
  if (bytes <=? 16)%nat then check_bytes8 start value bytes
  else
    let value64 := inv_value64 value in
    let words n := Z.to_nat (u32 (Z.of_nat n / 8)) in
    let prefix := Z.to_nat (addr mod 8) in
    if Nat.eqb prefix 0 then inv_words start value value64 0 (words bytes) (bytes mod 8)
    else
      let prefix := (8 - prefix)%nat in
      match check_bytes8 start value prefix with
      | Some r => Some r
      | None =>
          let bytes := (bytes - prefix)%nat in
          inv_words (drop prefix start) value value64 (Z.of_nat prefix) (words bytes) (bytes mod 8)
      end.

(** [while (( *dest++ = *src++) != '\0')] *)
Fixpoint strcpy (mem : list Z) (dest : Z) (src : list Z) : option (list Z) :=
  mem' ← aset mem dest (ch src);
  match src with
  | [] => Some mem'
  | c :: src => if c =? 0 then Some mem' else strcpy mem' (dest + 1) src
  end.

Fixpoint strncpy (mem : list Z) (dest : Z) (src : list Z) (count : nat) : option (list Z) :=
  match count with
  | O => Some mem
  | S count =>
      mem' ← aset mem dest (ch src);
      if ch src =? 0 then Some mem' else strncpy mem' (dest + 1) (tl src) count
  end.

(** [memcpy] from another object: its bytes are stored one after the other. *)
Fixpoint store_bytes (mem : list Z) (dest : Z) (bytes : list Z) : option (list Z) :=
  match bytes with
  | [] => Some mem
  | b :: bytes => mem' ← aset mem dest b; store_bytes mem' (dest + 1) bytes
  end.

Definition strlcpy (mem : list Z) (dest : Z) (src : list Z) (size : Z) : option (Z * list Z) :=
  let ret := strlen src in
  if negb (size =? 0) then
    let len := if size <=? ret then size - 1 else ret in
    mem1 ← store_bytes mem dest (take (Z.to_nat len) src);
    mem2 ← aset mem1 (dest + len) 0;
    Some (ret, mem2)
  else Some (ret, mem).

(** [while ( *dest) dest++], in at most [fuel] steps (the size of the memory). *)
Fixpoint find_end (fuel : nat) (mem : list Z) (dest : Z) : option Z :=
  match fuel with
  | O => None
  | S fuel =>
      c ← aget mem dest;
      if c =? 0 then Some dest else find_end fuel mem (dest + 1)
  end.

Definition strcat (mem : list Z) (dest : Z) (src : list Z) : option (list Z) :=
  e ← find_end (S (length mem)) mem dest;
  strcpy mem e src.

(** [while (( *dest++ = *src++)) if (--count == 0) { *dest = '\0'; break; }] *)
Fixpoint strncat_loop (mem : list Z) (dest : Z) (src : list Z) (count : nat) : option (list Z) :=
  match count with
  | O => None
  | S count =>
      mem' ← aset mem dest (ch src);
      if ch src =? 0 then Some mem'
      else if Nat.eqb count 0 then aset mem' (dest + 1) 0
      else strncat_loop mem' (dest + 1) (tl src) count
  end.

Definition strncat (mem : list Z) (dest : Z) (src : list Z) (count : nat) : option (list Z) :=
  if Nat.eqb count 0 then Some mem
  else
    e ← find_end (S (length mem)) mem dest;
    strncat_loop mem e src count.

(** ** Specification *)

Definition byte_ok (c : Z) : Prop := 0 <= c < 256.

(** The bytes of a C string: no NUL among them. *)
Definition cstring (s : list Z) : Prop := Forall (fun c => 0 < c < 256) s.

(** The bytes [bs] written at address [d]. *)
Definition blit (mem : list Z) (d : nat) (bs : list Z) : list Z :=
  take d mem ++ bs ++ drop (d + length bs) mem.

Definition slice (mem : list Z) (s n : nat) : list Z := take n (drop s mem).

(** ** Lemmas on strings *)

Lemma strlen_cstring s : cstring s -> strlen s = Z.of_nat (length s).
Proof.
  induction 1 as [|c s Hc _ IH]; [done|]. simpl. rewrite (proj2 (Z.eqb_neq c 0)) by lia. lia.
Qed.

Lemma swrap8_0 a b : byte_ok a -> byte_ok b -> swrap 8 (a - b) = 0 <-> a = b.
Proof.
  unfold byte_ok, swrap. intros Ha Hb. change (2 ^ (8 - 1)) with 128. change (2 ^ 8) with 256.
  split; [|intros ->; by rewrite Z.sub_diag].
  intros H. assert ((a - b + 128) mod 256 = 128) as Hm by lia.
  pose proof (Z.div_mod (a - b + 128) 256). lia.
Qed.

Lemma ch_cstring s : cstring s -> byte_ok (ch s).
Proof. unfold byte_ok. destruct 1; simpl; lia. Qed.

Lemma tl_cstring s : cstring s -> cstring (tl s).
Proof. unfold cstring. by destruct 1; [constructor|]. Qed.

#[export] Hint Resolve ch_cstring tl_cstring : uboot.

Lemma strcmp_0 s : forall t, cstring s -> cstring t -> strcmp s t = 0 <-> s = t.
Proof.
  induction s as [|c s IH]; intros t Hs Ht.
  - change (strcmp [] t) with (swrap 8 (ch [] - ch t)).
    rewrite swrap8_0 by auto with uboot.
    destruct Ht; simpl; [done|]. split; [lia|done].
  - inversion Hs as [|? ? Hc Hs']; subst.
    change (strcmp (c :: s) t) with
      (if negb (swrap 8 (c - ch t) =? 0) || (c =? 0) then swrap 8 (c - ch t) else strcmp s (tl t)).
    pose proof (ch_cstring t Ht) as Hct.
    pose proof (swrap8_0 c (ch t) ltac:(unfold byte_ok; lia) Hct) as H0.
    rewrite (proj2 (Z.eqb_neq c 0)) by lia. rewrite orb_false_r.
    destruct (swrap 8 (c - ch t) =? 0) eqn:E; bool_to_prop; simpl.
    + apply H0 in E. destruct Ht as [|d t Hd Ht]; simpl in *; [lia|]. subst d.
      rewrite (IH t Hs' Ht). naive_solver.
    + split; [done|]. intros <-. simpl in H0. naive_solver.
Qed.

(** ** Lemmas on memory areas *)

Lemma lookup_blit mem d bs i :
  (d + length bs <= length mem)%nat ->
  blit mem d bs !! i =
    if decide (d <= i < d + length bs)%nat then bs !! (i - d)%nat else mem !! i.
Proof.
  intros Hl. unfold blit. destruct (decide (i < d)%nat).
  - rewrite lookup_app_l by (rewrite length_take; lia). rewrite lookup_take_lt by lia.
    case_decide; [lia|done].
  - rewrite lookup_app_r by (rewrite length_take; lia). rewrite length_take, Nat.min_l by lia.
    destruct (decide (i < d + length bs)%nat).
    + rewrite lookup_app_l by lia. case_decide; [done|lia].
    + rewrite lookup_app_r by lia. rewrite lookup_drop. case_decide; [lia|]. f_equal. lia.
Qed.

Lemma length_blit mem d bs :
  (d + length bs <= length mem)%nat -> length (blit mem d bs) = length mem.
Proof. intros. unfold blit. rewrite !length_app, length_take, length_drop. lia. Qed.

Lemma lookup_slice mem s n i : slice mem s n !! i = if decide (i < n)%nat then mem !! (s + i)%nat else None.
Proof.
  unfold slice. case_decide.
  - by rewrite lookup_take_lt, lookup_drop by lia.
  - apply lookup_ge_None. rewrite length_take. lia.
Qed.

Lemma length_slice mem s n : (s + n <= length mem)%nat -> length (slice mem s n) = n.
Proof. intros. unfold slice. rewrite length_take, length_drop. lia. Qed.

(** What a copy of [n] bytes from [s] to [d] leaves at every address. *)
Definition copied (mem mem' : list Z) (d s n : nat) : Prop :=
  length mem' = length mem /\
  forall i, mem' !! i = if decide (d <= i < d + n)%nat then mem !! (s + (i - d))%nat else mem !! i.

Lemma copied_blit mem mem' d s n :
  (d + n <= length mem)%nat -> (s + n <= length mem)%nat ->
  copied mem mem' d s n -> mem' = blit mem d (slice mem s n).
Proof.
  intros Hd Hs [Hl H]. apply list_eq. intros i.
  rewrite H, lookup_blit, length_slice by (rewrite ?length_slice; lia).
  repeat case_decide; try lia; [|done]. rewrite lookup_slice. case_decide; [done|lia].
Qed.

(** A copy of [n1] bytes followed by a copy of the next [n2] bytes. *)
Lemma copied_app mem mem1 mem2 d s n1 n2 :
  (d <= s \/ s + n1 + n2 <= d)%nat ->
  copied mem mem1 d s n1 -> copied mem1 mem2 (d + n1) (s + n1) n2 ->
  copied mem mem2 d s (n1 + n2).
Proof.
  intros Hds [Hl1 H1] [Hl2 H2]. split; [congruence|]. intros i. rewrite H2, !H1.
  repeat case_decide; try lia; f_equal; lia.
Qed.

Lemma copied_0 mem d s : copied mem mem d s 0.
Proof. split; [done|]. intros i. case_decide; [lia|done]. Qed.

Lemma copy_bytes_copied n : forall mem (d s : nat),
  (d <= s \/ s + n <= d)%nat -> (d + n <= length mem)%nat -> (s + n <= length mem)%nat ->
  exists mem', copy_bytes mem (Z.of_nat d) (Z.of_nat s) n = Some mem' /\ copied mem mem' d s n.
Proof.
  induction n as [|n IH]; intros mem d s Hds Hd Hs; simpl.
  - eexists; split; [done|]. apply copied_0.
  - rewrite aget_lookup. destruct (mem !! s) as [c|] eqn:Hc; [|apply lookup_ge_None in Hc; lia].
    simpl. rewrite aset_nat by lia. simpl.
    replace (Z.of_nat d + 1) with (Z.of_nat (d + 1)) by lia.
    replace (Z.of_nat s + 1) with (Z.of_nat (s + 1)) by lia.
    destruct (IH (<[d:=c]> mem) (d + 1)%nat (s + 1)%nat) as (mem' & -> & H);
      [lia|rewrite length_insert; lia..|].
    exists mem'. split; [done|]. apply (copied_app mem (<[d:=c]> mem) mem' d s 1 n); [lia| |done].
    split; [apply length_insert|]. intros i. rewrite list_lookup_insert.
    repeat case_decide; try lia; [|done]. replace (s + (i - d))%nat with s by lia. done.
Qed.

Lemma store_load8 mem d s :
  (d + 8 <= length mem)%nat -> (s + 8 <= length mem)%nat ->
  exists w, load8 mem (Z.of_nat s) = Some w /\
    store8 mem (Z.of_nat d) w = Some (blit mem d (slice mem s 8)) /\ w = slice mem s 8.
Proof.
  intros Hd Hs. unfold load8, store8, blit. rewrite !Nat2Z.id.
  case_if; [|lia]. eexists. split; [done|]. case_if; [|lia].
  split; [|done]. by rewrite length_slice by lia.
Qed.

Lemma blit_copied mem d s n :
  (d + n <= length mem)%nat -> (s + n <= length mem)%nat ->
  copied mem (blit mem d (slice mem s n)) d s n.
Proof.
  intros Hd Hs. split; [by apply length_blit; rewrite length_slice|]. intros i.
  rewrite lookup_blit, length_slice by (rewrite ?length_slice; lia).
  case_decide; [|done]. rewrite lookup_slice. case_decide; [done|lia].
Qed.

Lemma copy_words_copied w : forall mem (d s : nat) n,
  (d <= s \/ s + (8 * w + n) <= d)%nat -> (d + (8 * w + n) <= length mem)%nat ->
  (s + (8 * w + n) <= length mem)%nat ->
  exists mem', copy_words mem (Z.of_nat d) (Z.of_nat s) w n = Some mem' /\
    copied mem mem' d s (8 * w + n).
Proof.
  induction w as [|w IH]; intros mem d s n Hds Hd Hs; [by apply copy_bytes_copied|].
  cbn [copy_words]. destruct (store_load8 mem d s) as (bs & -> & Hst & _); [lia..|].
  step_bind. rewrite Hst. step_bind.
  replace (Z.of_nat d + 8) with (Z.of_nat (d + 8)) by lia.
  replace (Z.of_nat s + 8) with (Z.of_nat (s + 8)) by lia.
  assert (length (blit mem d (slice mem s 8)) = length mem) as Hl
    by (apply length_blit; rewrite length_slice; lia).
  destruct (IH (blit mem d (slice mem s 8)) (d + 8)%nat (s + 8)%nat n) as (mem' & -> & H);
    [lia|rewrite Hl; lia..|].
  exists mem'. split; [done|].
  replace (8 * S w + n)%nat with (8 + (8 * w + n))%nat by lia.
  eapply copied_app; [lia|apply blit_copied; lia|done].
Qed.

Lemma copied_same mem d n : copied mem mem d d n.
Proof. split; [done|]. intros i. case_decide; [|done]. f_equal. lia. Qed.

Lemma memcpy_copied mem (d s n : nat) :
  (d <= s \/ s + n <= d)%nat -> (d + n <= length mem)%nat -> (s + n <= length mem)%nat ->
  exists mem', memcpy mem (Z.of_nat d) (Z.of_nat s) n = Some mem' /\ copied mem mem' d s n.
Proof.
  intros Hds Hd Hs. unfold memcpy. case_if.
  - apply Nat2Z.inj in E as ->. eexists; split; [done|]. apply copied_same.
  - case_if; [|by apply copy_bytes_copied].
    pose proof (Nat.div_mod_eq n 8) as Hn.
    destruct (copy_words_copied (n / 8) mem d s (n mod 8)) as (mem' & H1 & H2); [lia..|].
    rewrite <- Hn in H2. by exists mem'.
Qed.

Lemma copy_back_copied n : forall mem (d s : nat),
  (s <= d)%nat -> (d + n <= length mem)%nat ->
  exists mem', copy_back mem (Z.of_nat (d + n)) (Z.of_nat (s + n)) n = Some mem' /\
    copied mem mem' d s n.
Proof.
  induction n as [|n IH]; intros mem d s Hds Hd; simpl.
  - eexists; split; [done|]. apply copied_0.
  - replace (Z.of_nat (s + S n) - 1) with (Z.of_nat (s + n)) by lia.
    replace (Z.of_nat (d + S n) - 1) with (Z.of_nat (d + n)) by lia.
    rewrite aget_lookup.
    destruct (mem !! (s + n)%nat) as [c|] eqn:Hc; [|apply lookup_ge_None in Hc; lia].
    simpl. rewrite aset_nat by lia. simpl.
    destruct (IH (<[(d + n)%nat:=c]> mem) d s) as (mem' & -> & [Hl H]);
      [lia|rewrite length_insert; lia|].
    exists mem'. split; [done|]. split; [by rewrite Hl, length_insert|].
    intros i. rewrite H, !list_lookup_insert. repeat case_decide; try lia; try done.
    rewrite <- Hc. f_equal. lia.
Qed.

Lemma memmove_copied mem (d s n : nat) :
  (d + n <= length mem)%nat -> (s + n <= length mem)%nat ->
  exists mem', memmove mem (Z.of_nat d) (Z.of_nat s) n = Some mem' /\ copied mem mem' d s n.
Proof.
  intros Hd Hs. unfold memmove. case_if.
  - apply memcpy_copied; lia.
  - rewrite <- !Nat2Z.inj_add. apply copy_back_copied; lia.
Qed.

(** *** Filling *)

Lemma fill_bytes_blit n : forall mem (d : nat) c,
  (d + n <= length mem)%nat ->
  fill_bytes mem (Z.of_nat d) c n = Some (blit mem d (replicate n (u8 c))).
Proof.
  induction n as [|n IH]; intros mem d c Hd; simpl.
  - unfold blit. simpl. by rewrite Nat.add_0_r, take_drop.
  - rewrite aset_nat by lia. simpl.
    replace (Z.of_nat d + 1) with (Z.of_nat (d + 1)) by lia.
    rewrite IH by (rewrite length_insert; lia). f_equal. apply list_eq. intros i.
    rewrite !lookup_blit by (rewrite ?length_insert; simpl; rewrite ?length_replicate; lia).
    simpl. rewrite !length_replicate, list_lookup_insert.
    repeat case_decide; try lia; try done.
    + change (u8 c :: replicate n (u8 c)) with (replicate (S n) (u8 c)).
      by rewrite !lookup_replicate_2 by lia.
    + change (u8 c :: replicate n (u8 c)) with (replicate (S n) (u8 c)).
      by rewrite lookup_replicate_2 by lia.
Qed.

Lemma memset_word_u8 i : forall cl c, memset_word cl c i = memset_word cl (u8 c) i.
Proof.
  induction i as [|i IH]; intros cl c; simpl; [done|]. rewrite IH. do 2 f_equal.
  change 255 with (Z.ones 8). rewrite !Z.land_ones by lia. unfold wrap. by rewrite Z.mod_mod.
Qed.

Lemma memset_word_bytes c : word_bytes 8 (memset_word 0 c 8) = replicate 8 (u8 c).
Proof.
  rewrite memset_word_u8.
  assert (forallb (fun b => bool_decide (word_bytes 8 (memset_word 0 b 8) = replicate 8 b))
            (seqZ 0 256) = true) as H by (vm_compute; reflexivity).
  eapply bool_decide_eq_true_1, (byte_enum _ H). by apply (wrap_range 8).
Qed.

Lemma fill_words_blit w : forall mem (d : nat) c n,
  (d + (8 * w + n) <= length mem)%nat ->
  fill_words mem (Z.of_nat d) (memset_word 0 c 8) c w n =
    Some (blit mem d (replicate (8 * w + n) (u8 c))).
Proof.
  induction w as [|w IH]; intros mem d c n Hd; [by apply fill_bytes_blit|].
  cbn [fill_words]. rewrite memset_word_bytes. unfold store8. case_if; [|lia].
  step_bind. rewrite Nat2Z.id.
  change (take d mem ++ replicate 8 (u8 c) ++ drop (d + 8) mem)
    with (blit mem d (replicate 8 (u8 c))).
  replace (Z.of_nat d + 8) with (Z.of_nat (d + 8)) by lia.
  rewrite IH by (rewrite length_blit; rewrite ?length_replicate; lia).
  f_equal. apply list_eq. intros i.
  rewrite !lookup_blit by (rewrite ?length_blit, ?length_replicate; rewrite ?length_replicate; lia).
  rewrite !length_replicate.
  repeat case_decide; try lia; try done; by rewrite !lookup_replicate_2 by lia.
Qed.

(** *** Searching for a byte that differs *)

Lemma check_bytes8_app n : forall s v m,
  check_bytes8 s v (n + m) =
    match check_bytes8 s v n with
    | Some i => Some i
    | None => Z.add (Z.of_nat n) <$> check_bytes8 (drop n s) v m
    end.
Proof.
  induction n as [|n IH]; intros s v m; cbn [Nat.add check_bytes8].
  - rewrite drop_0. destruct (check_bytes8 s v m); [|done]. simpl. f_equal.
  - case_if; [done|]. rewrite IH. destruct (check_bytes8 (tail s) v n); [done|].
    replace (drop (S n) s) with (drop n (tail s)) by (by destruct s; [destruct n|]).
    destruct (check_bytes8 (drop n (tail s)) v m); [|done]. simpl. f_equal. lia.
Qed.

Lemma check_bytes8_None n : forall s v,
  (n <= length s)%nat -> check_bytes8 s v n = None <-> take n s = replicate n v.
Proof.
  induction n as [|n IH]; intros [|c s] v Hl; simpl in *; try lia; try done.
  case_if; [by split; [|intros [=]]|]. subst c. specialize (IH s v ltac:(lia)).
  destruct (check_bytes8 s v n); simpl; split; try done.
  - intros [= H]. by apply IH in H.
  - intros _. f_equal. by apply IH.
Qed.

Lemma word_of_inj b1 : forall b2,
  length b1 = length b2 -> Forall byte_ok b1 -> Forall byte_ok b2 ->
  word_of b1 = word_of b2 -> b1 = b2.
Proof.
  induction b1 as [|x b1 IH]; intros [|y b2] Hl H1 H2 He; simpl in *; try done.
  inversion H1; inversion H2; subst. unfold byte_ok in *.
  assert (word_of b1 = word_of b2 /\ x = y) as [? ->] by lia.
  f_equal. apply IH; auto.
Qed.

Lemma inv_value64_word v : byte_ok v -> inv_value64 v = word_of (replicate 8 v).
Proof.
  intros Hv.
  assert (forallb (fun v => bool_decide (inv_value64 v = word_of (replicate 8 v)))
            (seqZ 0 256) = true) as H by (vm_compute; reflexivity).
  eapply bool_decide_eq_true_1, (byte_enum _ H v). done.
Qed.

Lemma inv_words_check w : forall s v off n,
  byte_ok v -> Forall byte_ok s -> (8 * w + n <= length s)%nat ->
  inv_words s v (inv_value64 v) off w n = Z.add off <$> check_bytes8 s v (8 * w + n).
Proof.
  induction w as [|w IH]; intros s v off n Hv Hs Hl; [done|].
  replace (8 * S w + n)%nat with (8 + (8 * w + n))%nat by lia.
  rewrite check_bytes8_app. cbn [inv_words]. rewrite inv_value64_word by done.
  pose proof (check_bytes8_None 8 s v ltac:(lia)) as H8. case_if.
  - destruct (check_bytes8 s v 8); [done|]. exfalso. apply E. by rewrite (proj1 H8).
  - rewrite (proj2 H8).
    + rewrite <- inv_value64_word by done. rewrite IH; [|done|by apply Forall_drop|rewrite length_drop; lia].
      destruct (check_bytes8 (drop 8 s) v (8 * w + n)); [|done]. simpl. f_equal. lia.
    + apply word_of_inj; [|by apply Forall_take|by apply Forall_replicate|done].
      rewrite length_take, length_replicate. lia.
Qed.

(** *** Substrings *)

Lemma memcmp_0 n : forall s t,
  (n <= length s)%nat -> (n <= length t)%nat -> memcmp s t n = 0 <-> take n s = take n t.
Proof.
  induction n as [|n IH]; intros [|x s] [|y t] Hs Ht; simpl in *; try lia; try done.
  specialize (IH s t ltac:(lia) ltac:(lia)). case_if.
  - split; [lia|]. intros [= ? _]. lia.
  - rewrite IH. assert (x = y) as -> by lia. split; [intros ->|intros [= ->]]; done.
Qed.

(** [t] occurs in [s] at the offset [i]. *)
Definition occurs (t s : list Z) (i : nat) : Prop := take (length t) (drop i s) = t.

Lemma strstr_loop_spec n : forall s t,
  (n + length t <= S (length s))%nat -> n <> 0%nat ->
  match strstr_loop s t (length t) n with
  | Some i => exists k, i = Z.of_nat k /\ (k < n)%nat /\ occurs t s k /\
      forall j, (j < k)%nat -> ~ occurs t s j
  | None => forall j, (j < n)%nat -> ~ occurs t s j
  end.
Proof.
  induction n as [|n IH]; intros s t Hl Hn; [done|]. simpl.
  assert (memcmp s t (length t) = 0 <-> occurs t s 0) as Hm.
  { rewrite memcmp_0 by lia. unfold occurs. by rewrite drop_0, (take_ge t) by lia. }
  case_if.
  - exists 0%nat. split_and!; [done|lia|by apply Hm|lia].
  - assert (forall j, occurs t (tail s) j <-> occurs t s (S j)) as Ho
      by (intros j; unfold occurs; by destruct s; [destruct j|]).
    destruct n as [|n].
    + simpl. intros [|j] Hj; [|lia]. by rewrite <- Hm.
    + specialize (IH (tail s) t ltac:(destruct s; simpl in *; lia) ltac:(done)).
      destruct (strstr_loop (tail s) t (length t) (S n)) as [i|]; simpl.
      * destruct IH as (k & -> & Hk & Hoc & Hmin). exists (S k).
        split_and!; [lia|lia|by apply Ho|]. intros [|j] Hj; [by rewrite <- Hm|].
        rewrite <- Ho. apply Hmin. lia.
      * intros [|j] Hj; [by rewrite <- Hm|]. rewrite <- Ho. apply IH. lia.
Qed.

Lemma strstr_spec s t :
  cstring s -> cstring t -> t <> [] ->
  match strstr s t with
  | Some i => exists k, i = Z.of_nat k /\ occurs t s k /\ forall j, (j < k)%nat -> ~ occurs t s j
  | None => forall j, ~ occurs t s j
  end.
Proof.
  intros Hs Ht Hne. unfold strstr. rewrite !strlen_cstring, !Nat2Z.id by done.
  destruct (Nat.eqb_spec (length t) 0) as [H0|H0]; [by destruct t|].
  assert (forall j, (length s < j + length t)%nat -> ~ occurs t s j) as Hfar.
  { intros j Hj Ho. apply (f_equal length) in Ho. rewrite length_take, length_drop in Ho. lia. }
  destruct (decide (length t <= length s)%nat) as [Hle|Hgt].
  - pose proof (strstr_loop_spec (S (length s) - length t) s t ltac:(lia) ltac:(lia)) as H.
    destruct (strstr_loop _ _ _ _) as [i|]; [naive_solver|]. intros j.
    destruct (decide (j < S (length s) - length t)%nat); [by apply H|apply Hfar; lia].
  - replace (S (length s) - length t)%nat with 0%nat by lia. intros j. apply Hfar. lia.
Qed.

(** *** Writing strings *)

Lemma blit_cons mem d b bs :
  (d + S (length bs) <= length mem)%nat ->
  blit (<[d:=b]> mem) (d + 1) bs = blit mem d (b :: bs).
Proof.
  intros Hd. apply list_eq. intros i.
  rewrite !lookup_blit by (rewrite ?length_insert; simpl; lia). simpl.
  rewrite list_lookup_insert. repeat case_decide; try lia; try done.
  - replace (i - d)%nat with (S (i - (d + 1))) by lia. done.
  - by replace (i - d)%nat with 0%nat by lia.
Qed.

Lemma blit_nil mem d : blit mem d [] = mem.
Proof. unfold blit. simpl. by rewrite Nat.add_0_r, take_drop. Qed.

Lemma store_bytes_blit bs : forall mem (d : nat),
  (d + length bs <= length mem)%nat -> store_bytes mem (Z.of_nat d) bs = Some (blit mem d bs).
Proof.
  induction bs as [|b bs IH]; intros mem d Hd; simpl in *; [by rewrite blit_nil|].
  rewrite aset_nat by lia. simpl. replace (Z.of_nat d + 1) with (Z.of_nat (d + 1)) by lia.
  rewrite IH by (rewrite length_insert; lia). by rewrite blit_cons.
Qed.

Lemma strcpy_blit src : forall mem (d : nat),
  cstring src -> (d + length src < length mem)%nat ->
  strcpy mem (Z.of_nat d) src = Some (blit mem d (src ++ [0])).
Proof.
  induction src as [|c src IH]; intros mem d Hs Hd; simpl in *; rewrite aset_nat by lia; simpl.
  - by rewrite <- blit_cons, blit_nil by (simpl; lia).
  - inversion Hs; subst. rewrite (proj2 (Z.eqb_neq c 0)) by lia.
    replace (Z.of_nat d + 1) with (Z.of_nat (d + 1)) by lia.
    rewrite IH by (done || rewrite ?length_insert; lia).
    by rewrite blit_cons by (rewrite length_app; simpl; lia).
Qed.

Lemma strcpy_overflow src : forall mem (d : nat),
  cstring src -> (length mem <= d + length src)%nat -> strcpy mem (Z.of_nat d) src = None.
Proof.
  induction src as [|c src IH]; intros mem d Hs Hd; simpl in *.
  - unfold aset. by case_if; [lia|].
  - unfold aset. destruct (_ && _); [|done]. simpl. inversion Hs; subst.
    rewrite (proj2 (Z.eqb_neq c 0)) by lia.
    replace (Z.of_nat d + 1) with (Z.of_nat (d + 1)) by lia.
    apply IH; [done|]. rewrite length_insert. lia.
Qed.

Lemma blit_app mem d b1 b2 :
  (d + (length b1 + length b2) <= length mem)%nat ->
  blit (blit mem d b1) (d + length b1) b2 = blit mem d (b1 ++ b2).
Proof.
  intros Hd. apply list_eq. intros i.
  rewrite !lookup_blit by (rewrite ?length_blit, ?length_app; lia).
  rewrite length_app. repeat case_decide; try lia; try done.
  - rewrite lookup_app_r by lia. f_equal. lia.
  - by rewrite lookup_app_l by lia.
Qed.

Lemma memset_blit mem (s n : nat) c :
  (s + n <= length mem)%nat ->
  memset mem (Z.of_nat s) c n = Some (blit mem s (replicate n (u8 c))).
Proof.
  intros Hs. unfold memset. case_if; [|by apply fill_bytes_blit].
  pose proof (Nat.div_mod_eq n 8) as Hn. rewrite fill_words_blit by lia. by rewrite <- Hn.
Qed.

(** ** Correctness *)

(** [strcmp] returns 0 exactly on equal strings, although it keeps the
    difference of two characters in a [signed char]. *)
Theorem strcmp_decides_equality s t :
  cstring s -> cstring t -> strcmp s t = 0 <-> s = t.
Proof. apply strcmp_0. Qed.

Lemma memmove_blit mem (d s n : nat) :
  (d + n <= length mem)%nat -> (s + n <= length mem)%nat ->
  memmove mem (Z.of_nat d) (Z.of_nat s) n = Some (blit mem d (slice mem s n)).
Proof.
  intros Hd Hs. destruct (memmove_copied mem d s n Hd Hs) as (mem' & -> & H).
  f_equal. by apply copied_blit.
Qed.

(** [memmove] leaves at the destination the bytes that the source held
    before the call and changes nothing else, also when the areas overlap and
    on the word-wise path of [memcpy]. *)
Theorem memmove_correct mem (d s n : nat) :
  (d + n <= length mem)%nat -> (s + n <= length mem)%nat ->
  memmove mem (Z.of_nat d) (Z.of_nat s) n = Some (blit mem d (slice mem s n)).
Proof. apply memmove_blit. Qed.

(** [memset] stores the low byte of [c] at every address of the area and
    changes nothing else, on the word-wise path too. *)
Theorem memset_correct mem (s n : nat) c :
  (s + n <= length mem)%nat ->
  memset mem (Z.of_nat s) c n = Some (blit mem s (replicate n (u8 c))).
Proof. apply memset_blit. Qed.

(** The word-wise [memchr_inv] finds the same byte as the byte-wise check
    of the whole area, for every alignment. *)
Theorem memchr_inv_equiv addr s c (n : nat) :
  Forall byte_ok s -> (n <= length s)%nat -> Z.of_nat n < 2 ^ 32 ->
  memchr_inv addr s c n = check_bytes8 s (u8 c) n.
Proof.
  intros Hs Hl Hn. unfold memchr_inv. destruct (n <=? 16)%nat eqn:E16; [done|].
  apply Nat.leb_gt in E16.
  assert (byte_ok (u8 c)) as Hc by by apply (wrap_range 8).
  assert (forall m, (m <= n)%nat -> Z.to_nat (u32 (Z.of_nat m / 8)) = (m / 8)%nat) as Hw.
  { intros m Hm. change 8 with (Z.of_nat 8). rewrite <- Nat2Z.inj_div.
    pose proof (Nat.Div0.div_le_upper_bound m 8 m). rewrite wrap_small by lia. apply Nat2Z.id. }
  pose proof (Z.mod_pos_bound addr 8 ltac:(lia)).
  destruct (Z.to_nat (addr mod 8)) as [|p] eqn:Ep; simpl Nat.eqb; cbv iota.
  - rewrite Hw by lia. pose proof (Nat.div_mod_eq n 8) as Hd.
    rewrite inv_words_check by (done || lia). rewrite <- Hd.
    by destruct (check_bytes8 s (u8 c) n).
  - set (q := (8 - S p)%nat).
    transitivity (check_bytes8 s (u8 c) (q + (n - q))); [|f_equal; lia].
    rewrite check_bytes8_app. destruct (check_bytes8 s (u8 c) q); [done|].
    rewrite Hw by lia. pose proof (Nat.div_mod_eq (n - q) 8) as Hd.
    rewrite inv_words_check; [by rewrite <- Hd|done|by apply Forall_drop|].
    rewrite length_drop. lia.
Qed.

(** [strstr] returns the offset of the first occurrence of a non-empty
    string, and NULL exactly when there is none. *)
Theorem strstr_first s t :
  cstring s -> cstring t -> t <> [] ->
  match strstr s t with
  | Some i => exists k, i = Z.of_nat k /\ occurs t s k /\ forall j, (j < k)%nat -> ~ occurs t s j
  | None => forall j, ~ occurs t s j
  end.
Proof. apply strstr_spec. Qed.

(** [strlcpy] writes at most [size] bytes: as much of the source as fits
    and a NUL, and returns the length of the source; the memory around the
    destination is unchanged. *)
Theorem strlcpy_correct mem (d size : nat) src :
  cstring src -> (0 < size)%nat -> (d + size <= length mem)%nat ->
  strlcpy mem (Z.of_nat d) src (Z.of_nat size) =
    Some (Z.of_nat (length src), blit mem d (take (size - 1) src ++ [0])).
Proof.
  intros Hs Hsz Hd. unfold strlcpy. rewrite strlen_cstring by done.
  rewrite (proj2 (Z.eqb_neq (Z.of_nat size) 0)) by lia. simpl.
  set (len := if Z.of_nat size <=? _ then _ else _).
  assert (exists k, len = Z.of_nat k /\ (k <= size - 1)%nat /\ length (take k src) = k /\
            take k src = take (size - 1) src) as (k & -> & Hk & Hlk & Htk).
  { subst len. case_if.
    - exists (size - 1)%nat. rewrite length_take. split_and!; [lia|lia|lia|done].
    - exists (length src). rewrite !take_ge by lia. split_and!; [done|lia|done|done]. }
  rewrite Nat2Z.id, store_bytes_blit by lia. simpl. rewrite <- Nat2Z.inj_add.
  rewrite aset_nat by (rewrite length_blit; lia). simpl. rewrite <- Htk.
  rewrite <- blit_app by (simpl; lia). rewrite Hlk. unfold blit at 2. do 2 f_equal.
  rewrite insert_take_drop by (rewrite length_blit; lia).
  simpl. by replace (d + k + 1)%nat with (S (d + k)) by lia.
Qed.

(** ** Concrete inputs *)

Lemma strcmp_decides_equality_witness :
  strcmp [98; 111; 111; 116] [98; 111; 111; 116] = 0 <->
  [98; 111; 111; 116] = [98; 111; 111; 116].
Proof. apply strcmp_decides_equality; repeat constructor; lia. Defined.

Lemma memmove_correct_witness :
  memmove (seqZ 0 24) 3 1 10 = Some (blit (seqZ 0 24) 3 (slice (seqZ 0 24) 1 10)).
Proof. apply (memmove_correct (seqZ 0 24) 3 1 10); rewrite length_seqZ; lia. Defined.

Lemma memset_correct_witness :
  memset (seqZ 0 24) 8 0x1ff 13 = Some (blit (seqZ 0 24) 8 (replicate 13 (u8 0x1ff))).
Proof. apply (memset_correct (seqZ 0 24) 8 13 0x1ff). rewrite length_seqZ. lia. Defined.

Lemma memchr_inv_equiv_witness :
  memchr_inv 0x1003 (replicate 30 0xff ++ [1; 0xff]) 0xff 32 =
  check_bytes8 (replicate 30 0xff ++ [1; 0xff]) (u8 0xff) 32.
Proof.
  apply (memchr_inv_equiv 0x1003 (replicate 30 0xff ++ [1; 0xff]) 0xff 32);
    [|simpl; lia|simpl; lia].
  repeat constructor; unfold byte_ok; lia.
Defined.

Lemma strstr_first_witness :
  match strstr [97; 98; 97; 98; 99] [97; 98; 99] with
  | Some i => exists k, i = Z.of_nat k /\ occurs [97; 98; 99] [97; 98; 97; 98; 99] k /\
      forall j, (j < k)%nat -> ~ occurs [97; 98; 99] [97; 98; 97; 98; 99] j
  | None => forall j, ~ occurs [97; 98; 99] [97; 98; 97; 98; 99] j
  end.
Proof. apply strstr_first; [repeat constructor; lia..|done]. Defined.

Lemma strlcpy_correct_witness :
  strlcpy (seqZ 0 16) 2 [97; 98; 99; 100] 3 =
    Some (Z.of_nat 4, blit (seqZ 0 16) 2 (take 2 [97; 98; 99; 100] ++ [0])).
Proof.
  apply (strlcpy_correct (seqZ 0 16) 2 3 [97; 98; 99; 100]); [|lia|rewrite length_seqZ; lia].
  repeat constructor; lia.
Defined.

Example ctype_length : length _ctype = 256%nat.
Proof. reflexivity. Qed.

(** The [signed char] of [strcmp] gives the wrong sign when two characters
    differ by more than 127: here 'a' (0x61) compares above 0xf0. *)
Example strcmp_sign_wraps : strcmp [0x61] [0xf0] = 113.
Proof. reflexivity. Qed.
