(* ===== verification/Blocks.v ===== *)
(** * Digests by blocks of 64 bytes ([lib/sha1.c], [lib/sha256.c])

    SHA-1 and SHA-256 share the way in which a message is cut into blocks: what
    does not fill a block waits in a buffer of the context, and the end of the
    message is padded with its length.  This file has that part of the code, for
    any function that processes a block, and proves it against the padded message
    of FIPS 180.  [Sha1.v] and [Sha256.v] apply it to their functions. *)

From S2P Require Import Prelude StringLib.
Local Open Scope Z_scope.

Definition GET_UINT32_BE (b : list Z) (i : nat) : Z :=
  Z.lor (Z.lor (Z.lor (Z.shiftl (nth i b 0) 24) (Z.shiftl (nth (i + 1) b 0) 16))
    (Z.shiftl (nth (i + 2) b 0) 8)) (nth (i + 3) b 0).

Definition PUT_UINT32_BE (n : Z) : list Z :=
  [u8 (Z.shiftr n 24); u8 (Z.shiftr n 16); u8 (Z.shiftr n 8); u8 n].

Section Feed.
Context {St : Type} (process : St -> list Z -> St).

(** [while (ilen >= 64)]: the state and the rest of the input. *)
Fixpoint process_loop (fuel : nat) (st : St) (input : list Z) : St * list Z :=
  match fuel with
  | O => (st, input)
  | S fuel =>
      if (64 <=? length input)%nat
      then process_loop fuel (process st (take 64 input)) (drop 64 input)
      else (st, input)
  end.

(** The end of the update functions, from [if (left && ilen >= fill)] on: the
    state and the buffer.  The loop runs at most [ilen] times. *)
Definition feed (st : St) (buf : list Z) (left_ : nat) (input : list Z) : St * list Z :=
  let fill := (64 - left_)%nat in
  let '(buf, st, input, left_) :=
    if negb (Nat.eqb left_ 0) && (fill <=? length input)%nat then
      let buf := blit buf left_ (take fill input) in
      (buf, process st buf, drop fill input, 0%nat)
    else (buf, st, input, left_) in
  let '(st, input) := process_loop (length input) st input in
  (st, if (0 <? length input)%nat then blit buf left_ input else buf).
End Feed.

(** The loop of the digests with a watchdog: the input is processed in chunks.
    [chunk] is an [int] and is compared as [unsigned int] with [chunk_sz]: for
    inputs below 2^32 bytes and chunks below 2^31 bytes that is the comparison
    of the two lengths. *)
Fixpoint wd_loop {C} (update : C -> list Z -> C) (fuel : nat) (ctx : C) (curr : list Z) (chunk_sz : nat) : option C :=
  match curr with
  | [] => Some ctx
  | _ =>
      match fuel with
      | O => None
      | S fuel =>
          let chunk := if (chunk_sz <? length curr)%nat then chunk_sz else length curr in
          wd_loop update fuel (update ctx (take chunk curr)) (drop chunk curr) chunk_sz
      end
  end.

(** The specification: a message in blocks, and the padded message. *)

Definition be_word (b : list Z) : Z := foldl (fun n c => n * 256 + c) 0 b.

Fixpoint blocks (n : nat) (msg : list Z) : list (list Z) :=
  match n with
  | O => []
  | S n => take 64 msg :: blocks n (drop 64 msg)
  end.

(** The message with the bit 1, zeros, and its length in bits. *)
Definition fips_pad (msg : list Z) : list Z :=
  let n := length msg in
  let k := ((119 - n mod 64) mod 64)%nat in
  msg ++ [0x80] ++ replicate k 0 ++ rev (word_bytes 8 (8 * Z.of_nat n)).

(** ** The low 32 bits *)

Lemma u32_land x : u32 x = Z.land x (Z.ones 32).
Proof. unfold wrap. by rewrite Z.land_ones by lia. Qed.

Lemma u32_bits x n : 0 <= n -> Z.testbit (u32 x) n = Z.testbit x n && (n <? 32).
Proof.
  intros Hn. rewrite u32_land, Z.land_spec, Z.testbit_ones by lia.
  destruct (n <? 32) eqn:E, (0 <=? n) eqn:E2; bool_to_prop; try done; lia.
Qed.

Lemma u32_bitop (f : Z -> Z -> Z) (g : bool -> bool -> bool) x y :
  (forall a b n, Z.testbit (f a b) n = g (Z.testbit a n) (Z.testbit b n)) -> g false false = false ->
  u32 (f x y) = f (u32 x) (u32 y).
Proof.
  intros Hf Hg. apply Z.bits_inj'. intros n Hn. rewrite u32_bits, !Hf, !u32_bits by done.
  destruct (n <? 32); rewrite ?andb_true_r, ?andb_false_r; done.
Qed.

Lemma u32_lxor x y : u32 (Z.lxor x y) = Z.lxor (u32 x) (u32 y).
Proof. apply (u32_bitop Z.lxor xorb); [apply Z.lxor_spec|done]. Qed.
Lemma u32_and x y : u32 (Z.land x y) = Z.land (u32 x) (u32 y).
Proof. apply (u32_bitop Z.land andb); [apply Z.land_spec|done]. Qed.
Lemma u32_lor x y : u32 (Z.lor x y) = Z.lor (u32 x) (u32 y).
Proof. apply (u32_bitop Z.lor orb); [apply Z.lor_spec|done]. Qed.

Lemma u32_u64 x : u32 (u64 x) = u32 x.
Proof.
  unfold wrap. rewrite (Z.mod_eq x (2 ^ 64)) by lia.
  replace (x - 2 ^ 64 * (x / 2 ^ 64)) with (x + (- (x / 2 ^ 64) * 2 ^ 32) * 2 ^ 32) by lia.
  by rewrite Z.mod_add by lia.
Qed.

Lemma u32_idem x : u32 (u32 x) = u32 x.
Proof. unfold wrap. by rewrite Z.mod_mod by lia. Qed.

Lemma u32_add x y : u32 (x + y) = u32 (u32 x + u32 y).
Proof. unfold wrap. apply Zplus_mod. Qed.

(** ** Big-endian words *)

Lemma be_bytes a b c d :
  byte_ok a -> byte_ok b -> byte_ok c -> byte_ok d ->
  Z.lor (Z.lor (Z.lor (Z.shiftl a 24) (Z.shiftl b 16)) (Z.shiftl c 8)) d = be_word [a; b; c; d].
Proof.
  unfold byte_ok. intros Ha Hb Hc Hd. rewrite !Z.shiftl_mul_pow2 by lia.
  rewrite (lor_add a (b * 2 ^ 16) 24) by lia.
  replace (a * 2 ^ 24 + b * 2 ^ 16) with ((a * 2 ^ 8 + b) * 2 ^ 16) by lia.
  rewrite (lor_add _ (c * 2 ^ 8) 16) by lia.
  replace ((a * 2 ^ 8 + b) * 2 ^ 16 + c * 2 ^ 8) with ((a * 2 ^ 16 + b * 2 ^ 8 + c) * 2 ^ 8) by lia.
  rewrite lor_add by lia. unfold be_word; simpl. lia.
Qed.

Lemma get_be_word dat i :
  Forall byte_ok dat -> (i + 4 <= length dat)%nat ->
  u32 (GET_UINT32_BE dat i) = be_word (take 4 (drop i dat)).
Proof.
  intros Hb Hl. unfold GET_UINT32_BE.
  destruct (drop i dat) as [|a [|b [|c [|d rest]]]] eqn:E;
    pose proof (f_equal length E) as El; rewrite length_drop in El; simpl in El; try lia.
  assert (forall j x, (drop i dat) !! j = Some x -> nth (i + j) dat 0 = x) as Hn.
  { intros j x Hj. rewrite lookup_drop in Hj. by apply nth_lookup_Some with (d := 0) in Hj. }
  rewrite E in Hn.
  rewrite <- (Nat.add_0_r i) at 1. rewrite (Hn 0%nat a), (Hn 1%nat b), (Hn 2%nat c), (Hn 3%nat d) by done.
  assert (Forall byte_ok (a :: b :: c :: d :: rest)) as Hbs by (rewrite <- E; by apply Forall_drop).
  repeat match goal with H : Forall byte_ok (_ :: _) |- _ => apply Forall_cons in H as [? ?] end.
  rewrite be_bytes by done. unfold be_word; simpl. unfold byte_ok in *. apply wrap_small. lia.
Qed.

Lemma word_bytes_app n : forall k w, word_bytes (n + k) w = word_bytes n w ++ word_bytes k (Z.shiftr w (8 * Z.of_nat n)).
Proof.
  induction n as [|n IH]; intros k w; cbn [word_bytes Nat.add app]; [by rewrite Z.shiftr_0_r|].
  rewrite IH, Z.shiftr_shiftr by lia. do 3 f_equal. f_equal. lia.
Qed.

Lemma put_be x : PUT_UINT32_BE x = rev (word_bytes 4 x).
Proof. unfold PUT_UINT32_BE. cbn [word_bytes rev app]. rewrite !Z.shiftr_shiftr by lia. reflexivity. Qed.

Lemma u8_shiftr_wrap w x k : 0 <= k -> k + 8 <= w -> u8 (Z.shiftr (wrap w x) k) = u8 (Z.shiftr x k).
Proof.
  intros Hk Hw. apply Z.bits_inj'. intros n Hn. unfold wrap at 1 3.
  destruct (decide (n < 8)).
  - rewrite !Z.mod_pow2_bits_low, !Z.shiftr_spec by lia. unfold wrap. by rewrite Z.mod_pow2_bits_low by lia.
  - by rewrite !Z.mod_pow2_bits_high by lia.
Qed.

(** The output depends on the low 32 bits only. *)
Lemma put_wrap w x : 32 <= w -> PUT_UINT32_BE (wrap w x) = PUT_UINT32_BE x.
Proof.
  intros Hw. unfold PUT_UINT32_BE. rewrite !u8_shiftr_wrap by lia.
  pose proof (u8_shiftr_wrap w x 0) as H. rewrite !Z.shiftr_0_r in H. by rewrite H by lia.
Qed.

Lemma length_put x : length (PUT_UINT32_BE x) = 4%nat.
Proof. reflexivity. Qed.

Lemma u8_byte x : byte_ok (u8 x).
Proof. unfold byte_ok. apply (wrap_range 8); lia. Qed.

Lemma word_bytes_ok n : forall x, Forall byte_ok (word_bytes n x).
Proof. induction n as [|n IH]; intros x; constructor; [apply u8_byte|apply IH]. Qed.

Lemma put_bytes x : Forall byte_ok (PUT_UINT32_BE x).
Proof. unfold PUT_UINT32_BE. repeat constructor; apply u8_byte. Qed.

(** The length in bits, as the code computes it from its two counters: [w] is
    their width. *)
Lemma msglen_fips w l t0 t1 :
  32 <= w -> 0 <= l < 2 ^ 61 -> t0 = l mod 2 ^ 32 -> t1 = l / 2 ^ 32 ->
  PUT_UINT32_BE (Z.lor (Z.shiftr t0 29) (wrap w (Z.shiftl t1 3))) ++ PUT_UINT32_BE (wrap w (Z.shiftl t0 3)) =
  rev (word_bytes 8 (8 * l)).
Proof.
  intros Hw Hl -> ->. pose proof (Z.mod_pos_bound l (2 ^ 32)). pose proof (Z.div_mod l (2 ^ 32)) as Hd.
  assert (0 <= l / 2 ^ 32 < 2 ^ 29) by (split; [apply Z.div_pos|apply Z.div_lt_upper_bound]; lia).
  pose proof (Z.pow_le_mono_r 2 32 w ltac:(lia) Hw) as Hpw.
  change 8%nat with (4 + 4)%nat. rewrite word_bytes_app, rev_app_distr, <- !put_be.
  rewrite put_wrap, Z.shiftr_div_pow2, !Z.shiftl_mul_pow2, (wrap_small w) by lia. f_equal.
  - f_equal. rewrite Z.lor_comm, lor_add; [|lia|].
    2: { split; [apply Z.div_pos|apply Z.div_lt_upper_bound]; lia. }
    rewrite Z.shiftr_div_pow2 by lia. change (2 ^ (8 * Z.of_nat 4)) with (8 * 2 ^ 29).
    rewrite Z.div_mul_cancel_l by lia.
    replace (l / 2 ^ 29) with ((l mod 2 ^ 32 + (l / 2 ^ 32 * 2 ^ 3) * 2 ^ 29) / 2 ^ 29) by (f_equal; lia).
    rewrite Z.div_add by lia. lia.
  - rewrite <- (put_wrap 32), <- (put_wrap 32 (8 * l)) by lia. f_equal. change (2 ^ 3) with 8.
    rewrite (Z.mul_comm 8). unfold wrap. by rewrite Zmult_mod_idemp_l.
Qed.

Definition block_padding : list Z := 0x80 :: replicate 63 0.

Lemma padding_fips (m : list Z) :
  let l := (length m mod 64)%nat in
  let padn := if (l <? 56)%nat then (56 - l)%nat else (120 - l)%nat in
  take padn block_padding = 0x80 :: replicate ((119 - l) mod 64) 0.
Proof.
  cbv zeta. pose proof (Nat.mod_upper_bound (length m) 64 ltac:(lia)) as Hl.
  set (l := (length m mod 64)%nat) in *. unfold block_padding.
  assert (forall n, (n <= 63)%nat -> take (S n) (0x80 :: replicate 63 0) = 0x80 :: replicate n 0) as Ht.
  { intros n Hn. cbn [take]. f_equal. rewrite take_replicate. f_equal. lia. }
  destruct (Nat.ltb_spec l 56).
  - replace (56 - l)%nat with (S ((119 - l) mod 64)); [apply Ht; pose proof (Nat.mod_upper_bound (119 - l) 64); lia|].
    rewrite <- (Nat.mod_unique (119 - l) 64 1 (55 - l)); lia.
  - replace (120 - l)%nat with (S ((119 - l) mod 64)); [apply Ht; pose proof (Nat.mod_upper_bound (119 - l) 64); lia|].
    rewrite Nat.mod_small; lia.
Qed.

Lemma low6 x : 0 <= x -> Z.land (x mod 2 ^ 32) 0x3F = x mod 64.
Proof.
  intros Hx. change 0x3F with (Z.ones 6). rewrite Z.land_ones by lia. change (2 ^ 6) with 64.
  rewrite (Z.mod_eq x (2 ^ 32)) by lia.
  replace (x - 2 ^ 32 * (x / 2 ^ 32)) with (x + (- (x / 2 ^ 32) * 2 ^ 26) * 64) by lia.
  by rewrite Z.mod_add by lia.
Qed.

(** The two counters, of width [w]. *)
Lemma update_totals w t0 t1 l n :
  32 <= w -> 0 <= l -> 0 < n < 2 ^ 32 -> l + n < 2 ^ 61 -> t0 = l mod 2 ^ 32 -> t1 = l / 2 ^ 32 ->
  let t0' := Z.land (wrap w (t0 + n)) 0xFFFFFFFF in
  t0' = (l + n) mod 2 ^ 32 /\ (if t0' <? n then wrap w (t1 + 1) else t1) = (l + n) / 2 ^ 32.
Proof.
  intros Hw Hl Hn Hs -> ->. cbv zeta.
  pose proof (Z.mod_pos_bound l (2 ^ 32)) as Hm. pose proof (Z.div_mod l (2 ^ 32)) as Hd.
  pose proof (Z.pow_le_mono_r 2 32 w ltac:(lia) Hw) as Hpw.
  assert (0 <= l / 2 ^ 32 < 2 ^ 29) by (split; [apply Z.div_pos|apply Z.div_lt_upper_bound]; lia).
  change 0xFFFFFFFF with (Z.ones 32). rewrite Z.land_ones by lia.
  assert (wrap w (l mod 2 ^ 32 + n) mod 2 ^ 32 = (l + n) mod 2 ^ 32) as ->.
  { unfold wrap. rewrite (Z.mod_eq (_ + n) (2 ^ w)) by lia.
    replace (2 ^ w) with (2 ^ (w - 32) * 2 ^ 32) at 1 by (rewrite <- Z.pow_add_r by lia; f_equal; lia).
    set (c := _ / 2 ^ w). replace (_ - _) with (l mod 2 ^ 32 + n + (- (2 ^ (w - 32) * c)) * 2 ^ 32) by ring.
    by rewrite Z.mod_add, Zplus_mod_idemp_l by lia. }
  split; [done|].
  destruct (decide (l mod 2 ^ 32 + n < 2 ^ 32)).
  - assert ((l + n) mod 2 ^ 32 = l mod 2 ^ 32 + n) as E
      by (symmetry; apply (Z.mod_unique _ _ (l / 2 ^ 32)); lia).
    rewrite E. rewrite (proj2 (Z.ltb_ge _ _)) by lia. apply (Z.div_unique _ _ _ (l mod 2 ^ 32 + n)); lia.
  - assert ((l + n) mod 2 ^ 32 = l mod 2 ^ 32 + n - 2 ^ 32) as E
      by (symmetry; apply (Z.mod_unique _ _ (l / 2 ^ 32 + 1)); lia).
    rewrite E. rewrite (proj2 (Z.ltb_lt _ _)) by lia. rewrite wrap_small by lia.
    apply (Z.div_unique _ _ _ (l mod 2 ^ 32 + n - 2 ^ 32)); lia.
Qed.

(** ** Streams of input *)

Lemma blocks_app n : forall k m, blocks (n + k) m = blocks n m ++ blocks k (drop (64 * n) m).
Proof.
  induction n as [|n IH]; intros k m; [by rewrite drop_0|].
  rewrite Nat.add_succ_l. cbn [blocks app]. rewrite IH, drop_drop.
  by replace (64 + 64 * n)%nat with (64 * S n)%nat by lia.
Qed.

Lemma blocks_prefix n : forall m x, (64 * n <= length m)%nat -> blocks n (m ++ x) = blocks n m.
Proof.
  induction n as [|n IH]; intros m x Hl; [done|]. cbn [blocks].
  rewrite take_app_le, drop_app_le by lia. f_equal. apply IH. rewrite length_drop. lia.
Qed.

(** Any function [process] that computes [compress]. *)
Section Stream.
Context {St Sp : Type} (lo : St -> Sp) (process : St -> list Z -> St) (compress : Sp -> list Z -> Sp) (h0 : Sp).
Context (process_fips : forall st block,
  length block = 64%nat -> Forall byte_ok block -> lo (process st block) = compress (lo st) block).

Definition md_state (n : nat) (msg : list Z) : Sp := foldl compress h0 (blocks n msg).

Lemma md_state_S q m : md_state (S q) m = compress (md_state q m) (take 64 (drop (64 * q) m)).
Proof. unfold md_state. replace (S q) with (q + 1)%nat by lia. rewrite blocks_app, foldl_app. reflexivity. Qed.

Lemma md_state_prefix q m x : (64 * q <= length m)%nat -> md_state q (m ++ x) = md_state q m.
Proof. intros H. unfold md_state. by rewrite blocks_prefix. Qed.

(** The loop processes all whole blocks that are left. *)
Lemma process_loop_fips fuel : forall st m q,
  Forall byte_ok m -> lo st = md_state q m -> (64 * q <= length m)%nat ->
  (length m - 64 * q <= fuel)%nat ->
  exists st', process_loop process fuel st (drop (64 * q) m) = (st', drop (64 * (length m / 64)) m) /\
    lo st' = md_state (length m / 64) m.
Proof.
  induction fuel as [|fuel IH]; intros st m q Hb Hst Hq Hf.
  - assert (q = length m / 64)%nat as -> by (apply (Nat.div_unique _ _ _ 0); lia).
    exists st. split; [reflexivity|exact Hst].
  - cbn [process_loop]. rewrite length_drop.
    destruct (Nat.leb_spec 64 (length m - 64 * q)) as [Hlt|Hge].
    + rewrite drop_drop. replace (64 * q + 64)%nat with (64 * S q)%nat by lia.
      apply IH; [done| |lia|lia]. rewrite process_fips, Hst, md_state_S; [reflexivity| |].
      * rewrite length_take, length_drop. lia.
      * by apply Forall_take, Forall_drop.
    + assert (q = length m / 64)%nat as -> by (apply (Nat.div_unique _ _ _ (length m - 64 * q)); lia).
      exists st. split; [reflexivity|exact Hst].
Qed.

(** State and buffer behind the message [m]. *)
Record fed (st : St) (buf m : list Z) : Prop := {
  fed_bytes : Forall byte_ok m;
  fed_buffer : length buf = 64%nat;
  fed_state : lo st = md_state (length m / 64) m;
  fed_pending : take (length m mod 64) buf = drop (64 * (length m / 64)) m
}.

(** What the code leaves in the buffer is what is pending. *)
Lemma buffer_pending buf m :
  length buf = 64%nat ->
  let rest := drop (64 * (length m / 64)) m in
  let buf' := if (0 <? length rest)%nat then blit buf 0 rest else buf in
  length buf' = 64%nat /\ take (length m mod 64) buf' = rest.
Proof.
  intros Hb. pose proof (Nat.div_mod_eq (length m) 64) as Hd.
  pose proof (Nat.mod_upper_bound (length m) 64) as Hm. cbv zeta.
  assert (length (drop (64 * (length m / 64)) m) = length m mod 64)%nat as Hr by (rewrite length_drop; lia).
  destruct (Nat.ltb_spec 0 (length (drop (64 * (length m / 64)) m))).
  - rewrite length_blit by lia. split; [done|]. unfold blit. rewrite take_0, app_nil_l.
    rewrite take_app_le by lia. apply take_ge. lia.
  - split; [done|]. replace (length m mod 64)%nat with 0%nat by lia.
    symmetry. apply nil_length_inv. lia.
Qed.

(** The three cases of [feed] for the input after the message [m]: a
    full buffer, no buffered bytes, and too little input for a block. *)
Section Update.
Context (st : St) (buf m input : list Z).
Context (Hfed : fed st buf m) (Hbi : Forall byte_ok input).
Let q := (length m / 64)%nat.
Let l := (length m mod 64)%nat.

Lemma msg_split : length m = (64 * q + l)%nat /\ (l < 64)%nat.
Proof. split; [apply Nat.div_mod_eq|apply Nat.mod_upper_bound; lia]. Qed.

Lemma all_bytes : Forall byte_ok (m ++ input).
Proof. apply Forall_app. split; [apply Hfed|exact Hbi]. Qed.

Lemma length_pending : length (drop (64 * q) m) = l.
Proof. pose proof msg_split. rewrite length_drop. lia. Qed.

Lemma state_prefix : lo st = md_state q (m ++ input).
Proof. pose proof msg_split. rewrite md_state_prefix by lia. apply Hfed. Qed.

Lemma update_straddle :
  (64 - l <= length input)%nat ->
  let buf := blit buf l (take (64 - l) input) in
  length buf = 64%nat /\
  exists st', process_loop process (length (drop (64 - l) input)) (process st buf) (drop (64 - l) input) =
      (st', drop (64 * (length (m ++ input) / 64)) (m ++ input)) /\
    lo st' = md_state (length (m ++ input) / 64) (m ++ input).
Proof.
  intros Hfill buf'. destruct msg_split as [Hd Hl64]. pose proof length_pending as Hdl.
  assert (buf' = take 64 (drop (64 * q) (m ++ input))) as Hblk.
  { unfold buf', blit. rewrite length_take, Nat.min_l by lia.
    replace (l + (64 - l))%nat with 64%nat by lia. rewrite (drop_ge buf) by (rewrite (fed_buffer _ _ _ Hfed); lia).
    rewrite app_nil_r. unfold l at 1. rewrite (fed_pending _ _ _ Hfed), drop_app_le by lia. fold q.
    by rewrite take_app_ge, Hdl by lia. }
  assert (length buf' = 64%nat) as Hbl by (rewrite Hblk, length_take, length_drop, length_app; lia).
  assert (drop (64 - l) input = drop (64 * S q) (m ++ input)) as ->.
  { rewrite drop_app_ge by lia. f_equal. lia. }
  split; [done|]. apply process_loop_fips; [apply all_bytes| | |].
  - rewrite process_fips, md_state_S, state_prefix, Hblk; [reflexivity|done|].
    rewrite Hblk. apply Forall_take, Forall_drop, all_bytes.
  - rewrite length_app. lia.
  - rewrite length_drop, length_app. lia.
Qed.

Lemma update_aligned :
  l = 0%nat ->
  exists st', process_loop process (length input) st input =
      (st', drop (64 * (length (m ++ input) / 64)) (m ++ input)) /\
    lo st' = md_state (length (m ++ input) / 64) (m ++ input).
Proof.
  intros Hl0. destruct msg_split as [Hd _].
  assert (input = drop (64 * q) (m ++ input)) as Hin.
  { rewrite drop_app_ge by lia. by replace (64 * q - length m)%nat with 0%nat by lia. }
  destruct (process_loop_fips (length input) st (m ++ input) q) as (st' & Hpl & Hst');
    [apply all_bytes|apply state_prefix|rewrite length_app; lia..|].
  exists st'. split; [|exact Hst']. rewrite <- Hpl. by rewrite <- Hin.
Qed.

Lemma update_short :
  (length input < 64 - l)%nat ->
  process_loop process (length input) st input = (st, input) /\
  (length (m ++ input) / 64 = q /\ length (m ++ input) mod 64 = l + length input)%nat /\
  length (blit buf l input) = 64%nat /\
  take (l + length input) (blit buf l input) = drop (64 * q) (m ++ input).
Proof.
  intros Hshort. destruct msg_split as [Hd Hl64]. pose proof (fed_buffer _ _ _ Hfed) as Hbuf. split_and!.
  - destruct (length input) eqn:E; cbn [process_loop]; [done|].
    rewrite (proj2 (Nat.leb_gt _ _)) by lia. reflexivity.
  - symmetry; apply (Nat.div_unique _ _ _ (l + length input)); rewrite ?length_app; lia.
  - symmetry; apply (Nat.mod_unique _ _ q); rewrite ?length_app; lia.
  - rewrite length_blit; lia.
  - pose proof length_pending as Hdl. unfold blit. unfold l at 2. rewrite (fed_pending _ _ _ Hfed), drop_app_le by lia. fold q.
    rewrite app_assoc, take_app_length'; [done|]. rewrite length_app. lia.
Qed.

Lemma feed_fed : input <> [] ->
  let '(st', buf') := feed process st buf l input in fed st' buf' (m ++ input).
Proof.
  intros Hne. unfold feed. pose proof all_bytes as Hbm. destruct (negb (Nat.eqb l 0) && (64 - l <=? length input)%nat) eqn:Hcase.
  - apply andb_true_iff in Hcase as [_ Hfill]. apply Nat.leb_le in Hfill.
    destruct (update_straddle Hfill) as (Hbl & st' & Hpl & Hst'). rewrite Hpl.
    destruct (buffer_pending _ (m ++ input) Hbl) as [Hb1 Hb2]. by split.
  - apply andb_false_iff in Hcase. destruct (decide (l = 0)%nat) as [Hl0|Hl0].
    + destruct (update_aligned Hl0) as (st' & Hpl & Hst'). rewrite Hpl, Hl0.
      destruct (buffer_pending buf (m ++ input) (fed_buffer _ _ _ Hfed)) as [Hb1 Hb2]. by split.
    + assert (length input < 64 - l)%nat as Hshort.
      { destruct Hcase as [Hc|Hc]; [|by apply Nat.leb_gt in Hc]. apply negb_false_iff, Nat.eqb_eq in Hc. lia. }
      destruct (update_short Hshort) as (-> & [Hq Hr] & Hb1 & Hb2).
      rewrite (proj2 (Nat.ltb_lt 0 _)) by (destruct input; simpl; [done|lia]).
      split; rewrite ?Hq, ?Hr; try assumption. apply state_prefix.
Qed.
End Update.

(** *** A context: its counters, state and buffer

    [W] is the width of the counters. *)
Record absorbed (t0 t1 : Z) (st : St) (buf m : list Z) : Prop := {
  ab_total0 : t0 = Z.of_nat (length m) mod 2 ^ 32;
  ab_total1 : t1 = Z.of_nat (length m) / 2 ^ 32;
  ab_len : Z.of_nat (length m) < 2 ^ 61;
  ab_fed : fed st buf m
}.

Lemma absorbed_nil st buf : lo st = h0 -> length buf = 64%nat -> absorbed 0 0 st buf [].
Proof. intros Hs Hb. split; [done..|]. by split. Qed.

Lemma absorbed_left t0 t1 st buf m : absorbed t0 t1 st buf m -> Z.to_nat (Z.land t0 0x3F) = (length m mod 64)%nat.
Proof.
  intros Hab. rewrite (ab_total0 _ _ _ _ _ Hab), low6 by lia. change 64 with (Z.of_nat 64).
  by rewrite <- Nat2Z.inj_mod, Nat2Z.id.
Qed.

(** The body of the update functions, behind the test of the length. *)
Definition md_update (w t0 t1 : Z) (st : St) (buf input : list Z) : Z * Z * (St * list Z) :=
  let ilen := Z.of_nat (length input) in
  let t0' := Z.land (wrap w (t0 + ilen)) 0xFFFFFFFF in
  (t0', if t0' <? ilen then wrap w (t1 + 1) else t1, feed process st buf (Z.to_nat (Z.land t0 0x3F)) input).

Lemma absorbed_update w t0 t1 st buf m input : 32 <= w ->
  absorbed t0 t1 st buf m -> Forall byte_ok input -> 0 < Z.of_nat (length input) < 2 ^ 32 ->
  Z.of_nat (length m + length input) < 2 ^ 61 ->
  let '(t0', t1', (st', buf')) := md_update w t0 t1 st buf input in absorbed t0' t1' st' buf' (m ++ input).
Proof.
  intros Hw Hab Hbi Hl Hl61. unfold md_update.
  destruct (update_totals w t0 t1 (Z.of_nat (length m)) (Z.of_nat (length input))) as [Ht0 Ht1]; [lia..|apply Hab|apply Hab|].
  rewrite <- Nat2Z.inj_add, <- length_app in Ht0, Ht1. rewrite <- length_app in Hl61.
  rewrite (absorbed_left _ _ _ _ _ Hab).
  pose proof (feed_fed st buf m input (ab_fed _ _ _ _ _ Hab) Hbi) as Hf.
  destruct (feed _ _ _ _ _) as [st' buf']. split; [done..|]. apply Hf. intros ->. simpl in Hl. lia.
Qed.
End Stream.

(** ** Contexts that are fed piece by piece

    What an implementation promises: [holds c m] says that the context [c] has
    been fed the message [m]. *)
Class Stream (C : Type) := {
  update : C -> list Z -> C;
  holds : C -> list Z -> Prop
}.

Class StreamOk (C : Type) `{Stream C} : Prop :=
  update_holds : forall c m input, holds c m -> Forall byte_ok input -> Z.of_nat (length input) < 2 ^ 32 ->
    Z.of_nat (length m + length input) < 2 ^ 61 -> holds (update c input) (m ++ input).

Section StreamLemmas.
Context {C : Type} `{StreamOk C}.

Lemma updates_hold c m pieces : holds c m -> Forall (Forall byte_ok) pieces ->
  Forall (fun p => Z.of_nat (length p) < 2 ^ 32) pieces -> Z.of_nat (length m + length (concat pieces)) < 2 ^ 61 ->
  holds (foldl update c pieces) (m ++ concat pieces).
Proof.
  revert c m. induction pieces as [|p pieces IH]; intros c m Hm Hb Hl Ht; cbn [foldl concat]; [by rewrite app_nil_r|].
  apply Forall_cons in Hb as [Hp Hb], Hl as [Hpl Hl]. cbn [concat] in Ht. rewrite length_app in Ht. rewrite app_assoc.
  apply IH; [|done|done|rewrite length_app; lia]. apply update_holds; [done..|lia].
Qed.

Lemma wd_holds fuel : forall c m curr chunk,
  (0 < chunk)%nat -> Z.of_nat chunk < 2 ^ 31 -> (length curr <= fuel)%nat ->
  holds c m -> Forall byte_ok curr -> Z.of_nat (length m + length curr) < 2 ^ 61 ->
  exists c', wd_loop update fuel c curr chunk = Some c' /\ holds c' (m ++ curr).
Proof.
  induction fuel as [|fuel IH]; intros c m curr chunk Hc Hc31 Hf Hab Hb Hl.
  all: destruct curr as [|x rest]; cbn [wd_loop]; [exists c; by rewrite app_nil_r|simpl in Hf; try lia].
  set (curr := x :: rest) in *. set (n := if (chunk <? length curr)%nat then chunk else length curr).
  assert (0 < length curr)%nat by (subst curr; simpl; lia).
  assert (0 < n <= length curr /\ n <= chunk)%nat as [Hn Hn'].
  { subst n. destruct (Nat.ltb_spec chunk (length curr)); lia. }
  replace (m ++ curr) with ((m ++ take n curr) ++ drop n curr) by (by rewrite <- app_assoc, take_drop).
  apply IH; [done|done|rewrite length_drop; subst curr; simpl in *; lia| |by apply Forall_drop|].
  - apply update_holds; [done|by apply Forall_take|rewrite length_take; lia|rewrite length_take; lia].
  - rewrite length_app, length_take, length_drop. lia.
Qed.

(** The two updates at the end pad the message. *)
Lemma finish_holds c m : holds c m -> Z.of_nat (length m) + 128 < 2 ^ 61 ->
  let l := (length m mod 64)%nat in
  let padn := if (l <? 56)%nat then (56 - l)%nat else (120 - l)%nat in
  holds (update (update c (take padn block_padding)) (rev (word_bytes 8 (8 * Z.of_nat (length m))))) (fips_pad m).
Proof.
  intros Hm Hlen. cbv zeta. rewrite padding_fips. cbv zeta.
  set (pad := _ :: replicate _ 0). set (len := rev _).
  assert (Z.of_nat (length pad) <= 64) as Hpl.
  { unfold pad. cbn [length]. rewrite length_replicate.
    pose proof (Nat.mod_upper_bound (119 - length m mod 64) 64). lia. }
  assert (length len = 8%nat) as Hll by reflexivity.
  replace (fips_pad m) with ((m ++ pad) ++ len).
  2: { unfold fips_pad, pad, len. by rewrite <- app_assoc. }
  apply update_holds; [|unfold len; apply Forall_rev, word_bytes_ok|rewrite Hll; lia|rewrite length_app; lia].
  apply update_holds; [done| |lia|lia].
  unfold pad. constructor; [by unfold byte_ok|]. apply Forall_replicate. by unfold byte_ok.
Qed.
End StreamLemmas.
