(* ===== verification/Membuff.v ===== *)
(** * Circular byte buffers ([lib/membuff.c], [include/membuff.h])

    The console recorder and the USB and EFI consoles queue bytes in a
    [struct membuff].  Its four pointers point into one buffer: the model keeps
    the bytes of the buffer ([None] is the NULL [start]) and the offsets of
    [end], [head] and [tail] from [start].  The buffer is full when one byte is
    left, since [head == tail] means empty. *)

From S2P Require Import Prelude StringLib.
Local Open Scope Z_scope.

Record membuff := mk_membuff {
  mb_start : option (list Z);
  mb_end : Z;
  mb_head : Z;
  mb_tail : Z
}.

(** ** Operations *)

Definition membuff_purge (mb : membuff) : membuff :=
  mk_membuff (mb_start mb) (mb_end mb) 0 0.

(** Returns the number of bytes and the offset to write at. *)
Definition membuff_putrawflex (mb : membuff) (maxlen : Z) (update : bool) : Z * Z * membuff :=
  let offset := mb_head mb in
  match mb_start mb with
  | None => (0, offset, mb)
  | Some _ =>
      if mb_tail mb <=? mb_head mb then
        let len := s32 (mb_end mb - mb_head mb - 1) in
        let len := if (0 <=? maxlen) && (maxlen <? len) then maxlen else len in
        let head := if update then mb_head mb + len else mb_head mb in
        if ((maxlen <? 0) || (len <? maxlen)) && negb (mb_tail mb =? 0) then
          let len := len + 1 in
          let head := if update then 0 else head in
          (len, offset, mk_membuff (mb_start mb) (mb_end mb) head (mb_tail mb))
        else (len, offset, mk_membuff (mb_start mb) (mb_end mb) head (mb_tail mb))
      else
        let len := s32 (mb_tail mb - mb_head mb - 1) in
        let len := if (0 <=? maxlen) && (maxlen <? len) then maxlen else len in
        let head := if update then mb_head mb + len else mb_head mb in
        (len, offset, mk_membuff (mb_start mb) (mb_end mb) head (mb_tail mb))
  end.

Definition membuff_putraw (mb : membuff) (maxlen : Z) (update : bool) : Z * Z * membuff :=
  membuff_putrawflex mb maxlen update.

(** Stores [bytes] at the offset [data] of the buffer. *)
Definition write_at (mb : membuff) (data : Z) (bytes : list Z) : option membuff :=
  match mb_start mb with
  | None => if Nat.eqb (length bytes) 0 then Some mb else None
  | Some buf =>
      buf' ← store_bytes buf data bytes;
      Some (mk_membuff (Some buf') (mb_end mb) (mb_head mb) (mb_tail mb))
  end.

(** The [len] bytes at the offset [data] of the buffer; a NULL pointer may only
    be read for no byte. *)
Definition read_at (mb : membuff) (data : option Z) (len : Z) : option (list Z) :=
  if len =? 0 then Some []
  else
    buf ← mb_start mb;
    off ← data;
    if (0 <=? off) && (0 <=? len) && (off + len <=? Z.of_nat (length buf))
    then Some (slice buf (Z.to_nat off) (Z.to_nat len)) else None.

Definition membuff_putbyte (mb : membuff) (c : Z) : option (bool * membuff) :=
  let '(n, data, mb') := membuff_putraw mb 1 true in
  if negb (n =? 1) then Some (false, mb')
  else mb'' ← write_at mb' data [u8 c]; Some (true, mb'').

(** Returns the number of bytes and where they are; [data] is left as it was
    (NULL in every caller) when there is none. *)
Definition membuff_getraw (mb : membuff) (maxlen : Z) (update : bool) : Z * option Z * membuff :=
  if mb_tail mb <? mb_head mb then
    let len := s32 (mb_head mb - mb_tail mb) in
    let len := if (0 <=? maxlen) && (maxlen <? len) then maxlen else len in
    let tail := if update then mb_tail mb + len else mb_tail mb in
    (len, Some (mb_tail mb), mk_membuff (mb_start mb) (mb_end mb) (mb_head mb) tail)
  else if mb_head mb <? mb_tail mb then
    let len := s32 (mb_end mb - mb_tail mb) in
    let len := if (0 <=? maxlen) && (maxlen <? len) then maxlen else len in
    let tail :=
      if update then
        let t := mb_tail mb + len in if t =? mb_end mb then 0 else t
      else mb_tail mb in
    (len, Some (mb_tail mb), mk_membuff (mb_start mb) (mb_end mb) (mb_head mb) tail)
  else (0, None, mb).

Definition membuff_getbyte (mb : membuff) : option (Z * membuff) :=
  let '(n, data, mb') := membuff_getraw mb 1 true in
  if negb (n =? 1) then Some (-1, mb')
  else bs ← read_at mb' data 1; Some (ch bs, mb').

Definition membuff_peekbyte (mb : membuff) : option Z :=
  let '(n, data, mb') := membuff_getraw mb 1 false in
  if negb (n =? 1) then Some (-1)
  else bs ← read_at mb' data 1; Some (ch bs).

(** [for (i = 0; len && i < 2; i++)]: the bytes copied out and the buffer. *)
Fixpoint get_loop (n : nat) (mb : membuff) (maxlen : Z) (acc : list Z)
    : option (list Z * membuff) :=
  match n with
  | O => Some (acc, mb)
  | S n =>
      let '(len, data, mb') := membuff_getraw mb maxlen true in
      bs ← read_at mb' data len;
      if len =? 0 then Some (acc ++ bs, mb')
      else get_loop n mb' (maxlen - len) (acc ++ bs)
  end.

Definition membuff_get (mb : membuff) (maxlen : Z) : option (Z * list Z * membuff) :=
  '(bs, mb') ← get_loop 2 mb maxlen [];
  Some (Z.of_nat (length bs), bs, mb').

Fixpoint put_loop (n : nat) (mb : membuff) (buff : list Z) (length : Z) (written : Z)
    : option (Z * membuff) :=
  match n with
  | O => Some (written, mb)
  | S n =>
      let '(towrite, data, mb') := membuff_putraw mb length true in
      mb'' ← write_at mb' data (take (Z.to_nat towrite) buff);
      put_loop n mb'' (drop (Z.to_nat towrite) buff) (length - towrite) (written + towrite)
  end.

Definition membuff_put (mb : membuff) (buff : list Z) : option (Z * membuff) :=
  put_loop 2 mb buff (Z.of_nat (length buff)) 0.

Definition membuff_isempty (mb : membuff) : bool := mb_head mb =? mb_tail mb.

Definition membuff_avail (mb : membuff) : Z :=
  let '(n1, _, mb1) := membuff_getraw mb (-1) true in
  let '(n2, _, _) := membuff_getraw mb1 (-1) true in
  n1 + n2.

Definition membuff_size (mb : membuff) : Z := s32 (mb_end mb).

Definition membuff_makecontig (mb : membuff) : option (bool * membuff) :=
  match mb_start mb with
  | None => Some (true, mk_membuff None (mb_end mb) 0 0)
  | Some buf =>
      if (mb_head mb <? mb_tail mb) then
        let topsize := mb_end mb - mb_tail mb in
        let botsize := mb_head mb in
        if mb_tail mb <=? mb_head mb + topsize then Some (false, mb)
        else
          buf1 ← memmove buf topsize 0 (Z.to_nat botsize);
          buf2 ← memcpy buf1 0 (mb_tail mb) (Z.to_nat topsize);
          Some (true, mk_membuff (Some buf2) (mb_end mb) (topsize + botsize) 0)
      else
        let topsize := mb_head mb - mb_tail mb in
        buf2 ← memcpy buf 0 (mb_tail mb) (Z.to_nat topsize);
        Some (true, mk_membuff (Some buf2) (mb_end mb) topsize 0)
  end.

Definition membuff_free (mb : membuff) : Z :=
  if mb_end mb =? 0 then 0 else mb_end mb - 1 - membuff_avail mb.

(** The loop of [membuff_readline]: whether the line is complete, [s], [len]
    and the characters stored before [str]. *)
Fixpoint readline_loop (fuel : nat) (mb : membuff) (buf : list Z) (s e len maxlen minch : Z)
    (str : list Z) : option (bool * Z * Z * list Z) :=
  match fuel with
  | O => None
  | S fuel =>
      if (s <? e) && (len <? maxlen - 1) then
        c ← aget buf s;
        let s := s + 1 in
        let len := len + 1 in
        if (c =? 10) || (c <? minch) then Some (true, s, len, str)
        else
          let '(s, e) :=
            if (s =? e) && (mb_head mb <? mb_tail mb) then (0, mb_head mb) else (s, e) in
          readline_loop fuel mb buf s e len maxlen minch (str ++ [c])
      else Some (false, s, len, str)
  end.

(** Returns the bytes consumed and the string left in [str]; every iteration
    raises [len], so there are fewer than [maxlen]. *)
Definition membuff_readline (mb : membuff) (maxlen minch : Z)
    : option (Z * list Z * membuff) :=
  let buf := default [] (mb_start mb) in
  let e := if mb_tail mb <=? mb_head mb then mb_head mb else mb_end mb in
  '(ok, s, len, str) ←
    readline_loop (S (Z.to_nat maxlen)) mb buf (mb_tail mb) e 0 maxlen minch [];
  if negb ok then Some (0, [], mb)
  else
    let tail := if s =? mb_end mb then 0 else s in
    Some (len, str, mk_membuff (mb_start mb) (mb_end mb) (mb_head mb) tail).

(** [for (..; size < orig + by;) size *= 2] on a signed [int]: [None] is a
    signed overflow or a loop that does not end. *)
Fixpoint double_loop (fuel : nat) (size target : Z) : option Z :=
  match fuel with
  | O => None
  | S fuel =>
      if size <? target then
        if 2 ^ 31 <=? size * 2 then None else double_loop fuel (size * 2) target
      else Some size
  end.

(** [realloc n] is the allocator's answer to growing the block by [n] bytes:
    the new bytes at its end, or [None] for NULL. *)
Definition membuff_extend_by (realloc : Z -> option (list Z)) (mb : membuff) (by_ max : Z)
    : option (Z * membuff) :=
  let orig := s32 (mb_end mb) in
  size ← double_loop 33 orig (orig + by_);
  let size := if negb (max =? -1) then Z.min size max else size in
  let by_ := size - orig in
  if by_ <=? 0 then Some (- E2BIG, mb)
  else
    match realloc by_ with
    | None => Some (- ENOMEM, mb)
    | Some fresh =>
        let buf := default [] (mb_start mb) ++ fresh in
        if mb_head mb <? mb_tail mb then
          buf' ← memmove buf (mb_tail mb + by_) (mb_tail mb) (Z.to_nat (orig - mb_tail mb));
          Some (0, mk_membuff (Some buf') size (mb_head mb) (mb_tail mb + by_))
        else Some (0, mk_membuff (Some buf) size (mb_head mb) (mb_tail mb))
    end.

Definition membuff_init (buff : list Z) : membuff :=
  membuff_purge (mk_membuff (Some buff) (Z.of_nat (length buff)) 0 0).

(** [malloc size] is the block that the allocator returns. *)
Definition membuff_new (malloc : Z -> option (list Z)) (mb : membuff) (size : Z) : Z * membuff :=
  match malloc size with
  | None => (- ENOMEM, mk_membuff None (mb_end mb) (mb_head mb) (mb_tail mb))
  | Some buff => (0, membuff_init buff)
  end.

Definition membuff_uninit (mb : membuff) : membuff :=
  membuff_purge (mk_membuff None 0 0 0).


(** ** Specification: a bounded queue of bytes

    [holds n mb q]: the buffer [mb] has [n] bytes and holds the bytes [q], the
    oldest first. *)

Definition contents (buf : list Z) (h t : nat) : list Z :=
  if decide (t <= h)%nat then slice buf t (h - t) else drop t buf ++ take h buf.

Definition holds (n : nat) (mb : membuff) (q : list Z) : Prop :=
  exists buf (h t : nat),
    mb = mk_membuff (Some buf) (Z.of_nat n) (Z.of_nat h) (Z.of_nat t) /\
    length buf = n /\ (h < n)%nat /\ (t < n)%nat /\ Z.of_nat n < 2 ^ 31 /\
    q = contents buf h t.

(** The data is in two parts. *)
Definition wrapped (mb : membuff) : bool := mb_head mb <? mb_tail mb.

Lemma length_contents buf h t :
  (h < length buf)%nat -> (t < length buf)%nat ->
  length (contents buf h t) = if decide (t <= h)%nat then (h - t)%nat else (length buf - t + h)%nat.
Proof.
  intros. unfold contents. case_decide.
  - apply length_slice. lia.
  - rewrite length_app, length_take, length_drop. lia.
Qed.

Lemma holds_room n mb q : holds n mb q -> (length q < n)%nat.
Proof.
  intros (buf & h & t & -> & Hn & Hh & Ht & _ & ->).
  rewrite length_contents by lia. case_decide; lia.
Qed.

(** *** Writing at the head *)

Lemma slice_blit buf h t bs :
  (t <= h)%nat -> (h + length bs <= length buf)%nat ->
  slice (blit buf h bs) t (h - t + length bs) = slice buf t (h - t) ++ bs.
Proof.
  intros Ht Hh. apply list_eq. intros i. rewrite lookup_slice.
  destruct (decide (i < h - t)%nat).
  - rewrite lookup_app_l by (rewrite length_slice; lia). rewrite lookup_slice, lookup_blit by lia.
    repeat case_decide; try lia. done.
  - rewrite lookup_app_r by (rewrite length_slice; lia). rewrite length_slice by lia.
    case_decide.
    + rewrite lookup_blit by lia. case_decide; [|lia]. f_equal. lia.
    + symmetry. apply lookup_ge_None. lia.
Qed.

Lemma contents_append buf h t bs :
  (h + length bs < length buf)%nat -> (t <= h \/ h + length bs < t)%nat -> (t < length buf)%nat ->
  contents (blit buf h bs) (h + length bs) t = contents buf h t ++ bs.
Proof.
  intros Hh Ht Hl. unfold contents. repeat case_decide; try lia.
  - rewrite <- slice_blit by lia. f_equal. lia.
  - rewrite <- app_assoc. f_equal.
    + apply list_eq. intros i. rewrite !lookup_drop, lookup_blit by lia. case_decide; [lia|done].
    + assert (slice (blit buf h bs) 0 (h - 0 + length bs) = slice buf 0 (h - 0) ++ bs) as E
        by (apply slice_blit; lia).
      unfold slice in E. by rewrite !drop_0, !Nat.sub_0_r in E.
Qed.

Lemma contents_wrap buf h t bs :
  (h + length bs = length buf)%nat -> (0 < t <= h)%nat ->
  contents (blit buf h bs) 0 t = contents buf h t ++ bs.
Proof.
  intros Hh Ht. unfold contents. repeat case_decide; try lia.
  rewrite <- slice_blit by lia. unfold slice. rewrite take_0, app_nil_r, take_ge; [done|].
  rewrite length_drop, length_blit; lia.
Qed.

Lemma write_at_blit buf e h t (d : nat) bs :
  (d + length bs <= length buf)%nat ->
  write_at (mk_membuff (Some buf) e h t) (Z.of_nat d) bs =
  Some (mk_membuff (Some (blit buf d bs)) e h t).
Proof. intros. unfold write_at; cbn [mb_start]. by rewrite store_bytes_blit. Qed.

(** [membuff_putraw] grants as much as fits before the end of the buffer or the
    tail: the new head follows the bytes granted, or wraps to the start. *)
Lemma putraw_room buf n (h t m : nat) :
  (h < n)%nat -> (t < n)%nat -> Z.of_nat n < 2 ^ 31 -> length buf = n ->
  exists k h' : nat,
    membuff_putraw (mk_membuff (Some buf) (Z.of_nat n) (Z.of_nat h) (Z.of_nat t)) (Z.of_nat m) true =
      (Z.of_nat k, Z.of_nat h, mk_membuff (Some buf) (Z.of_nat n) (Z.of_nat h') (Z.of_nat t)) /\
    (k <= m)%nat /\
    (h' = (h + k)%nat /\ (h + k < n)%nat /\ (t <= h \/ h + k < t)%nat /\
       k = Nat.min m (n - 1 - length (contents buf h t)) \/
     h' = 0%nat /\ (h + k = n)%nat /\ (0 < t <= h)%nat).
Proof.
  intros Hh Ht Hw Hn. rewrite length_contents by lia.
  unfold membuff_putraw, membuff_putrawflex; cbn [mb_start mb_end mb_head mb_tail].
  destruct (decide (t <= h)%nat).
  - rewrite (proj2 (Z.leb_le _ _)) by lia. unwrap.
    exists (if decide (m <= n - h - 1) then m else if decide (t = 0) then n - h - 1 else n - h)%nat,
           (if decide (m <= n - h - 1) then h + m else if decide (t = 0) then n - 1 else 0)%nat.
    repeat case_decide; repeat (case_if; try lia); split_and!; try lia.
    all: repeat f_equal; lia.
  - rewrite (proj2 (Z.leb_gt _ _)) by lia. unwrap.
    exists (Nat.min m (t - h - 1)), (h + Nat.min m (t - h - 1))%nat.
    repeat (case_if; try lia); split_and!; try lia.
    all: repeat f_equal; lia.
Qed.

(** One round of [membuff_put]. *)
Lemma put_step n mb q bs :
  holds n mb q ->
  exists (k : nat) d mb1 mb2,
    membuff_putraw mb (Z.of_nat (length bs)) true = (Z.of_nat k, d, mb1) /\
    write_at mb1 d (take k bs) = Some mb2 /\
    holds n mb2 (q ++ take k bs) /\ (k <= length bs)%nat /\
    (k = Nat.min (length bs) (n - 1 - length q) \/
     (0 < k)%nat /\ wrapped mb = false /\ wrapped mb2 = true).
Proof.
  intros (buf & h & t & -> & Hn & Hh & Ht & Hw & ->).
  destruct (putraw_room buf n h t (length bs)) as (k & h' & Hp & Hk & Hh'); [lia..|].
  assert (length (take k bs) = k) as Hl by (rewrite length_take; lia).
  assert (h + k <= n)%nat by lia.
  eexists k, _, _, _. split; [exact Hp|]. rewrite write_at_blit by lia. split; [done|].
  split_and!; [|lia|].
  - exists (blit buf h (take k bs)), h', t. rewrite length_blit by lia.
    split_and!; try done; try lia.
    destruct Hh' as [(-> & ? & ? & _)|(-> & ? & ?)]; [|by rewrite contents_wrap by lia].
    rewrite <- contents_append by lia. by rewrite Hl.
  - destruct Hh' as [(_ & _ & _ & Hm)|(-> & ? & ?)]; [by left|right]. unfold wrapped; cbn [mb_head mb_tail].
    rewrite Z.ltb_ge, Z.ltb_lt. lia.
Qed.

Lemma put_loop_2 n mb q bs :
  holds n mb q ->
  exists mb', let k := Nat.min (length bs) (n - 1 - length q) in
    membuff_put mb bs = Some (Z.of_nat k, mb') /\ holds n mb' (q ++ take k bs).
Proof.
  intros H. unfold membuff_put; cbn [put_loop].
  destruct (put_step n mb q bs H) as (k1 & d1 & mb1 & mb2 & -> & Hw1 & H2 & Hk1 & Hm1).
  rewrite Nat2Z.id, Hw1. step_bind.
  replace (Z.of_nat (length bs) - Z.of_nat k1) with (Z.of_nat (length (drop k1 bs)))
    by (rewrite length_drop; lia).
  destruct (put_step n mb2 _ (drop k1 bs) H2) as (k2 & d2 & mb3 & mb4 & -> & Hw2 & H4 & Hk2 & Hm2).
  rewrite Nat2Z.id, Hw2. step_bind. exists mb4.
  apply holds_room in H as Hr. apply holds_room in H2 as Hr2. apply holds_room in H4 as Hr4.
  rewrite length_drop in *. rewrite !length_app, !length_take, ?length_drop in *.
  assert (k1 + k2 = Nat.min (length bs) (n - 1 - length q))%nat as Hs.
  { destruct Hm1 as [->|(_ & _ & Hw)]; [lia|]. destruct Hm2 as [->|(_ & Hw' & _)]; [lia|congruence]. }
  split; [f_equal; f_equal; lia|]. rewrite <- Hs, <- take_take_drop. by rewrite app_assoc.
Qed.

(** *** Reading at the tail *)

(** The tail after [k] bytes are taken. *)
Definition next_tail (n t k : nat) : nat := if decide (t + k = n)%nat then 0%nat else (t + k)%nat.

Definition one_part (n h t k : nat) : Prop :=
  (t <= h /\ t + k <= h)%nat \/ (h < t /\ t + k <= n)%nat.

Lemma contents_take buf h t k :
  (h < length buf)%nat -> one_part (length buf) h t k ->
  slice buf t k = take k (contents buf h t).
Proof.
  intros Hh Hk. unfold one_part in Hk. unfold contents, slice. case_decide.
  - rewrite take_take. f_equal. lia.
  - rewrite take_app_le by (rewrite length_drop; lia). done.
Qed.

Lemma contents_drop buf h t k :
  (h < length buf)%nat -> one_part (length buf) h t k ->
  contents buf h (next_tail (length buf) t k) = drop k (contents buf h t).
Proof.
  intros Hh Hk. unfold one_part in Hk. unfold contents, slice, next_tail.
  repeat case_decide; try lia.
  - rewrite drop_0, drop_app_ge by (rewrite length_drop; lia).
    rewrite length_drop, Nat.sub_0_r. replace (k - (length buf - t))%nat with 0%nat by lia. done.
  - rewrite skipn_firstn_comm, drop_drop. f_equal. lia.
  - rewrite drop_app_le by (rewrite length_drop; lia). by rewrite drop_drop.
Qed.

(** [membuff_getraw] grants bytes of the part that starts at the tail; a
    negative [maxlen] is no limit. *)
Lemma getraw_part buf n (h t : nat) maxlen :
  (h < n)%nat -> (t < n)%nat -> Z.of_nat n < 2 ^ 31 -> length buf = n ->
  exists (k : nat) d,
    let mb t' := mk_membuff (Some buf) (Z.of_nat n) (Z.of_nat h) (Z.of_nat t') in
    let l := length (contents buf h t) in
    let m := if maxlen <? 0 then l else Z.to_nat maxlen in
    (forall update, membuff_getraw (mb t) maxlen update =
      (Z.of_nat k, d, mb (if update then next_tail n t k else t))) /\
    (k = 0%nat \/ d = Some (Z.of_nat t)) /\
    one_part n h t k /\ (k <= Nat.min m l)%nat /\ (k = 0 -> Nat.min m l = 0)%nat /\
    (k = Nat.min m l \/ (h < t /\ t + k = n)%nat).
Proof.
  intros Hh Ht Hw Hn. rewrite length_contents by lia. unfold one_part, next_tail.
  unfold membuff_getraw; cbn [mb_start mb_end mb_head mb_tail].
  set (l := if decide (t <= h)%nat then (h - t)%nat else (length buf - t + h)%nat).
  set (m := if maxlen <? 0 then l else Z.to_nat maxlen).
  assert (maxlen < 0 -> m = l) by (unfold m; case_if; lia).
  assert (0 <= maxlen -> Z.of_nat m = maxlen) by (unfold m; case_if; lia).
  clearbody m. unfold l in *; clear l.
  destruct (decide (t < h)%nat) as [?|?]; [|destruct (decide (h = t)) as [->|]].
  - exists (Nat.min m (h - t)), (Some (Z.of_nat t)). cbv zeta. rewrite (proj2 (Z.ltb_lt _ _)) by lia.
    unwrap. repeat case_decide; try lia.
    split_and!; try lia; [|by right]. intros []; repeat (case_if; try lia); repeat f_equal; lia.
  - exists 0%nat, None. cbv zeta. rewrite Z.ltb_irrefl. rewrite (decide_True (P := (t <= t)%nat)) in * by lia.
    split_and!; try lia. intros []; repeat case_decide; try lia; repeat f_equal; lia.
  - exists (Nat.min m (n - t)), (Some (Z.of_nat t)). cbv zeta.
    rewrite (proj2 (Z.ltb_ge _ _)), (proj2 (Z.ltb_lt _ _)) by lia.
    unwrap. rewrite (decide_False (P := (t <= h)%nat)) in * by lia.
    split_and!; try lia; [|by right].
    intros []; repeat case_decide; try lia; repeat (case_if; try lia); repeat f_equal; lia.
Qed.

(** One round of [membuff_get]. *)
Lemma get_step n mb q maxlen :
  holds n mb q ->
  exists (k : nat) d mb1,
    let m := if maxlen <? 0 then length q else Z.to_nat maxlen in
    membuff_getraw mb maxlen true = (Z.of_nat k, d, mb1) /\
    membuff_getraw mb maxlen false = (Z.of_nat k, d, mb) /\
    read_at mb1 d (Z.of_nat k) = Some (take k q) /\
    read_at mb d (Z.of_nat k) = Some (take k q) /\
    holds n mb1 (drop k q) /\ (k <= Nat.min m (length q))%nat /\ (k = 0 -> Nat.min m (length q) = 0)%nat /\
    (k = Nat.min m (length q) \/ wrapped mb = true /\ wrapped mb1 = false).
Proof.
  intros (buf & h & t & -> & Hn & Hh & Ht & Hw & ->).
  destruct (getraw_part buf n h t maxlen) as (k & d & Hg & Hd & Hp & Hm & H0 & Hk); [lia..|].
  assert (t + k <= n)%nat by (unfold one_part in Hp; lia).
  assert (forall t', read_at (mk_membuff (Some buf) (Z.of_nat n) (Z.of_nat h) t') d (Z.of_nat k)
          = Some (take k (contents buf h t))) as Hr.
  { intros t'. rewrite <- contents_take by (rewrite ?Hn; done). unfold read_at.
    case_if; [replace k with 0%nat by lia; done|]. destruct Hd as [->| ->]; [lia|].
    cbn [mb_start]. step_bind. step_bind. rewrite Hn. case_if; [by rewrite !Nat2Z.id|lia]. }
  eexists k, d, _. cbv zeta. split_and!; [apply Hg|apply (Hg false)|apply Hr..| | | |]; try done.
  - eexists buf, h, _. split_and!; try done.
    + unfold next_tail. case_decide; lia.
    + rewrite <- Hn. symmetry. apply contents_drop; [lia|by rewrite Hn].
  - destruct Hk as [->|[? ?]]; [by left|right]. unfold wrapped, next_tail; cbn [mb_head mb_tail].
    rewrite decide_True by done. rewrite Z.ltb_lt, Z.ltb_ge. lia.
Qed.

Lemma get_loop_2 n mb q m :
  holds n mb q ->
  exists mb', let k := Nat.min m (length q) in
    membuff_get mb (Z.of_nat m) = Some (Z.of_nat k, take k q, mb') /\ holds n mb' (drop k q).
Proof.
  intros H. unfold membuff_get; cbn [get_loop].
  destruct (get_step n mb q (Z.of_nat m) H) as (k1 & d1 & mb1 & -> & _ & -> & _ & H1 & Hm1 & H0 & Hk1).
  rewrite (proj2 (Z.ltb_ge (Z.of_nat m) 0)), Nat2Z.id in * by lia. step_bind.
  case_if.
  { assert (k1 = 0)%nat as -> by lia. exists mb1. rewrite H0 by done. done. }
  replace (Z.of_nat m - Z.of_nat k1) with (Z.of_nat (m - k1)) by lia.
  destruct (get_step n mb1 _ (Z.of_nat (m - k1)) H1)
    as (k2 & d2 & mb2 & -> & _ & -> & _ & H2 & Hm2 & _ & Hk2).
  rewrite (proj2 (Z.ltb_ge (Z.of_nat (m - k1)) 0)), Nat2Z.id in * by lia. step_bind.
  rewrite length_drop in Hk2, Hm2.
  assert (k1 + k2 = Nat.min m (length q))%nat as Hs.
  { destruct Hk1 as [->|[_ Hw]], Hk2 as [->|[Hw2 _]]; try lia; congruence. }
  exists mb2. cbv zeta. rewrite <- Hs, app_nil_l, take_take_drop.
  rewrite drop_drop in H2. case_if; (split; [|done]); step_bind.
  all: rewrite length_take; repeat f_equal; lia.
Qed.

Lemma avail_length n mb q : holds n mb q -> membuff_avail mb = Z.of_nat (length q).
Proof.
  intros H. unfold membuff_avail.
  destruct (get_step n mb q (-1) H) as (k1 & d1 & mb1 & -> & _ & _ & _ & H1 & Hm1 & _ & Hk1).
  destruct (get_step n mb1 _ (-1) H1) as (k2 & d2 & mb2 & -> & _ & _ & _ & H2 & Hm2 & _ & Hk2).
  simpl in *. rewrite length_drop in *.
  destruct Hk1 as [->|[_ Hw]], Hk2 as [->|[Hw2 _]]; try lia; congruence.
Qed.

(** *** Moving the data *)

Lemma makecontig_holds n mb q :
  holds n mb q ->
  exists b mb', membuff_makecontig mb = Some (b, mb') /\ holds n mb' q /\
    (b = true -> mb_tail mb' = 0) /\ (b = false -> mb' = mb).
Proof.
  intros (buf & h & t & -> & Hn & Hh & Ht & Hw & ->).
  unfold membuff_makecontig; cbn [mb_start mb_end mb_head mb_tail].
  rewrite <- Nat2Z.inj_sub, !Nat2Z.id, <- Nat2Z.inj_add by lia.
  change 0 with (Z.of_nat 0). case_if; [case_if|].
  - eexists _, _. split_and!; [done| |done|done]. by exists buf, h, t.
  - destruct (memmove_copied buf (n - t) 0 h) as (b1 & -> & Hb1 & H1); [lia..|]. step_bind.
    destruct (memcpy_copied b1 0 t (n - t)) as (b2 & -> & Hb2 & H2); [lia..|]. step_bind.
    eexists _, _. split_and!; [done| |done|done].
    exists b2, (n - t + h)%nat, 0%nat. split_and!; try lia; [repeat f_equal; lia|].
    apply list_eq. intros i. unfold contents.
    rewrite decide_False, decide_True by lia. rewrite lookup_slice, H2, Nat.add_0_l.
    destruct (decide (i < n - t)%nat).
    + rewrite lookup_app_l, lookup_drop by (rewrite length_drop; lia).
      rewrite !decide_True by lia. rewrite H1. rewrite decide_False by lia. f_equal. lia.
    + rewrite lookup_app_r, length_drop by (rewrite length_drop; lia).
      case_decide; [|rewrite lookup_take_ge by lia; done].
      rewrite decide_False, H1, decide_True by lia. rewrite lookup_take_lt by lia. f_equal. lia.
  - rewrite <- Nat2Z.inj_sub, Nat2Z.id by lia.
    destruct (memcpy_copied buf 0 t (h - t)) as (b2 & -> & Hb2 & H2); [lia..|]. step_bind.
    eexists _, _. split_and!; [done| |done|done].
    exists b2, (h - t)%nat, 0%nat. split_and!; try lia; [repeat f_equal; lia|].
    apply list_eq. intros i. unfold contents. rewrite !decide_True by lia.
    rewrite !lookup_slice, H2. repeat case_decide; try lia; [f_equal; lia|done].
Qed.

(** Doubling ends with the first size that is large enough. *)
Lemma double_loop_ends fuel : forall size target,
  0 < size -> target <= 2 ^ 30 -> target <= size * 2 ^ Z.of_nat fuel ->
  (size < target \/ size < 2 * target) ->
  exists size', double_loop (S fuel) size target = Some size' /\
    size <= size' /\ target <= size' < 2 * target.
Proof.
  induction fuel as [|fuel IH]; intros size target Hs Ht Hf Hb;
    unfold double_loop; fold double_loop.
  { change (2 ^ Z.of_nat 0) with 1 in Hf. case_if; [lia|]. exists size. split_and!; [done|lia..]. }
  case_if; [|exists size; split_and!; [done|lia..]].
  rewrite (proj2 (Z.leb_gt _ _)) by lia. fold double_loop.
  rewrite Nat2Z.inj_succ, Z.pow_succ_r in Hf by lia.
  destruct (IH (size * 2) target) as (s' & E' & ?); [lia..|].
  exists s'. split_and!; [exact E'|lia..].
Qed.

Lemma contents_grow buf fresh h t :
  (h < length buf)%nat -> (t <= h)%nat -> contents (buf ++ fresh) h t = contents buf h t.
Proof.
  intros. unfold contents. rewrite !decide_True by done. unfold slice.
  rewrite drop_app_le, take_app_le by (rewrite ?length_drop; lia). done.
Qed.

Lemma contents_spread buf buf' fresh h t :
  (h < t < length buf)%nat ->
  copied (buf ++ fresh) buf' (t + length fresh) t (length buf - t) ->
  contents buf' h (t + length fresh) = contents buf h t.
Proof.
  intros Ht [Hl H]. unfold contents. rewrite !decide_False by lia.
  rewrite length_app in Hl. apply list_eq. intros i.
  destruct (decide (i < length buf - t)%nat).
  - rewrite !lookup_app_l, !lookup_drop by (rewrite length_drop; lia).
    rewrite H, decide_True by lia. rewrite lookup_app_l by lia. f_equal. lia.
  - rewrite !lookup_app_r, !length_drop by (rewrite length_drop; lia).
    replace (length buf' - (t + length fresh))%nat with (length buf - t)%nat by lia.
    destruct (decide (i - (length buf - t) < h)%nat).
    + rewrite !lookup_take_lt, H, decide_False by lia. by rewrite lookup_app_l by lia.
    + by rewrite !lookup_take_ge by lia.
Qed.

Lemma extend_holds n mb q fresh size :
  holds n mb q -> size = Z.of_nat (n + length fresh) -> size < 2 ^ 31 ->
  exists mb', 
    (let buf := default [] (mb_start mb) ++ fresh in
     let by_ := size - s32 (mb_end mb) in
     if mb_head mb <? mb_tail mb then
       buf' ← memmove buf (mb_tail mb + by_) (mb_tail mb) (Z.to_nat (s32 (mb_end mb) - mb_tail mb));
       Some (0, mk_membuff (Some buf') size (mb_head mb) (mb_tail mb + by_))
     else Some (0, mk_membuff (Some buf) size (mb_head mb) (mb_tail mb))) = Some (0, mb') /\
    holds (n + length fresh) mb' q.
Proof.
  intros (buf & h & t & -> & Hn & Hh & Ht & Hw & ->) -> Hs.
  cbn [mb_start mb_end mb_head mb_tail]. unwrap. cbv zeta.
  replace (Z.of_nat t + (Z.of_nat (n + length fresh) - Z.of_nat n))
    with (Z.of_nat (t + length fresh)) by lia.
  replace (Z.to_nat (Z.of_nat n - Z.of_nat t)) with (length buf - t)%nat by lia.
  change (default [] (Some buf)) with buf.
  case_if.
  - destruct (memmove_copied (buf ++ fresh) (t + length fresh) t (length buf - t))
      as (buf' & -> & Hc); [rewrite ?length_app; lia..|]. step_bind. eexists; split; [done|].
    exists buf', h, (t + length fresh)%nat.
    rewrite (proj1 Hc), length_app. split_and!; try lia; [done|].
    symmetry. apply contents_spread; [lia|done].
  - eexists; split; [done|]. exists (buf ++ fresh), h, t.
    rewrite length_app. split_and!; try lia; [done|]. by rewrite contents_grow by lia.
Qed.

(** *** Reading a line *)

Definition is_line_end (minch c : Z) : bool := (c =? 10) || (c <? minch).

(** The index of the first character that ends a line. *)
Fixpoint line_end (minch : Z) (q : list Z) : option nat :=
  match q with
  | [] => None
  | c :: q => if is_line_end minch c then Some 0%nat else S <$> line_end minch q
  end.

Lemma line_end_None minch q : line_end minch q = None -> Forall (fun c => is_line_end minch c = false) q.
Proof.
  induction q as [|c q IH]; simpl; [done|]. destruct (is_line_end minch c) eqn:E; [done|].
  rewrite fmap_None. auto.
Qed.

(** The reader is at byte [i] of the contents: the offset [s] in the part that
    ends at [e]. *)
Definition at_pos (buf : list Z) (n h t i s e : nat) : Prop :=
  (i < length (contents buf h t))%nat /\
  if decide (t <= h)%nat then s = (t + i)%nat /\ e = h
  else if decide (i < n - t)%nat then s = (t + i)%nat /\ e = n
  else s = (i - (n - t))%nat /\ e = h.

Section Readline.
Context (buf : list Z) (n h t : nat) (maxlen minch : Z).
Context (Hn : length buf = n) (Hh : (h < n)%nat) (Ht : (t < n)%nat).
Let mb := mk_membuff (Some buf) (Z.of_nat n) (Z.of_nat h) (Z.of_nat t).
Let q := contents buf h t.

(** Reading one byte leads to the next position; after the last byte the loop
    stops, or reads the lower part again. *)
Lemma pos_step i s e :
  at_pos buf n h t i s e ->
  (s < e)%nat /\
  (exists c, aget buf (Z.of_nat s) = Some c /\ q !! i = Some c) /\
  contents buf h (if decide (S s = n) then 0%nat else S s) = drop (S i) q /\
  exists s' e' : nat,
    (if (Z.of_nat s + 1 =? Z.of_nat e) && (mb_head mb <? mb_tail mb)
     then (0, mb_head mb) else (Z.of_nat s + 1, Z.of_nat e)) = (Z.of_nat s', Z.of_nat e') /\
    (at_pos buf n h t (S i) s' e' \/
     S i = length q /\ ((e' <= s')%nat \/ at_pos buf n h t (n - t) s' e')).
Proof.
  intros [Hi Hp]. subst q mb. cbn [mb_head mb_tail]. rewrite length_contents in * by lia.
  assert (s < e /\ e <= n)%nat as [Hse He] by (repeat case_decide; lia).
  split; [done|]. split; [|split].
  - destruct (lookup_lt_is_Some_2 buf s) as [c Hc]; [lia|]. exists c. rewrite aget_lookup.
    split; [done|]. unfold contents. case_decide; [|case_decide]; destruct Hp as [-> ->].
    + by rewrite lookup_slice, decide_True by lia.
    + by rewrite lookup_app_l, lookup_drop by (rewrite length_drop; lia).
    + rewrite lookup_app_r, length_drop by (rewrite length_drop; lia). by rewrite lookup_take_lt, Hn by lia.
  - destruct (decide (t <= h)%nat); [|case_decide]; destruct Hp as [-> ->].
    + rewrite <- contents_drop by (unfold one_part; lia). f_equal. unfold next_tail.
      repeat case_decide; lia.
    + rewrite <- contents_drop by (unfold one_part; lia). f_equal. unfold next_tail.
      repeat case_decide; lia.
    + rewrite decide_False by lia. unfold contents. rewrite decide_True, decide_False by lia.
      rewrite drop_app_ge by (rewrite length_drop; lia). rewrite skipn_firstn_comm, length_drop.
      unfold slice. f_equal; [lia|]. f_equal. lia.
  - destruct (decide (t <= h)%nat); [|case_decide]; destruct Hp as [-> ->].
    + exists (t + S i)%nat, h. unfold at_pos. rewrite length_contents by lia.
      rewrite !decide_True by lia. rewrite (proj2 (Z.ltb_ge _ _)), andb_false_r by lia.
      split; [f_equal; lia|]. lia.
    + rewrite (proj2 (Z.ltb_lt (Z.of_nat h) _)), andb_true_r by lia.
      unfold at_pos. rewrite length_contents by lia. rewrite !(decide_False (P := (t <= h)%nat)) by lia.
      case_if.
      * exists 0%nat, h. split; [done|]. repeat case_decide; lia.
      * exists (t + S i)%nat, n. split; [f_equal; lia|]. repeat case_decide; lia.
    + rewrite (proj2 (Z.ltb_lt (Z.of_nat h) _)), andb_true_r by lia.
      unfold at_pos. rewrite length_contents by lia. rewrite !(decide_False (P := (t <= h)%nat)) by lia.
      case_if.
      * exists 0%nat, h. split; [done|]. repeat case_decide; lia.
      * exists (S i - (n - t))%nat, h. split; [f_equal; lia|]. repeat case_decide; lia.
Qed.

(** No byte ends a line: the loop gives up. *)
Lemma readline_none fuel : forall i s e len str,
  Forall (fun c => is_line_end minch c = false) q ->
  ((e <= s)%nat \/ at_pos buf n h t i s e) -> Z.max 1 (maxlen - len) <= Z.of_nat fuel ->
  exists s' len' str',
    readline_loop fuel mb buf (Z.of_nat s) (Z.of_nat e) len maxlen minch str
    = Some (false, s', len', str').
Proof.
  induction fuel as [|fuel IH]; intros i s e len str Hq Hp Hf; [lia|].
  unfold readline_loop; fold readline_loop. case_if; [|by eexists _, _, _].
  destruct Hp as [?|Hp]; [lia|].
  destruct (pos_step i s e Hp) as (_ & (c & -> & Hc) & _ & s' & e' & Hr & Hp').
  step_bind. rewrite Hr. rewrite Forall_lookup in Hq. specialize (Hq _ _ Hc) as Hcc.
  unfold is_line_end in Hcc. rewrite Hcc.
  destruct Hp' as [?|[_ ?]]; eapply IH; eauto; try lia; by apply Forall_lookup.
Qed.

Lemma readline_main fuel : forall i s e str,
  Forall (fun c => is_line_end minch c = false) (take i q) ->
  at_pos buf n h t i s e -> Z.max 1 (maxlen - Z.of_nat i) <= Z.of_nat fuel -> length str = i ->
  exists ok s' len' str',
    readline_loop fuel mb buf (Z.of_nat s) (Z.of_nat e) (Z.of_nat i) maxlen minch str
    = Some (ok, s', len', str') /\
    match line_end minch (drop i q) with
    | Some k =>
        if Z.of_nat (i + k) <? maxlen - 1
        then ok = true /\ len' = Z.of_nat (S (i + k)) /\ str' = str ++ take k (drop i q) /\
             exists s'' : nat, s' = Z.of_nat (S s'') /\ (s'' < n)%nat /\
             contents buf h (if decide (S s'' = n) then 0%nat else S s'') = drop (S (i + k)) q
        else ok = false
    | None => ok = false
    end.
Proof.
  induction fuel as [|fuel IH]; intros i s e str Hq Hp Hf Hs; [lia|].
  destruct (pos_step i s e Hp) as (Hse & (c & Hg & Hc) & Hd & s' & e' & Hr & Hp').
  assert (e <= n)%nat.
  { destruct Hp as [_ Hp]. repeat case_decide; lia. }
  rewrite (drop_S _ _ _ Hc) in *. simpl line_end.
  unfold readline_loop; fold readline_loop. rewrite Hg.
  case_if.
  - step_bind. fold (is_line_end minch c). destruct (is_line_end minch c) eqn:Ec.
    + eexists _, _, _, _. split; [done|]. rewrite Nat.add_0_r, (proj2 (Z.ltb_lt _ _)) by lia.
      split_and!; [done|lia|by rewrite take_0, app_nil_r|].
      exists s. split_and!; [lia..|done].
    + rewrite Hr. replace (Z.of_nat i + 1) with (Z.of_nat (S i)) by lia.
      assert (Forall (fun c => is_line_end minch c = false) (take (S i) q)) as Hq'.
      { rewrite (take_S_r _ _ _ Hc). apply Forall_app. split; [done|by constructor]. }
      destruct Hp' as [Hp'|[Hlast Hp']].
      * destruct (IH (S i) s' e' (str ++ [c]) Hq' Hp') as (ok & s1 & l1 & st1 & -> & Hm);
          [lia|rewrite length_app; simpl; lia|].
        eexists _, _, _, _. split; [done|].
        destruct (line_end minch (drop (S i) q)) as [k|]; simpl; [|done].
        rewrite Nat.add_succ_r. rewrite Nat.add_succ_l in Hm. case_if; [|done].
        rewrite <- app_assoc in Hm. done.
      * rewrite Hlast, take_ge in Hq' by done.
        rewrite (drop_ge q (S i)) by lia. simpl.
        destruct (readline_none fuel (n - t) s' e' (Z.of_nat (S i)) (str ++ [c]))
          as (s1 & l1 & st1 & ->); [done..|lia|]. by eexists _, _, _, _.
  - eexists _, _, _, _. split; [done|]. 
    destruct (is_line_end minch c); simpl; [by rewrite (proj2 (Z.ltb_ge _ _)) by lia|].
    destruct (line_end minch (drop (S i) q)); simpl; [|done]. by rewrite (proj2 (Z.ltb_ge _ _)) by lia.
Qed.
End Readline.

Lemma readline_holds n mb q maxlen minch :
  holds n mb q ->
  exists r str mb' q', membuff_readline mb maxlen minch = Some (r, str, mb') /\ holds n mb' q' /\
    match line_end minch q with
    | Some k =>
        if Z.of_nat k <? maxlen - 1
        then r = Z.of_nat (S k) /\ str = take k q /\ q' = drop (S k) q
        else r = 0 /\ str = [] /\ q' = q
    | None => r = 0 /\ str = [] /\ q' = q
    end.
Proof.
  intros (buf & h & t & -> & Hn & Hh & Ht & Hw & ->).
  unfold membuff_readline; cbn [mb_start mb_end mb_head mb_tail].
  set (q := contents buf h t) in *.
  destruct (decide (h = t)) as [->|Hne].
  { assert (q = []) as ->.
    { apply nil_length_inv. unfold q. rewrite length_contents, decide_True by lia. lia. }
    rewrite Z.leb_refl. unfold readline_loop. rewrite Z.ltb_irrefl. cbn [andb]. step_bind.
    eexists _, _, _, _. split_and!; [done| |done..]. exists buf, t, t. split_and!; try done.
    unfold contents, slice. rewrite decide_True, Nat.sub_diag by lia. by rewrite take_0. }
  set (e := (if decide (t <= h)%nat then h else n)).
  replace (if Z.of_nat t <=? Z.of_nat h then Z.of_nat h else Z.of_nat n) with (Z.of_nat e)
    by (unfold e; case_decide; case_if; lia).
  assert (at_pos buf n h t 0 t e) as Hp.
  { unfold at_pos. rewrite length_contents by lia. unfold e. repeat case_decide; lia. }
  destruct (readline_main buf n h t maxlen minch Hn Hh Ht (S (Z.to_nat maxlen)) 0 t e [])
    as (ok & s' & l' & st' & Hl & Hm); [constructor|done|lia|done|].
  change (default [] (Some buf)) with buf. change (Z.of_nat 0) with 0 in Hl.
  rewrite Hl. step_bind. rewrite drop_0 in Hm. fold q in Hm.
  assert (holds n (mk_membuff (Some buf) (Z.of_nat n) (Z.of_nat h) (Z.of_nat t)) q) as Hq
    by (by exists buf, h, t).
  destruct (line_end minch q) as [k|]; [rewrite Nat.add_0_l in Hm; destruct (Z.of_nat k <? maxlen - 1)|].
  2,3: rewrite Hm; eexists _, _, _, _; done.
  destruct Hm as (-> & -> & -> & s'' & -> & Hs & Hc). cbn [negb].
  eexists _, _, _, (drop (S k) q). split_and!; [done| |done..].
  exists buf, h, (if decide (S s'' = n) then 0%nat else S s''). split_and!; [|done|done| |done|by symmetry].
  - f_equal. case_decide; case_if; lia.
  - case_decide; lia.
Qed.

(** ** Refinement: the buffer is a bounded queue *)

Inductive mb_op :=
  | OPut (bs : list Z) | OGet (maxlen : nat) | OPutByte (c : Z) | OGetByte | OPeekByte
  | OReadLine (maxlen minch : Z) | OMakeContig | OPurge | OAvail | OFree | OIsEmpty.

Inductive mb_res :=
  | RUnit | RInt (z : Z) | RBool (b : bool) | RData (n : Z) (bs : list Z).

(** An operation of the code. *)
Definition run_op (mb : membuff) (o : mb_op) : option (mb_res * membuff) :=
  match o with
  | OPut bs => '(n, mb') ← membuff_put mb bs; Some (RInt n, mb')
  | OGet m => '(n, bs, mb') ← membuff_get mb (Z.of_nat m); Some (RData n bs, mb')
  | OPutByte c => '(b, mb') ← membuff_putbyte mb c; Some (RBool b, mb')
  | OGetByte => '(z, mb') ← membuff_getbyte mb; Some (RInt z, mb')
  | OPeekByte => z ← membuff_peekbyte mb; Some (RInt z, mb)
  | OReadLine m c => '(n, s, mb') ← membuff_readline mb m c; Some (RData n s, mb')
  | OMakeContig => '(b, mb') ← membuff_makecontig mb; Some (RBool b, mb')
  | OPurge => Some (RUnit, membuff_purge mb)
  | OAvail => Some (RInt (membuff_avail mb), mb)
  | OFree => Some (RInt (membuff_free mb), mb)
  | OIsEmpty => Some (RBool (membuff_isempty mb), mb)
  end.

Fixpoint run_ops (mb : membuff) (os : list mb_op) : option (list mb_res * membuff) :=
  match os with
  | [] => Some ([], mb)
  | o :: os => '(r, mb1) ← run_op mb o; '(rs, mb2) ← run_ops mb1 os; Some (r :: rs, mb2)
  end.

(** The same operation on a queue that holds at most [n - 1] bytes. *)
Inductive queue_step (n : nat) : list Z -> mb_op -> mb_res -> list Z -> Prop :=
  | QPut q bs k : k = Nat.min (length bs) (n - 1 - length q) ->
      queue_step n q (OPut bs) (RInt (Z.of_nat k)) (q ++ take k bs)
  | QGet q m k : k = Nat.min m (length q) ->
      queue_step n q (OGet m) (RData (Z.of_nat k) (take k q)) (drop k q)
  | QPutByte q c : (length q < n - 1)%nat -> queue_step n q (OPutByte c) (RBool true) (q ++ [u8 c])
  | QPutByteFull q c : length q = (n - 1)%nat -> queue_step n q (OPutByte c) (RBool false) q
  | QGetByte q c : queue_step n (c :: q) OGetByte (RInt c) q
  | QGetByteEmpty : queue_step n [] OGetByte (RInt (-1)) []
  | QPeekByte q c : queue_step n (c :: q) OPeekByte (RInt c) (c :: q)
  | QPeekByteEmpty : queue_step n [] OPeekByte (RInt (-1)) []
  | QReadLine q m minch k : line_end minch q = Some k -> Z.of_nat k < m - 1 ->
      queue_step n q (OReadLine m minch) (RData (Z.of_nat (S k)) (take k q)) (drop (S k) q)
  | QReadLineNone q m minch :
      (forall k, line_end minch q = Some k -> m - 1 <= Z.of_nat k) ->
      queue_step n q (OReadLine m minch) (RData 0 []) q
  | QMakeContig q b : queue_step n q OMakeContig (RBool b) q
  | QPurge q : queue_step n q OPurge RUnit []
  | QAvail q : queue_step n q OAvail (RInt (Z.of_nat (length q))) q
  | QFree q : queue_step n q OFree (RInt (Z.of_nat (n - 1 - length q))) q
  | QIsEmpty q : queue_step n q OIsEmpty (RBool (bool_decide (q = []))) q.

Inductive queue_steps (n : nat) : list Z -> list mb_op -> list mb_res -> list Z -> Prop :=
  | QNil q : queue_steps n q [] [] q
  | QCons q o r q1 os rs q2 : queue_step n q o r q1 -> queue_steps n q1 os rs q2 ->
      queue_steps n q (o :: os) (r :: rs) q2.

#[local] Hint Constructors queue_step queue_steps : uboot.

Lemma isempty_nil n mb q : holds n mb q -> membuff_isempty mb = bool_decide (q = []).
Proof.
  intros (buf & h & t & -> & Hn & Hh & Ht & Hw & ->). unfold membuff_isempty; cbn [mb_head mb_tail].
  pose proof (length_contents buf h t) as Hl. apply eq_bool_prop_intro.
  rewrite bool_decide_spec, <- length_zero_iff_nil, Hl by lia.
  rewrite Is_true_true, Z.eqb_eq. case_decide; lia.
Qed.

Lemma purge_holds n mb q : holds n mb q -> holds n (membuff_purge mb) [].
Proof.
  intros (buf & h & t & -> & Hn & Hh & Ht & Hw & ->). exists buf, 0%nat, 0%nat.
  split_and!; try done; lia.
Qed.

Lemma getbyte_holds n mb q :
  holds n mb q ->
  exists z mb' q', membuff_getbyte mb = Some (z, mb') /\ membuff_peekbyte mb = Some z /\ holds n mb' q' /\
    match q with [] => z = -1 /\ q' = [] | c :: q1 => z = c /\ q' = q1 end.
Proof.
  intros H. unfold membuff_getbyte, membuff_peekbyte.
  destruct (get_step n mb q 1 H) as (k & d & mb1 & -> & -> & Hr & Hr' & H1 & Hm & H0 & _).
  simpl in H0, Hm. destruct q as [|c q].
  - assert (k = 0)%nat as -> by (simpl in Hm; lia). by eexists _, _, _.
  - assert (k = 1)%nat as -> by (simpl in *; lia). cbn [negb Z.eqb].
    change (Z.of_nat 1) with 1 in *. rewrite Hr, Hr'. by eexists _, _, _.
Qed.

Lemma putbyte_holds n mb q c :
  holds n mb q ->
  exists b mb' q', membuff_putbyte mb c = Some (b, mb') /\ holds n mb' q' /\
    queue_step n q (OPutByte c) (RBool b) q'.
Proof.
  intros H. unfold membuff_putbyte. apply holds_room in H as Hr.
  destruct (put_step n mb q [u8 c] H) as (k & d & mb1 & mb2 & Hp & Hw & H2 & Hk & Hm).
  change (length [u8 c]) with 1%nat in *. change (Z.of_nat 1) with 1 in Hp. rewrite Hp.
  apply holds_room in H2 as Hr2. rewrite length_app, length_take in Hr2. simpl in Hr2.
  destruct (decide (k = 1)%nat) as [->|Hk1].
  - cbn [Z.eqb negb Z.of_nat]. change (take 1 [u8 c]) with [u8 c] in *. 
    replace (negb (Z.of_nat 1 =? 1)) with false by done. rewrite Hw. step_bind.
    eexists _, _, _. split_and!; [done|done|]. apply QPutByte. lia.
  - assert (k = 0)%nat as -> by lia. rewrite take_0, app_nil_r in *.
    eexists _, _, _. split_and!; [done| |apply QPutByteFull].
    + revert Hw. unfold write_at. destruct (mb_start mb1) eqn:E; simpl; intros [= <-]; [|done].
      rewrite <- E in H2. by destruct mb1.
    + destruct Hm as [Hm|[Hm1 _]]; lia.
Qed.

Lemma run_op_refines n mb q o :
  holds n mb q ->
  exists r mb' q', run_op mb o = Some (r, mb') /\ queue_step n q o r q' /\ holds n mb' q'.
Proof.
  intros H. destruct o; unfold run_op.
  - destruct (put_loop_2 n mb q bs H) as (mb' & -> & H'). step_bind. eauto 10 with uboot.
  - destruct (get_loop_2 n mb q maxlen H) as (mb' & -> & H'). step_bind. eauto 10 with uboot.
  - destruct (putbyte_holds n mb q c H) as (b & mb' & q' & -> & H' & Hq). step_bind. eauto 10.
  - destruct (getbyte_holds n mb q H) as (z & mb' & q' & -> & _ & H' & Hq). step_bind.
    destruct q; destruct Hq as [-> ->]; eauto 10 with uboot.
  - destruct (getbyte_holds n mb q H) as (z & mb' & q' & _ & -> & H' & Hq). step_bind.
    destruct q; destruct Hq as [-> ->]; eauto 10 with uboot.
  - destruct (readline_holds n mb q maxlen minch H) as (r & str & mb' & q' & -> & H' & Hm). step_bind.
    destruct (line_end minch q) as [k|] eqn:El; [destruct (Z.of_nat k <? maxlen - 1) eqn:E; bool_to_prop|].
    all: destruct Hm as (-> & -> & ->); eexists _, _, _; split_and!; eauto with uboot.
    all: apply QReadLineNone; intros k' Hk'; congruence || (assert (k' = k) as -> by congruence; lia).
  - destruct (makecontig_holds n mb q H) as (b & mb' & -> & H' & _). step_bind. eauto 10 with uboot.
  - eauto 10 using purge_holds with uboot.
  - rewrite (avail_length n mb q H). eauto 10 with uboot.
  - assert (membuff_free mb = Z.of_nat (n - 1 - length q)) as ->; [|eauto 10 with uboot].
    unfold membuff_free. rewrite (avail_length n mb q H). apply holds_room in H as Hr.
    destruct H as (buf & h & t & -> & ? & ? & ? & ? & _). cbn [mb_end]. case_if; lia.
  - rewrite (isempty_nil n mb q H). eauto 10 with uboot.
Qed.

Lemma run_ops_refines n os : forall mb q,
  holds n mb q ->
  exists rs mb' q', run_ops mb os = Some (rs, mb') /\ queue_steps n q os rs q' /\ holds n mb' q'.
Proof.
  induction os as [|o os IH]; intros mb q H; [eauto 10 with uboot|].
  destruct (run_op_refines n mb q o H) as (r & mb1 & q1 & E1 & Hs & H1).
  destruct (IH mb1 q1 H1) as (rs & mb2 & q2 & E2 & Hss & H2).
  exists (r :: rs), mb2, q2. simpl. rewrite E1. step_bind. rewrite E2. step_bind.
  eauto with uboot.
Qed.

Lemma init_holds buff :
  0 < Z.of_nat (length buff) < 2 ^ 31 -> holds (length buff) (membuff_init buff) [].
Proof.
  intros Hl. exists buff, 0%nat, 0%nat. split_and!; try done; lia.
Qed.



(** [membuff_extend_by] terminates for a buffer of at least one byte, and
    grows the buffer to the doubled size, limited to [max], with the queued
    bytes unchanged; it reports [-E2BIG] when the limit leaves no room to grow
    and [-ENOMEM] when the allocator fails, leaving the buffer alone. *)
Theorem membuff_extend_by_correct realloc n mb q by_ max :
  (forall k l, realloc k = Some l -> Z.of_nat (length l) = k) ->
  holds n mb q -> 0 < by_ -> Z.of_nat n + by_ <= 2 ^ 30 ->
  exists size r mb',
    Z.of_nat n + by_ <= size < 2 * (Z.of_nat n + by_) /\
    membuff_extend_by realloc mb by_ max = Some (r, mb') /\
    let new := if max =? -1 then size else Z.min size max in
    if new <=? Z.of_nat n then r = - E2BIG /\ mb' = mb
    else match realloc (new - Z.of_nat n) with
         | None => r = - ENOMEM /\ mb' = mb
         | Some _ => r = 0 /\ holds (Z.to_nat new) mb' q
         end.
Proof.
  intros Hre H Hby Hmax. assert (0 < n)%nat by (apply holds_room in H; lia).
  assert (s32 (mb_end mb) = Z.of_nat n) as Hend.
  { destruct H as (buf & h & t & -> & ? & ? & ? & ? & _). cbn [mb_end]. by unwrap. }
  unfold membuff_extend_by. rewrite Hend.
  destruct (double_loop_ends 32 (Z.of_nat n) (Z.of_nat n + by_)) as (size & -> & Hs1 & Hs2);
    [lia..| |lia|].
  { change (2 ^ Z.of_nat 32) with 4294967296. lia. }
  step_bind. exists size.
  replace (if negb (max =? -1) then Z.min size max else size)
    with (if max =? -1 then size else Z.min size max) by (by destruct (max =? -1)).
  cbv zeta. set (new := if max =? -1 then size else Z.min size max).
  assert (new <= size) by (unfold new; case_if; lia).
  case_if.
  { rewrite (proj2 (Z.leb_le _ _)) by lia. by eexists _, _. }
  rewrite (proj2 (Z.leb_gt _ _)) by lia.
  destruct (realloc (new - Z.of_nat n)) as [fresh|] eqn:Er; [|by eexists _, _].
  apply Hre in Er.
  destruct (extend_holds n mb q fresh new H) as (mb' & E' & H'); [lia..|].
  cbv zeta in E'. rewrite Hend in E'. eexists 0, mb'. split_and!; [lia..|exact E'|done|].
  replace (Z.to_nat new) with (n + length fresh)%nat by lia. done.
Qed.

Definition zero_realloc (k : Z) : option (list Z) :=
  if 0 <=? k then Some (replicate (Z.to_nat k) 0) else None.

Lemma membuff_extend_by_correct_witness :
  exists size r mb',
    2 + 3 <= size < 2 * (2 + 3) /\
    membuff_extend_by zero_realloc (membuff_init [0; 0]) 3 (-1) = Some (r, mb') /\
    r = 0 /\ holds (Z.to_nat size) mb' [].
Proof.
  destruct (membuff_extend_by_correct zero_realloc 2 (membuff_init [0; 0]) [] 3 (-1))
    as (size & r & mb' & H1 & H2 & H3).
  - intros k l. unfold zero_realloc. case_if; [intros [= <-]|done]. rewrite length_replicate. lia.
  - by apply (init_holds [0; 0]).
  - lia.
  - lia.
  - exists size, r, mb'. change (Z.of_nat 2) with 2 in *. cbn [Z.eqb] in H3. simpl in H3.
    rewrite (proj2 (Z.leb_gt _ _)) in H3 by lia. unfold zero_realloc in H3.
    rewrite (proj2 (Z.leb_le _ _)) in H3 by lia. done.
Defined.

(** ** Divergences *)

(** A buffer of size 0 cannot be extended: the doubling loop never ends. *)
Example membuff_extend_by_size0 fuel : double_loop fuel 0 1 = None.
Proof. induction fuel as [|fuel IH]; [done|]. exact IH. Qed.
