(* ===== verification/Qsort.v ===== *)
(** * The sorting routine ([lib/qsort.c])

    U-Boot's [qsort] is a shell sort.  The array of [nel] elements of [width]
    bytes is a list of [nel] elements, so the byte offsets of the source
    ([wgap], [i], [j], multiples of [width]) are element indices here and the
    byte-wise swap is a swap of elements.  Reading an index outside of the array
    is [None]. *)

From S2P Require Import Prelude.
From Stdlib Require Import Sorted.

Section Qsort.
Context {A : Type} (comp : A -> A -> Z).

(** [do { wgap = 3 * wgap + 1; } while (wgap < (nel - 1) / 3);] *)
Fixpoint first_gap (fuel wgap nel : nat) : option nat :=
  match fuel with
  | O => None
  | S fuel =>
      let wgap := 3 * wgap + 1 in
      if wgap <? (nel - 1) / 3 then first_gap fuel wgap nel else Some wgap
  end.

(** The innermost loop: moves the element at [j] down by steps of [wgap]. *)
Fixpoint sift (fuel : nat) (base : list A) (wgap j : nat) : option (list A) :=
  match fuel with
  | O => None
  | S fuel =>
      let j := j - wgap in
      a ← base !! j;
      b ← base !! (j + wgap);
      if (comp a b <=? 0)%Z then Some base
      else
        let base := <[j + wgap := a]> (<[j := b]> base) in
        if wgap <=? j then sift fuel base wgap j else Some base
  end.

(** The loop over [i]. *)
Fixpoint gap_pass (fuel : nat) (base : list A) (wgap i nel : nat) : option (list A) :=
  match fuel with
  | O => None
  | S fuel =>
      base ← sift (S i) base wgap i;
      let i := i + 1 in
      if i <? nel then gap_pass fuel base wgap i nel else Some base
  end.

(** The loop over the gaps. *)
Fixpoint gap_loop (fuel : nat) (base : list A) (wgap nel : nat) : option (list A) :=
  match fuel with
  | O => None
  | S fuel =>
      base ← gap_pass (S nel) base wgap wgap nel;
      let wgap := (wgap - 1) / 3 in
      if negb (wgap =? 0) then gap_loop fuel base wgap nel else Some base
  end.

Definition qsort (base : list A) : option (list A) :=
  let nel := length base in
  if 1 <? nel then
    wgap ← first_gap (S nel) 0 nel;
    gap_loop (S wgap) base wgap nel
  else Some base.

(** ** Termination and permutation *)

(** The gaps that the code uses: 1, 4, 13, 40, ... *)
Inductive shell_gap : nat -> Prop :=
  | gap_1 : shell_gap 1
  | gap_next g : shell_gap g -> shell_gap (3 * g + 1).

Lemma shell_gap_pos g : shell_gap g -> 0 < g.
Proof. induction 1; lia. Qed.

Lemma shell_gap_div g : (3 * g + 1 - 1) / 3 = g.
Proof. rewrite Nat.add_sub, Nat.mul_comm. by apply Nat.div_mul. Qed.

Lemma first_gap_ok fuel : forall w nel,
  (w = 0 \/ shell_gap w /\ w < (nel - 1) / 3) -> nel - w < fuel -> 1 < nel ->
  exists g, first_gap fuel w nel = Some g /\ shell_gap g /\ g < nel.
Proof.
  induction fuel as [|fuel IH]; intros w nel Hw Hf Hn; [lia|].
  unfold first_gap; fold first_gap. cbv zeta.
  pose proof (Nat.Div0.div_le_upper_bound (nel - 1) 3 (nel - 1)) as Hd.
  pose proof (Nat.Div0.mul_div_le (nel - 1) 3) as Hd2.
  assert (shell_gap (3 * w + 1)) as Hs by (destruct Hw as [->|[? _]]; constructor; done).
  destruct (Nat.ltb_spec (3 * w + 1) ((nel - 1) / 3)).
  - apply IH; [by right|lia..].
  - eexists. split_and!; [done|done|]. destruct Hw as [->|[_ ?]]; lia.
Qed.

Lemma swap_perm (l : list A) i j a b :
  l !! i = Some a -> l !! j = Some b -> i < j -> <[j := a]> (<[i := b]> l) ≡ₚ l.
Proof.
  intros Hi Hj Hij. apply list_elem_of_split_length in Hi as (l1 & l2 & -> & ->).
  rewrite lookup_app_r in Hj by lia.
  destruct (j - length l1) as [|k] eqn:E; [lia|]. simpl in Hj.
  apply list_elem_of_split_length in Hj as (l3 & l4 & -> & ->).
  rewrite insert_app_r_alt, Nat.sub_diag by lia. simpl.
  rewrite insert_app_r_alt by lia. rewrite E. simpl.
  rewrite insert_app_r_alt, Nat.sub_diag by lia. simpl.
  apply Permutation_app_head. rewrite <- !Permutation_middle. constructor.
Qed.

Lemma sift_perm fuel : forall base g j,
  0 < g -> g <= j -> j < length base -> j < fuel ->
  exists base', sift fuel base g j = Some base' /\ base' ≡ₚ base.
Proof.
  induction fuel as [|fuel IH]; intros base g j Hg Hj Hl Hf; [lia|].
  unfold sift; fold sift. cbv zeta.
  destruct (lookup_lt_is_Some_2 base (j - g)) as [a Ha]; [lia|].
  destruct (lookup_lt_is_Some_2 base (j - g + g)) as [b Hb]; [lia|].
  rewrite Ha. step_bind. rewrite Hb. step_bind.
  destruct (comp a b <=? 0)%Z; [by exists base|].
  assert (<[j - g + g:=a]> (<[j - g:=b]> base) ≡ₚ base) as Hp by (apply swap_perm; [done..|lia]).
  destruct (Nat.leb_spec g (j - g)); [|by eexists].
  destruct (IH (<[j - g + g:=a]> (<[j - g:=b]> base)) g (j - g)) as (b' & -> & Hp');
    [lia..|rewrite !length_insert; lia|lia|].
  exists b'. split; [done|]. by rewrite Hp'.
Qed.

Lemma gap_pass_perm fuel : forall base g i,
  0 < g -> g <= i < length base -> length base < i + fuel ->
  exists base', gap_pass fuel base g i (length base) = Some base' /\ base' ≡ₚ base.
Proof.
  induction fuel as [|fuel IH]; intros base g i Hg Hi Hf; [lia|].
  unfold gap_pass; fold gap_pass.
  destruct (sift_perm (S i) base g i) as (b1 & -> & Hp1); [lia..|]. step_bind.
  destruct (Nat.ltb_spec (i + 1) (length base)); [|by exists b1].
  rewrite <- (Permutation_length Hp1) in *.
  destruct (IH b1 g (i + 1)) as (b2 & -> & Hp2); [lia..|].
  exists b2. split; [done|]. by rewrite Hp2.
Qed.

(** ** The last pass is an insertion sort *)

Abbreviation le_comp := (fun a b => (comp a b <= 0)%Z).

(** The comparison is a total preorder on the elements with [P]. *)
Context (P : A -> Prop).
Context (comp_total : forall a b, P a -> P b -> (0 < comp a b)%Z -> (comp b a <= 0)%Z).
Context (comp_trans : forall a b c, P a -> P b -> P c ->
  (comp a b <= 0)%Z -> (comp b c <= 0)%Z -> (comp a c <= 0)%Z).

Lemma sift_insert l : forall x rest fuel,
  l <> [] -> length l < fuel ->
  exists l1 l2, l = l1 ++ l2 /\ sift fuel (l ++ x :: rest) 1 (length l) = Some (l1 ++ x :: l2 ++ rest) /\
    Forall (fun y => (0 < comp y x)%Z) l2 /\
    (forall y, last l1 = Some y -> (comp y x <= 0)%Z).
Proof.
  induction l as [|y l IH] using rev_ind; intros x rest fuel Hn Hf; [done|].
  destruct fuel as [|fuel]; [lia|]. rewrite length_app in *. change (length [y]) with 1 in *.
  unfold sift; fold sift. cbv zeta. replace (length l + 1 - 1) with (length l) by lia.
  rewrite <- app_assoc. change ([y] ++ x :: rest) with (y :: x :: rest).
  rewrite (list_lookup_middle l _ y (length l) eq_refl). step_bind.
  replace ((l ++ y :: x :: rest) !! (length l + 1)) with (Some x).
  2: { rewrite lookup_app_r by lia. by replace (length l + 1 - length l) with 1 by lia. }
  step_bind. destruct (Z.leb_spec (comp y x) 0).
  { exists (l ++ [y]), []. rewrite app_nil_r, <- app_assoc. split_and!; [done..|].
    intros z. rewrite last_snoc. by intros [= <-]. }
  replace (<[length l + 1:=y]> (<[length l:=x]> (l ++ y :: x :: rest))) with (l ++ x :: y :: rest).
  2: { rewrite insert_app_r_alt, Nat.sub_diag by lia. simpl.
       rewrite insert_app_r_alt by lia. by replace (length l + 1 - length l) with 1 by lia. }
  destruct (Nat.leb_spec 1 (length l)) as [Hl|Hl].
  - destruct (IH x (y :: rest) fuel) as (l1 & l2 & -> & -> & H2 & H1); [intros ->; simpl in Hl; lia|lia|].
    exists l1, (l2 ++ [y]). rewrite <- !app_assoc. split_and!; [done|done| |done].
    apply Forall_app. by repeat constructor.
  - assert (l = []) as -> by (apply nil_length_inv; lia). exists [], [y].
    split_and!; [done|done|by repeat constructor|done].
Qed.

Lemma sorted_snoc_le l y : StronglySorted le_comp (l ++ [y]) -> Forall (fun a => (comp a y <= 0)%Z) l.
Proof.
  induction l as [|a l IH]; simpl; [constructor|]. inversion 1 as [|? ? Hs Hf]; subst.
  constructor; [|auto]. apply Forall_app in Hf as [_ [? _]%Forall_cons]. done.
Qed.

Lemma sorted_app l1 l2 :
  StronglySorted le_comp l1 -> StronglySorted le_comp l2 ->
  (forall a b, a ∈ l1 -> b ∈ l2 -> (comp a b <= 0)%Z) -> StronglySorted le_comp (l1 ++ l2).
Proof.
  induction l1 as [|a l1 IH]; intros H1 H2 H; [done|]. inversion H1; subst.
  constructor; [apply IH; auto; intros; apply H; auto; by right|].
  apply Forall_app. split; [done|]. apply Forall_forall. intros b Hb. apply H; [by left|done].
Qed.

Lemma sorted_insert l1 x l2 :
  Forall P (l1 ++ x :: l2) ->
  StronglySorted le_comp (l1 ++ l2) ->
  Forall (fun y => (0 < comp y x)%Z) l2 -> (forall y, last l1 = Some y -> (comp y x <= 0)%Z) ->
  StronglySorted le_comp (l1 ++ x :: l2).
Proof.
  intros HP Hs H2 H1. apply Forall_app in HP as [HP1 [HPx HP2]%Forall_cons].
  assert (Forall (fun y => (comp y x <= 0)%Z) l1) as Hl1.
  { destruct l1 as [|y l1 _] using rev_ind; [constructor|]. rewrite last_snoc in H1.
    specialize (H1 y eq_refl). apply Forall_app. split; [|by constructor].
    assert (StronglySorted le_comp (l1 ++ [y])) as Hy.
    { clear -Hs. induction (l1 ++ [y]) as [|a l IH]; [constructor|]. simpl in Hs.
      inversion Hs as [|? ? ? Hf]; subst. apply Forall_app in Hf as [? _]. constructor; auto. }
    apply sorted_snoc_le in Hy. apply Forall_app in HP1 as [HP1 [HPy _]%Forall_cons].
    rewrite Forall_forall in *. intros a Ha. eauto. }
  apply sorted_app.
  - clear -Hs. induction l1 as [|a l IH]; [constructor|]. simpl in Hs.
    inversion Hs as [|? ? ? Hf]; subst. apply Forall_app in Hf as [? _]. constructor; auto.
  - constructor; [clear -Hs; induction l1; [done|]; inversion Hs; auto|].
    rewrite Forall_forall in *. intros y Hy. auto.
  - intros a b Ha Hb. rewrite Forall_forall in Hl1. specialize (Hl1 a Ha).
    apply elem_of_cons in Hb as [->|Hb]; [done|].
    clear -Hs Ha Hb. induction l1 as [|c l1 IH]; [by apply not_elem_of_nil in Ha|].
    simpl in Hs. inversion Hs as [|? ? ? Hf]; subst.
    apply elem_of_cons in Ha as [->|Ha]; [|auto].
    rewrite Forall_forall in Hf. apply Hf. apply elem_of_app. by right.
Qed.

Lemma gap_pass_sorts fuel : forall l rest,
  Forall P (l ++ rest) -> StronglySorted le_comp l -> l <> [] -> rest <> [] -> length rest < fuel ->
  exists base', gap_pass fuel (l ++ rest) 1 (length l) (length (l ++ rest)) = Some base' /\
    StronglySorted le_comp base'.
Proof.
  induction fuel as [|fuel IH]; intros l rest HP Hs Hl Hr Hf; [lia|].
  destruct rest as [|x rest]; [done|]. unfold gap_pass; fold gap_pass.
  destruct (sift_insert l x rest (S (length l)) Hl) as (l1 & l2 & El & -> & H2 & H1); [lia|].
  step_bind. assert (Forall P ((l1 ++ x :: l2) ++ rest)) as HP'.
  { rewrite El in HP. rewrite !Forall_app, !Forall_cons in *. naive_solver. }
  assert (StronglySorted le_comp (l1 ++ x :: l2)) as Hs'.
  { apply sorted_insert; [by apply Forall_app in HP' as [? _]|by rewrite <- El|done..]. }
  replace (length l + 1) with (length (l1 ++ x :: l2)) by (rewrite El, !length_app; simpl; lia).
  replace (length (l ++ x :: rest)) with (length ((l1 ++ x :: l2) ++ rest))
    by (rewrite El, !length_app; simpl; lia).
  replace (l1 ++ x :: l2 ++ rest) with ((l1 ++ x :: l2) ++ rest) by (by rewrite <- app_assoc).
  destruct (Nat.ltb_spec (length (l1 ++ x :: l2)) (length ((l1 ++ x :: l2) ++ rest))) as [Hlt|Hlt].
  - apply IH; [done|done|by destruct l1| |simpl in Hf; lia].
    intros ->. rewrite app_nil_r in Hlt. lia.
  - rewrite length_app in Hlt. assert (rest = []) as -> by (apply nil_length_inv; lia).
    rewrite app_nil_r. by eexists.
Qed.

Lemma gap_loop_sorts g : forall base fuel,
  Forall P base -> shell_gap g -> g < length base -> g < fuel ->
  exists base', gap_loop fuel base g (length base) = Some base' /\ base' ≡ₚ base /\
    StronglySorted le_comp base'.
Proof.
  intros base fuel HP Hg. revert base fuel HP. induction Hg as [|g Hg IH]; intros base fuel HP Hl Hf;
    (destruct fuel as [|fuel]; [lia|]); unfold gap_loop; fold gap_loop.
  - destruct (gap_pass_perm (S (length base)) base 1 1) as (b1 & E1 & Hp1); [lia..|].
    destruct base as [|x [|y rest]]; [simpl in Hl; lia..|].
    destruct (gap_pass_sorts (S (length (x :: y :: rest))) [x] (y :: rest)) as (b2 & E2 & Hs2);
      [done|by repeat constructor|done|done|simpl; lia|].
    simpl app in E2. simpl length in E2 at 2. rewrite E2 in *. step_bind. simpl.
    exists b2. split_and!; [done| |done]. by injection E1 as <-.
  - destruct (gap_pass_perm (S (length base)) base (3 * g + 1) (3 * g + 1)) as (b1 & -> & Hp1);
      [lia..|]. step_bind. rewrite shell_gap_div.
    apply shell_gap_pos in Hg as Hg0. rewrite (proj2 (Nat.eqb_neq g 0)) by lia. simpl negb.
    rewrite <- (Permutation_length Hp1) in *.
    destruct (IH b1 fuel) as (b2 & -> & Hp2 & Hs2); [by rewrite Hp1|lia..|].
    exists b2. split_and!; [done| |done]. by rewrite Hp2.
Qed.

Lemma qsort_sorts base :
  Forall P base ->
  exists base', qsort base = Some base' /\ base' ≡ₚ base /\ StronglySorted le_comp base'.
Proof.
  intros HP. unfold qsort. destruct (Nat.ltb_spec 1 (length base)) as [Hl|Hl].
  - destruct (first_gap_ok (S (length base)) 0 (length base)) as (g & -> & Hg & Hlt);
      [by left|lia..|]. step_bind. apply gap_loop_sorts; [done|done|lia..].
  - exists base. split_and!; [done|done|]. destruct base as [|x [|y l]]; [..|simpl in Hl; lia];
      by repeat constructor.
Qed.
End Qsort.

(** C11: [qsort] terminates without an access outside of the array and leaves a
    sorted permutation of it, whenever the comparison function is a total
    preorder on the elements. *)
Theorem qsort_correct {A} (comp : A -> A -> Z) (P : A -> Prop) base :
  (forall a b, P a -> P b -> 0 < comp a b -> comp b a <= 0)%Z ->
  (forall a b c, P a -> P b -> P c -> comp a b <= 0 -> comp b c <= 0 -> comp a c <= 0)%Z ->
  Forall P base ->
  exists base', qsort comp base = Some base' /\ base' ≡ₚ base /\
    StronglySorted (fun a b => (comp a b <= 0)%Z) base'.
Proof. intros H1 H2 HP. by apply (qsort_sorts comp P). Qed.

Lemma qsort_correct_witness :
  exists base', qsort Z.sub [5; 3; 9; 1; 7]%Z = Some base' /\ base' ≡ₚ [5; 3; 9; 1; 7]%Z /\
    StronglySorted (fun a b => (a - b <= 0)%Z) base'.
Proof. apply (qsort_correct Z.sub (fun _ => True)); [intros; lia..|by repeat constructor]. Defined.
