(* ===== verification/Hashtable.v ===== *)
(** * The environment's hash table ([lib/hashtable.c], [include/search.h])

    The environment variables live in one open-addressing hash table with
    double hashing.  A slot's [used] field is 0 (never used), -1 (deleted) or
    the first hash value of its key.  Strings are byte lists without their NUL;
    NULL is [None], and so is a pointer that was freed.  Reading the table
    outside of its bounds, or through a NULL pointer, is the [None] of the
    functions' results.

    The functions that the table calls back are the class [EnvHooks]: the
    permission check [change_ok] of [struct hsearch_data], the callbacks of the
    entries, and [env_callback_init] and [env_flags_init] for a new entry.  A
    callback may rewrite the table.  [hk_malloc] says whether [malloc] of so
    many bytes succeeds. *)

From S2P Require Import Prelude StringLib.
From Stdlib Require Import Znumtheory.
Local Open Scope Z_scope.

Inductive env_op := env_op_create | env_op_delete | env_op_overwrite.
Inductive ACTION := FIND | ENTER.

Definition H_NOCLEAR : Z := Z.shiftl 1 0.
Definition H_FORCE : Z := Z.shiftl 1 1.
Definition H_INTERACTIVE : Z := Z.shiftl 1 2.
Definition H_HIDE_DOT : Z := Z.shiftl 1 3.
Definition H_MATCH_KEY : Z := Z.shiftl 1 4.
Definition H_MATCH_DATA : Z := Z.shiftl 1 5.
Definition H_MATCH_IDENT : Z := Z.shiftl 1 6.
Definition H_MATCH_SUBSTR : Z := Z.shiftl 1 7.
Definition H_MATCH_REGEX : Z := Z.shiftl 1 8.
Definition H_MATCH_METHOD : Z := Z.lor (Z.lor H_MATCH_IDENT H_MATCH_SUBSTR) H_MATCH_REGEX.
Definition H_PROGRAMMATIC : Z := Z.shiftl 1 9.

Record ENTRY (C : Type) := mk_ENTRY {
  key : option (list Z);
  data : option (list Z);
  callback : option C;
  flags : Z
}.
Arguments mk_ENTRY {C}.
Arguments key {C}.
Arguments data {C}.
Arguments callback {C}.
Arguments flags {C}.

Record _ENTRY (C : Type) := mk__ENTRY { used : Z; entry : ENTRY C }.
Arguments mk__ENTRY {C}.
Arguments used {C}.
Arguments entry {C}.

Record hsearch_data (C : Type) := mk_htab {
  table : option (list (_ENTRY C));
  size : Z;
  filled : Z
}.
Arguments mk_htab {C}.
Arguments table {C}.
Arguments size {C}.
Arguments filled {C}.

Class EnvHooks (C : Type) := {
  hk_change_ok : option (ENTRY C -> option (list Z) -> env_op -> Z -> Z);
  hk_callback : C -> list Z -> option (list Z) -> env_op -> Z -> list (_ENTRY C) -> Z * list (_ENTRY C);
  hk_init : list (_ENTRY C) -> ENTRY C -> ENTRY C;
  hk_malloc : Z -> bool
}.

(** ** Creation *)

(** The loop of [isprime]. *)
Fixpoint isprime_loop (fuel : nat) (div number : Z) : option Z :=
  match fuel with
  | O => None
  | S fuel =>
      if (u32 (div * div) <? number) && negb (number mod div =? 0)
      then isprime_loop fuel (u32 (div + 2)) number
      else Some div
  end.

(** [div] reaches the square root of [number] in at most 2^15 steps. *)
Definition isprime (number : Z) : option bool :=
  div ← isprime_loop (Z.to_nat (Z.sqrt number) + 2) 3 number;
  Some (negb (number mod div =? 0)).

(** [while (!isprime(nel)) nel += 2]; there is a prime below [2 * nel]. *)
Fixpoint next_prime (fuel : nat) (nel : Z) : option Z :=
  match fuel with
  | O => None
  | S fuel =>
      p ← isprime (u32 nel);
      if negb p then next_prime fuel (u64 (nel + 2)) else Some nel
  end.

Section Hashtable.
Context {C : Type} {hooks : EnvHooks C}.

Definition empty_entry : ENTRY C := mk_ENTRY None None None 0.
Definition empty_slot : _ENTRY C := mk__ENTRY 0 empty_entry.

(** [sizeof(_ENTRY)] is 40. *)
Definition hcreate_r (nel : Z) (htab : hsearch_data C) : option (Z * hsearch_data C) :=
  match table htab with
  | Some _ => Some (0, htab)
  | None =>
      nel ← next_prime (Z.to_nat nel + 3) (Z.lor nel 1);
      let sz := u32 nel in
      if hk_malloc ((sz + 1) * 40)
      then Some (1, mk_htab (Some (replicate (Z.to_nat (sz + 1)) empty_slot)) sz 0)
      else Some (0, mk_htab None sz 0)
  end.

Definition hdestroy_r (htab : hsearch_data C) : hsearch_data C :=
  mk_htab None (size htab) (filled htab).

(** ** Searching *)

(** The slot [htab->table[idx]], and writing it. *)
Definition get_slot (htab : hsearch_data C) (idx : Z) : option (_ENTRY C) :=
  t ← table htab; aget t idx.

Definition set_slot (htab : hsearch_data C) (idx : Z) (s : _ENTRY C) : option (hsearch_data C) :=
  t ← table htab; t' ← aset t idx s; Some (mk_htab (Some t') (size htab) (filled htab)).

Definition strdup (s : option (list Z)) : option (list Z) :=
  match s with
  | None => None
  | Some s => if hk_malloc (strlen s + 1) then Some s else None
  end.

(** The return value, [*retval] (the index of the entry) and [errno]. *)
Definition hres : Type := Z * option Z * Z.

(** Calls [htab->change_ok], when there is one. *)
Definition change_denied (htab : hsearch_data C) (idx : Z) (newval : option (list Z))
    (op : env_op) (flag : Z) : option bool :=
  match hk_change_ok with
  | None => Some false
  | Some f => s ← get_slot htab idx; Some (negb (f (entry s) newval op flag =? 0))
  end.

(** Calls the callback of the entry, when there is one. *)
Definition callback_denied (htab : hsearch_data C) (idx : Z) (name : list Z)
    (newval : option (list Z)) (op : env_op) (flag : Z) : option (bool * hsearch_data C) :=
  s ← get_slot htab idx;
  match callback (entry s) with
  | None => Some (false, htab)
  | Some c =>
      t ← table htab;
      let '(r, t') := hk_callback c name newval op flag t in
      Some (negb (r =? 0), mk_htab (Some t') (size htab) (filled htab))
  end.

(** The loop of [hmatch_r] from [idx]; every step raises [idx]. *)
Fixpoint hmatch_loop (fuel : nat) (mtch : list Z) (idx : Z) (htab : hsearch_data C) : option hres :=
  match fuel with
  | O => None
  | S fuel =>
      if idx <? size htab then
        s ← get_slot htab idx;
        if used s <=? 0 then hmatch_loop fuel mtch (u32 (idx + 1)) htab
        else
          k ← key (entry s);
          if strncmp mtch k (length mtch) =? 0 then Some (idx, Some idx, 0)
          else hmatch_loop fuel mtch (u32 (idx + 1)) htab
      else Some (0, None, ESRCH)
  end.

Definition hmatch_r (mtch : list Z) (last_idx : Z) (htab : hsearch_data C) : option hres :=
  hmatch_loop (S (Z.to_nat (size htab))) mtch (u32 (last_idx + 1)) htab.

(** [Some r]: the slot holds the key and the search ends with [r]; [None]: keep
    searching (the return value -1). *)
Definition _compare_and_overwrite_entry (item_key : list Z) (item_data : option (list Z))
    (action : ACTION) (htab : hsearch_data C) (flag hval idx : Z)
    : option (option (hres * hsearch_data C)) :=
  s ← get_slot htab idx;
  if negb (u32 (used s) =? hval) then Some None
  else
    k ← key (entry s);
    if negb (strcmp item_key k =? 0) then Some None
    else
      match action, item_data with
      | ENTER, Some d =>
          denied ← change_denied htab idx item_data env_op_overwrite flag;
          if (denied : bool) then Some (Some (0, None, EPERM, htab))
          else
            '(rejected, htab) ← callback_denied htab idx item_key item_data env_op_overwrite flag;
            if (rejected : bool) then Some (Some (0, None, EINVAL, htab))
            else
              s ← get_slot htab idx;
              let d' := strdup (Some d) in
              htab ← set_slot htab idx
                (mk__ENTRY (used s)
                   (mk_ENTRY (key (entry s)) d' (callback (entry s)) (flags (entry s))));
              match d' with
              | None => Some (Some (0, None, ENOMEM, htab))
              | Some _ => Some (Some (idx, Some idx, 0, htab))
              end
      | _, _ => Some (Some (idx, Some idx, 0, htab))
      end.

(** [hval <<= 4; hval += key[count]], from the last character to the first. *)
Definition hash_string (k : list Z) : Z :=
  fold_left (fun hval c => u32 (u32 (Z.shiftl hval 4) + c)) (rev k) (u32 (strlen k)).

(** The first hash function: the modulus, but not zero. *)
Definition hash1 (k : list Z) (sz : Z) : Z :=
  let hval := hash_string k mod sz in if hval =? 0 then hval + 1 else hval.

(** The second hash function. *)
Definition hash2 (hval sz : Z) : Z := u32 (1 + hval mod (u32 (sz - 2))).

(** The [do ... while (htab->table[idx].used)] loop: the result of the search,
    or the index at which it ended. *)
Fixpoint probe_loop (fuel : nat) (item_key : list Z) (item_data : option (list Z))
    (action : ACTION) (htab : hsearch_data C) (flag hval hval2 idx : Z)
    : option ((hres * hsearch_data C) + Z) :=
  match fuel with
  | O => None
  | S fuel =>
      let idx := if idx <=? hval2 then u32 (size htab + idx - hval2) else u32 (idx - hval2) in
      if idx =? hval then Some (inr idx)
      else
        ret ← _compare_and_overwrite_entry item_key item_data action htab flag hval idx;
        match ret with
        | Some r => Some (inl r)
        | None =>
            s ← get_slot htab idx;
            if negb (used s =? 0)
            then probe_loop fuel item_key item_data action htab flag hval hval2 idx
            else Some (inr idx)
        end
  end.

Definition _hdelete (htab : hsearch_data C) (idx : Z) : option (hsearch_data C) :=
  htab ← set_slot htab idx (mk__ENTRY (-1) (mk_ENTRY None None None 0));
  Some (mk_htab (table htab) (size htab) (u32 (filled htab - 1))).

(** The creation of a new entry at [idx] (the part of [hsearch_r] after "An
    empty bucket has been found"). *)
Definition enter_new (item_key : list Z) (item_data : option (list Z)) (htab : hsearch_data C)
    (flag hval idx : Z) : option (hres * hsearch_data C) :=
  if filled htab =? size htab then Some (0, None, ENOMEM, htab)
  else
    s ← get_slot htab idx;
    let k' := strdup (Some item_key) in
    let d' := strdup item_data in
    htab ← set_slot htab idx
      (mk__ENTRY (swrap 32 hval) (mk_ENTRY k' d' (callback (entry s)) (flags (entry s))));
    match k', d' with
    | Some _, Some _ =>
        let htab := mk_htab (table htab) (size htab) (u32 (filled htab + 1)) in
        t ← table htab;
        s ← get_slot htab idx;
        htab ← set_slot htab idx (mk__ENTRY (used s) (hk_init t (entry s)));
        denied ← change_denied htab idx item_data env_op_create flag;
        if (denied : bool) then
          htab ← _hdelete htab idx; Some (0, None, EPERM, htab)
        else
          '(rejected, htab) ← callback_denied htab idx item_key item_data env_op_create flag;
          if (rejected : bool) then
            htab ← _hdelete htab idx; Some (0, None, EINVAL, htab)
          else Some (1, Some idx, 0, htab)
    | _, _ => Some (0, None, ENOMEM, htab)
    end.

Definition hsearch_r (item_key : list Z) (item_data : option (list Z)) (action : ACTION)
    (htab : hsearch_data C) (flag : Z) : option (hres * hsearch_data C) :=
  let hval := hash1 item_key (size htab) in
  let finish first_deleted idx :=
    match action with
    | ENTER =>
        let idx := if negb (first_deleted =? 0) then first_deleted else idx in
        enter_new item_key item_data htab flag hval idx
    | FIND => Some (0, None, ESRCH, htab)
    end in
  s ← get_slot htab hval;
  if negb (used s =? 0) then
    let first_deleted := if used s =? -1 then hval else 0 in
    ret ← _compare_and_overwrite_entry item_key item_data action htab flag hval hval;
    match ret with
    | Some r => Some r
    | None =>
        let hval2 := hash2 hval (size htab) in
        r ← probe_loop (S (Z.to_nat (size htab))) item_key item_data action htab flag hval hval2 hval;
        match r with
        | inl r => Some r
        | inr idx => finish first_deleted idx
        end
    end
  else finish 0 hval.

(** ** Deleting *)

Definition hdelete_r (k : list Z) (htab : hsearch_data C) (flag : Z)
    : option (Z * Z * hsearch_data C) :=
  '(idx, ep, _, htab) ← hsearch_r k None FIND htab 0;
  if idx =? 0 then Some (0, ESRCH, htab)
  else
    p ← ep;
    denied ← change_denied htab p None env_op_delete flag;
    if (denied : bool) then Some (0, EPERM, htab)
    else
      '(rejected, htab) ← callback_denied htab idx k None env_op_delete flag;
      if (rejected : bool) then Some (0, EINVAL, htab)
      else htab ← _hdelete htab idx; Some (1, 0, htab).

(** ** Walking *)

(** The loop of [hwalk_r]; [f] may change the entry and stops the walk with a
    value other than zero. *)
Fixpoint hwalk_loop (fuel : nat) (f : ENTRY C -> Z * ENTRY C) (i : Z) (htab : hsearch_data C)
    : option (Z * hsearch_data C) :=
  match fuel with
  | O => None
  | S fuel =>
      if i <=? size htab then
        s ← get_slot htab i;
        if 0 <? used s then
          let '(retval, e) := f (entry s) in
          htab ← set_slot htab i (mk__ENTRY (used s) e);
          if negb (retval =? 0) then Some (retval, htab)
          else hwalk_loop fuel f (i + 1) htab
        else hwalk_loop fuel f (i + 1) htab
      else Some (0, htab)
  end.

Definition hwalk_r (htab : hsearch_data C) (f : ENTRY C -> Z * ENTRY C)
    : option (Z * hsearch_data C) :=
  hwalk_loop (S (Z.to_nat (size htab))) f 1 htab.

End Hashtable.

(** ** Primes *)

(** No odd number from 3 below [div] divides [number]. *)
Definition no_odd_divisor (div number : Z) : Prop :=
  forall d, 3 <= d < div -> Z.odd d = true -> ~ (d | number).

Lemma isprime_loop_ok fuel : forall div number,
  3 <= div <= 65535 -> Z.odd div = true -> 5 <= number <= 65535 * 65535 ->
  no_odd_divisor div number -> (div - 2) * (div - 2) < number ->
  Z.sqrt number + 4 <= div + 2 * Z.of_nat fuel ->
  exists div', isprime_loop fuel div number = Some div' /\
    3 <= div' /\ Z.odd div' = true /\ (div' - 2) * (div' - 2) < number /\
    no_odd_divisor div' number /\ (number <= div' * div' \/ (div' | number)).
Proof.
  induction fuel as [|fuel IH]; intros div number Hd Ho Hn Hno Hsq Hf.
  { pose proof (Z.sqrt_lt_square number (div - 2)). lia. }
  unfold isprime_loop; fold isprime_loop. rewrite (wrap_small 32 (div * div)) by nia.
  case_if.
  - rewrite (wrap_small 32 (div + 2)) by nia.
    assert (div + 2 <= 65535).
    { destruct (decide (div = 65534)) as [->|]; [done|nia]. }
    apply IH; try lia.
    + by rewrite Z.odd_add, Ho.
    + intros d Hd' Hod Hdiv. destruct (decide (d < div)); [by apply (Hno d); [lia|..]|].
      destruct (decide (d = div)) as [->|]; [by apply Z.mod_divide in Hdiv; lia|].
      assert (d = div + 1) as -> by lia. by rewrite Z.odd_add, Ho in Hod.
  - exists div. split_and!; try done; try lia. destruct E as [E|E]; bool_to_prop; [by left|right].
    by apply Z.mod_divide; [lia|].
Qed.

Lemma isprime_total number :
  5 <= number <= 65535 * 65535 -> Z.odd number = true ->
  exists b, isprime number = Some b /\ (b = true <-> prime number).
Proof.
  intros Hn Ho. unfold isprime.
  destruct (isprime_loop_ok (Z.to_nat (Z.sqrt number) + 2) 3 number)
    as (div & -> & H3 & Hod & Hsq & Hno & Hend);
    [lia|done|lia|intros d ?; lia|lia|pose proof (Z.sqrt_nonneg number); lia|].
  step_bind. eexists. split; [done|]. rewrite negb_true_iff, Z.eqb_neq, <- prime_alt.
  assert (forall d, (d | number) -> 0 < d -> Z.odd d = true) as Hodd.
  { intros d [q ->] _. rewrite Z.odd_mul in Ho. by apply andb_true_iff in Ho as [_ ?]. }
  split.
  - intros Hmod. assert (~ (div | number)) as Hnd by (intros Hd; apply Z.mod_divide in Hd; lia).
    destruct Hend as [Hend|]; [|done].
    split; [lia|]. intros d Hd Hdiv.
    assert (forall x, (x | number) -> 1 < x -> x <= div -> False) as Hsmall.
    { intros x Hx Hx1 Hx2. assert (Z.odd x = true) as Hox by (apply Hodd; [done|lia]).
      assert (x <> 2) by (by intros ->). assert (x <> div) by congruence.
      by apply (Hno x); [lia|..]. }
    pose proof Hdiv as [e He].
    destruct (decide (d <= div)); [by apply (Hsmall d); [|lia..]|].
    apply (Hsmall e); [exists d; lia|nia|nia].
  - intros [_ Hp] Hmod. apply Z.mod_divide in Hmod as Hd; [|lia].
    apply (Hp div); [|done]. pose proof (Z.divide_pos_le div number). nia.
Qed.

(** *** The probe sequence *)

Definition second (hval sz : Z) : Z := 1 + hval mod (sz - 2).

(** The [n]-th index that is tried. *)
Definition probe (hval sz n : Z) : Z := (hval - 1 - n * second hval sz) mod sz + 1.

Section Probe.
Context (sz : Z) (Hprime : prime sz) (Hsz : 5 <= sz < 2 ^ 31).

Lemma hash1_range k : 1 <= hash1 k sz < sz.
Proof.
  unfold hash1. pose proof (Z.mod_pos_bound (hash_string k) sz). case_if; lia.
Qed.

Lemma second_range hval : 1 <= second hval sz <= sz - 2.
Proof. unfold second. pose proof (Z.mod_pos_bound hval (sz - 2)). lia. Qed.

Lemma hash2_second hval : hash2 hval sz = second hval sz.
Proof.
  unfold hash2. pose proof (second_range hval). unfold second in *. unwrap. by unwrap.
Qed.

Lemma probe_range hval n : 1 <= probe hval sz n <= sz.
Proof. unfold probe. pose proof (Z.mod_pos_bound (hval - 1 - n * second hval sz) sz). lia. Qed.

Lemma probe_0 hval : 1 <= hval <= sz -> probe hval sz 0 = hval.
Proof. intros. unfold probe. rewrite Z.mod_small; lia. Qed.

Lemma probe_sz hval : 1 <= hval <= sz -> probe hval sz sz = hval.
Proof.
  intros. unfold probe. replace (hval - 1 - sz * second hval sz)
    with (hval - 1 + (- second hval sz) * sz) by lia.
  rewrite Z.mod_add, Z.mod_small; lia.
Qed.

Lemma probe_step hval n :
  let idx := probe hval sz n in
  (if idx <=? second hval sz then u32 (sz + idx - second hval sz) else u32 (idx - second hval sz))
  = probe hval sz (n + 1).
Proof.
  pose proof (probe_range hval n) as Hr. pose proof (second_range hval) as H2. simpl.
  assert (probe hval sz (n + 1) = (probe hval sz n - 1 - second hval sz) mod sz + 1) as ->.
  { unfold probe. f_equal. rewrite Z.add_simpl_r, Zminus_mod_idemp_l. f_equal. lia. }
  case_if; unwrap.
  - replace (probe hval sz n - 1 - second hval sz)
      with (sz + probe hval sz n - second hval sz - 1 + (-1) * sz) by lia.
    rewrite Z.mod_add, Z.mod_small; lia.
  - rewrite Z.mod_small; lia.
Qed.

Lemma probe_inj hval n m :
  0 <= n < sz -> 0 <= m < sz -> probe hval sz n = probe hval sz m -> n = m.
Proof.
  intros Hn Hm E. unfold probe in E.
  assert ((hval - 1 - n * second hval sz) mod sz = (hval - 1 - m * second hval sz) mod sz) as E' by lia.
  apply Z.cong_iff_0 in E'. apply Z.mod_divide in E'; [|lia].
  replace (hval - 1 - n * second hval sz - (hval - 1 - m * second hval sz))
    with ((m - n) * second hval sz) in E' by lia.
  pose proof (second_range hval).
  apply prime_mult in E' as [E'|E']; [| |done].
  - destruct (decide (m = n)); [done|]. apply Z.divide_abs_r, Z.divide_pos_le in E'; lia.
  - apply Z.divide_pos_le in E'; lia.
Qed.

(** The sequence visits every index. *)
Lemma probe_surj hval i : 1 <= i <= sz -> exists n, 0 <= n < sz /\ probe hval sz n = i.
Proof.
  intros Hi. pose proof (second_range hval) as H2.
  assert (rel_prime sz (second hval sz)) as Hrel.
  { apply prime_rel_prime; [done|]. intros Hd. apply Z.divide_pos_le in Hd; lia. }
  apply rel_prime_bezout in Hrel as [u v Huv].
  exists (((hval - i) * v) mod sz). split; [apply Z.mod_pos_bound; lia|].
  unfold probe. rewrite Zminus_mod, Zmult_mod_idemp_l, <- Zminus_mod.
  replace (hval - 1 - (hval - i) * v * second hval sz) with (i - 1 + (hval - i) * u * sz).
  2: { replace ((hval - i) * v * second hval sz) with ((hval - i) * (1 - u * sz)); [lia|].
       rewrite <- Huv. lia. }
  rewrite Z.mod_add, Z.mod_small; lia.
Qed.
End Probe.

(** ** The table as a map

    What the table stores, without the callbacks and flags of its entries. *)

Definition vslot : Type := Z * option (list Z) * option (list Z).
Definition view {C} (s : _ENTRY C) : vslot := (used s, key (entry s), data (entry s)).
Abbreviation v_used v := (fst (fst v)).

(** Slot [i] holds the key [k] with the value [d]. *)
Definition cell (vs : list vslot) (i : Z) (k d : list Z) : Prop :=
  exists u, aget vs i = Some (u, Some k, Some d) /\ 0 < u.

Definition is_live (v : vslot) : bool := 0 <? v_used v.
Definition is_used (v : vslot) : bool := negb (v_used v =? 0).

Definition nlive (vs : list vslot) : Z := Z.of_nat (length (filter (fun v => is_live v = true) vs)).
Definition nused (vs : list vslot) : Z := Z.of_nat (length (filter (fun v => is_used v = true) vs)).

(** The invariant of a table of [sz + 1] slots: slot 0 is never used; a live
    slot is on the probe sequence of its key, behind used slots only; no key
    has two slots. *)
Record tbl_ok (sz : Z) (vs : list vslot) : Prop := {
  ok_len : Z.of_nat (length vs) = sz + 1;
  ok_zero : exists k d, aget vs 0 = Some (0, k, d);
  ok_slot : forall i u k d, aget vs i = Some (u, k, d) ->
    u = 0 \/ u = -1 \/
    exists k' d' n, k = Some k' /\ d = Some d' /\ cstring k' /\ u = hash1 k' sz /\
      0 <= n < sz /\ i = probe u sz n /\
      forall m, 0 <= m < n -> exists v, aget vs (probe u sz m) = Some v /\ v_used v <> 0;
  ok_inj : forall i j k d d', cell vs i k d -> cell vs j k d' -> i = j
}.

(** The map [m] from names to values that the table stores. *)
Definition stores (vs : list vslot) (m : gmap (list Z) (list Z)) : Prop :=
  forall k d, m !! k = Some d <-> exists i, cell vs i k d.

(** Solves equations between the counts before and after a slot is replaced. *)
Ltac count_cases :=
  unfold is_live, is_used; cbn [fst];
  repeat match goal with
  | |- context [Z.b2z ?b] => let E := fresh "E" in destruct b eqn:E; bool_to_prop; cbn [Z.b2z]
  end; lia.

(** *** Replacing a slot *)

Lemma aget_insert {A} (l : list A) i j x :
  0 <= i < Z.of_nat (length l) -> aget (<[Z.to_nat i := x]> l) j = if i =? j then Some x else aget l j.
Proof.
  intros Hi. unfold aget. case_if; case_if; try done; try lia.
  - assert (Z.to_nat i = Z.to_nat j) as -> by lia. apply list_lookup_insert_eq. lia.
  - apply list_lookup_insert_ne. lia.
Qed.

Lemma filter_insert_count (P : vslot -> bool) (vs : list vslot) (i : nat) v v' :
  vs !! i = Some v ->
  Z.of_nat (length (filter (fun v => P v = true) (<[i := v']> vs))) =
  Z.of_nat (length (filter (fun v => P v = true) vs)) + Z.b2z (P v') - Z.b2z (P v).
Proof.
  intros Hi. apply list_elem_of_split_length in Hi as (l1 & l2 & -> & ->).
  rewrite insert_app_r_alt, Nat.sub_diag by lia. simpl.
  rewrite !filter_app, !filter_cons, !length_app.
  destruct (P v), (P v'); simpl; lia.
Qed.

Lemma cell_insert vs i j v k d :
  0 <= i < Z.of_nat (length vs) ->
  cell (<[Z.to_nat i := v]> vs) j k d <->
  (i = j /\ exists u, v = (u, Some k, Some d) /\ 0 < u) \/ (i <> j /\ cell vs j k d).
Proof.
  intros Hi. unfold cell. rewrite aget_insert by done. case_if; naive_solver.
Qed.

Definition used_at (vs : list vslot) (i : Z) : Prop :=
  exists v, aget vs i = Some v /\ v_used v <> 0.

(** The slot [i] may hold [v]: it is deleted, or its key's sequence leads to it. *)
Definition slot_ok (sz : Z) (vs : list vslot) (i : Z) (v : vslot) : Prop :=
  v_used v = -1 \/
  exists k d n, v = (hash1 k sz, Some k, Some d) /\ cstring k /\ 0 < hash1 k sz /\
    0 <= n < sz /\ i = probe (hash1 k sz) sz n /\
    (forall m, 0 <= m < n -> used_at vs (probe (hash1 k sz) sz m)) /\
    (forall j d', cell vs j k d' -> j = i).

(** Replacing a slot keeps the invariant: no slot becomes unused again, so every
    path stays. *)
Lemma tbl_ok_set sz vs i v :
  tbl_ok sz vs -> 1 <= i <= sz -> slot_ok sz vs i v -> tbl_ok sz (<[Z.to_nat i := v]> vs).
Proof.
  intros [Hl Hz Hs Hi] Hr Hv.
  assert (0 <= i < Z.of_nat (length vs)) as Hr' by lia.
  assert (v_used v <> 0) as Hu.
  { destruct Hv as [->|(k & d & n & -> & _ & ? & _)]; simpl; lia. }
  assert (forall j, used_at vs j -> used_at (<[Z.to_nat i := v]> vs) j) as Hkeep.
  { intros j (w & Hw & Hwu). unfold used_at. rewrite aget_insert by done.
    case_if; [by exists v|by exists w]. }
  split.
  - by rewrite length_insert.
  - rewrite aget_insert by done. case_if; [lia|done].
  - intros j u k1 d1. rewrite aget_insert by done. case_if.
    + intros [= ->]. destruct Hv as [Hv|(k & d & n & [= -> -> ->] & Hk & ? & Hn & -> & Hp & _)];
        [by right; left|]. right; right. exists k, d, n. split_and!; try done; try lia.
      intros m Hm. by apply Hkeep, Hp.
    + intros Hj. destruct (Hs j u k1 d1 Hj) as [?|[?|(k' & d' & n' & -> & -> & Hk' & -> & Hn' & -> & Hp)]]; auto.
      right; right. exists k', d', n'. split_and!; try done; try lia.
      intros m Hm. by apply Hkeep, Hp.
  - intros a b k1 d1 d2. rewrite !cell_insert by done.
    assert (forall u, v = (u, Some k1, Some d1) \/ v = (u, Some k1, Some d2) -> 0 < u ->
      forall j d', cell vs j k1 d' -> j = i) as Honly.
    { intros u Hvu Hpos. destruct Hv as [Hv|(k & d & n & -> & _ & _ & _ & _ & _ & Hc)].
      - destruct Hvu as [-> | ->]; simpl in Hv; lia.
      - destruct Hvu as [[= _ <- _]|[= _ <- _]]; done. }
    intros [[<- (u & Ea & Hua)]|[Hne Ha]] [[<- (u' & Eb & Hub)]|[Hne' Hb]]; try done; eauto.
    + symmetry. eauto.
Qed.

Lemma stores_delete vs i k d m :
  0 <= i < Z.of_nat (length vs) -> stores vs m ->
  (forall a b k d d', cell vs a k d -> cell vs b k d' -> a = b) ->
  cell vs i k d -> stores (<[Z.to_nat i := (-1, None, None)]> vs) (delete k m).
Proof.
  intros Hi Hm Hinj Hc k1 d1. rewrite lookup_delete_Some, (Hm k1 d1). split.
  - intros (Hne & j & Hj). exists j. rewrite cell_insert by done. right. split; [|done].
    intros ->. destruct Hc as (u & Hu & _), Hj as (u' & Hu' & _). congruence.
  - intros (j & Hj). apply cell_insert in Hj; [|done].
    destruct Hj as [[_ (u & ? & ?)]|[Hne Hj]]; [naive_solver|].
    split; [|by exists j]. intros ->. by apply Hne, (Hinj i j k1 d d1).
Qed.

Lemma stores_insert vs i k d m v :
  stores vs m -> aget vs i = Some v ->
  (forall j d', cell vs j k d' -> j = i) ->
  (0 < v_used v -> exists d', cell vs i k d') ->
  forall u, 0 < u ->
  stores (<[Z.to_nat i := (u, Some k, Some d)]> vs) (<[k := d]> m).
Proof.
  intros Hm Hv Honly Hlive u Hu k1 d1. pose proof (aget_Some _ _ _ Hv) as [Hi _].
  rewrite lookup_insert_Some, (Hm k1 d1). split.
  - intros [[-> ->]|(Hne & j & Hj)].
    + exists i. rewrite cell_insert by done. left. eauto.
    + exists j. rewrite cell_insert by done. right. split; [|done]. intros ->.
      destruct Hj as (u1 & Hu1 & Hpos). rewrite Hv in Hu1. injection Hu1 as ->.
      destruct (Hlive Hpos) as (d' & u2 & Hu2 & _). congruence.
  - intros (j & Hj). apply cell_insert in Hj; [|done].
    destruct Hj as [[-> (u1 & [= <- <- <-] & _)]|[Hne Hj]]; [by left|right].
    split; [|by exists j]. intros ->. by apply Hne; symmetry; apply (Honly j d1).
Qed.

(** ** The operations on the map

    What the table relies on: a callback and the initialisation of a new entry
    change neither the names nor the values of the table (they may change
    callbacks and flags), and memory does not run out. *)

Class EnvHooksOk (C : Type) {hooks : EnvHooks C} : Prop := {
  hk_callback_view : forall c name val op flag t,
    view <$> snd (hk_callback c name val op flag t) = view <$> t;
  hk_init_key : forall t e, key (hk_init t e) = key e;
  hk_init_data : forall t e, data (hk_init t e) = data e;
  hk_malloc_ok : forall n, hk_malloc n = true
}.

Section Correct.
Context {C : Type} {hooks : EnvHooks C} {hooks_ok : EnvHooksOk C}.

(** [htab] has the slots [vs]. *)
Definition has_view (htab : hsearch_data C) (vs : list vslot) : Prop :=
  exists t, table htab = Some t /\ view <$> t = vs.

Record htab_ok (htab : hsearch_data C) (vs : list vslot) (m : gmap (list Z) (list Z)) : Prop := {
  h_view : has_view htab vs;
  h_prime : prime (size htab);
  h_size : 5 <= size htab < 2 ^ 31;
  h_tbl : tbl_ok (size htab) vs;
  h_stores : stores vs m;
  h_filled : filled htab = nlive vs
}.

Lemma aget_fmap {A B} (f : A -> B) (l : list A) i : aget (f <$> l) i = f <$> aget l i.
Proof. unfold aget. case_if; [by rewrite list_lookup_fmap|done]. Qed.

Lemma get_slot_view htab vs i v :
  has_view htab vs -> aget vs i = Some v ->
  exists s, get_slot htab i = Some s /\ view s = v.
Proof.
  intros (t & Ht & <-) Hv. rewrite aget_fmap in Hv. apply fmap_Some in Hv as (s & Hs & ->).
  exists s. unfold get_slot. rewrite Ht. step_bind. done.
Qed.

Lemma set_slot_view htab vs i v s :
  has_view htab vs -> aget vs i = Some v ->
  exists htab', set_slot htab i s = Some htab' /\
    has_view htab' (<[Z.to_nat i := view s]> vs) /\ size htab' = size htab /\ filled htab' = filled htab.
Proof.
  intros (t & Ht & <-) Hv. apply aget_Some in Hv as [Hi _]. rewrite length_fmap in Hi.
  unfold set_slot. rewrite Ht. step_bind. rewrite aset_in by done. step_bind.
  eexists. split_and!; [done| |done|done]. eexists. split; [done|]. apply list_fmap_insert.
Qed.

Lemma slot_exists sz vs i : tbl_ok sz vs -> 0 <= i <= sz -> exists v, aget vs i = Some v.
Proof.
  intros Hok Hi. destruct (aget_is_Some vs i) as [v Hv]; [|by exists v].
  rewrite (ok_len _ _ Hok). lia.
Qed.

(** The slot holds the key [k]. *)
Definition hit (vs : list vslot) (k : list Z) (i : Z) : Prop := exists d, cell vs i k d.

Lemma hit_dec sz vs k i : tbl_ok sz vs -> 0 <= i <= sz -> hit vs k i \/ ~ hit vs k i.
Proof.
  intros Hok Hi. destruct (slot_exists _ _ _ Hok Hi) as [[[u k'] d] Hv].
  destruct (decide (0 < u)), (decide (k' = Some k)), d as [d|].
  1: left; exists d, u; subst; done.
  all: right; intros (d' & u' & Hu' & Hpos); rewrite Hv in Hu'; naive_solver.
Qed.

(** Comparing a slot that does not hold the key. *)
Lemma compare_miss htab vs k d action flag i :
  has_view htab vs -> 5 <= size htab < 2 ^ 31 -> tbl_ok (size htab) vs -> cstring k ->
  0 <= i <= size htab -> ~ hit vs k i ->
  _compare_and_overwrite_entry k d action htab flag (hash1 k (size htab)) i = Some None.
Proof.
  intros Hview Hsz Hok Hk Hi Hmiss.
  destruct (slot_exists _ _ _ Hok Hi) as [v Hv].
  destruct (get_slot_view _ _ _ _ Hview Hv) as (s & Hs & <-).
  pose proof (hash1_range (size htab) Hsz k) as Hh.
  unfold _compare_and_overwrite_entry. rewrite Hs. step_bind. case_if; [done|].
  destruct (ok_slot _ _ Hok i _ _ _ Hv) as [Hu|[Hu|(k' & d' & n & Hk1 & Hd1 & Hk' & Hu & _)]].
  - rewrite Hu, wrap_small in E by lia. lia.
  - rewrite Hu in E. change (u32 (-1)) with (2 ^ 32 - 1) in E. lia.
  - rewrite Hk1. step_bind. case_if; [done|]. apply strcmp_0 in E0 as <-; [|done..].
    exfalso. apply Hmiss. exists d', (used s). rewrite Hv. unfold view. rewrite Hk1, Hd1.
    split; [done|]. rewrite Hu. pose proof (hash1_range (size htab) Hsz k). lia.
Qed.

(** Comparing the slot that holds the key reaches the end of the search. *)
Lemma compare_hit htab vs k d action flag i :
  has_view htab vs -> 5 <= size htab < 2 ^ 31 -> tbl_ok (size htab) vs -> cstring k ->
  hit vs k i ->
  exists s, get_slot htab i = Some s /\ key (entry s) = Some k /\
  _compare_and_overwrite_entry k d action htab flag (hash1 k (size htab)) i =
  match action, d with
  | ENTER, Some d =>
      denied ← change_denied htab i (Some d) env_op_overwrite flag;
      if (denied : bool) then Some (Some (0, None, EPERM, htab))
      else
        '(rejected, htab) ← callback_denied htab i k (Some d) env_op_overwrite flag;
        if (rejected : bool) then Some (Some (0, None, EINVAL, htab))
        else
          s ← get_slot htab i;
          htab ← set_slot htab i
            (mk__ENTRY (used s)
               (mk_ENTRY (key (entry s)) (Some d) (callback (entry s)) (flags (entry s))));
          Some (Some (i, Some i, 0, htab))
  | _, _ => Some (Some (i, Some i, 0, htab))
  end.
Proof.
  intros Hview Hsz Hok Hk (d0 & u & Hv & Hu).
  destruct (get_slot_view _ _ _ _ Hview Hv) as (s & Hs & Hvs).
  injection Hvs as Hus Hks Hds.
  destruct (ok_slot _ _ Hok i _ _ _ Hv) as [?|[?|(k' & d' & n & [= <-] & _ & _ & Hu' & _)]]; [lia..|].
  pose proof (hash1_range (size htab) Hsz k) as Hh.
  exists s. split_and!; [done|done|].
  unfold _compare_and_overwrite_entry. rewrite Hs, mbind_Some, Hus, Hu'.
  rewrite wrap_small, Z.eqb_refl by lia. simpl negb. cbv iota. rewrite Hks, mbind_Some.
  assert (strcmp k k = 0) as -> by (by apply strcmp_0). simpl negb. cbv iota.
  destruct action, d as [d|]; try done. unfold strdup. by rewrite hk_malloc_ok.
Qed.

Lemma probe_loop_S fuel htab k d action flag hval n :
  5 <= size htab < 2 ^ 31 ->
  let P := probe hval (size htab) in
  probe_loop (S fuel) k d action htab flag hval (hash2 hval (size htab)) (P n) =
  if P (n + 1) =? hval then Some (inr (P (n + 1)))
  else
    ret ← _compare_and_overwrite_entry k d action htab flag hval (P (n + 1));
    match ret with
    | Some r => Some (inl r)
    | None =>
        s ← get_slot htab (P (n + 1));
        if negb (used s =? 0)
        then probe_loop fuel k d action htab flag hval (hash2 hval (size htab)) (P (n + 1))
        else Some (inr (P (n + 1)))
    end.
Proof.
  intros Hsz P. unfold probe_loop; fold probe_loop. rewrite !(hash2_second (size htab) Hsz).
  unfold P. rewrite <- (probe_step (size htab) Hsz hval n). done.
Qed.

(** The first [N] slots of the probe sequence of [k] are used by other keys. *)
Definition others (sz : Z) (vs : list vslot) (k : list Z) (N : Z) : Prop :=
  forall m, 0 <= m < N ->
    ~ hit vs k (probe (hash1 k sz) sz m) /\
    exists v, aget vs (probe (hash1 k sz) sz m) = Some v /\ v_used v <> 0.

Lemma others_S sz vs k n v :
  others sz vs k n -> ~ hit vs k (probe (hash1 k sz) sz n) ->
  aget vs (probe (hash1 k sz) sz n) = Some v -> v_used v <> 0 -> others sz vs k (n + 1).
Proof.
  intros H Hm Hv Hu m Hm'. destruct (decide (m = n)) as [->|]; [by eauto|]. apply H. lia.
Qed.

(** The probe loop finds the slot that holds the key, or ends at the first
    unused slot of the sequence, or has visited all slots. *)
Lemma probe_loop_finds fuel : forall htab vs k d action flag n,
  let sz := size htab in
  let P := probe (hash1 k sz) sz in
  let run := probe_loop fuel k d action htab flag (hash1 k sz) (hash2 (hash1 k sz) sz) (P n) in
  has_view htab vs -> prime sz -> 5 <= sz < 2 ^ 31 -> tbl_ok sz vs -> cstring k ->
  0 <= n < sz -> sz - n <= Z.of_nat fuel -> others sz vs k (n + 1) ->
  exists N, n < N <= sz /\ others sz vs k N /\
    ((N < sz /\ hit vs k (P N) /\
      forall r, _compare_and_overwrite_entry k d action htab flag (hash1 k sz) (P N) = Some (Some r) ->
        run = Some (inl r)) \/
     (N < sz /\ ~ hit vs k (P N) /\ (exists v, aget vs (P N) = Some v /\ v_used v = 0) /\
      run = Some (inr (P N))) \/
     (N = sz /\ run = Some (inr (P 0)))).
Proof.
  induction fuel as [|fuel IH]; intros htab vs k d action flag n sz P run Hview Hpr Hsz Hok Hk Hn Hf Hbefore;
    [lia|].
  pose proof (hash1_range sz Hsz k) as Hh.
  unfold run, P. clear run. rewrite probe_loop_S by done. fold sz. fold P.
  destruct (decide (n + 1 = sz)) as [Hlast|Hlast].
  { exists sz. rewrite Hlast in *. split_and!; [lia|lia|done|]. right; right.
    unfold P. rewrite (probe_sz sz), (probe_0 sz) by lia. by rewrite Z.eqb_refl. }
  assert (P (n + 1) <> hash1 k sz) as Hne.
  { intros E. assert (P (n + 1) = P 0) as E' by (unfold P; by rewrite (probe_0 sz) by lia).
    clear E; rename E' into E. apply (probe_inj sz) in E; [lia|done..|lia|lia]. }
  rewrite (proj2 (Z.eqb_neq _ _) Hne).
  assert (1 <= P (n + 1) <= sz) as HP by (by apply probe_range).
  destruct (hit_dec sz vs k (P (n + 1)) Hok) as [Hhit|Hmiss]; [lia|..].
  - exists (n + 1). split_and!; [lia..|done|]. left. split_and!; [lia|done|].
    intros r Hr. by rewrite Hr.
  - rewrite (compare_miss htab vs) by (done || lia). step_bind.
    destruct (slot_exists _ _ (P (n + 1)) Hok) as [v Hv]; [lia|].
    destruct (get_slot_view _ _ _ _ Hview Hv) as (s & -> & <-). step_bind.
    case_if.
    + destruct (IH htab vs k d action flag (n + 1)) as (N & HN & Hoth & Hcase); try done; try lia.
      { by eapply others_S. }
      exists N. split; [lia|]. split; [done|]. exact Hcase.
    + exists (n + 1). split_and!; [lia..|done|]. right; left. split_and!; [lia|done|by eauto|done].
Qed.

(** A key whose slot is not among the first used slots of its sequence is not
    in the table. *)
Lemma others_absent sz vs k N :
  prime sz -> 5 <= sz < 2 ^ 31 -> tbl_ok sz vs -> others sz vs k N ->
  (N = sz \/ N < sz /\ ~ hit vs k (probe (hash1 k sz) sz N) /\
    exists v, aget vs (probe (hash1 k sz) sz N) = Some v /\ v_used v = 0) ->
  0 <= N -> forall i, ~ hit vs k i.
Proof.
  intros Hpr Hsz Hok Hoth HN H0 i (d & u & Hv & Hu). 
  destruct (ok_slot _ _ Hok _ _ _ _ Hv) as [?|[?|(k' & d' & n & [= <-] & _ & _ & -> & Hn & -> & Hpath)]];
    [lia..|].
  assert (hit vs k (probe (hash1 k sz) sz n)) as Hhit by (by exists d, (hash1 k sz)).
  destruct (decide (n < N)); [by apply (Hoth n); [lia|]|].
  destruct HN as [->|(HN & Hmiss & v & Hv' & Hu')]; [lia|].
  destruct (decide (n = N)) as [->|]; [done|].
  destruct (Hpath N) as (w & Hw & Hwu); [lia|]. congruence.
Qed.

(** The two ways in which a search can go. *)
Lemma hsearch_cases htab vs m k d action flag :
  htab_ok htab vs m -> cstring k ->
  let sz := size htab in
  (exists i, hit vs k i /\
    forall r, _compare_and_overwrite_entry k d action htab flag (hash1 k sz) i = Some (Some r) ->
      hsearch_r k d action htab flag = Some r) \/
  ((forall i, ~ hit vs k i) /\
   exists i,
     hsearch_r k d action htab flag =
       match action with
       | FIND => Some (0, None, ESRCH, htab)
       | ENTER => enter_new k d htab flag (hash1 k sz) i
       end /\
     ((exists n v, 0 <= n < sz /\ i = probe (hash1 k sz) sz n /\ others sz vs k n /\
         aget vs i = Some v /\ v_used v <= 0) \/
      (others sz vs k sz /\ i = hash1 k sz))).
Proof.
  intros [Hview Hpr Hsz Hok Hst Hfill] Hk sz. fold sz in Hpr, Hsz, Hok.
  pose proof (hash1_range sz Hsz k) as Hh. pose proof (probe_0 sz (hash1 k sz)) as HP0.
  destruct (slot_exists _ _ (hash1 k sz) Hok) as [v Hv]; [lia|].
  destruct (get_slot_view _ _ _ _ Hview Hv) as (s & Hs & <-).
  unfold hsearch_r. fold sz. rewrite Hs. step_bind.
  assert (others sz vs k 0) as Hoth0 by (intros ? ?; lia).
  case_if.
  - destruct (hit_dec sz vs k (hash1 k sz) Hok) as [Hhit|Hmiss]; [lia|..].
    { left. exists (hash1 k sz). split; [done|]. intros r ->. done. }
    rewrite (compare_miss htab vs) by (done || lia). step_bind.
    destruct (probe_loop_finds (S (Z.to_nat sz)) htab vs k d action flag 0)
      as (N & HN & Hoth & Hcase); try done; try lia.
    { apply (others_S sz vs k 0 (view s)); rewrite ?HP0 by lia; done. }
    fold sz in Hcase. rewrite HP0 in Hcase by lia.
    destruct Hcase as [(HN' & Hhit & Hrun)|[(HN' & Hmiss' & Hempty & ->)|(-> & ->)]].
    + left. eexists. split; [exact Hhit|]. intros r Hr. by rewrite (Hrun r Hr).
    + right. split; [apply (others_absent sz vs k N); auto; lia|]. step_bind.
      destruct Hempty as (w & Hw & Hwu).
      destruct (decide (used s = -1)) as [Hdel|Hndel].
      * exists (hash1 k sz). rewrite (proj2 (Z.eqb_eq _ _) Hdel).
        rewrite (proj2 (Z.eqb_neq (hash1 k sz) 0)) by lia. split; [done|]. left.
        exists 0, (view s). rewrite HP0 by lia. split_and!; try done; simpl; lia.
      * exists (probe (hash1 k sz) sz N). rewrite (proj2 (Z.eqb_neq _ _) Hndel).
        split; [done|]. left. exists N, w. split_and!; try done; lia.
    + right. split; [apply (others_absent sz vs k sz); auto; lia|]. step_bind.
      exists (hash1 k sz). split; [|by right].
      destruct action; [done|]. case_if; [|done]. case_if; done.
  - right. assert (~ hit vs k (hash1 k sz)) as Hmiss.
    { intros (d0 & u & Hu & Hpos). rewrite Hv in Hu. injection Hu as Hu _ _. lia. }
    split.
    { apply (others_absent sz vs k 0); auto; [|lia]. right. rewrite HP0 by lia.
      split_and!; [lia|done|]. by exists (view s). }
    exists (hash1 k sz). split; [done|]. left. exists 0, (view s). rewrite HP0 by lia.
    split_and!; try done; simpl; lia.
Qed.

Lemma stores_hit vs m k : stores vs m -> forall d, m !! k = Some d <-> exists i, cell vs i k d.
Proof. intros H d. apply H. Qed.

Lemma stores_None vs m k : stores vs m -> m !! k = None <-> forall i, ~ hit vs k i.
Proof.
  intros H. split.
  - intros Hn i (d & Hc). assert (m !! k = Some d) by (apply H; by exists i). congruence.
  - intros Hn. destruct (m !! k) as [d|] eqn:E; [|done]. apply H in E as (i & Hc).
    exfalso. apply (Hn i). by exists d.
Qed.

(** [hsearch_r] with [FIND]. *)
Lemma hsearch_find htab vs m k d flag :
  htab_ok htab vs m -> cstring k ->
  match m !! k with
  | Some v => exists i, cell vs i k v /\ 0 < i /\ hsearch_r k d FIND htab flag = Some (i, Some i, 0, htab)
  | None => hsearch_r k d FIND htab flag = Some (0, None, ESRCH, htab)
  end.
Proof.
  intros Hok Hk. destruct (hsearch_cases htab vs m k d FIND flag Hok Hk) as [(i & Hhit & Hr)|(Hmiss & i & -> & _)].
  - destruct Hok as [Hview Hpr Hsz Htbl Hst _].
    destruct (compare_hit htab vs k d FIND flag i Hview Hsz Htbl Hk Hhit) as (s & _ & _ & Hc).
    specialize (Hr _ Hc). destruct Hhit as (v & Hv).
    assert (m !! k = Some v) as -> by (apply Hst; by exists i).
    exists i. split_and!; [done| |done]. destruct Hv as (u & Hu & Hpos).
    apply aget_Some in Hu as Hi. destruct (ok_zero _ _ Htbl) as (k0 & d0 & H0).
    destruct (decide (i = 0)) as [->|]; [congruence|lia].
  - destruct Hok as [_ _ _ _ Hst _]. by rewrite (proj2 (stores_None vs m k Hst) Hmiss).
Qed.

(** *** Permissions *)

Definition allowed (e : ENTRY C) (newval : option (list Z)) (op : env_op) (flag : Z) : bool :=
  match hk_change_ok with
  | None => true
  | Some f => f e newval op flag =? 0
  end.

(** A change was refused by the permission check or by a callback. *)
Definition vetoed (k : list Z) (newval : option (list Z)) (op : env_op) (flag : Z) : Prop :=
  (exists e, key e = Some k /\ allowed e newval op flag = false) \/
  (exists c t, fst (hk_callback c k newval op flag t) <> 0).

Lemma change_denied_allowed htab idx newval op flag s :
  get_slot htab idx = Some s ->
  change_denied htab idx newval op flag = Some (negb (allowed (entry s) newval op flag)).
Proof.
  intros Hs. unfold change_denied, allowed. destruct hk_change_ok; [|done]. by rewrite Hs.
Qed.

Lemma callback_denied_view htab vs idx k newval op flag v :
  has_view htab vs -> aget vs idx = Some v ->
  exists b htab', callback_denied htab idx k newval op flag = Some (b, htab') /\
    has_view htab' vs /\ size htab' = size htab /\ filled htab' = filled htab /\
    (b = true -> exists c t, fst (hk_callback c k newval op flag t) <> 0).
Proof.
  intros Hview Hv. destruct (get_slot_view _ _ _ _ Hview Hv) as (s & Hs & _).
  unfold callback_denied. rewrite Hs. step_bind.
  destruct (callback (entry s)) as [c|]; [|by eexists _, _].
  destruct Hview as (t & Ht & Hvs). rewrite Ht. step_bind.
  pose proof (hk_callback_view c k newval op flag t) as Hcb.
  destruct (hk_callback c k newval op flag t) as [r t'] eqn:E. simpl in Hcb.
  eexists _, _. split_and!; [done| |done|done|].
  - exists t'. split; [done|]. by rewrite Hcb.
  - intros Hr. bool_to_prop. exists c, t. by rewrite E.
Qed.

(** *** Overwriting *)

Lemma slot_ok_value sz vs i u k old d :
  tbl_ok sz vs -> aget vs i = Some (u, Some k, Some old) -> 0 < u ->
  slot_ok sz vs i (u, Some k, Some d).
Proof.
  intros Htbl Hu Hpos. right.
  destruct (ok_slot _ _ Htbl _ _ _ _ Hu) as [?|[?|(k1 & d1 & n & [= <-] & _ & Hk1 & -> & Hn & -> & Hp)]];
    [lia..|].
  exists k, d, n. split_and!; try done; try lia.
  intros j d' Hj. apply (ok_inj _ _ Htbl _ _ k d' old Hj). by exists (hash1 k sz).
Qed.

Lemma hsearch_overwrite htab vs m k d flag old :
  htab_ok htab vs m -> cstring k -> m !! k = Some old ->
  exists r p err htab' vs',
    hsearch_r k (Some d) ENTER htab flag = Some (r, p, err, htab') /\ nused vs' = nused vs /\
    size htab' = size htab /\
    ((is_Some p /\ 0 < r /\ htab_ok htab' vs' (<[k := d]> m) /\
      exists e, key e = Some k /\ data e = Some old /\ allowed e (Some d) env_op_overwrite flag = true) \/
     (p = None /\ r = 0 /\ htab_ok htab' vs' m /\ vetoed k (Some d) env_op_overwrite flag)).
Proof.
  intros Hok Hk Hold.
  destruct (hsearch_cases htab vs m k (Some d) ENTER flag Hok Hk) as [(i & Hhit & Hr)|(Hmiss & _)].
  2: { destruct Hok as [_ _ _ _ Hst _]. apply (stores_None _ _ _ Hst) in Hmiss. congruence. }
  pose proof Hok as [Hview Hpr Hsz Htbl Hst Hfill].
  destruct (compare_hit htab vs k (Some d) ENTER flag i Hview Hsz Htbl Hk Hhit) as (s & Hs & Hks & Hc).
  destruct Hhit as (old' & Hcell).
  assert (old' = old) as -> by (assert (m !! k = Some old') by (apply Hst; by exists i); congruence).
  pose proof Hcell as (u & Hu & Hpos).
  rewrite (change_denied_allowed _ _ _ _ _ s Hs), mbind_Some in Hc.
  destruct (allowed (entry s) (Some d) env_op_overwrite flag) eqn:Hal; cbn [negb] in Hc.
  2: { rewrite (Hr _ Hc). eexists _, _, _, _, vs. split_and!; [done..|]. right.
       split_and!; [done..|]. left. by exists (entry s). }
  destruct (callback_denied_view htab vs i k (Some d) env_op_overwrite flag _ Hview Hu)
    as (b & htab1 & Ecb & Hview1 & Hsz1 & Hfl1 & Hveto).
  rewrite Ecb, mbind_Some in Hc.
  assert (htab_ok htab1 vs m) as Hok1 by (split; rewrite ?Hsz1, ?Hfl1; done).
  destruct b.
  { rewrite (Hr _ Hc). eexists _, _, _, _, vs. split_and!; [done..|]. right.
    split_and!; [done..|]. right. by apply Hveto. }
  destruct (get_slot_view _ _ _ _ Hview1 Hu) as (s1 & Hs1 & Hvs1). rewrite Hs1, mbind_Some in Hc.
  injection Hvs1 as Hus1 Hks1 Hds1.
  edestruct (set_slot_view htab1 vs i) as (htab2 & Eset & Hview2 & Hsz2 & Hfl2); [done..|].
  rewrite Eset, mbind_Some in Hc. rewrite (Hr _ Hc). unfold view in Hview2. simpl in Hview2.
  rewrite Hus1, Hks1 in Hview2.
  apply aget_Some in Hu as Hi'. destruct Hi' as [Hi Hlk].
  eexists _, _, _, htab2, (<[Z.to_nat i := (u, Some k, Some d)]> vs). split_and!; [done|..].
  - unfold nused. rewrite (filter_insert_count is_used vs _ _ _ Hlk). count_cases.
  - congruence.
  - left. assert (0 < i).
    { destruct (ok_zero _ _ Htbl) as (k0 & d0 & H0). destruct (decide (i = 0)) as [->|]; [congruence|lia]. }
    split_and!; [by eexists|lia| |].
    2: { exists (entry s). split_and!; [done| |done].
         destruct (get_slot_view _ _ _ _ Hview Hu) as (s' & Hs' & Hv'). assert (s' = s) as -> by congruence.
         by injection Hv'. }
    split; rewrite ?Hsz2, ?Hsz1; [done..| | |].
    + apply tbl_ok_set; [done|apply aget_Some in Hu; rewrite (ok_len _ _ Htbl) in Hi; lia|].
      by apply slot_ok_value with old.
    + eapply stores_insert; eauto.
      intros j d' Hj. by apply (ok_inj _ _ Htbl j i k d' old).
    + rewrite Hfl2, Hfl1, Hfill. unfold nlive. rewrite (filter_insert_count is_live vs _ _ _ Hlk).
      count_cases.
Qed.

(** *** Creating *)

Lemma filter_Forall (P : vslot -> bool) (vs : list vslot) :
  Forall (fun v => P v = true) vs -> filter (fun v => P v = true) vs = vs.
Proof. induction 1 as [|v vs Hv _ IH]; [done|]. by rewrite filter_cons_True, IH. Qed.

Lemma length_filter_impl (P Q : vslot -> bool) (vs : list vslot) :
  (forall v, P v = true -> Q v = true) ->
  (length (filter (fun v => P v = true) vs) <= length (filter (fun v => Q v = true) vs))%nat.
Proof.
  intros HPQ. induction vs as [|v vs IH]; [done|]. rewrite !filter_cons.
  destruct (P v) eqn:EP; [rewrite (HPQ v EP)|destruct (Q v)]; simpl; lia.
Qed.

Lemma nlive_le_nused vs : nlive vs <= nused vs.
Proof.
  apply inj_le, length_filter_impl. intros v. unfold is_live, is_used.
  rewrite Z.ltb_lt, negb_true_iff, Z.eqb_neq. lia.
Qed.

(** With an unused slot left, the probe sequence does not run through the whole
    table. *)
Lemma room_not_all sz vs k :
  prime sz -> 5 <= sz < 2 ^ 31 -> tbl_ok sz vs -> nused vs < sz -> ~ others sz vs k sz.
Proof.
  intros Hpr Hsz Hok Hroom Hall. apply (Zlt_not_le _ _ Hroom).
  pose proof (ok_len _ _ Hok) as Hl.
  destruct vs as [|v0 vs]; [simpl in Hl; lia|]. unfold nused.
  assert (filter (fun v => is_used v = true) vs = vs) as E.
  { apply filter_Forall, Forall_lookup. intros i v Hi.
    destruct (probe_surj sz Hpr Hsz (hash1 k sz) (Z.of_nat (S i))) as (n & Hn & Hp).
    { apply lookup_lt_Some in Hi. simpl in Hl. lia. }
    destruct (Hall n Hn) as (_ & w & Hw & Hwu). rewrite Hp, aget_lookup in Hw. simpl in Hw.
    assert (w = v) as -> by congruence. unfold is_used. by rewrite negb_true_iff, Z.eqb_neq. }
  rewrite filter_cons, E. simpl in Hl. case_decide; simpl; lia.
Qed.

(** Up to the permission check, a new entry is in the table. *)
Lemma enter_new_stored htab vs m k d n v :
  let i := probe (hash1 k (size htab)) (size htab) n in
  htab_ok htab vs m -> cstring k -> m !! k = None -> nused vs < size htab ->
  0 <= n < size htab -> others (size htab) vs k n -> aget vs i = Some v -> v_used v <= 0 ->
  let vs1 := <[Z.to_nat i := (hash1 k (size htab), Some k, Some d)]> vs in
  tbl_ok (size htab) vs1 /\ stores vs1 (<[k := d]> m) /\
  nlive vs1 = nlive vs + 1 /\ nused vs1 <= nused vs + 1 /\
  cell vs1 i k d /\ 1 <= i <= size htab /\ 0 <= nlive vs < size htab.
Proof.
  intros i [Hview Hpr Hsz Htbl Hst Hfill] Hk Hnew Hroom Hn Hoth Hv Hu vs1.
  pose proof (hash1_range (size htab) Hsz k) as Hh.
  assert (1 <= i <= size htab) as Hi by (by apply probe_range).
  pose proof (nlive_le_nused vs) as Hcount.
  pose proof (aget_Some _ _ _ Hv) as [Hlen Hlk].
  assert (0 <= nlive vs) by (unfold nlive; lia).
  assert (forall j d', ~ cell vs j k d') as Hno.
  { intros j d' Hj. eapply (stores_None _ _ _ Hst); [done|]. by exists d'. }
  split_and!; try lia.
  - apply tbl_ok_set; [done..|]. right. exists k, d, n. split_and!; try done; try lia.
    + intros m' Hm'. by apply Hoth.
    + intros j d' Hj. exfalso. by eapply Hno.
  - eapply stores_insert; eauto; [|lia..]. intros j d' Hj. exfalso. by eapply Hno.
  - unfold vs1, nlive. rewrite (filter_insert_count is_live vs _ _ _ Hlk). count_cases.
  - unfold vs1, nused. rewrite (filter_insert_count is_used vs _ _ _ Hlk). count_cases.
  - unfold vs1. rewrite cell_insert by lia. left. split; [done|]. eexists. split; [done|]. lia.
Qed.

(** Taking a refused entry out again restores the map. *)
Lemma hdelete_view htab vs m k d i :
  prime (size htab) -> 5 <= size htab < 2 ^ 31 -> has_view htab vs -> tbl_ok (size htab) vs ->
  stores vs m -> filled htab = nlive vs -> nlive vs <= 2 ^ 31 -> cell vs i k d -> 1 <= i <= size htab ->
  exists htab' vs', _hdelete htab i = Some htab' /\ htab_ok htab' vs' (delete k m) /\
    size htab' = size htab /\ nused vs' = nused vs.
Proof.
  intros Hpr Hsz Hview Htbl Hst Hfill Hmax Hcell Hi.
  pose proof Hcell as (u & Hu & Hpos). pose proof (aget_Some _ _ _ Hu) as [Hlen Hlk].
  unfold _hdelete.
  edestruct (set_slot_view htab vs i) as (htab1 & -> & Hview1 & Hsz1 & Hfl1); [done..|]. step_bind.
  assert (nlive (<[Z.to_nat i := (-1, None, None)]> vs) = nlive vs - 1) as Hnl.
  { unfold nlive. rewrite (filter_insert_count is_live vs _ _ _ Hlk). count_cases. }
  assert (0 <= nlive (<[Z.to_nat i := (-1, None, None)]> vs)) by (unfold nlive; lia).
  eexists _, (<[Z.to_nat i := (-1, None, None)]> vs). split_and!; [done| |done|].
  - split; cbn [size filled table]; rewrite ?Hsz1; try done.
    + apply tbl_ok_set; [done..|]. by left.
    + eapply stores_delete; [done..| |done]. apply (ok_inj _ _ Htbl).
    + rewrite Hfl1, Hfill, Hnl. apply wrap_small. lia.
  - unfold nused. rewrite (filter_insert_count is_used vs _ _ _ Hlk). count_cases.
Qed.

Lemma enter_new_spec htab vs m k d flag n v :
  let i := probe (hash1 k (size htab)) (size htab) n in
  htab_ok htab vs m -> cstring k -> m !! k = None -> nused vs < size htab ->
  0 <= n < size htab -> others (size htab) vs k n -> aget vs i = Some v -> v_used v <= 0 ->
  exists r p err htab' vs',
    enter_new k (Some d) htab flag (hash1 k (size htab)) i = Some (r, p, err, htab') /\
    nused vs' <= nused vs + 1 /\ size htab' = size htab /\
    ((is_Some p /\ 0 < r /\ htab_ok htab' vs' (<[k := d]> m) /\
      exists e, key e = Some k /\ data e = Some d /\ allowed e (Some d) env_op_create flag = true) \/
     (p = None /\ r = 0 /\ htab_ok htab' vs' m /\ vetoed k (Some d) env_op_create flag)).
Proof.
  intros i Hok Hk Hnew Hroom Hn Hoth Hv Hu.
  destruct (enter_new_stored htab vs m k d n v Hok Hk Hnew Hroom Hn Hoth Hv Hu)
    as (Htbl1 & Hst1 & Hnl1 & Hnu1 & Hcell1 & Hi & Hbound).
  destruct Hok as [Hview Hpr Hsz Htbl Hst Hfill]. fold i in Htbl1, Hst1, Hnl1, Hnu1, Hcell1, Hi.
  pose proof (hash1_range (size htab) Hsz k) as Hh.
  unfold enter_new. rewrite (proj2 (Z.eqb_neq _ _)) by lia.
  destruct (get_slot_view _ _ _ _ Hview Hv) as (s & Hs & _). rewrite Hs. step_bind.
  unfold strdup. rewrite !hk_malloc_ok, swrap_small by lia. 
  edestruct (set_slot_view htab vs i) as (htab1 & -> & Hview1 & Hsz1 & Hfl1); [done..|]. step_bind.
  unfold view in Hview1; cbn [used key data entry] in Hview1.
  set (vs1 := <[Z.to_nat i := (hash1 k (size htab), Some k, Some d)]> vs) in *.
  pose proof Hcell1 as (u & Hu1 & Hpos).
  set (htab2 := mk_htab (table htab1) (size htab1) (u32 (filled htab1 + 1))).
  assert (has_view htab2 vs1) as Hview2 by exact Hview1.
  pose proof Hview2 as (t & Ht & _). rewrite Ht. step_bind.
  destruct (get_slot_view _ _ _ _ Hview2 Hu1) as (s2 & -> & Hs2). step_bind.
  edestruct (set_slot_view htab2 vs1 i) as (htab3 & -> & Hview3 & Hsz3 & Hfl3); [done..|]. step_bind.
  unfold view in Hview3; cbn [used key data entry] in Hview3.
  rewrite hk_init_key, hk_init_data in Hview3. fold (view s2) in Hview3. rewrite Hs2 in Hview3.
  rewrite list_insert_id in Hview3 by (by apply aget_Some in Hu1 as [_ ?]).
  cbn [size filled htab2] in Hsz3, Hfl3. rewrite Hfl1, Hfill, wrap_small in Hfl3 by lia.
  rewrite Hsz1 in Hsz3.
  destruct (get_slot_view _ _ _ _ Hview3 Hu1) as (s3 & Hs3 & Hvs3). injection Hvs3 as _ Hk3 Hd3.
  rewrite (change_denied_allowed _ _ _ _ _ s3 Hs3). step_bind.
  destruct (allowed (entry s3) (Some d) env_op_create flag) eqn:Hal; cbn [negb].
  2: { edestruct (hdelete_view htab3 vs1) as (htab4 & vs4 & -> & Hok4 & Hsz4 & Hnu4); rewrite ?Hsz3; [done..|lia|lia|done|done|].
       step_bind. eexists _, _, _, _, vs4. split_and!; [done|lia|lia|]. right.
       rewrite delete_insert_id in Hok4 by done. split_and!; [done..|]. left. by exists (entry s3). }
  destruct (callback_denied_view htab3 vs1 i k (Some d) env_op_create flag _ Hview3 Hu1)
    as (b & htab4 & -> & Hview4 & Hsz4 & Hfl4 & Hveto). step_bind.
  destruct b.
  { edestruct (hdelete_view htab4 vs1) as (htab5 & vs5 & -> & Hok5 & Hsz5 & Hnu5); rewrite ?Hsz4, ?Hsz3; [done..|lia|lia|done|done|].
    step_bind. eexists _, _, _, _, vs5. split_and!; [done|lia|lia|]. right.
    rewrite delete_insert_id in Hok5 by done. split_and!; [done..|]. right. by apply Hveto. }
  eexists _, _, _, _, vs1. split_and!; [done|lia|lia|]. left. split_and!; [by eexists|lia| |].
  - split; rewrite ?Hsz4, ?Hsz3; try done. lia.
  - by exists (entry s3).
Qed.

(** *** Entering and deleting *)

Definition enter_op (m : gmap (list Z) (list Z)) (k : list Z) : env_op :=
  match m !! k with Some _ => env_op_overwrite | None => env_op_create end.

(** The entry that the permission check is asked about. *)
Definition asked (m : gmap (list Z) (list Z)) (k d : list Z) (e : ENTRY C) : Prop :=
  key e = Some k /\ data e = Some (default d (m !! k)).

Lemma hsearch_enter htab vs m k d flag :
  htab_ok htab vs m -> cstring k -> nused vs < size htab ->
  exists r p err htab' vs',
    hsearch_r k (Some d) ENTER htab flag = Some (r, p, err, htab') /\
    nused vs' <= nused vs + 1 /\ size htab' = size htab /\
    ((is_Some p /\ 0 < r /\ htab_ok htab' vs' (<[k := d]> m) /\
      exists e, asked m k d e /\ allowed e (Some d) (enter_op m k) flag = true) \/
     (p = None /\ r = 0 /\ htab_ok htab' vs' m /\ vetoed k (Some d) (enter_op m k) flag)).
Proof.
  intros Hok Hk Hroom. unfold asked, enter_op. destruct (m !! k) as [old|] eqn:Hm.
  - destruct (hsearch_overwrite htab vs m k d flag old Hok Hk Hm)
      as (r & p & err & htab' & vs' & E & Hnu & Hsz & Hcase).
    exists r, p, err, htab', vs'. split_and!; [done|lia|done|].
    destruct Hcase as [(? & ? & ? & e & ? & ? & ?)|?]; [left|by right]. eauto 10.
  - destruct (hsearch_cases htab vs m k (Some d) ENTER flag Hok Hk) as [(i & Hhit & _)|(Hmiss & i & -> & Hi)].
    { destruct Hok as [_ _ _ _ Hst _]. exfalso. by apply (proj1 (stores_None _ _ _ Hst) Hm i). }
    destruct Hi as [(n & v & Hn & -> & Hoth & Hv & Hu)|(Hall & _)].
    2: { destruct Hok as [_ Hpr Hsz Htbl _ _]. exfalso. by apply (room_not_all _ _ _ Hpr Hsz Htbl Hroom Hall). }
    destruct (enter_new_spec htab vs m k d flag n v Hok Hk Hm Hroom Hn Hoth Hv Hu)
      as (r & p & err & htab' & vs' & E & Hnu & Hsz & Hcase).
    exists r, p, err, htab', vs'. split_and!; [done..|].
    destruct Hcase as [(? & ? & ? & e & ? & ? & ?)|?]; [left|by right]. eauto 10.
Qed.

Lemma hdelete_spec htab vs m k flag :
  htab_ok htab vs m -> cstring k ->
  exists r err htab' vs',
    hdelete_r k htab flag = Some (r, err, htab') /\ nused vs' = nused vs /\ size htab' = size htab /\
    match m !! k with
    | None => r = 0 /\ htab_ok htab' vs' m
    | Some old =>
        (r = 1 /\ htab_ok htab' vs' (delete k m) /\
         exists e, key e = Some k /\ data e = Some old /\ allowed e None env_op_delete flag = true) \/
        (r = 0 /\ htab_ok htab' vs' m /\ vetoed k None env_op_delete flag)
    end.
Proof.
  intros Hok Hk. pose proof (hsearch_find htab vs m k None 0 Hok Hk) as Hfind.
  unfold hdelete_r. destruct (m !! k) as [old|] eqn:Hm.
  2: { rewrite Hfind. step_bind. rewrite Z.eqb_refl. by eexists _, _, _, vs. }
  destruct Hfind as (i & Hcell & Hi0 & ->). step_bind.
  rewrite (proj2 (Z.eqb_neq _ _)) by lia. step_bind.
  pose proof Hok as [Hview Hpr Hsz Htbl Hst Hfill]. pose proof Hcell as (u & Hu & Hpos).
  destruct (get_slot_view _ _ _ _ Hview Hu) as (s & Hs & Hvs). injection Hvs as _ Hks Hds.
  rewrite (change_denied_allowed _ _ _ _ _ s Hs). step_bind.
  destruct (allowed (entry s) None env_op_delete flag) eqn:Hal; cbn [negb].
  2: { eexists _, _, _, vs. split_and!; [done..|]. right. split_and!; [done..|]. left. by exists (entry s). }
  destruct (callback_denied_view htab vs i k None env_op_delete flag _ Hview Hu)
    as (b & htab1 & -> & Hview1 & Hsz1 & Hfl1 & Hveto). step_bind.
  assert (htab_ok htab1 vs m) as Hok1 by (split; rewrite ?Hsz1, ?Hfl1; done).
  destruct b.
  { eexists _, _, _, vs. split_and!; [done..|]. right. split_and!; [done..|]. right. by apply Hveto. }
  assert (nlive vs <= 2 ^ 31).
  { unfold nlive. pose proof (length_filter (fun v => is_live v = true) vs).
    pose proof (ok_len _ _ Htbl). lia. }
  edestruct (hdelete_view htab1 vs m k old i) as (htab2 & vs2 & -> & Hok2 & Hsz2 & Hnu2);
    rewrite ?Hsz1; try done; try lia.
  { pose proof (ok_len _ _ Htbl). apply aget_Some in Hu as [? _]. lia. }
  step_bind. eexists _, _, _, vs2. split_and!; [done|done|congruence|]. left.
  split_and!; [done..|]. by exists (entry s).
Qed.

(** *** Creation *)

Lemma next_prime_ok fuel : forall nel p,
  next_prime fuel nel = Some p -> 3 <= nel -> nel + 2 * Z.of_nat fuel <= 65535 -> Z.odd nel = true ->
  5 <= p <= nel + 2 * Z.of_nat fuel /\ prime p.
Proof.
  induction fuel as [|fuel IH]; intros nel p Hp Hn Hb Ho; [done|].
  unfold next_prime in Hp; fold next_prime in Hp.
  rewrite (wrap_small 32 nel), (wrap_small 64 (nel + 2)) in Hp by lia.
  assert (Z.odd (nel + 2) = true) as Ho2 by (by rewrite Z.odd_add, Ho).
  destruct (decide (nel = 3)) as [->|H3].
  { change (isprime 3) with (Some false) in Hp. rewrite mbind_Some in Hp. cbn [negb] in Hp.
    apply IH in Hp as [? ?]; [split; [lia|done]|lia|lia|done]. }
  assert (nel <> 4) by (by intros ->).
  destruct (isprime_total nel) as (b & E & Hb'); [lia|done|]. rewrite E, mbind_Some in Hp.
  destruct b; cbn [negb] in Hp.
  - injection Hp as <-. split; [lia|]. by apply Hb'.
  - apply IH in Hp as [? ?]; [split; [lia|done]|lia|lia|done].
Qed.

Lemma empty_table_ok sz :
  5 <= sz < 2 ^ 31 ->
  let vs := replicate (Z.to_nat (sz + 1)) (0, None, None) in
  tbl_ok sz vs /\ stores vs ∅ /\ nlive vs = 0 /\ nused vs = 0.
Proof.
  intros Hsz vs.
  assert (forall i v, aget vs i = Some v -> v = (0, None, None)) as Hv.
  { intros i v Hi. apply aget_Some in Hi as [_ Hi]. by apply lookup_replicate in Hi as [-> _]. }
  assert (forall i k d, ~ cell vs i k d) as Hc.
  { intros i k d (u & Hu & Hpos). apply Hv in Hu. done. }
  assert (forall P : vslot -> bool, P (0, None, None) = false ->
    Z.of_nat (length (filter (fun v => P v = true) vs)) = 0) as Hcount.
  { intros P HP. unfold vs. clear -HP. induction (Z.to_nat (sz + 1)) as [|n IH]; [done|]. simpl replicate.
    rewrite filter_cons_False by congruence. done. }
  split_and!; [split|..].
  - unfold vs. rewrite length_replicate. lia.
  - destruct (aget_is_Some vs 0) as [v E]; [unfold vs; rewrite length_replicate; lia|].
    pose proof (Hv _ _ E) as E'. subst v. eauto.
  - intros i u k d Hi. apply Hv in Hi. left. congruence.
  - intros i j k d d' Ha. by apply Hc in Ha.
  - intros k d. rewrite lookup_empty. split; [done|]. intros (i & Hi). by apply Hc in Hi.
  - by apply Hcount.
  - by apply Hcount.
Qed.

Lemma hcreate_spec nel htab p :
  table htab = None -> next_prime (Z.to_nat nel + 3) (Z.lor nel 1) = Some p -> 2 <= nel <= 20000 ->
  exists htab', hcreate_r nel htab = Some (1, htab') /\ size htab' = p /\
    htab_ok htab' (replicate (Z.to_nat (p + 1)) (0, None, None)) ∅ /\ 5 <= p.
Proof.
  intros Ht Hp Hn. unfold hcreate_r. rewrite Ht, Hp. step_bind.
  assert (Z.odd (Z.lor nel 1) = true) as Ho.
  { rewrite <- Z.bit0_odd, Z.lor_spec. apply orb_true_r. }
  assert (nel <= Z.lor nel 1 <= nel + 1) as Hl.
  { destruct (Z.odd nel) eqn:E.
    - replace (Z.lor nel 1) with nel; [lia|]. apply Z.bits_inj'. intros j Hj. rewrite Z.lor_spec.
      destruct (decide (j = 0)) as [->|]; [by rewrite Z.bit0_odd, E|].
      rewrite (Z.bits_above_log2 1 j) by (simpl; lia). by rewrite orb_false_r.
    - pose proof (Z.add_lor_land nel 1). replace (Z.land nel 1) with 0 in *; [lia|].
      change 1 with (Z.ones 1). rewrite Z.land_ones by lia. change (2 ^ 1) with 2.
      by rewrite Zmod_odd, E. }
  assert (Z.lor nel 1 <> 2) by (intros E; by rewrite E in Ho).
  apply next_prime_ok in Hp as [Hb Hpr]; [|lia..|done]. unwrap. rewrite hk_malloc_ok.
  eexists. split_and!; [done|done| |lia].
  destruct (empty_table_ok p) as (Htbl & Hst & Hnl & _); [lia|].
  split; cbn [size filled]; try done; try lia.
  eexists. split; [done|]. by rewrite fmap_replicate.
Qed.

(** *** Sequences of operations *)

Inductive ht_op :=
  | HFind (k : list Z)
  | HEnter (k d : list Z) (flag : Z)
  | HDelete (k : list Z) (flag : Z).

Definition ht_key (o : ht_op) : list Z :=
  match o with HFind k => k | HEnter k _ _ => k | HDelete k _ => k end.

Definition is_enter (o : ht_op) : bool := match o with HEnter _ _ _ => true | _ => false end.

(** An operation of the code; its result is the value found, or whether the
    change was made. *)
Definition run_ht (htab : hsearch_data C) (o : ht_op) : option ((option (list Z) + bool) * hsearch_data C) :=
  match o with
  | HFind k =>
      '(_, p, _, htab') ← hsearch_r k None FIND htab 0;
      match p with
      | None => Some (inl None, htab')
      | Some i => s ← get_slot htab' i; Some (inl (data (entry s)), htab')
      end
  | HEnter k d flag =>
      '(r, _, _, htab') ← hsearch_r k (Some d) ENTER htab flag;
      Some (inr (negb (r =? 0)), htab')
  | HDelete k flag =>
      '(r, _, htab') ← hdelete_r k htab flag; Some (inr (negb (r =? 0)), htab')
  end.

Fixpoint run_hts (htab : hsearch_data C) (os : list ht_op)
    : option (list (option (list Z) + bool) * hsearch_data C) :=
  match os with
  | [] => Some ([], htab)
  | o :: os => '(r, h1) ← run_ht htab o; '(rs, h2) ← run_hts h1 os; Some (r :: rs, h2)
  end.

(** The same operation on a map. *)
Inductive map_step : gmap (list Z) (list Z) -> ht_op -> option (list Z) + bool ->
    gmap (list Z) (list Z) -> Prop :=
  | MFind m k : map_step m (HFind k) (inl (m !! k)) m
  | MEnter m k d flag e : asked m k d e -> allowed e (Some d) (enter_op m k) flag = true ->
      map_step m (HEnter k d flag) (inr true) (<[k := d]> m)
  | MEnterVeto m k d flag : vetoed k (Some d) (enter_op m k) flag ->
      map_step m (HEnter k d flag) (inr false) m
  | MDelete m k flag old e : m !! k = Some old -> key e = Some k -> data e = Some old ->
      allowed e None env_op_delete flag = true ->
      map_step m (HDelete k flag) (inr true) (delete k m)
  | MDeleteVeto m k flag : is_Some (m !! k) -> vetoed k None env_op_delete flag ->
      map_step m (HDelete k flag) (inr false) m
  | MDeleteNone m k flag : m !! k = None -> map_step m (HDelete k flag) (inr false) m.

Inductive map_steps : gmap (list Z) (list Z) -> list ht_op -> list (option (list Z) + bool) ->
    gmap (list Z) (list Z) -> Prop :=
  | MNil m : map_steps m [] [] m
  | MCons m o r m1 os rs m2 : map_step m o r m1 -> map_steps m1 os rs m2 ->
      map_steps m (o :: os) (r :: rs) m2.

#[local] Hint Constructors map_step map_steps : uboot.

Lemma run_ht_refines htab vs m o :
  htab_ok htab vs m -> cstring (ht_key o) -> nused vs + Z.b2z (is_enter o) <= size htab ->
  exists r htab' vs' m', run_ht htab o = Some (r, htab') /\ map_step m o r m' /\
    htab_ok htab' vs' m' /\ size htab' = size htab /\ nused vs' <= nused vs + Z.b2z (is_enter o).
Proof.
  intros Hok Hk Hroom. destruct o as [k|k d flag|k flag]; simpl in *.
  - pose proof (hsearch_find htab vs m k None 0 Hok Hk) as Hf.
    assert (map_step m (HFind k) (inl (m !! k)) m) as Hs by constructor.
    destruct (m !! k) as [v|] eqn:Hm.
    + destruct Hf as (i & (u & Hu & _) & _ & ->). step_bind.
      destruct (get_slot_view _ _ _ _ (h_view _ _ _ Hok) Hu) as (s & -> & [= _ _ Hd]). step_bind.
      rewrite Hd. eexists _, _, vs, m. split_and!; [done..|lia].
    + rewrite Hf. step_bind. eexists _, _, vs, m. split_and!; [done..|lia].
  - destruct (hsearch_enter htab vs m k d flag Hok Hk) as (r & p & err & htab' & vs' & -> & Hnu & Hsz & Hcase);
      [lia|]. step_bind.
    destruct Hcase as [(_ & Hr & Hok' & e & Ha & Hal)|(_ & -> & Hok' & Hv)].
    + rewrite (proj2 (Z.eqb_neq _ _)) by lia. eexists _, _, vs', _. split_and!; eauto with uboot; lia.
    + eexists _, _, vs', _. split_and!; eauto with uboot; lia.
  - destruct (hdelete_spec htab vs m k flag Hok Hk) as (r & err & htab' & vs' & -> & Hnu & Hsz & Hcase).
    step_bind. destruct (m !! k) as [old|] eqn:Hm.
    + destruct Hcase as [(-> & Hok' & e & ? & ? & ?)|(-> & Hok' & Hv)];
        eexists _, _, vs', _; split_and!; eauto with uboot; try lia.
    + destruct Hcase as [-> Hok']. eexists _, _, vs', _. split_and!; eauto with uboot; lia.
Qed.

Lemma run_hts_refines os : forall htab vs m,
  htab_ok htab vs m -> Forall (fun o => cstring (ht_key o)) os ->
  nused vs + Z.of_nat (length (List.filter is_enter os)) <= size htab ->
  exists rs htab' vs' m', run_hts htab os = Some (rs, htab') /\ map_steps m os rs m' /\
    htab_ok htab' vs' m'.
Proof.
  induction os as [|o os IH]; intros htab vs m Hok Hk Hroom.
  { eexists _, _, vs, m. split_and!; [done|constructor|done]. }
  inversion Hk as [|? ? Hk1 Hk2]; subst.
  assert (Z.of_nat (length (List.filter is_enter (o :: os))) =
          Z.b2z (is_enter o) + Z.of_nat (length (List.filter is_enter os))) as Hl.
  { simpl. destruct (is_enter o); simpl; lia. }
  destruct (run_ht_refines htab vs m o) as (r & h1 & vs1 & m1 & E1 & Hs1 & Hok1 & Hsz1 & Hnu1); [done..|lia|].
  destruct (IH h1 vs1 m1) as (rs & h2 & vs2 & m2 & E2 & Hs2 & Hok2); [done..|lia|].
  eexists _, _, vs2, m2. simpl. rewrite E1. step_bind. rewrite E2. step_bind.
  split_and!; eauto with uboot.
Qed.
End Correct.

(** ** A table without callbacks *)

Definition no_hooks : EnvHooks unit := {|
  hk_change_ok := None;
  hk_callback := fun _ _ _ _ _ t => (0, t);
  hk_init := fun _ e => e;
  hk_malloc := fun _ => true
|}.

Lemma no_hooks_ok : @EnvHooksOk unit no_hooks.
Proof. by split. Qed.

Definition no_table : hsearch_data unit := mk_htab None 0 0.

(** ** The properties *)

(** [isprime] decides primality for the odd numbers from 5 on whose square
    root fits 16 bits. *)
Theorem isprime_correct number :
  5 <= number <= 65535 * 65535 -> Z.odd number = true ->
  exists b, isprime number = Some b /\ (b = true <-> prime number).
Proof. apply isprime_total. Qed.

Lemma isprime_correct_witness :
  exists b, isprime 521 = Some b /\ (b = true <-> prime 521).
Proof. apply (isprime_correct 521); [lia|reflexivity]. Defined.



Lemma hcreate_any {C} {hooks : EnvHooks C} {hooks_ok : EnvHooksOk C} nel htab :
  table htab = None -> 2 <= nel <= 1024 ->
  exists htab', hcreate_r nel htab = Some (1, htab') /\ prime (size htab') /\ nel <= size htab' /\
    htab_ok htab' (replicate (Z.to_nat (size htab' + 1)) (0, None, None)) ∅.
Proof.
  intros Ht Hn.
  assert (forallb (fun n => match next_prime (Z.to_nat n + 3) (Z.lor n 1) with
                            | Some p => n <=? p | None => false end) (seqZ 2 1023) = true) as Hall.
  { vm_compute. reflexivity. }
  rewrite forallb_forall in Hall. specialize (Hall nel).
  destruct (next_prime (Z.to_nat nel + 3) (Z.lor nel 1)) as [p|] eqn:Hp.
  2: { discriminate Hall. apply list_elem_of_In, elem_of_seqZ. lia. }
  assert (nel <= p) as Hle.
  { apply Z.leb_le, Hall, list_elem_of_In, elem_of_seqZ. lia. }
  destruct (hcreate_spec nel htab p Ht Hp) as (htab' & -> & <- & Hok & _); [lia|].
  exists htab'. split_and!; [done|apply (h_prime _ _ _ Hok)|done|done].
Qed.



(** ** Divergences *)

Definition run_new (nel : Z) (os : list ht_op) : option (list (option (list Z) + bool)) :=
  '(_, h) ← @hcreate_r unit no_hooks nel no_table;
  '(rs, _) ← @run_hts unit no_hooks h os; Some rs.

(** A table with deleted slots and no unused slot loses entries: entering a
    new name whose first slot is live and whose probe sequence meets no unused
    slot overwrites that live slot, although the table is not full and deleted
    slots are left.  The name stored there can no longer be found. *)
Theorem hsearch_overwrites_live_entry :
  run_new 2
    [HEnter [65] [1] 0; HEnter [66] [2] 0; HEnter [67] [3] 0; HEnter [68] [4] 0; HEnter [69] [5] 0;
     HDelete [66] 0; HFind [65]; HEnter [70] [6] 0; HFind [65]]
  = Some [inr true; inr true; inr true; inr true; inr true; inr true; inl (Some [1]); inr true; inl None].
Proof. vm_compute. reflexivity. Qed.

(** [hmatch_r] stops before the last slot of the table: the name [69] is in
    slot 5 of 5 and is not found. *)
Example hmatch_misses_last_slot :
  (('(_, h) ← @hcreate_r unit no_hooks 2 no_table;
    '(_, h) ← @run_hts unit no_hooks h
      [HEnter [65] [1] 0; HEnter [66] [2] 0; HEnter [68] [4] 0; HEnter [69] [5] 0];
    '(r, _, _) ← @hmatch_r unit [69] 0 h;
    '(r', _, _, _) ← @hsearch_r unit no_hooks [69] None FIND h 0;
    Some (r, r')) = Some (0, 5)).
Proof. vm_compute. reflexivity. Qed.
