(* ===== verification/EnvText.v ===== *)
(** * Exporting and importing the environment ([lib/hashtable.c])

    [hexport_r] writes the variables as "name=value" entries with a separator,
    [himport_r] reads them back.  The regular-expression matcher ([lib/slre.c])
    is a parameter: [slre_compile] says whether a pattern compiles, and
    [slre_match] whether it matches. *)

From S2P Require Import Prelude StringLib Qsort Hashtable.
From Stdlib Require Import Sorted.
Local Open Scope Z_scope.

(** An exported entry: the key and the data of an [ENTRY]. *)
Abbreviation pair_t := (list Z * list Z)%type.

(** ** Export *)

Section ExportModel.
Context {C : Type} {hooks : EnvHooks C}.
Context (slre_compile : list Z -> bool) (slre_match : list Z -> list Z -> bool).

Definition cmpkey (e1 e2 : pair_t) : Z := strcmp (fst e1) (fst e2).

Definition match_string (flag : Z) (str pat : list Z) : bool :=
  let method := Z.land flag H_MATCH_METHOD in
  if method =? H_MATCH_IDENT then strcmp str pat =? 0
  else if method =? H_MATCH_SUBSTR then bool_decide (is_Some (strstr str pat))
  else if method =? H_MATCH_REGEX then slre_match pat str
  else false.

Fixpoint match_entry (ep : pair_t) (flag : Z) (argv : list (list Z)) : bool :=
  match argv with
  | [] => false
  | arg :: argv =>
      if negb (slre_compile arg) then false
      else if negb (Z.land flag H_MATCH_KEY =? 0) && match_string flag (fst ep) arg then true
      else if negb (Z.land flag H_MATCH_DATA =? 0) && match_string flag (snd ep) arg then true
      else match_entry ep flag argv
  end.

(** The room for a value with its escapes. *)
Fixpoint escaped_len (sep : Z) (s : list Z) : Z :=
  match s with
  | [] => 0
  | c :: s => 1 + (if (c =? sep) || (c =? 92) then 1 else 0) + escaped_len sep s
  end.

Definition entry_len (sep : Z) (ep : pair_t) : Z :=
  strlen (fst ep) + (if sep =? 0 then strlen (snd ep) else escaped_len sep (snd ep)) + 2.

(** Pass 1: the entries to export and the total length. *)
Fixpoint export_pass1 (fuel : nat) (i : Z) (htab : hsearch_data C) (sep flag : Z) (argv : list (list Z))
    (lst : list pair_t) (totlen : Z) : option (list pair_t * Z) :=
  match fuel with
  | O => None
  | S fuel =>
      if i <=? size htab then
        s ← get_slot htab i;
        if 0 <? used s then
          k ← key (entry s);
          d ← data (entry s);
          let found := match_entry (k, d) flag argv in
          if negb (Nat.eqb (length argv) 0) && negb found then
            export_pass1 fuel (i + 1) htab sep flag argv lst totlen
          else if negb (Z.land flag H_HIDE_DOT =? 0) && (ch k =? 46) then
            export_pass1 fuel (i + 1) htab sep flag argv lst totlen
          else
            export_pass1 fuel (i + 1) htab sep flag argv (lst ++ [(k, d)])
              (totlen + entry_len sep (k, d))
        else export_pass1 fuel (i + 1) htab sep flag argv lst totlen
      else Some (lst, totlen)
  end.

Definition escape (sep : Z) (s : list Z) : list Z :=
  flat_map (fun c => if (c =? sep) || (c =? 92) then [92; c] else [c]) s.

(** What pass 2 writes for one entry. *)
Definition entry_text (sep : Z) (ep : pair_t) : list Z :=
  fst ep ++ [61] ++ escape sep (snd ep) ++ [sep].

(** Pass 2: writes the entries at [p] and the terminating NUL. *)
Fixpoint export_pass2 (lst : list pair_t) (sep : Z) (res : list Z) (p : Z) : option (list Z) :=
  match lst with
  | [] => aset res p 0
  | ep :: lst =>
      let bytes := entry_text sep ep in
      res ← store_bytes res p bytes;
      export_pass2 lst sep res (p + Z.of_nat (length bytes))
  end.

(** [resp] is the caller's buffer, or [None] for NULL.  Returns the size or -1,
    and the buffer. *)
Definition hexport_r (htab : hsearch_data C) (sep flag : Z) (resp : option (list Z)) (sz : Z)
    (argv : list (list Z)) : option (Z * option (list Z)) :=
  '(lst, totlen) ← export_pass1 (S (Z.to_nat (size htab))) 1 htab sep flag argv [] 0;
  lst ← qsort cmpkey lst;
  if negb (sz =? 0) && (sz <? totlen + 1) then Some (-1, resp)
  else
    let sz := if negb (sz =? 0) then sz else totlen in
    match resp with
    | Some buf =>
        res ← memset buf 0 0 (Z.to_nat sz);
        res ← export_pass2 lst sep res 0;
        Some (sz, Some res)
    | None =>
        if hk_malloc sz then
          res ← export_pass2 lst sep (replicate (Z.to_nat sz) 0) 0;
          Some (sz, Some res)
        else Some (-1, None)
    end.
End ExportModel.

(** ** Import *)

Definition CONFIG_ENV_MIN_ENTRIES : Z := 64.
Definition CONFIG_ENV_MAX_ENTRIES : Z := 512.

(** The local list of variables; [None] is an entry that was handled. *)
Fixpoint drop_all (name : list Z) (vars : list (option (list Z))) : bool * list (option (list Z)) :=
  match vars with
  | [] => (false, [])
  | None :: vars => let '(res, vars') := drop_all name vars in (res, None :: vars')
  | Some v :: vars =>
      let '(res, vars') := drop_all name vars in
      if strcmp name v =? 0 then (true, None :: vars') else (res, Some v :: vars')
  end.

Definition drop_var_from_set (name : list Z) (vars : list (option (list Z)))
    : bool * list (option (list Z)) :=
  if Nat.eqb (length vars) 0 then (true, vars) else drop_all name vars.

(** The text to parse is the list of the bytes from [dp] to the end of [data];
    beyond it a NUL is read, and never more than one. *)

Fixpoint skip_blank (dp : list Z) : list Z :=
  match dp with
  | c :: dp' => if isblank c then skip_blank dp' else dp
  | [] => []
  end.

(** [while ( *dp && !stop( *dp)) ++dp]: the bytes passed and the rest. *)
Fixpoint scan (stop : Z -> bool) (dp : list Z) : list Z * list Z :=
  match dp with
  | [] => ([], [])
  | c :: dp' =>
      if (c =? 0) || stop c then ([], dp)
      else let '(s, rest) := scan stop dp' in (c :: s, rest)
  end.

(** The value, with escapes removed. *)
Fixpoint parse_value (sep : Z) (dp : list Z) : list Z * list Z :=
  match dp with
  | [] => ([], [])
  | c :: dp' =>
      if (c =? 0) || (c =? sep) then ([], dp)
      else
        match dp' with
        | c' :: dp'' =>
            if (c =? 92) && negb (c' =? 0)
            then let '(v, rest) := parse_value sep dp'' in (c' :: v, rest)
            else let '(v, rest) := parse_value sep dp' in (c :: v, rest)
        | [] => ([c], [])
        end
  end.

(** Carriage returns in front of line feeds are removed in place: the bytes
    kept, and how many were dropped, up to the first NUL. *)
Fixpoint strip_crs (dp : list Z) : list Z * Z :=
  match dp with
  | [] => ([], 0)
  | c :: dp' =>
      if c =? 0 then ([], 0)
      else
        let '(kept, n) := strip_crs dp' in
        if (c =? 13) && (ch dp' =? 10) && negb (Nat.eqb (length dp') 0) then (kept, n + 1)
        else (c :: kept, n)
  end.

Section ImportModel.
Context {C : Type} {hooks : EnvHooks C}.

(** One round of the parser: [None] for the error return (an empty name). *)
Definition import_step (dp : list Z) (sep flag : Z) (htab : hsearch_data C)
    (vars : list (option (list Z)))
    : option (option (list Z * hsearch_data C * list (option (list Z)))) :=
  let dp := skip_blank dp in
  if ch dp =? 35 then
    let '(_, rest) := scan (fun c => c =? sep) dp in Some (Some (tl rest, htab, vars))
  else
    let '(name, dp) := scan (fun c => (c =? 61) || (c =? sep)) dp in
    if (ch dp =? 0) || (ch (tl dp) =? 0) || (ch dp =? sep) || (ch (tl dp) =? sep) then
      let dp := if ch dp =? 61 then tl dp else dp in
      let dp := tl dp in
      let '(listed, vars) := drop_var_from_set name vars in
      if negb listed then Some (Some (dp, htab, vars))
      else '(_, _, htab) ← hdelete_r name htab flag; Some (Some (dp, htab, vars))
    else
      let dp := tl dp in
      let '(value, dp) := parse_value sep dp in
      let dp := tl dp in
      if Nat.eqb (length name) 0 then Some None
      else
        let '(listed, vars) := drop_var_from_set name vars in
        if negb listed then Some (Some (dp, htab, vars))
        else '(_, htab) ← hsearch_r name (Some value) ENTER htab flag; Some (Some (dp, htab, vars)).

(** The [do ... while ((dp < data + size) && *dp)] loop; [slack] is the number
    of bytes of [data] from [data + size] on. *)
Fixpoint import_loop (fuel : nat) (dp : list Z) (slack : nat) (sep flag : Z) (htab : hsearch_data C)
    (vars : list (option (list Z))) : option (option (hsearch_data C * list (option (list Z))) * hsearch_data C) :=
  match fuel with
  | O => None
  | S fuel =>
      r ← import_step dp sep flag htab vars;
      match r with
      | None => Some (None, htab)
      | Some (dp, htab, vars) =>
          if (slack <? length dp)%nat && negb (ch dp =? 0)
          then import_loop fuel dp slack sep flag htab vars
          else Some (Some (htab, vars), htab)
      end
  end.

(** The variables of the list that were not in the text are deleted. *)
Fixpoint delete_rest (vars : list (option (list Z))) (flag : Z) (htab : hsearch_data C)
    : option (hsearch_data C) :=
  match vars with
  | [] => Some htab
  | None :: vars => delete_rest vars flag htab
  | Some v :: vars => '(_, _, htab) ← hdelete_r v htab flag; delete_rest vars flag htab
  end.

(** Returns 1 or 0, [errno] and the table. *)
Definition himport_r (htab : hsearch_data C) (env : list Z) (sep flag : Z) (crlf_is_lf : bool)
    (vars : list (list Z)) : option (Z * Z * hsearch_data C) :=
  let sz := length env in
  if negb (hk_malloc (Z.of_nat sz + 1)) then Some (0, ENOMEM, htab)
  else
    let dat := env ++ [0] in
    let localvars := Some <$> vars in
    let clear := (Z.land flag H_NOCLEAR =? 0) && Nat.eqb (length vars) 0 in
    let htab := if clear && bool_decide (is_Some (table htab)) then hdestroy_r htab else htab in
    '(ok, htab) ←
      match table htab with
      | Some _ => Some (1, htab)
      | None =>
          let nent := s32 (CONFIG_ENV_MIN_ENTRIES + Z.of_nat sz / 8) in
          let nent := if CONFIG_ENV_MAX_ENTRIES <? nent then CONFIG_ENV_MAX_ENTRIES else nent in
          hcreate_r (u64 nent) htab
      end;
    if ok =? 0 then Some (0, 0, htab)
    else if Nat.eqb sz 0 then Some (1, 0, htab)
    else
      let '(dat, ignored) :=
        if crlf_is_lf then
          let '(kept, n) := strip_crs env in (kept ++ drop (length kept) dat, n)
        else (dat, 0) in
      '(r, htab) ← import_loop (S (length dat)) dat (S (Z.to_nat ignored)) sep flag htab localvars;
      match r with
      | None => Some (0, EINVAL, htab)
      | Some (htab, localvars) =>
          if negb (Z.land flag H_NOCLEAR =? 0) then Some (1, 0, htab)
          else htab ← delete_rest localvars flag htab; Some (1, 0, htab)
      end.
End ImportModel.

(** ** The exported entries *)

(** The entries of the live slots, in slot order. *)
Definition live_pair (v : vslot) : option pair_t :=
  if 0 <? v_used v then k ← snd (fst v); d ← snd v; Some (k, d) else None.

Definition pairs_of (vs : list vslot) : list pair_t := omap live_pair vs.

Lemma pairs_of_cons v vs :
  pairs_of (v :: vs) = match live_pair v with Some p => p :: pairs_of vs | None => pairs_of vs end.
Proof. done. Qed.

Lemma elem_of_pairs vs k d : (k, d) ∈ pairs_of vs <-> exists i, cell vs i k d.
Proof.
  unfold pairs_of. rewrite list_elem_of_omap. unfold cell. split.
  - intros ([[u k'] d'] & Hin & Hp). apply list_elem_of_lookup in Hin as [i Hi].
    exists (Z.of_nat i), u. rewrite aget_lookup, Hi. unfold live_pair in Hp. simpl in Hp.
    destruct (0 <? u) eqn:E; [|done]. bool_to_prop.
    destruct k', d'; simplify_eq/=. done.
  - intros (i & u & Hi & Hu). exists (u, Some k, Some d). apply aget_Some in Hi as [_ Hi].
    split; [by eapply list_elem_of_lookup_2|]. unfold live_pair. simpl.
    by rewrite (proj2 (Z.ltb_lt _ _) Hu).
Qed.

Lemma pairs_of_keys_NoDup sz vs : tbl_ok sz vs -> NoDup (pairs_of vs).*1.
Proof.
  intros [_ _ _ Hinj].
  assert (forall i j k d d', vs !! i = Some d -> live_pair d = Some (k, d') ->
    forall v d2, vs !! j = Some v -> live_pair v = Some (k, d2) -> i = j) as Huniq.
  { intros i j k v d' Hi Hv w d2 Hj Hw. apply Nat2Z.inj.
    assert (forall i v d, vs !! i = Some v -> live_pair v = Some (k, d) -> cell vs (Z.of_nat i) k d) as Hc.
    { clear. intros i [[u k'] d'] d Hi Hp. unfold live_pair in Hp. simpl in Hp.
      destruct (0 <? u) eqn:E; [|done]. bool_to_prop. destruct k', d'; simplify_eq/=.
      exists u. by rewrite aget_lookup. }
    eapply Hinj; eauto. }
  clear Hinj. unfold pairs_of. induction vs as [|v vs IH]; simpl; [constructor|].
  assert (NoDup (omap live_pair vs).*1) as IH'.
  { apply IH. intros i j k v1 d' Hi Hv w d2 Hj Hw.
    assert (S i = S j) by (eapply Huniq; simpl; eauto). lia. }
  destruct (live_pair v) as [[k d]|] eqn:E; [|done]. simpl. constructor; [|done].
  intros Hin. apply list_elem_of_fmap in Hin as ([k2 d2] & ? & Hin). simplify_eq/=.
  apply list_elem_of_omap in Hin as (w & Hw & Hp). apply list_elem_of_lookup in Hw as [j Hj].
  assert (0 = S j)%nat; [|lia]. eapply (Huniq 0%nat (S j)); simpl; eauto.
Qed.

Lemma stores_pairs sz vs m : tbl_ok sz vs -> stores vs m -> pairs_of vs ≡ₚ map_to_list m.
Proof.
  intros Hok Hst. apply NoDup_Permutation.
  - by eapply NoDup_fmap_1, pairs_of_keys_NoDup.
  - apply NoDup_map_to_list.
  - intros [k d]. by rewrite elem_of_pairs, elem_of_map_to_list, (Hst k d).
Qed.

(** The entries that are exported for [flag] and [argv]. *)
Definition selected slre_compile slre_match (flag : Z) (argv : list (list Z)) (ep : pair_t) : bool :=
  (Nat.eqb (length argv) 0 || match_entry slre_compile slre_match ep flag argv) &&
  ((Z.land flag H_HIDE_DOT =? 0) || negb (ch (fst ep) =? 46)).

Definition total_len (sep : Z) (es : list pair_t) : Z := foldr (fun e n => entry_len sep e + n) 0 es.

Lemma total_len_app sep l1 l2 : total_len sep (l1 ++ l2) = total_len sep l1 + total_len sep l2.
Proof. induction l1 as [|e l1 IH]; simpl; lia. Qed.

Lemma total_len_nonneg sep es : 0 <= total_len sep es.
Proof.
  assert (forall s, 0 <= strlen s) as H1 by (induction s as [|c s IH]; simpl; [lia|case_if; lia]).
  assert (forall s, 0 <= escaped_len sep s) as H2 by (induction s as [|c s IH]; simpl; [lia|case_if; lia]).
  induction es as [|[k d] es IH]; simpl; [lia|]. unfold entry_len. simpl.
  pose proof (H1 k). pose proof (H1 d). pose proof (H2 d). case_if; lia.
Qed.

Section ExportOk.
Context {C : Type} {hooks : EnvHooks C}.
Context (slre_compile : list Z -> bool) (slre_match : list Z -> list Z -> bool).
Let sel := selected slre_compile slre_match.

Lemma export_pass1_spec fuel : forall (htab : hsearch_data C) vs m (i : nat) sep flag argv lst tot,
  htab_ok htab vs m -> Z.of_nat i <= size htab + 1 -> size htab + 1 - Z.of_nat i < Z.of_nat fuel ->
  let es := List.filter (sel flag argv) (pairs_of (drop i vs)) in
  export_pass1 slre_compile slre_match fuel (Z.of_nat i) htab sep flag argv lst tot =
  Some (lst ++ es, tot + total_len sep es).
Proof.
  induction fuel as [|fuel IH]; intros htab vs m i sep flag argv lst tot Hok Hi Hf; [lia|].
  pose proof (ok_len _ _ (h_tbl _ _ _ Hok)) as Hl.
  unfold export_pass1; fold (@export_pass1 C slre_compile slre_match).
  case_if.
  2: { rewrite drop_ge by lia. simpl. by rewrite app_nil_r, Z.add_0_r. }
  destruct (lookup_lt_is_Some_2 vs i) as [v Hv]; [lia|].
  rewrite (drop_S _ _ _ Hv). rewrite pairs_of_cons.
  rewrite <- aget_lookup in Hv.
  destruct (get_slot_view _ _ _ _ (h_view _ _ _ Hok) Hv) as (s & -> & <-). step_bind.
  replace (Z.of_nat i + 1) with (Z.of_nat (S i)) by lia.
  unfold live_pair; cbn [view fst snd].
  destruct (ok_slot _ _ (h_tbl _ _ _ Hok) _ _ _ _ Hv) as [Hu|[Hu|(k & d & n & Hk & Hd & _ & Hu & _)]].
  1,2: rewrite Hu; cbn [Z.ltb Z.compare]; apply (IH htab vs m); [done|lia..].
  rewrite Hk, Hd, Hu. pose proof (hash1_range _ (h_size _ _ _ Hok) k) as Hh.
  rewrite (proj2 (Z.ltb_lt _ _)) by lia. rewrite !mbind_Some. cbn [List.filter].
  replace (sel flag argv (k, d)) with (selected slre_compile slre_match flag argv (k, d)) by done.
  unfold selected. cbn [fst].
  rewrite !(IH htab vs m) by (done || lia).
  generalize (List.filter (sel flag argv) (pairs_of (drop (S i) vs))). intros es.
  destruct (Nat.eqb (length argv) 0), (match_entry slre_compile slre_match (k, d) flag argv),
    (Z.land flag H_HIDE_DOT =? 0), (ch k =? 46); simpl;
    rewrite <- ?app_assoc; simpl; first [done|do 2 f_equal; lia].
Qed.
End ExportOk.

(** *** Length and layout of the text *)

Definition export_text (sep : Z) (es : list pair_t) : list Z := concat (entry_text sep <$> es).

Lemma export_text_cons sep e es : export_text sep (e :: es) = entry_text sep e ++ export_text sep es.
Proof. done. Qed.

(** An entry whose text has the length that pass 1 computed: with a NUL
    separator the value must have no backslash. *)
Definition counted (sep : Z) (ep : pair_t) : Prop :=
  cstring (fst ep) /\ cstring (snd ep) /\ (sep = 0 -> 92 ∉ snd ep).

Lemma escape_length sep d :
  cstring d -> (sep = 0 -> 92 ∉ d) ->
  Z.of_nat (length (escape sep d)) = if sep =? 0 then strlen d else escaped_len sep d.
Proof.
  intros Hd Hb. induction Hd as [|c d Hc Hd IH]; [by destruct (sep =? 0)|].
  assert (sep = 0 -> 92 ∉ d) as Hb' by (intros ->; set_solver).
  specialize (IH Hb'). simpl. rewrite length_app, Nat2Z.inj_add.
  rewrite (proj2 (Z.eqb_neq c 0)) by lia. rewrite IH.
  destruct (sep =? 0) eqn:E; bool_to_prop.
  - subst. assert (c <> 92) by (intros ->; apply Hb; [done|by left]).
    case_if; [lia|]. simpl. lia.
  - case_if; simpl; lia.
Qed.

Lemma entry_text_length sep ep :
  counted sep ep -> Z.of_nat (length (entry_text sep ep)) = entry_len sep ep.
Proof.
  intros (Hk & Hd & Hb). unfold entry_text, entry_len.
  rewrite !length_app, !Nat2Z.inj_add, escape_length, (strlen_cstring (fst ep)) by done. simpl. lia.
Qed.

Lemma export_text_length sep es :
  Forall (counted sep) es -> Z.of_nat (length (export_text sep es)) = total_len sep es.
Proof.
  induction 1 as [|e es He _ IH]; [done|]. rewrite export_text_cons. simpl.
  rewrite length_app, Nat2Z.inj_add, IH, entry_text_length by done. lia.
Qed.

Lemma export_pass2_blit sep es : forall res (p : nat),
  (p + length (export_text sep es) < length res)%nat ->
  export_pass2 es sep res (Z.of_nat p) = Some (blit res p (export_text sep es ++ [0])).
Proof.
  induction es as [|e es IH]; intros res p Hp; cbn [export_pass2].
  - simpl in Hp. rewrite aset_nat by lia. f_equal. change (export_text sep [] ++ [0]) with [0].
    by rewrite <- blit_cons, blit_nil by (simpl; lia).
  - rewrite export_text_cons, length_app in *. rewrite store_bytes_blit by lia. step_bind.
    rewrite <- Nat2Z.inj_add, IH by (rewrite length_blit; lia).
    f_equal. by rewrite <- app_assoc, blit_app by (rewrite ?length_app; simpl; lia).
Qed.

(** *** [strcmp] orders ASCII strings *)

Definition ascii (s : list Z) : Prop := Forall (fun c => 0 < c < 128) s.

Lemma ascii_cstring s : ascii s -> cstring s.
Proof. intros H. eapply Forall_impl; [exact H|]. simpl. lia. Qed.

(** The difference of the first characters that differ. *)
Fixpoint lexdiff (s t : list Z) : Z :=
  match s, t with
  | [], _ => - ch t
  | _, [] => ch s
  | c :: s', d :: t' => if c =? d then lexdiff s' t' else c - d
  end.

Lemma strcmp_lexdiff s : forall t, ascii s -> ascii t -> strcmp s t = lexdiff s t.
Proof.
  assert (forall x, -128 <= x < 128 -> swrap 8 x = x) as Hw by (intros; apply swrap_small; simpl; lia).
  induction s as [|c s IH]; intros t Hs Ht; simpl.
  - destruct t as [|d t]; [done|]. inversion Ht; subst. simpl. rewrite Hw; lia.
  - inversion Hs; subst. destruct t as [|d t]; simpl.
    + rewrite Hw by lia. rewrite Z.sub_0_r. case_if; [done|]. lia.
    + inversion Ht; subst. rewrite Hw by lia. destruct (Z.eqb_spec c d) as [->|].
      * rewrite Z.sub_diag. simpl. rewrite (proj2 (Z.eqb_neq d 0)) by lia. by apply IH.
      * rewrite (proj2 (Z.eqb_neq (c - d) 0)) by lia. done.
Qed.

Lemma lexdiff_opp s : forall t, lexdiff t s = - lexdiff s t.
Proof.
  induction s as [|c s IH]; intros [|d t]; simpl; try lia.
  rewrite (Z.eqb_sym d c). case_if; [apply IH|lia].
Qed.

Lemma lexdiff_trans s : forall t u, ascii s -> ascii t -> ascii u ->
  lexdiff s t <= 0 -> lexdiff t u <= 0 -> lexdiff s u <= 0.
Proof.
  induction s as [|c s IH]; intros [|d t] [|e u] Hs Ht Hu; simpl; try lia;
    repeat match goal with H : ascii (_ :: _) |- _ => inversion H; clear H; subst end; try lia.
  destruct (Z.eqb_spec c d), (Z.eqb_spec d e), (Z.eqb_spec c e); subst; try lia.
  intros; by eapply (IH t u).
Qed.

(** *** The result of an export *)

Lemma filter_perm (f : pair_t -> bool) l1 l2 : l1 ≡ₚ l2 -> List.filter f l1 ≡ₚ List.filter f l2.
Proof.
  induction 1; simpl; [done|by case_if; [constructor|]| |by etrans].
  repeat case_if; by try constructor.
Qed.

Section ExportCorrect.
Context {C : Type} {hooks : EnvHooks C}.
Context (slre_compile : list Z -> bool) (slre_match : list Z -> list Z -> bool).

Lemma hexport_sorted (htab : hsearch_data C) vs m sep flag argv :
  htab_ok htab vs m -> (forall k d, m !! k = Some d -> ascii k) ->
  exists es lst,
    export_pass1 slre_compile slre_match (S (Z.to_nat (size htab))) 1 htab sep flag argv [] 0
      = Some (lst, total_len sep es) /\
    qsort cmpkey lst = Some es /\
    es ≡ₚ List.filter (selected slre_compile slre_match flag argv) (map_to_list m) /\
    StronglySorted (fun a b => strcmp (fst a) (fst b) <= 0) es.
Proof.
  intros Hok Hasc. pose proof (h_size _ _ _ Hok) as Hsz.
  pose proof (ok_len _ _ (h_tbl _ _ _ Hok)) as Hl.
  set (sel := selected slre_compile slre_match flag argv).
  assert (pairs_of (drop 1 vs) = pairs_of vs) as Hdrop.
  { destruct (ok_zero _ _ (h_tbl _ _ _ Hok)) as (k0 & d0 & H0). destruct vs as [|v vs]; [done|].
    injection H0 as ->. done. }
  pose proof (export_pass1_spec slre_compile slre_match (S (Z.to_nat (size htab))) htab vs m 1
    sep flag argv [] 0 Hok) as Hp1.
  specialize (Hp1 ltac:(lia) ltac:(lia)). rewrite Hdrop in Hp1. fold sel in Hp1.
  assert (List.filter sel (pairs_of vs) ≡ₚ List.filter sel (map_to_list m)) as Hperm.
  { apply filter_perm. apply (stores_pairs (size htab)); apply Hok. }
  destruct (qsort_sorts cmpkey (fun e => ascii (fst e))) with (base := List.filter sel (pairs_of vs))
    as (es & Hq & Hpq & Hs).
  - unfold cmpkey. intros [a ?] [b ?] Ha Hb. simpl in *. rewrite !strcmp_lexdiff by done.
    rewrite (lexdiff_opp a b). lia.
  - unfold cmpkey. intros [a ?] [b ?] [c ?] Ha Hb Hc. simpl in *. rewrite !strcmp_lexdiff by done.
    by apply lexdiff_trans.
  - apply Forall_forall. intros [k d] Hin. apply list_elem_of_In, filter_In in Hin as [Hin _].
    apply list_elem_of_In, elem_of_pairs, (h_stores _ _ _ Hok) in Hin. by eapply Hasc.
  - exists es, (List.filter sel (pairs_of vs)). split_and!; [|done|by rewrite Hpq|done].
    assert (total_len sep (List.filter sel (pairs_of vs)) = total_len sep es) as Htl.
    { clear -Hpq. induction Hpq; simpl; lia. }
    rewrite <- Htl. exact Hp1.
Qed.
End ExportCorrect.

(** A text with its NUL padding over a cleared buffer. *)
Lemma blit_padded text n :
  (length text < n)%nat ->
  blit (replicate n 0) 0 (text ++ [0]) = text ++ replicate (n - length text) 0.
Proof.
  intros Hl. unfold blit. rewrite take_0, app_nil_l, Nat.add_0_l, drop_replicate, length_app. simpl.
  rewrite <- app_assoc. f_equal. replace (n - length text)%nat with (S (n - (length text + 1))) by lia.
  done.
Qed.

Lemma blit_over text buf n :
  (length text < n <= length buf)%nat ->
  blit (blit buf 0 (replicate n 0)) 0 (text ++ [0]) =
  (text ++ replicate (n - length text) 0) ++ drop n buf.
Proof.
  intros Hl. unfold blit.
  rewrite !take_0, !app_nil_l, !Nat.add_0_l, length_replicate, length_app. simpl.
  rewrite drop_app_le, drop_replicate by (rewrite length_replicate; lia).
  replace (n - length text)%nat with (S (n - (length text + 1))) by lia.
  by rewrite <- !app_assoc.
Qed.

(** What the caller's buffer holds beyond the size it gave. *)
Definition buffer_tail (resp : option (list Z)) (n : nat) : list Z :=
  match resp with Some buf => drop n buf | None => [] end.

Lemma hexport_sized {C} {hooks : EnvHooks C} {hooks_ok : EnvHooksOk C} slre_compile slre_match
    (htab : hsearch_data C) vs m sep flag resp (n : nat) argv :
  htab_ok htab vs m -> (forall k d, m !! k = Some d -> ascii k /\ counted sep (k, d)) ->
  (0 < n)%nat -> (forall buf, resp = Some buf -> n <= length buf)%nat ->
  exists es,
    es ≡ₚ List.filter (selected slre_compile slre_match flag argv) (map_to_list m) /\
    StronglySorted (fun a b => strcmp (fst a) (fst b) <= 0) es /\
    let text := export_text sep es in
    hexport_r slre_compile slre_match htab sep flag resp (Z.of_nat n) argv =
    if (length text <? n)%nat
    then Some (Z.of_nat n, Some ((text ++ replicate (n - length text) 0) ++ buffer_tail resp n))
    else Some (-1, resp).
Proof.
  intros Hok Hm Hn Hbuf.
  destruct (hexport_sorted slre_compile slre_match htab vs m sep flag argv Hok)
    as (es & lst & Hp1 & Hq & Hperm & Hs); [intros k d Hk; by apply (Hm k d)|].
  exists es. split_and!; [done..|]. cbv zeta.
  assert (Z.of_nat (length (export_text sep es)) = total_len sep es) as Hlen.
  { apply export_text_length. rewrite Hperm. apply Forall_forall. intros [k d] Hin.
    apply list_elem_of_In, filter_In in Hin as [Hin _].
    apply list_elem_of_In, elem_of_map_to_list in Hin. by apply (Hm k d). }
  unfold hexport_r. rewrite Hp1. step_bind. rewrite Hq. step_bind.
  rewrite (proj2 (Z.eqb_neq (Z.of_nat n) 0)) by lia. cbn [negb andb].
  destruct (Nat.ltb_spec (length (export_text sep es)) n).
  2: { by rewrite (proj2 (Z.ltb_lt _ _)) by lia. }
  rewrite (proj2 (Z.ltb_ge _ _)) by lia. rewrite Nat2Z.id. change 0 with (Z.of_nat 0).
  destruct resp as [buf|]; unfold buffer_tail.
  - specialize (Hbuf buf eq_refl). rewrite memset_blit by lia. step_bind.
    change (u8 (Z.of_nat 0)) with 0.
    rewrite export_pass2_blit by (rewrite length_blit; rewrite ?length_replicate; lia). step_bind.
    by rewrite blit_over by lia.
  - rewrite hk_malloc_ok. rewrite export_pass2_blit by (rewrite length_replicate; lia). step_bind.
    change (Z.of_nat 0) with 0. by rewrite blit_padded, app_nil_r by lia.
Qed.

(** ** Parsing an exported text *)

(** An entry that survives an export and an import. *)
Record importable (sep : Z) (ep : pair_t) : Prop := {
  im_key : cstring (fst ep);
  im_data : cstring (snd ep);
  im_key_chars : Forall (fun c => c <> 61 /\ c <> sep) (fst ep);
  im_key_first : exists c k, fst ep = c :: k /\ isblank c = false /\ c <> 35;
  im_data_some : snd ep <> []
}.

(** The separators that the code is used with. *)
Definition sep_ok (sep : Z) : Prop := sep = 0 \/ sep = 10.

Lemma scan_app stop s rest :
  Forall (fun c => c <> 0 /\ stop c = false) s -> stop (ch rest) = true -> 
  scan stop (s ++ rest) = (s, rest).
Proof.
  induction 1 as [|c s [Hc0 Hc] _ IH]; intros Hr; simpl.
  - destruct rest as [|c rest]; [done|]. simpl in *. by rewrite Hr, orb_true_r.
  - rewrite (proj2 (Z.eqb_neq _ _) Hc0), Hc. simpl. by rewrite IH.
Qed.

Lemma parse_value_escape sep d rest :
  sep_ok sep -> cstring d -> parse_value sep (escape sep d ++ sep :: rest) = (d, sep :: rest).
Proof.
  intros Hsep. induction 1 as [|c d Hc Hd IH]; simpl.
  - by rewrite Z.eqb_refl, orb_true_r.
  - destruct (Z.eqb_spec c sep) as [->|Hcs]; [|destruct (Z.eqb_spec c 92) as [->|Hc92]]; simpl.
    1,2: destruct Hsep as [-> | ->]; [lia || by rewrite IH|simpl; by rewrite IH].
    rewrite (proj2 (Z.eqb_neq c 0)), (proj2 (Z.eqb_neq c sep) Hcs), (proj2 (Z.eqb_neq c 92) Hc92) by lia.
    simpl. rewrite IH. destruct (escape sep d ++ sep :: rest) as [|x l] eqn:E; [|done].
    by destruct (escape sep d).
Qed.

Lemma escape_first sep d : sep_ok sep -> cstring d -> d <> [] ->
  forall rest, ch (escape sep d ++ rest) <> 0 /\ ch (escape sep d ++ rest) <> sep.
Proof.
  intros Hsep Hd Hne rest. destruct Hd as [|c d Hc Hd]; [done|]. simpl.
  destruct (Z.eqb_spec c sep); [|destruct (Z.eqb_spec c 92)]; simpl; destruct Hsep; lia.
Qed.

Section ImportOk.
Context {C : Type} {hooks : EnvHooks C} {hooks_ok : EnvHooksOk C}.

Lemma import_step_entry sep flag (htab : hsearch_data C) k d rest :
  sep_ok sep -> importable sep (k, d) ->
  import_step (entry_text sep (k, d) ++ rest) sep flag htab [] =
  ('(_, htab) ← hsearch_r k (Some d) ENTER htab flag; Some (Some (rest, htab, []))).
Proof.
  intros Hsep [Hk Hd Hchars (c & k' & Ek & Hblank & H35) Hne]. simpl in *.
  unfold import_step, entry_text. simpl fst; simpl snd.
  replace ((k ++ [61] ++ escape sep d ++ [sep]) ++ rest) with (k ++ 61 :: (escape sep d ++ sep :: rest)).
  2: { by rewrite <- !app_assoc. }
  assert (skip_blank (k ++ 61 :: escape sep d ++ sep :: rest) = k ++ 61 :: escape sep d ++ sep :: rest) as ->.
  { rewrite Ek. simpl. by rewrite Hblank. }
  replace (ch (k ++ 61 :: escape sep d ++ sep :: rest)) with c by (by rewrite Ek).
  rewrite (proj2 (Z.eqb_neq _ _) H35).
  rewrite scan_app; [|..|done].
  2: { unfold cstring in Hk. rewrite Forall_forall in *. intros x Hx. specialize (Hchars x Hx). specialize (Hk x Hx).
       simpl in *. rewrite orb_false_iff, !Z.eqb_neq. lia. }
  cbn [ch hd tl]. destruct (escape_first sep d Hsep Hd Hne (sep :: rest)) as [H0 Hs].
  rewrite (proj2 (Z.eqb_neq _ _) H0), (proj2 (Z.eqb_neq _ _) Hs).
  rewrite (proj2 (Z.eqb_neq 61 sep)) by (destruct Hsep; lia). simpl orb. cbv iota.
  rewrite parse_value_escape by done. cbn [tl]. by rewrite Ek.
Qed.

(** Entering the entries one after the other. *)
Definition enter_all (m : gmap (list Z) (list Z)) (es : list pair_t) : gmap (list Z) (list Z) :=
  foldl (fun m e => <[fst e := snd e]> m) m es.

(** Nothing is refused. *)
Definition permissive (flag : Z) : Prop := forall k v op, ~ vetoed (C := C) k v op flag.

Lemma import_loop_entries sep flag es : forall e fuel (htab : hsearch_data C) vs m rest,
  permissive flag -> sep_ok sep -> Forall (importable sep) (e :: es) ->
  htab_ok htab vs m -> nused vs + Z.of_nat (length (e :: es)) <= size htab ->
  (length es < fuel)%nat -> ch rest = 0 -> rest <> [] ->
  exists htab' vs',
    import_loop fuel (export_text sep (e :: es) ++ rest) 1 sep flag htab [] =
      Some (Some (htab', []), htab') /\
    htab_ok htab' vs' (enter_all m (e :: es)).
Proof.
  induction es as [|e' es IH]; intros [k d] fuel htab vs m rest Hperm Hsep Him Hok Hroom Hf Hch Hrest;
    (destruct fuel as [|fuel]; [simpl in Hf; lia|]);
    unfold import_loop; fold (@import_loop C hooks);
    rewrite export_text_cons, <- app_assoc;
    inversion Him as [|? ? Him1 Him2]; subst;
    rewrite import_step_entry by done;
    (destruct (hsearch_enter htab vs m k d flag Hok) as (r & p & err & h1 & vs1 & -> & Hnu & Hsz & Hcase);
      [apply Him1|simpl in Hroom; lia|]); rewrite !mbind_Some;
    (destruct Hcase as [(_ & _ & Hok1 & _)|(_ & _ & _ & Hv)]; [|by apply Hperm in Hv]).
  - change (export_text sep [] ++ rest) with rest. rewrite Hch, andb_false_r.
    eexists _, vs1. split; [done|]. exact Hok1.
  - assert (1 < length (export_text sep (e' :: es) ++ rest))%nat as Hlen.
    { rewrite export_text_cons, !length_app. unfold entry_text. rewrite !length_app. simpl.
      destruct rest; [done|]. simpl. lia. }
    rewrite (proj2 (Nat.ltb_lt _ _) Hlen).
    assert (ch (export_text sep (e' :: es) ++ rest) <> 0) as Hne.
    { inversion Him2 as [|? ? Him3 _]; subst. destruct Him3 as [Hk _ _ (c & k1 & Ek & _) _].
      rewrite export_text_cons. unfold entry_text. rewrite Ek. simpl.
      rewrite Ek in Hk. inversion Hk; subst. lia. }
    rewrite (proj2 (Z.eqb_neq _ _) Hne). cbn [andb negb].
    destruct (IH e' fuel h1 vs1 (<[k:=d]> m) rest) as (h2 & vs2 & -> & Hok2);
      try done; [simpl in *; lia..|].
    by eexists _, vs2.
Qed.
End ImportOk.

(** ** Import of a whole text *)

Lemma enter_all_union es : forall m,
  enter_all m es = (list_to_map (reverse es) : gmap (list Z) (list Z)) ∪ m.
Proof.
  induction es as [|[k d] es IH]; intros m.
  - by rewrite reverse_nil, list_to_map_nil, map_empty_union.
  - unfold enter_all in *. simpl foldl. rewrite IH, reverse_cons, list_to_map_app, <- map_union_assoc.
    f_equal. rewrite list_to_map_cons, list_to_map_nil, insert_empty. apply insert_union_singleton_l.
Qed.

Lemma enter_all_map es m :
  es ≡ₚ map_to_list m -> enter_all ∅ es = m.
Proof.
  intros Hp. rewrite enter_all_union, map_union_empty.
  rewrite <- (list_to_map_to_list m). apply list_to_map_proper.
  - rewrite reverse_Permutation, Hp. apply NoDup_fst_map_to_list.
  - by rewrite reverse_Permutation.
Qed.

(** The number of entries that [himport_r] makes room for. *)
Definition import_room (n : nat) : Z :=
  Z.min (CONFIG_ENV_MIN_ENTRIES + Z.of_nat n / 8) CONFIG_ENV_MAX_ENTRIES.

Section ImportText.
Context {C : Type} {hooks : EnvHooks C} {hooks_ok : EnvHooksOk C}.

Lemma himport_text (htab : hsearch_data C) sep flag es pad :
  permissive (C := C) flag -> sep_ok sep -> Z.land flag H_NOCLEAR = 0 ->
  Forall (importable sep) es -> es <> [] ->
  let env := export_text sep es ++ replicate pad 0 in
  Z.of_nat (length env) < 2 ^ 31 -> Z.of_nat (length es) <= import_room (length env) ->
  exists htab' vs', himport_r htab env sep flag false [] = Some (1, 0, htab') /\
    htab_ok htab' vs' (enter_all ∅ es).
Proof.
  intros Hperm Hsep Hflag Him Hne env Hlen Hroom. unfold himport_r.
  rewrite hk_malloc_ok, Hflag. cbn [negb andb Z.eqb length Nat.eqb].
  set (h0 := if bool_decide (is_Some (table htab)) then hdestroy_r htab else htab).
  assert (table h0 = None) as Hh0.
  { unfold h0. case_bool_decide as Hs; [done|]. destruct (table htab); [|done]. exfalso. by apply Hs. }
  rewrite Hh0. unfold import_room, CONFIG_ENV_MIN_ENTRIES, CONFIG_ENV_MAX_ENTRIES in *.
  pose proof (Z.div_pos (Z.of_nat (length env)) 8) as Hd1.
  pose proof (Z.div_lt_upper_bound (Z.of_nat (length env)) 8 (2 ^ 28)) as Hd2.
  rewrite (swrap_small 32 (64 + _)) by lia.
  set (nent := if 512 <? 64 + Z.of_nat (length env) / 8 then 512 else 64 + Z.of_nat (length env) / 8).
  assert (nent = Z.min (64 + Z.of_nat (length env) / 8) 512) as Hnent by (unfold nent; case_if; lia).
  rewrite (wrap_small 64 nent) by lia.
  destruct (hcreate_any nent h0 Hh0) as (h1 & -> & _ & Hsz & Hok); [lia|]. step_bind.
  cbn [Z.eqb]. destruct es as [|e es]; [done|].
  assert (length env <> 0)%nat as Henv.
  { unfold env. rewrite export_text_cons. unfold entry_text. rewrite !length_app. simpl. lia. }
  rewrite (proj2 (Nat.eqb_neq _ _) Henv).
  replace (env ++ [0]) with (export_text sep (e :: es) ++ replicate (S pad) 0)
    by (unfold env; rewrite <- app_assoc; by rewrite <- replicate_cons_app).
  destruct (empty_table_ok (size h1)) as (_ & _ & _ & Hnu); [apply Hok|].
  change (S (Z.to_nat 0)) with 1%nat. change (Some <$> ([] : list (list Z))) with (@nil (option (list Z))).
  destruct (import_loop_entries sep flag es e
    (S (length (export_text sep (e :: es) ++ replicate (S pad) 0))) h1 _ ∅ (replicate (S pad) 0)
    Hperm Hsep Him Hok) as (h2 & vs2 & -> & Hok2); [lia| |done|done|].
  { rewrite length_app. enough (length (e :: es) <= length (export_text sep (e :: es)))%nat by (simpl in *; lia).
    clear. induction (e :: es) as [|x l IH]; [done|]. rewrite export_text_cons, length_app.
    unfold entry_text. rewrite !length_app. simpl. lia. }
  step_bind. simpl delete_rest. rewrite mbind_Some. by eexists _, vs2.
Qed.
End ImportText.

(** ** Correctness *)

(** [hexport_r] with a buffer size writes the selected variables, sorted by
    name, each as name, "=", value with the separator and backslashes escaped,
    and separator, pads with NULs up to the size and touches nothing beyond; it
    returns -1 and writes nothing when the text and its NUL do not fit.  The
    values must have no backslash when the separator is NUL. *)
Theorem hexport_correct {C} {hooks : EnvHooks C} {hooks_ok : EnvHooksOk C} slre_compile slre_match
    (htab : hsearch_data C) vs m sep flag resp (n : nat) argv :
  htab_ok htab vs m -> (forall k d, m !! k = Some d -> ascii k /\ counted sep (k, d)) ->
  (0 < n)%nat -> (forall buf, resp = Some buf -> n <= length buf)%nat ->
  exists es,
    es ≡ₚ List.filter (selected slre_compile slre_match flag argv) (map_to_list m) /\
    StronglySorted (fun a b => strcmp (fst a) (fst b) <= 0) es /\
    let text := export_text sep es in
    hexport_r slre_compile slre_match htab sep flag resp (Z.of_nat n) argv =
    if (length text <? n)%nat
    then Some (Z.of_nat n, Some ((text ++ replicate (n - length text) 0) ++ buffer_tail resp n))
    else Some (-1, resp).
Proof. apply hexport_sized. Qed.

(** The text of importable entries is made of bytes. *)
Lemma export_text_bytes sep es : sep_ok sep -> Forall (importable sep) es -> Forall byte_ok (export_text sep es).
Proof.
  intros Hsep. assert (byte_ok sep) as Hs by (destruct Hsep as [-> | ->]; unfold byte_ok; lia).
  induction 1 as [|[k d] es Him Hes IH]; [constructor|]. rewrite export_text_cons. apply Forall_app. split; [|done].
  unfold entry_text. cbn [fst snd].
  assert (forall l, cstring l -> Forall byte_ok l) as Hc by (intros l Hl; eapply Forall_impl; [exact Hl|]; intros c; unfold byte_ok; simpl; lia).
  rewrite !Forall_app, !Forall_singleton. split_and!; [apply Hc, Him|unfold byte_ok; lia| |done].
  assert (Forall byte_ok d) as Hd by apply Hc, Him. unfold escape. clear -Hd.
  induction Hd as [|c d Hc Hd IH]; [constructor|]. cbn [flat_map]. apply Forall_app. split; [|done].
  case_if; repeat constructor; unfold byte_ok in *; lia.
Qed.

(** The text of all variables of a table. *)
Lemma hexport_all {C} {hooks : EnvHooks C} {hooks_ok : EnvHooksOk C}
    slre_compile slre_match (htab : hsearch_data C) vs m sep resp (n : nat) :
  htab_ok htab vs m -> (forall k d, m !! k = Some d -> importable sep (k, d) /\ ascii k /\ counted sep (k, d)) ->
  total_len sep (map_to_list m) < Z.of_nat n -> (forall buf, resp = Some buf -> length buf = n) ->
  exists es, es ≡ₚ map_to_list m /\ Forall (fun e => importable sep e /\ counted sep e) es /\
    (length (export_text sep es) < n)%nat /\
    hexport_r slre_compile slre_match htab sep 0 resp (Z.of_nat n) [] =
    Some (Z.of_nat n, Some (export_text sep es ++ replicate (n - length (export_text sep es)) 0)).
Proof.
  intros Hok Him Hn Hresp. pose proof (total_len_nonneg sep (map_to_list m)).
  destruct (hexport_sized slre_compile slre_match htab vs m sep 0 resp n [] Hok)
    as (es & Hes & _ & Hex); [intros k d Hk; by apply Him|lia|intros buf Hb; by rewrite (Hresp buf Hb)|].
  replace (List.filter (selected slre_compile slre_match 0 []) (map_to_list m)) with (map_to_list m) in Hes.
  2: { clear. induction (map_to_list m) as [|e l IH]; [done|]. simpl. by rewrite <- IH. }
  assert (total_len sep es = total_len sep (map_to_list m)) as Htl by (clear -Hes; induction Hes; simpl; lia).
  assert (Forall (fun e => importable sep e /\ counted sep e) es) as Hall.
  { rewrite Hes. apply Forall_forall. intros [k d] Hin. apply elem_of_map_to_list in Hin.
    by apply Him in Hin as (? & _ & ?). }
  assert (Z.of_nat (length (export_text sep es)) = total_len sep es) as Hlen.
  { apply export_text_length. eapply Forall_impl; [exact Hall|]. by intros x [_ ?]. }
  exists es. split_and!; [done|done|lia|]. cbv zeta in Hex. rewrite (proj2 (Nat.ltb_lt _ _)) in Hex by lia.
  assert (buffer_tail resp n = []) as Htail.
  { unfold buffer_tail. destruct resp as [buf|]; [|done]. apply drop_ge. by rewrite (Hresp buf eq_refl). }
  by rewrite Htail, app_nil_r in Hex.
Qed.

(** Export followed by import, with or without a buffer of the caller. *)
Lemma export_import {C} {hooks : EnvHooks C} {hooks_ok : EnvHooksOk C}
    slre_compile slre_match (htab : hsearch_data C) vs m sep flag resp (n : nat) :
  permissive (C := C) flag -> sep_ok sep -> Z.land flag H_NOCLEAR = 0 -> htab_ok htab vs m -> m <> ∅ ->
  (forall k d, m !! k = Some d -> importable sep (k, d) /\ ascii k /\ counted sep (k, d)) ->
  total_len sep (map_to_list m) < Z.of_nat n < 2 ^ 31 -> Z.of_nat (map_size m) <= import_room n ->
  (forall buf, resp = Some buf -> length buf = n) ->
  exists buf, hexport_r slre_compile slre_match htab sep 0 resp (Z.of_nat n) [] = Some (Z.of_nat n, Some buf) /\
    length buf = n /\ Forall byte_ok buf /\
    forall other, exists htab' vs', himport_r other buf sep flag false [] = Some (1, 0, htab') /\ htab_ok htab' vs' m.
Proof.
  intros Hperm Hsep Hflag Hok Hm0 Him Hn Hroom Hresp.
  destruct (hexport_all slre_compile slre_match htab vs m sep resp n) as (es & Hes & Hall & Hlt & Hex); [done|done|lia|done|].
  assert (length (export_text sep es ++ replicate (n - length (export_text sep es)) 0) = n) as Hbuf
    by (rewrite length_app, length_replicate; lia).
  assert (Forall (importable sep) es) as Hall1 by (eapply Forall_impl; [exact Hall|]; by intros x [? _]).
  eexists. split_and!; [exact Hex|done| |].
  { apply Forall_app. split; [by apply export_text_bytes|]. apply Forall_replicate. unfold byte_ok. lia. }
  intros o. destruct (himport_text o sep flag es (n - length (export_text sep es)) Hperm Hsep Hflag)
    as (htab' & vs' & Himp & Hok').
  - exact Hall1.
  - intros ->. apply Hm0. apply map_to_list_empty_iff. by apply Permutation_nil.
  - rewrite Hbuf. lia.
  - rewrite Hbuf. rewrite (Permutation_length Hes), length_map_to_list. done.
  - exists htab', vs'. split; [exact Himp|]. by rewrite (enter_all_map es m Hes) in Hok'.
Qed.


(** A table with the single variable A=B. *)
Definition one_var : gmap (list Z) (list Z) := {[ [65] := [66] ]}.

Lemma no_hooks_permissive flag : @permissive unit no_hooks flag.
Proof. intros k v op [(e & _ & He)|(c & t & Hc)]; [discriminate He|by apply Hc]. Qed.

Lemma one_var_table : exists htab vs, @htab_ok unit htab vs one_var.
Proof.
  destruct (@hcreate_any unit no_hooks no_hooks_ok 64 no_table) as (h & _ & _ & Hsz & Hok); [done|lia|].
  destruct (empty_table_ok (size h)) as (_ & _ & _ & Hnu); [apply Hok|].
  destruct (@hsearch_enter unit no_hooks no_hooks_ok h _ ∅ [65] [66] 0 Hok)
    as (r & p & err & h' & vs' & _ & _ & _ & Hc); [by repeat constructor|lia|].
  destruct Hc as [(_ & _ & Hok' & _)|(_ & _ & _ & Hv)]; [|by apply no_hooks_permissive in Hv].
  exists h', vs'. by rewrite insert_empty in Hok'.
Qed.

Lemma one_var_entry sep : sep_ok sep ->
  forall k d, one_var !! k = Some d -> importable sep (k, d) /\ ascii k /\ counted sep (k, d).
Proof.
  intros Hsep k d Hk. unfold one_var in Hk. apply lookup_singleton_Some in Hk as [<- <-].
  split_and!; [split; simpl|by repeat constructor|split_and!; simpl].
  all: try (by repeat constructor).
  - repeat constructor; destruct Hsep; lia.
  - by exists 65, [].
  - set_solver.
Qed.

Lemma hexport_correct_witness :
  exists htab vs es,
    @htab_ok unit htab vs one_var /\
    es ≡ₚ List.filter (selected (fun _ => true) (fun _ _ => true) 0 []) (map_to_list one_var) /\
    hexport_r (hooks := no_hooks) (fun _ => true) (fun _ _ => true) htab 10 0 (Some (replicate 9 7)) 8 [] =
    if (length (export_text 10 es) <? 8)%nat
    then Some (8, Some ((export_text 10 es ++ replicate (8 - length (export_text 10 es)) 0) ++
                        buffer_tail (Some (replicate 9 7)) 8))
    else Some (-1, Some (replicate 9 7)).
Proof.
  destruct one_var_table as (htab & vs & Hok).
  destruct (@hexport_correct unit no_hooks no_hooks_ok (fun _ => true) (fun _ _ => true) htab vs one_var
    10 0 (Some (replicate 9 7)) 8 [] Hok) as (es & Hp & _ & Hex).
  - intros k d Hk. apply (one_var_entry 10) in Hk as (_ & ? & ?); [done|by right].
  - lia.
  - intros buf [= <-]. simpl. lia.
  - by exists htab, vs, es.
Defined.


(** ** Divergences *)

Definition text_a_1_crlf_b_2 : list Z := [97; 61; 49; 13; 10; 98; 61; 50].

(** A text file with CR LF line ends whose last line has no line end is
    imported with a wrong last value: removing the carriage returns leaves the
    old last bytes behind the text, and the value is read up to the next NUL.
    Importing "a=1\r\nb=2" sets b to "22". *)
Theorem himport_crlf_wrong_value :
  (('(_, _, h) ← @himport_r unit no_hooks no_table text_a_1_crlf_b_2 10 0 true [];
    '(rs, _) ← @run_hts unit no_hooks h [HFind [97]; HFind [98]]; Some rs))
  = Some [inl (Some [49]); inl (Some [50; 50])].
Proof. vm_compute. reflexivity. Qed.

Definition export_of (k d : list Z) (sep : Z) (resp : option (list Z)) (n : Z) : option (Z * option (list Z)) :=
  '(_, h) ← @hcreate_r unit no_hooks 2 no_table;
  '(_, h) ← @run_hts unit no_hooks h [HEnter k d 0];
  hexport_r (hooks := no_hooks) (fun _ => true) (fun _ _ => true) h sep 0 resp n [].

(** With a NUL separator pass 1 does not count the backslashes that pass 2
    adds: a buffer of exactly the required size is overrun. *)
Example hexport_backslash_overflow : export_of [97] [92; 92; 92] 0 None 7 = None.
Proof. vm_compute. reflexivity. Qed.

(** Without a size the buffer has no room for the terminating NUL. *)
Example hexport_size0_overflow : export_of [97] [98] 10 None 0 = None.
Proof. vm_compute. reflexivity. Qed.
