(* ===== verification/Strto.v ===== *)
(** * Reading numbers ([lib/strto.c])

    A string argument is the list of its bytes without the NUL; the end pointer
    that a function stores is the rest of that list.  [unsigned long] and
    [unsigned long long] both have 64 bits. *)

From S2P Require Import Prelude StringLib.
Local Open Scope Z_scope.

(** Returns the string behind the prefix and the base. *)
Definition _parse_integer_fixup_radix (s : list Z) (base : Z) : list Z * Z :=
  let base :=
    if base =? 0 then
      if ch s =? 48 then
        if (tolower (ch (at_off s 1)) =? 120) && isxdigit (ch (at_off s 2)) then 16 else 8
      else 10
    else base in
  if (base =? 16) && (ch s =? 48) && (tolower (ch (at_off s 1)) =? 120)
  then (at_off s 2, base) else (s, base).

(** The value of a digit, an [unsigned long]. *)
Definition digit_value (c : Z) : Z :=
  if isdigit c then u64 (c - 48) else u64 ((if islower c then toupper c else c) - 65 + 10).

Fixpoint strtoul_loop (cp : list Z) (base result : Z) : Z * list Z :=
  match cp with
  | [] => (result, [])
  | c :: cp' =>
      if isxdigit c && (digit_value c <? base)
      then strtoul_loop cp' base (u64 (u64 (result * base) + digit_value c))
      else (result, cp)
  end.

Definition simple_strtoul (cp : list Z) (base : Z) : Z * list Z :=
  let '(cp, base) := _parse_integer_fixup_radix cp base in strtoul_loop cp base 0.

Definition simple_strtoull (cp : list Z) (base : Z) : Z * list Z := simple_strtoul cp base.

(** Returns the error code and [*res]. *)
Definition strict_strtoul (cp : list Z) (base : Z) : Z * Z :=
  let len := strlen cp in
  if len =? 0 then (- EINVAL, 0)
  else
    let '(val, tail) := simple_strtoul cp base in
    if Nat.eqb (length tail) (length cp) then (- EINVAL, 0)
    else if (ch tail =? 0) ||
            ((len =? Z.of_nat (length cp - length tail) + 1) && (ch tail =? 10))
    then (0, val) else (- EINVAL, 0).

Definition simple_strtol (cp : list Z) (base : Z) : Z * list Z :=
  if ch cp =? 45 then
    let '(v, rest) := simple_strtoul (tl cp) base in (s64 (- v), rest)
  else let '(v, rest) := simple_strtoul cp base in (s64 v, rest).

(** [switch ( **endp)]: G falls through to M, and M to K. *)
Definition ustrtoul (cp : list Z) (base : Z) : Z * list Z :=
  let '(result, endp) := simple_strtoul cp base in
  let c := ch endp in
  if (c =? 71) || (c =? 77) || (c =? 75) || (c =? 107) then
    let result := if c =? 71 then u64 (result * 1024) else result in
    let result := if (c =? 71) || (c =? 77) then u64 (result * 1024) else result in
    let result := u64 (result * 1024) in
    let endp :=
      if ch (at_off endp 1) =? 105 then
        if ch (at_off endp 2) =? 66 then at_off endp 3 else at_off endp 2
      else endp in
    (result, endp)
  else (result, endp).

Definition ustrtoull (cp : list Z) (base : Z) : Z * list Z := ustrtoul cp base.

(** [for (p = end - 1; p > str; p--)]: [p] is an index. *)
Fixpoint trailing_loop (str : list Z) (p : nat) : Z :=
  match p with
  | O => -1
  | S p' =>
      if negb (isdigit (ch (drop p str)))
      then s64 (fst (simple_strtoul (drop (S p) str) 10))
      else trailing_loop str p'
  end.

(** [end_] is the index of the end, [None] for NULL; the byte in front of it is
    read. *)
Definition trailing_strtoln (str : list Z) (end_ : option nat) : option Z :=
  let e := match end_ with None => length str | Some e => e end in
  c ← aget str (Z.of_nat e - 1);
  Some (if isdigit c then trailing_loop (take e str) (e - 1) else -1).

Definition trailing_strtol (str : list Z) : option Z := trailing_strtoln str None.

(** ** Numerals *)

(** [c] is a digit of value [v] in the base. *)
Definition is_digit (base c : Z) : Prop := isxdigit c = true /\ digit_value c < base.

(** The number that a string of digits stands for. *)
Definition numeral (base : Z) (ds : list Z) : Z :=
  foldl (fun n c => n * base + digit_value c) 0 ds.

(** The digits of [n], most significant first. *)
Fixpoint digits (fuel : nat) (base n : Z) : list Z :=
  match fuel with
  | O => []
  | S fuel =>
      let d := n mod base in
      let c := if d <? 10 then 48 + d else 97 + (d - 10) in
      if n <? base then [c] else digits fuel base (n / base) ++ [c]
  end.

Lemma strtoul_loop_digits base ds : forall acc rest,
  Forall (is_digit base) ds -> ~ is_digit base (ch rest) -> 0 <= acc < 2 ^ 64 ->
  strtoul_loop (ds ++ rest) base acc =
  (foldl (fun n c => u64 (n * base + digit_value c)) acc ds, rest).
Proof.
  induction ds as [|c ds IH]; intros acc rest Hd Hr Ha; simpl.
  - destruct rest as [|c rest]; [done|]. simpl. case_if; [|done]. exfalso. apply Hr. by split.
  - inversion Hd as [|? ? [Hx Hv] Hd']; subst. rewrite Hx, (proj2 (Z.ltb_lt _ _) Hv). simpl.
    rewrite IH by (done || by apply wrap_range). f_equal. f_equal. unfold wrap.
    by rewrite Zplus_mod_idemp_l.
Qed.

Lemma foldl_wrap base ds : forall a b,
  u64 a = u64 b ->
  u64 (foldl (fun n c => u64 (n * base + digit_value c)) a ds) =
  u64 (foldl (fun n c => n * base + digit_value c) b ds).
Proof.
  induction ds as [|c ds IH]; intros a b H; simpl; [done|]. apply IH. unfold wrap in *.
  rewrite Z.mod_mod by lia. rewrite <- Zplus_mod_idemp_l, <- Zmult_mod_idemp_l, H.
  by rewrite Zmult_mod_idemp_l, Zplus_mod_idemp_l.
Qed.

Lemma foldl_in_range base ds : forall a, 0 <= a < 2 ^ 64 ->
  0 <= foldl (fun n c => u64 (n * base + digit_value c)) a ds < 2 ^ 64.
Proof. induction ds as [|c ds IH]; intros a Ha; simpl; [done|]. apply IH, wrap_range. lia. Qed.

Lemma strtoul_loop_numeral base ds rest :
  Forall (is_digit base) ds -> ~ is_digit base (ch rest) ->
  strtoul_loop (ds ++ rest) base 0 = (u64 (numeral base ds), rest).
Proof.
  intros Hd Hr. rewrite strtoul_loop_digits by (done || lia). f_equal.
  rewrite <- (wrap_small 64 (foldl _ 0 ds)) by (by apply foldl_in_range). by apply foldl_wrap.
Qed.

(** *** Printing and reading *)

Lemma digit_char d : 0 <= d < 16 ->
  let c := if d <? 10 then 48 + d else 97 + (d - 10) in
  isxdigit c = true /\ digit_value c = d.
Proof.
  intros Hd. assert (forallb (fun d =>
    let c := if d <? 10 then 48 + d else 97 + (d - 10) in
    isxdigit c && (digit_value c =? d)) (seqZ 0 16) = true) as Hall by (vm_compute; reflexivity).
  rewrite forallb_forall in Hall. specialize (Hall d). cbv zeta in *.
  rewrite andb_true_iff, Z.eqb_eq in Hall. apply Hall, list_elem_of_In, elem_of_seqZ. lia.
Qed.

Lemma digits_numeral base fuel : forall n,
  2 <= base <= 16 -> 0 <= n < base ^ Z.of_nat fuel ->
  (0 < fuel)%nat ->
  Forall (is_digit base) (digits fuel base n) /\ numeral base (digits fuel base n) = n.
Proof.
  induction fuel as [|fuel IH]; intros n Hb Hn Hf; [lia|].
  pose proof (Z.mod_pos_bound n base) as Hm.
  destruct (digit_char (n mod base)) as [Hx Hv]; [lia|].
  unfold digits; fold digits. cbv zeta.
  set (c := if n mod base <? 10 then 48 + n mod base else 97 + (n mod base - 10)) in *.
  assert (is_digit base c) as Hc by (split; [done|lia]).
  case_if.
  - split; [by constructor|]. unfold numeral; simpl. rewrite Hv, Z.mod_small; lia.
  - destruct fuel as [|fuel]; [simpl in Hn; lia|].
    assert (0 <= n / base < base ^ Z.of_nat (S fuel)) as Hq.
    { split; [apply Z.div_pos; lia|]. apply Z.div_lt_upper_bound; [lia|].
      rewrite (Nat2Z.inj_succ (S fuel)), Z.pow_succ_r in Hn by lia. lia. }
    destruct (IH (n / base) Hb Hq) as [Hd Hval]; [lia|]. split.
    + apply Forall_app. split; [done|by constructor].
    + unfold numeral in *. rewrite foldl_snoc, Hval, Hv. pose proof (Z.div_mod n base). lia.
Qed.

Lemma digits_spec base fuel n :
  2 <= base <= 16 -> 0 <= n < 2 ^ Z.of_nat fuel -> (0 < fuel)%nat ->
  Forall (is_digit base) (digits fuel base n) /\ numeral base (digits fuel base n) = n.
Proof.
  intros Hb Hn Hf. apply digits_numeral; [done| |done].
  pose proof (Z.pow_le_mono_l 2 base (Z.of_nat fuel)). lia.
Qed.

(** [simple_strtoul] reads the longest sequence of digits of the base, and
    returns the number they stand for modulo 2^64 and the rest of the string. *)
Theorem simple_strtoul_correct base ds rest :
  2 <= base < 16 -> Forall (is_digit base) ds -> ~ is_digit base (ch rest) ->
  simple_strtoul (ds ++ rest) base = (u64 (numeral base ds), rest).
Proof.
  intros Hb Hd Hr. unfold simple_strtoul, _parse_integer_fixup_radix.
  rewrite (proj2 (Z.eqb_neq base 0)), (proj2 (Z.eqb_neq base 16)) by lia. simpl.
  by apply strtoul_loop_numeral.
Qed.

Lemma simple_strtoul_correct_witness :
  simple_strtoul ([49; 50; 51] ++ [32]) 10 = (u64 (numeral 10 [49; 50; 51]), [32]).
Proof.
  apply (simple_strtoul_correct 10 [49; 50; 51] [32]); [lia| |].
  - repeat constructor.
  - intros [H _]. discriminate H.
Defined.

(** Printing a 64-bit number in decimal and reading it back gives the same
    number; so does printing it in hexadecimal with the prefix "0x" and reading
    it back with base 0 or 16. *)
Theorem simple_strtoul_roundtrip n rest :
  0 <= n < 2 ^ 64 -> isxdigit (ch rest) = false ->
  simple_strtoul (digits 64 10 n ++ rest) 10 = (n, rest) /\
  forall base, base = 0 \/ base = 16 ->
  simple_strtoul ([48; 120] ++ digits 64 16 n ++ rest) base = (n, rest).
Proof.
  intros Hn Hr.
  assert (forall base, ~ is_digit base (ch rest)) as Hstop by (intros base [H _]; congruence).
  destruct (digits_spec 10 64 n) as [Hd10 Hv10]; [lia..|].
  destruct (digits_spec 16 64 n) as [Hd16 Hv16]; [lia..|].
  split.
  - unfold simple_strtoul, _parse_integer_fixup_radix. cbn [Z.eqb Pos.eqb andb].
    rewrite strtoul_loop_numeral by done. rewrite Hv10, wrap_small by lia. done.
  - assert (isxdigit (ch (digits 64 16 n ++ rest)) = true) as Hx.
    { destruct (digits 64 16 n) as [|c ds] eqn:E.
      - simpl in Hv16. unfold numeral in Hv16. simpl in Hv16. subst n. discriminate E.
      - inversion Hd16 as [|? ? [? _] _]; subst. done. }
    intros base Hb. unfold simple_strtoul, _parse_integer_fixup_radix.
    replace (at_off ([48; 120] ++ digits 64 16 n ++ rest) 2) with (digits 64 16 n ++ rest) by done.
    rewrite Hx. destruct Hb as [-> | ->]; cbn [app ch hd at_off].
    all: change (tolower (ch (at_off (48 :: 120 :: digits 64 16 n ++ rest) 1))) with 120.
    all: cbn [Z.eqb Pos.eqb andb].
    all: rewrite strtoul_loop_numeral by done; by rewrite Hv16, wrap_small by lia.
Qed.

Lemma simple_strtoul_roundtrip_witness :
  simple_strtoul (digits 64 10 65536 ++ [10]) 10 = (65536, [10]) /\
  forall base, base = 0 \/ base = 16 ->
  simple_strtoul ([48; 120] ++ digits 64 16 65536 ++ [10]) base = (65536, [10]).
Proof. apply (simple_strtoul_roundtrip 65536 [10]); [lia|reflexivity]. Defined.

(** ** Divergences *)

(** A string of digits only has no trailing number. *)
Example trailing_strtol_all_digits : trailing_strtol [49; 50; 51] = Some (-1).
Proof. reflexivity. Qed.

(** The empty string makes it read the byte in front of the string. *)
Example trailing_strtol_empty : trailing_strtol [] = None.
Proof. reflexivity. Qed.

(** "0x" alone is accepted as a number. *)
Example strict_strtoul_prefix_only : strict_strtoul [48; 120] 16 = (0, 0).
Proof. reflexivity. Qed.
