(* ===== verification/Vsprintf.v ===== *)
(** * Formatted output ([lib/vsprintf.c])

    [vsnprintf_internal] and the functions that use it.  The output goes to a buffer
    up to a limit, and is counted behind it; the arguments are a list of values with
    their kinds.

    Widths and precisions are computed with C's [int]; where that overflows, which is
    undefined, the numbers here go on.  A string has less than 2^31 bytes. *)

From S2P Require Import Prelude StringLib Strto.

Local Open Scope Z_scope.

(** ** Parameters *)

(** [efi_dp_str]: the text of a device path in UTF-16, or [None] without memory; it
    is there with [CONFIG_EFI_LOADER]. *)
Class PrintfConfig := {
  CONFIG_CMD_NET : bool;
  CONFIG_LIB_UUID : bool;
  CONFIG_SYS_PBSIZE : Z;
  efi_dp_str : option (list Z -> option (list Z))
}.

(** ** Arguments *)

(** [va_int] is an [int] or [unsigned], [va_long] an integer of 64 bits, [va_str] and
    [va_wide] strings of 8 and 16 bits or NULL, [va_ptr] another pointer with the
    bytes that are there, and [va_out] the address of a variable. *)
Inductive va_val :=
  | va_int (v : Z) | va_long (v : Z) | va_str (s : option (list Z)) | va_wide (s : option (list Z)) | va_ptr (p : Z) (obj : list Z) | va_out.

Definition va_arg_int (args : list va_val) : option (Z * list va_val) :=
  match args with va_int v :: args => Some (v, args) | _ => None end.
Definition va_arg_long (args : list va_val) : option (Z * list va_val) :=
  match args with va_long v :: args => Some (v, args) | _ => None end.
Definition va_arg_str (args : list va_val) : option (option (list Z) * list va_val) :=
  match args with va_str s :: args => Some (s, args) | _ => None end.
Definition va_arg_wide (args : list va_val) : option (option (list Z) * list va_val) :=
  match args with va_wide s :: args => Some (s, args) | _ => None end.
Definition va_arg_ptr (args : list va_val) : option (Z * list Z * list va_val) :=
  match args with va_ptr p obj :: args => Some (p, obj, args) | _ => None end.
Definition va_arg_out (args : list va_val) : option (list va_val) :=
  match args with va_out :: args => Some args | _ => None end.

(** ** Decimal digits *)

(** The digits, the least significant first. *)
Definition put_dec_trunc (q : Z) : list Z :=
  let d1 := Z.land (Z.shiftr q 4) 0xf in
  let d2 := Z.land (Z.shiftr q 8) 0xf in
  let d3 := Z.shiftr q 12 in
  let d0 := 6 * (d3 + d2 + d1) + Z.land q 0xf in
  let q := Z.shiftr (d0 * 0xcd) 11 in
  let d0 := d0 - 10 * q in
  (d0 + 48) ::
  let d1 := q + 9 * d3 + 5 * d2 + d1 in
  if negb (d1 =? 0) then
    let q := Z.shiftr (d1 * 0xcd) 11 in
    let d1 := d1 - 10 * q in
    (d1 + 48) ::
    let d2 := q + 2 * d2 in
    if negb (d2 =? 0) || negb (d3 =? 0) then
      let q := Z.shiftr (d2 * 0xd) 7 in
      let d2 := d2 - 10 * q in
      (d2 + 48) ::
      let d3 := q + 4 * d3 in
      if negb (d3 =? 0) then
        let q := Z.shiftr (d3 * 0xcd) 11 in
        let d3 := d3 - 10 * q in
        (d3 + 48) :: if negb (q =? 0) then [q + 48] else []
      else []
    else []
  else [].

Definition put_dec_full (q : Z) : list Z :=
  let d1 := Z.land (Z.shiftr q 4) 0xf in
  let d2 := Z.land (Z.shiftr q 8) 0xf in
  let d3 := Z.shiftr q 12 in
  let d0 := 6 * (d3 + d2 + d1) + Z.land q 0xf in
  let q := Z.shiftr (d0 * 0xcd) 11 in
  let d0 := d0 - 10 * q in
  (d0 + 48) ::
  let d1 := q + 9 * d3 + 5 * d2 + d1 in
  let q := Z.shiftr (d1 * 0xcd) 11 in
  let d1 := d1 - 10 * q in
  (d1 + 48) ::
  let d2 := q + 2 * d2 in
  let q := Z.shiftr (d2 * 0xd) 7 in
  let d2 := d2 - 10 * q in
  (d2 + 48) ::
  let d3 := q + 4 * d3 in
  let q := Z.shiftr (d3 * 0xcd) 11 in
  let d3 := d3 - 10 * q in
  [d3 + 48; q + 48].

(** Four divisions by 100000 make any number of 64 bits small. *)
Fixpoint put_dec_loop (fuel : nat) (num : Z) : list Z :=
  match fuel with
  | O => []
  | S fuel => if num <? 100000 then put_dec_trunc num else put_dec_full (num mod 100000) ++ put_dec_loop fuel (num / 100000)
  end.
Definition put_dec (num : Z) : list Z := put_dec_loop 4 num.

(** ** The buffer *)

Definition ZEROPAD : Z := 1.
Definition SIGN : Z := 2.
Definition PLUS : Z := 4.
Definition SPACE : Z := 8.
Definition LEFT : Z := 16.
Definition SMALL : Z := 32.
Definition SPECIAL : Z := 64.

(** [type & bit] as a condition. *)
Definition flag (type bit : Z) : bool := negb (Z.land type bit =? 0).

(** The buffer, the position [str - buf], and what [%n] stored, the last first, with
    whether it is a [long]. *)
Record out := mk_out { o_buf : list Z; o_pos : Z; o_stored : list (bool * Z) }.

Definition ADDCH (end_ : Z) (o : out) (c : Z) : option out :=
  if o_pos o <? end_ then b ← aset (o_buf o) (o_pos o) (u8 c); Some (mk_out b (o_pos o + 1) (o_stored o))
  else Some (mk_out (o_buf o) (o_pos o + 1) (o_stored o)).

Fixpoint addchs (end_ : Z) (o : out) (cs : list Z) : option out :=
  match cs with [] => Some o | c :: cs => o ← ADDCH end_ o c; addchs end_ o cs end.

(** [while (--n >= 0) ADDCH(buf, c)]: also [n] behind the loop. *)
Definition addch_while (end_ : Z) (o : out) (c n : Z) : option (out * Z) :=
  o ← addchs end_ o (replicate (Z.to_nat n) c); Some (o, Z.min n 0 - 1).

(** ** Conversions *)

(** The loop for the bases 8 and 16; 22 octal digits are enough. *)
Fixpoint pow2_digits (fuel : nat) (num mask shift locase : Z) : list Z :=
  match fuel with
  | O => []
  | S fuel =>
      let c := Z.lor (nth (Z.to_nat (Z.land (u8 num) mask)) (str "0123456789ABCDEF") 0) locase in
      let num := Z.shiftr num shift in
      c :: if negb (num =? 0) then pow2_digits fuel num mask shift locase else []
  end.

Definition number (end_ : Z) (o : out) (num base size precision type : Z) : option out :=
  let need_pfx := flag type SPECIAL && negb (base =? 10) in
  let locase := Z.land type SMALL in
  let type := if flag type LEFT then Z.ldiff type ZEROPAD else type in
  let '(sign, num, size) :=
    if flag type SIGN then
      if s64 num <? 0 then (45, u64 (- s64 num), size - 1)
      else if flag type PLUS then (43, num, size - 1)
      else if flag type SPACE then (32, num, size - 1)
      else (0, num, size)
    else (0, num, size) in
  let size := if need_pfx then if base =? 16 then size - 1 - 1 else size - 1 else size in
  let tmp :=
    if num =? 0 then [48]
    else if negb (base =? 10) then pow2_digits 22 num (base - 1) (if base =? 16 then 4 else 3) locase
    else put_dec num in
  let i := Z.of_nat (length tmp) in
  if 66 <? i then None
  else
    let precision := if precision <? i then i else precision in
    let size := size - precision in
    '(o, size) ← if negb (flag type (ZEROPAD + LEFT)) then addch_while end_ o 32 size else Some (o, size);
    o ← if negb (sign =? 0) then ADDCH end_ o sign else Some o;
    o ← if need_pfx then o ← ADDCH end_ o 48; if base =? 16 then ADDCH end_ o (Z.lor 88 locase) else Some o else Some o;
    '(o, size) ← if negb (flag type LEFT) then addch_while end_ o (if flag type ZEROPAD then 48 else 32) size else Some (o, size);
    o ← addchs end_ o (replicate (Z.to_nat (precision - i)) 48);
    o ← addchs end_ o (rev tmp);
    '(o, _) ← addch_while end_ o 32 size;
    Some o.

(** [strnlen(s, precision)]: a negative precision is longer than any string. *)
Definition text_len (s : list Z) (precision : Z) : Z := if precision <? 0 then strlen s else strnlen s (Z.to_nat precision).

(** [while (len < field_width--)]: the same for both kinds of strings; [string] is
    the function for 8 bits. *)
Definition put_padded (end_ : Z) (o : out) (s : list Z) (field_width flags : Z) : option out :=
  let len := Z.of_nat (length s) in
  '(o, field_width) ← if negb (flag flags LEFT)
    then o ← addchs end_ o (replicate (Z.to_nat (field_width - len)) 32); Some (o, Z.min field_width len - 1)
    else Some (o, field_width);
  o ← addchs end_ o s;
  addchs end_ o (replicate (Z.to_nat (field_width - len)) 32).

Definition put_string (end_ : Z) (o : out) (s : option (list Z)) (field_width precision flags : Z) : option out :=
  let s := default (str "<NULL>") s in
  put_padded end_ o (take (Z.to_nat (text_len s precision)) s) field_width flags.

(** *** UTF-16 ([lib/charset.c]) *)

Fixpoint utf16_strnlen (s : list Z) (count : nat) : Z :=
  match count with
  | O => 0
  | S count => if ch s =? 0 then 0 else 1 + utf16_strnlen (tl s) count
  end.

(** The bytes that are written; each is cut to 8 bits. *)
Definition utf8_4 (code : Z) : list Z :=
  [u8 (Z.lor (Z.shiftr code 18) 0xF0); u8 (Z.lor (Z.land (Z.shiftr code 12) 0x3F) 0x80);
   u8 (Z.lor (Z.land (Z.shiftr code 6) 0x3F) 0x80); u8 (Z.lor (Z.land code 0x3F) 0x80)].

Fixpoint utf16_to_utf8 (src : list Z) (size : nat) (code_high : Z) : list Z :=
  match size with
  | O => []
  | S size =>
      let code := ch src in
      if negb (code_high =? 0) then
        if (0xDC00 <=? code) && (code <=? 0xDFFF)
        then utf8_4 (u32 (Z.shiftl (code_high - 0xD800) 10 + (code - 0xDC00) + 0x10000)) ++ utf16_to_utf8 (tl src) size 0
        else 63 :: utf16_to_utf8 src size 0
      else if code <=? 0x7F then code :: utf16_to_utf8 (tl src) size 0
      else if code <=? 0x7FF then u8 (Z.lor (Z.shiftr code 6) 0xC0) :: u8 (Z.lor (Z.land code 0x3F) 0x80) :: utf16_to_utf8 (tl src) size 0
      else if (0xD800 <=? code) && (code <=? 0xDBFF) then utf16_to_utf8 (tl src) size code
      else if (0xDC00 <=? code) && (code <=? 0xDFFF) then 63 :: utf16_to_utf8 (tl src) size 0
      else if code <? 0x10000 then
        u8 (Z.lor (Z.shiftr code 12) 0xE0) :: u8 (Z.lor (Z.land (Z.shiftr code 6) 0x3F) 0x80) ::
        u8 (Z.lor (Z.land code 0x3F) 0x80) :: utf16_to_utf8 (tl src) size 0
      else utf8_4 code ++ utf16_to_utf8 (tl src) size 0
  end.

Definition MAX_UTF8_PER_UTF16 : Z := 3.

(** What is written to an array of [n] bytes. *)
Definition in_array (n : Z) (cs : list Z) : option (list Z) := if Z.of_nat (length cs) <=? n then Some cs else None.

Definition wide_len (s : list Z) (precision : Z) : Z := if precision <? 0 then utf16_strnlen s (length s) else utf16_strnlen s (Z.to_nat precision).

Definition string16 (end_ : Z) (o : out) (s : option (list Z)) (field_width precision flags : Z) : option out :=
  let s := default (str "<NULL>") s in
  let utf16_len := wide_len s precision in
  utf8 ← in_array (utf16_len * MAX_UTF8_PER_UTF16) (utf16_to_utf8 s (Z.to_nat utf16_len) 0);
  put_padded end_ o utf8 field_width flags.

(** *** Addresses *)

Definition hex_asc (x : Z) : Z := nth (Z.to_nat x) (str "0123456789abcdef") 0.
Definition hex_byte_pack (byte : Z) : list Z := [hex_asc (Z.shiftr (Z.land byte 0xf0) 4); hex_asc (Z.land byte 0x0f)].

(** The loop over groups of [k] bytes, with a colon behind each but the last unless
    [raw]. *)
Fixpoint hex_groups (n k : nat) (obj : list Z) (raw : bool) : option (list Z) :=
  match n with
  | O => Some []
  | S n =>
      if (length obj <? k)%nat then None
      else
        rest ← hex_groups n k (drop k obj) raw;
        Some (concat (hex_byte_pack <$> take k obj) ++ (if negb raw && negb (n =? 0)%nat then [58] else []) ++ rest)
  end.

Definition mac_address_string (end_ : Z) (o : out) (addr : list Z) (field_width precision flags : Z) : option out :=
  cs ← hex_groups 6 1 addr (flag flags SPECIAL);
  mac_addr ← in_array (6 * 3) (cs ++ [0]);
  put_string end_ o (Some (cstr mac_addr)) field_width precision (Z.ldiff flags SPECIAL).

Definition ip6_addr_string (end_ : Z) (o : out) (addr : list Z) (field_width precision flags : Z) : option out :=
  cs ← hex_groups 8 2 addr (flag flags SPECIAL);
  ip6_addr ← in_array (8 * 5) (cs ++ [0]);
  put_string end_ o (Some (cstr ip6_addr)) field_width precision (Z.ldiff flags SPECIAL).

Fixpoint ip4_quads (n : nat) (addr : list Z) : option (list Z) :=
  match n, addr with
  | O, _ => Some []
  | S n, b :: addr =>
      temp ← in_array 3 (put_dec_trunc b);
      rest ← ip4_quads n addr;
      Some (rev temp ++ (if negb (n =? 0)%nat then [46] else []) ++ rest)
  | S _, [] => None
  end.

Definition ip4_addr_string (end_ : Z) (o : out) (addr : list Z) (field_width precision flags : Z) : option out :=
  cs ← ip4_quads 4 addr;
  ip4_addr ← in_array (4 * 4) (cs ++ [0]);
  put_string end_ o (Some (cstr ip4_addr)) field_width precision (Z.ldiff flags SPECIAL).

(** *** UUIDs ([lib/uuid.c]) *)

(** [sprintf(uuid_str, "%02x", byte)]: the two digits, which [sprintf] gets from
    [number]. *)
Definition uuid_byte (byte : Z) : option (list Z) :=
  o ← number 0x7fffffff (mk_out (replicate 3 0) 0 []) (u8 byte) 16 2 (-1) (Z.lor ZEROPAD SMALL); Some (take (Z.to_nat (o_pos o)) (o_buf o)).

Definition uuid_char_order : list Z := seqZ 0 16.
Definition guid_char_order : list Z := [3; 2; 1; 0; 5; 4; 7; 6] ++ seqZ 8 8.

Fixpoint uuid_loop (order : list Z) (i : Z) (uuid_bin : list Z) : option (list Z) :=
  match order with
  | [] => Some []
  | j :: order =>
      b ← aget uuid_bin j; cs ← uuid_byte b; rest ← uuid_loop order (i + 1) uuid_bin;
      Some (cs ++ (if (i =? 3) || (i =? 5) || (i =? 7) || (i =? 9) then [45] else []) ++ rest)
  end.

Definition uuid_bin_to_str (uuid_bin : list Z) (guid : bool) : option (list Z) :=
  uuid_loop (if guid then guid_char_order else uuid_char_order) 0 uuid_bin.

Definition UUID_STR_LEN : Z := 36.

(** [fmt] is behind the [U]. *)
Definition uuid_string (end_ : Z) (o : out) (p : Z) (addr : list Z) (field_width precision flags : Z) (fmt : list Z) : option out :=
  let guid := (ch fmt =? 76) || (ch fmt =? 108) in
  cs ← if negb (p =? 0) then uuid_bin_to_str addr guid else Some (str "<NULL>");
  uuid ← in_array (UUID_STR_LEN + 1) (cs ++ [0]);
  put_string end_ o (Some (cstr uuid)) field_width precision flags.

(** *** Pointers *)

(** An error number in place of a pointer ([ERR_PTR]) is on the left. *)
Definition device_path_string (end_ : Z) (o : out) (efi_dp_str : list Z -> option (list Z)) (p : Z) (dp : list Z) (field_width precision flags : Z) : option (Z + out) :=
  if p =? 0 then inr <$> string16 end_ o None field_width precision flags
  else
    match efi_dp_str dp with
    | None => Some (inl (- ENOMEM))
    | Some s => inr <$> string16 end_ o (Some s) field_width precision flags
    end.

(** The [phys_addr_t] at [ptr]. *)
Definition load_phys_addr (obj : list Z) : option Z :=
  if (length obj <? 8)%nat then None else Some (foldr (fun b n => b + 256 * n) 0 (take 8 obj)).

Definition pointer_number (end_ : Z) (o : out) (num field_width precision flags : Z) : option (Z + out) :=
  let flags := Z.lor flags SMALL in
  let '(field_width, flags) := if field_width =? -1 then (2 * 8, Z.lor flags ZEROPAD) else (field_width, flags) in
  inr <$> number end_ o (u64 num) 16 field_width precision flags.

(** [fmt] is behind the [p]. *)
Definition pointer `{PrintfConfig} (fmt : list Z) (end_ : Z) (o : out) (ptr : Z) (obj : list Z) (field_width precision flags : Z) : option (Z + out) :=
  let c := ch fmt in
  let number_at num field_width flags := pointer_number end_ o num field_width precision flags in
  match f ← efi_dp_str; if c =? 68 then Some f else None with
  | Some f => device_path_string end_ o f ptr obj field_width precision flags
  | None =>
      if CONFIG_CMD_NET && (c =? 97) then
        num ← load_phys_addr obj; number_at num (8 * 2 + 2) (Z.lor flags (Z.lor SPECIAL ZEROPAD))
      else if CONFIG_CMD_NET && ((c =? 109) || (c =? 77)) then
        inr <$> mac_address_string end_ o obj field_width precision (if c =? 109 then Z.lor flags SPECIAL else flags)
      else if CONFIG_CMD_NET && ((c =? 105) || (c =? 73)) then
        let flags := if c =? 105 then Z.lor flags SPECIAL else flags in
        let c1 := ch (tl fmt) in
        if c1 =? 54 then inr <$> ip6_addr_string end_ o obj field_width precision flags
        else if c1 =? 52 then inr <$> ip4_addr_string end_ o obj field_width precision flags
        else number_at ptr field_width (Z.ldiff flags SPECIAL)
      else if CONFIG_LIB_UUID && (c =? 85) then inr <$> uuid_string end_ o ptr obj field_width precision flags (tl fmt)
      else number_at ptr field_width flags
  end.

(** ** Format strings *)

Definition fmt_digit (c : Z) : bool := (48 <=? c) && (c <=? 57).

(** The number and the rest of the string. *)
Fixpoint skip_atoi (s : list Z) (i : Z) : Z * list Z :=
  match s with
  | c :: s' => if fmt_digit c then skip_atoi s' (i * 10 + c - 48) else (i, s)
  | [] => (i, [])
  end.

(** From [repeat] on. *)
Fixpoint parse_flags (fmt : list Z) (flags : Z) : Z * list Z :=
  match fmt with
  | c :: fmt' =>
      if c =? 45 then parse_flags fmt' (Z.lor flags LEFT)
      else if c =? 43 then parse_flags fmt' (Z.lor flags PLUS)
      else if c =? 32 then parse_flags fmt' (Z.lor flags SPACE)
      else if c =? 35 then parse_flags fmt' (Z.lor flags SPECIAL)
      else if c =? 48 then parse_flags fmt' (Z.lor flags ZEROPAD)
      else (flags, fmt)
  | [] => (flags, [])
  end.

(** The field width, the flags, the rest and the arguments. *)
Definition parse_width (fmt : list Z) (flags : Z) (args : list va_val) : option (Z * Z * list Z * list va_val) :=
  if fmt_digit (ch fmt) then let '(w, fmt) := skip_atoi fmt 0 in Some (w, flags, fmt, args)
  else if ch fmt =? 42 then
    '(v, args) ← va_arg_int args;
    let w := s32 v in
    Some (if w <? 0 then (- w, Z.lor flags LEFT, tl fmt, args) else (w, flags, tl fmt, args))
  else Some (-1, flags, fmt, args).

Definition parse_precision (fmt : list Z) (args : list va_val) : option (Z * list Z * list va_val) :=
  if ch fmt =? 46 then
    let fmt := tl fmt in
    '(p, fmt, args) ←
      if fmt_digit (ch fmt) then let '(p, fmt) := skip_atoi fmt 0 in Some (p, fmt, args)
      else if ch fmt =? 42 then '(v, args) ← va_arg_int args; Some (s32 v, tl fmt, args)
      else Some (-1, fmt, args);
    Some (if p <? 0 then 0 else p, fmt, args)
  else Some (-1, fmt, args).

Definition parse_qualifier (fmt : list Z) : Z * list Z :=
  let c := ch fmt in
  if existsb (Z.eqb c) (str "hlLZzt") then
    if (c =? 108) && (ch (tl fmt) =? 108) then (76, tl (tl fmt)) else (c, tl fmt)
  else (-1, fmt).

(** A conversion: [fmt] is at its letter. *)
Record conversion := mk_conv { c_flags : Z; c_width : Z; c_precision : Z; c_qualifier : Z; c_fmt : list Z; c_args : list va_val }.

Definition parse_conversion (fmt : list Z) (args : list va_val) : option conversion :=
  let '(flags, fmt) := parse_flags fmt 0 in
  '(w, flags, fmt, args) ← parse_width fmt flags args;
  '(p, fmt, args) ← parse_precision fmt args;
  let '(q, fmt) := parse_qualifier fmt in
  Some (mk_conv flags w p q fmt args).

(** The base and the flags of an integer. *)
Definition number_base (c flags : Z) : option (Z * Z) :=
  if c =? 111 then Some (8, flags)
  else if c =? 120 then Some (16, Z.lor flags SMALL)
  else if c =? 88 then Some (16, flags)
  else if (c =? 100) || (c =? 105) then Some (10, Z.lor flags SIGN)
  else if c =? 117 then Some (10, flags)
  else None.

(** [num], of 64 bits. *)
Definition number_arg (qualifier flags : Z) (args : list va_val) : option (Z * list va_val) :=
  if (qualifier =? 76) || (qualifier =? 108) || (qualifier =? 90) || (qualifier =? 122) || (qualifier =? 116)
  then '(v, args) ← va_arg_long args; Some (u64 v, args)
  else
    '(v, args) ← va_arg_int args;
    if qualifier =? 104 then Some (if flag flags SIGN then u64 (swrap 16 v) else u16 v, args)
    else Some (if flag flags SIGN then u64 (s32 v) else u32 v, args).

(** [while (isalnum(fmt[1])) fmt++] *)
Fixpoint skip_alnum (fmt : list Z) : list Z :=
  match fmt with c :: fmt' => if isalnum c then skip_alnum fmt' else fmt | [] => [] end.

(** One conversion: an error, or the output, the rest of the string and the
    arguments. *)
Definition convert `{PrintfConfig} (end_ : Z) (o : out) (d : conversion) : option (Z + out * list Z * list va_val) :=
  let '(mk_conv flags field_width precision qualifier fmt args) := d in
  let c := ch fmt in
  if c =? 99 then
    let pad := replicate (Z.to_nat (field_width - 1)) 32 in
    o ← if negb (flag flags LEFT) then addchs end_ o pad else Some o;
    '(v, args) ← va_arg_int args;
    o ← ADDCH end_ o (u8 v);
    o ← if negb (flag flags LEFT) then Some o else addchs end_ o pad;
    Some (inr (o, tl fmt, args))
  else if c =? 115 then
    if qualifier =? 108
    then '(s, args) ← va_arg_wide args; o ← string16 end_ o s field_width precision flags; Some (inr (o, tl fmt, args))
    else '(s, args) ← va_arg_str args; o ← put_string end_ o s field_width precision flags; Some (inr (o, tl fmt, args))
  else if c =? 112 then
    '(p, obj, args) ← va_arg_ptr args;
    r ← pointer (tl fmt) end_ o p obj field_width precision flags;
    Some (match r with inl e => inl e | inr o => inr (o, skip_alnum (tl fmt), args) end)
  else if c =? 110 then
    args ← va_arg_out args;
    let long := qualifier =? 108 in
    Some (inr (mk_out (o_buf o) (o_pos o) ((long, if long then o_pos o else s32 (o_pos o)) :: o_stored o), tl fmt, args))
  else if c =? 37 then o ← ADDCH end_ o 37; Some (inr (o, tl fmt, args))
  else
    match number_base c flags with
    | Some (base, flags) =>
        '(num, args) ← number_arg qualifier flags args;
        o ← number end_ o num base field_width precision flags;
        Some (inr (o, tl fmt, args))
    | None =>
        o ← ADDCH end_ o 37;
        o ← if negb (c =? 0) then ADDCH end_ o c else Some o;
        Some (inr (o, tl fmt, args))
    end.

(** The loop over the string; each pass takes a character at least.  An error comes
    with the output so far. *)
Fixpoint format_loop `{PrintfConfig} (fuel : nat) (end_ : Z) (o : out) (fmt : list Z) (args : list va_val) : option (option Z * out) :=
  match fuel, fmt with
  | _, [] => Some (None, o)
  | O, _ => None
  | S fuel, c :: fmt =>
      if negb (c =? 37) then o ← ADDCH end_ o c; format_loop fuel end_ o fmt args
      else
        d ← parse_conversion fmt args;
        r ← convert end_ o d;
        match r with
        | inl e => Some (Some e, o)
        | inr (o, fmt, args) => format_loop fuel end_ o fmt args
        end
  end.

(** [buf] is at the address [addr].  The return value, the buffer and what was
    stored. *)
Definition vsnprintf_internal `{PrintfConfig} (addr : Z) (buf : list Z) (size : Z) (fmt : list Z) (args : list va_val) : option (Z * list Z * list (bool * Z)) :=
  let size := if u64 (addr + size) <? addr then u64 (-1) - addr else size in
  '(e, o) ← format_loop (length fmt) size (mk_out buf 0 []) fmt args;
  match e with
  | Some e => Some (e, o_buf o, rev (o_stored o))
  | None =>
      if 0 <? size then
        o' ← ADDCH size o 0;
        b ← if size <? o_pos o' then aset (o_buf o') (size - 1) 0 else Some (o_buf o');
        Some (s32 (o_pos o' - 1), b, rev (o_stored o'))
      else Some (s32 (o_pos o), o_buf o, rev (o_stored o))
  end.

(** ** The functions *)

Definition INT_MAX : Z := 0x7fffffff.

Section Functions.
Context `{PrintfConfig}.
Context (addr : Z) (buf : list Z).

Definition vsnprintf (size : Z) (fmt : list Z) (args : list va_val) : option (Z * list Z * list (bool * Z)) :=
  vsnprintf_internal addr buf size fmt args.

(** [i] is compared as a [size_t]. *)
Definition vscnprintf (size : Z) (fmt : list Z) (args : list va_val) : option (Z * list Z * list (bool * Z)) :=
  '(i, buf, st) ← vsnprintf size fmt args;
  Some (if u64 i <? size then i else if negb (size =? 0) then s32 (size - 1) else 0, buf, st).

Definition snprintf (size : Z) (fmt : list Z) (args : list va_val) : option (Z * list Z * list (bool * Z)) := vsnprintf size fmt args.
Definition scnprintf (size : Z) (fmt : list Z) (args : list va_val) : option (Z * list Z * list (bool * Z)) := vscnprintf size fmt args.
Definition vsprintf (fmt : list Z) (args : list va_val) : option (Z * list Z * list (bool * Z)) := vsnprintf_internal addr buf INT_MAX fmt args.
Definition sprintf (fmt : list Z) (args : list va_val) : option (Z * list Z * list (bool * Z)) := vsprintf fmt args.
End Functions.

Section Print.
Context `{PrintfConfig}.

(** [puts] of the buffer, which ends at a NUL. *)
Definition puts_buffer (b : list Z) : option (list Z) := if existsb (Z.eqb 0) b then Some (cstr b) else None.

(** [addr]: the address of [printbuffer], which holds what is on the stack.  The
    return value and what is printed.  [i] is an [uint], so that an error is not
    noticed. *)
Definition vprintf (addr : Z) (printbuffer fmt : list Z) (args : list va_val) : option (Z * list Z) :=
  '(i, b, _) ← vscnprintf addr printbuffer CONFIG_SYS_PBSIZE fmt args;
  let i := u32 i in
  if i =? 0 then Some (s32 i, []) else text ← puts_buffer b; Some (s32 i, text).

Definition printf (addr : Z) (printbuffer fmt : list Z) (args : list va_val) : option (Z * list Z) := vprintf addr printbuffer fmt args.

(** The loop over the groups: [s] is at [p] in [b].  What is printed. *)
Fixpoint grouped_loop (fuel : nat) (addr : Z) (printbuffer b : list Z) (p : Z) : option (list Z) :=
  match fuel with
  | O => None
  | S fuel =>
      c ← aget b p;
      if c =? 0 then Some []
      else
        sep ← if negb (p =? 0) then prev ← aget b (p - 1); Some [if negb (prev =? 32) then 44 else 32] else Some [];
        '(_, text) ← printf addr printbuffer (str "%.*s") [va_int 3; va_str (Some (drop (Z.to_nat p) b))];
        rest ← grouped_loop fuel addr printbuffer b (p + 3);
        Some (sep ++ text ++ rest)
  end.

(** [b] are the bytes of [str], 21; each pass goes on by three. *)
Definition print_grouped_ull (addr : Z) (b : list Z) (print_addr : Z) (printbuffer : list Z) (int_val digits : Z) : option (list Z) :=
  let digits := Z.quot (digits + 2) 3 in
  '(_, b, _) ← sprintf addr b (str "%*llu") [va_int (digits * 3); va_long int_val];
  grouped_loop (length b) print_addr printbuffer b 0.
End Print.

(** Whether all of the string is a number, and the number. *)
Definition str2long (p : list Z) : bool * Z :=
  let '(num, endptr) := simple_strtoul p 16 in (negb (ch p =? 0) && (ch endptr =? 0), num).
Definition str2off (p : list Z) : bool * Z :=
  let '(num, endptr) := simple_strtoull p 16 in (negb (ch p =? 0) && (ch endptr =? 0), num).

(** ** The digits of a number *)

(** The decimal digits of [n], the least significant first. *)
Fixpoint rdec (fuel : nat) (n : Z) : list Z :=
  match fuel with
  | O => []
  | S fuel => (n mod 10 + 48) :: if n <? 10 then [] else rdec fuel (n / 10)
  end.

Lemma rdec_digits fuel : forall n, rev (digits fuel 10 n) = rdec fuel n.
Proof.
  induction fuel as [|fuel IH]; intros n; [done|]. cbn [digits rdec]. pose proof (Z.mod_pos_bound n 10).
  rewrite (proj2 (Z.ltb_lt (n mod 10) 10)), (Z.add_comm 48) by lia. case_if; [done|]. by rewrite rev_app_distr, IH.
Qed.

Lemma mul_cd x : 0 <= x < 1024 -> Z.shiftr (x * 0xcd) 11 = x / 10.
Proof. intros Hx. rewrite Z.shiftr_div_pow2 by lia. change (2 ^ 11) with 2048. Z.to_euclidean_division_equations. lia. Qed.

Lemma mul_0d x : 0 <= x < 69 -> Z.shiftr (x * 0xd) 7 = x / 10.
Proof. intros Hx. rewrite Z.shiftr_div_pow2 by lia. change (2 ^ 7) with 128. Z.to_euclidean_division_equations. lia. Qed.

(** The four hexadecimal digits of a small number. *)
Lemma hex4 q : 0 <= q < 100000 ->
  exists a b c d, q = 4096 * a + 256 * b + 16 * c + d /\ 0 <= a <= 24 /\ 0 <= b <= 15 /\ 0 <= c <= 15 /\ 0 <= d <= 15 /\
    Z.shiftr q 12 = a /\ Z.land (Z.shiftr q 8) 0xf = b /\ Z.land (Z.shiftr q 4) 0xf = c /\ Z.land q 0xf = d.
Proof.
  intros Hq. exists (q / 4096), (q / 256 mod 16), (q / 16 mod 16), (q mod 16).
  rewrite !Z.shiftr_div_pow2 by lia. change 0xf with (Z.ones 4). rewrite !Z.land_ones by lia. change (Z.ones 4) with 15. change (2 ^ 4) with 16. change (2 ^ 8) with 256.
  change (2 ^ 12) with 4096. split_and!; try done; Z.to_euclidean_division_equations; lia.
Qed.

(** The quotients of the two functions are those of divisions by 10. *)
Lemma dec5 a b c d : 0 <= a <= 24 -> 0 <= b <= 15 -> 0 <= c <= 15 -> 0 <= d <= 15 ->
  let q := 4096 * a + 256 * b + 16 * c + d in
  let x0 := 6 * (a + b + c) + d in let x1 := x0 / 10 + 9 * a + 5 * b + c in let x2 := x1 / 10 + 2 * b in let x3 := x2 / 10 + 4 * a in
  (0 <= x0 < 1024 /\ 0 <= x1 < 1024 /\ 0 <= x2 < 69 /\ 0 <= x3 < 1024) /\
  x0 - 10 * (x0 / 10) = q mod 10 /\ x1 - 10 * (x1 / 10) = q / 10 mod 10 /\ x2 - 10 * (x2 / 10) = q / 10 / 10 mod 10 /\
  x3 = q / 10 / 10 / 10 /\ (x1 = 0 <-> q / 10 = 0) /\ (x2 = 0 /\ a = 0 <-> q / 10 / 10 = 0).
Proof.
  intros Ha Hb Hc Hd q x0 x1 x2 x3.
  assert (q / 10 = 409 * a + 25 * b + c + x0 / 10) as H1 by (subst q x0; Z.to_euclidean_division_equations; lia).
  assert (q / 10 / 10 = 40 * a + 2 * b + x1 / 10) as H2 by (rewrite H1; subst x1; Z.to_euclidean_division_equations; lia).
  assert (q / 10 / 10 / 10 = x3) as H3 by (rewrite H2; subst x3 x2; Z.to_euclidean_division_equations; lia).
  assert (0 <= x0 / 10 <= 33) as B0 by (subst x0; Z.to_euclidean_division_equations; lia).
  assert (0 <= x1 <= 339) as B1 by (subst x1; lia).
  assert (0 <= x1 / 10 <= 33) as B1' by (Z.to_euclidean_division_equations; lia).
  assert (0 <= x2 <= 63) as B2 by (subst x2; lia). assert (0 <= x2 / 10 <= 6) as B2' by (Z.to_euclidean_division_equations; lia).
  split_and!; try (subst x0 x3; lia); try lia.
  - subst q x0. Z.to_euclidean_division_equations. lia.
  - rewrite H1. subst x1. Z.to_euclidean_division_equations. lia.
  - rewrite H2. subst x2. Z.to_euclidean_division_equations. lia.
Qed.

Ltac dec_quotients := repeat first [rewrite mul_cd by lia | rewrite mul_0d by lia].

Lemma put_dec_full_spec q : 0 <= q < 100000 ->
  put_dec_full q = [q mod 10 + 48; q / 10 mod 10 + 48; q / 10 / 10 mod 10 + 48; q / 10 / 10 / 10 mod 10 + 48; q / 10 / 10 / 10 / 10 + 48].
Proof.
  intros Hq. destruct (hex4 q Hq) as (a & b & c & d & Eq & Ha & Hb & Hc & Hd & E3 & E2 & E1 & E0).
  destruct (dec5 a b c d Ha Hb Hc Hd) as ((B0 & B1 & B2 & B3) & D0 & D1 & D2 & D3 & _). unfold put_dec_full. rewrite E3, E2, E1, E0.
  dec_quotients. rewrite D0, D1, D2, D3, <- Eq. repeat f_equal. rewrite Z.mod_eq by lia. done.
Qed.

Lemma put_dec_trunc_spec q fuel : 0 <= q < 100000 -> (5 <= fuel)%nat -> put_dec_trunc q = rdec fuel q.
Proof.
  intros Hq Hf. do 5 (destruct fuel as [|fuel]; [lia|]). clear Hf.
  destruct (hex4 q Hq) as (a & b & c & d & Eq & Ha & Hb & Hc & Hd & E3 & E2 & E1 & E0).
  destruct (dec5 a b c d Ha Hb Hc Hd) as ((B0 & B1 & B2 & B3) & D0 & D1 & D2 & D3 & Z1 & Z2). unfold put_dec_trunc. rewrite E3, E2, E1, E0.
  dec_quotients. rewrite D0, D1, D2, D3. rewrite <- Eq in *. cbn [rdec].
  set (q1 := q / 10) in *. set (q2 := q1 / 10) in *. set (q3 := q2 / 10) in *.
  assert (0 <= q1 < 10000 /\ 0 <= q2 < 1000 /\ 0 <= q3 < 100) as (R1 & R2 & R3) by (subst q1 q2 q3; Z.to_euclidean_division_equations; lia).
  assert ((q <? 10) = (q1 =? 0)) as -> by (subst q1; Z.to_euclidean_division_equations; lia).
  assert ((q1 <? 10) = (q2 =? 0)) as -> by (subst q2; Z.to_euclidean_division_equations; lia).
  assert ((q2 <? 10) = (q3 =? 0)) as -> by (subst q3; Z.to_euclidean_division_equations; lia).
  assert ((q3 <? 10) = (q3 / 10 =? 0)) as -> by (Z.to_euclidean_division_equations; lia).
  f_equal. match goal with |- (if negb (?x =? 0) then _ else _) = _ => assert ((x =? 0) = (q1 =? 0)) as -> by lia end.
  destruct (q1 =? 0); [done|]. cbn [negb]. f_equal.
  match goal with |- (if negb (?x =? 0) || negb (?y =? 0) then _ else _) = _ => assert (negb (x =? 0) || negb (y =? 0) = negb (q2 =? 0)) as -> by lia end.
  destruct (q2 =? 0); [done|]. cbn [negb]. f_equal. destruct (q3 =? 0); [done|]. cbn [negb]. f_equal; [rewrite Z.mod_eq by lia; done|].
  destruct (q3 / 10 =? 0) eqn:E; [done|]. cbn [negb]. assert (0 <= q3 / 10 < 10) as R4 by (Z.to_euclidean_division_equations; lia).
  rewrite Z.mod_small, (proj2 (Z.ltb_lt _ _) (proj2 R4)) by lia. done.
Qed.

Lemma put_dec_loop_spec k : forall fuel num, 0 <= num < 100000 ^ Z.of_nat k -> (0 < k)%nat -> (5 * k <= fuel)%nat -> put_dec_loop k num = rdec fuel num.
Proof.
  induction k as [|k IH]; intros fuel num Hn Hk Hf; [lia|]. cbn [put_dec_loop]. case_if; [apply put_dec_trunc_spec; lia|].
  destruct k as [|k]; [simpl in Hn; lia|]. assert (0 <= num / 100000 < 100000 ^ Z.of_nat (S k)) as Hq.
  { split; [apply Z.div_pos; lia|]. apply Z.div_lt_upper_bound; [lia|]. rewrite (Nat2Z.inj_succ (S k)), Z.pow_succ_r in Hn by lia. lia. }
  do 5 (destruct fuel as [|fuel]; [lia|]). rewrite (IH fuel) by (lia || done). clear IH Hn Hq Hk Hf.
  pose proof (Z.mod_pos_bound num 100000 ltac:(lia)). rewrite put_dec_full_spec by done. cbn [rdec app].
  set (n1 := num / 10). set (n2 := n1 / 10). set (n3 := n2 / 10). set (n4 := n3 / 10). set (r := num mod 100000).
  assert (n4 / 10 = num / 100000 /\ 10000 <= n1 /\ 1000 <= n2 /\ 100 <= n3 /\ 10 <= n4) as (<- & ? & ? & ? & ?)
    by (subst n1 n2 n3 n4; split_and!; Z.to_euclidean_division_equations; lia).
  rewrite !(proj2 (Z.ltb_ge _ 10)) by lia.
  assert (r mod 10 = num mod 10) as -> by (subst r; Z.to_euclidean_division_equations; lia).
  assert (r / 10 mod 10 = n1 mod 10) as -> by (subst r n1; Z.to_euclidean_division_equations; lia).
  assert (r / 10 / 10 mod 10 = n2 mod 10) as -> by (subst r n1 n2; Z.to_euclidean_division_equations; lia).
  assert (r / 10 / 10 / 10 mod 10 = n3 mod 10) as -> by (subst r n1 n2 n3; Z.to_euclidean_division_equations; lia).
  assert (r / 10 / 10 / 10 / 10 = n4 mod 10) as -> by (subst r n1 n2 n3 n4; Z.to_euclidean_division_equations; lia). done.
Qed.

Lemma put_dec_digits num : 0 <= num < 2 ^ 64 -> put_dec num = rev (digits 22 10 num).
Proof. intros Hn. rewrite rdec_digits. apply put_dec_loop_spec; [|lia|lia]. change (100000 ^ Z.of_nat 4) with 100000000000000000000. lia. Qed.

(** The letters of a digit. *)
Definition cased (small : bool) (c : Z) : Z := if small then c else toupper c.

Lemma digit_letter (d : Z) (small : bool) : 0 <= d < 16 ->
  Z.lor (nth (Z.to_nat d) (str "0123456789ABCDEF") 0) (if small then 32 else 0) = cased small (if d <? 10 then 48 + d else 97 + (d - 10)).
Proof.
  intros Hd. assert (forallb (fun d => forallb (fun small : bool =>
    Z.lor (nth (Z.to_nat d) (str "0123456789ABCDEF") 0) (if small then 32 else 0) =? cased small (if d <? 10 then 48 + d else 97 + (d - 10))) [true; false])
    (seqZ 0 16) = true) as Hall by (vm_compute; reflexivity).
  rewrite forallb_forall in Hall. specialize (Hall d ltac:(apply list_elem_of_In, elem_of_seqZ; lia)). rewrite forallb_forall in Hall.
  apply Z.eqb_eq, Hall. destruct small; [left|right; left]; done.
Qed.

Lemma pow2_digits_spec fuel base shift small : base = 2 ^ shift -> 0 < shift <= 4 -> forall num, 0 <= num ->
  pow2_digits fuel num (base - 1) shift (if small : bool then 32 else 0) = cased small <$> rev (digits fuel base num).
Proof.
  intros Hb Hs. assert (2 <= base <= 16) as Hb' by (subst base; assert (shift = 1 \/ shift = 2 \/ shift = 3 \/ shift = 4) as [->|[->|[->| ->]]] by lia; lia).
  induction fuel as [|fuel IH]; intros num Hn; [done|]. cbn [pow2_digits digits]. cbv zeta.
  assert (Z.land (u8 num) (base - 1) = num mod base) as ->.
  { replace (base - 1) with (Z.ones shift) by (rewrite Z.ones_equiv; lia). rewrite Z.land_ones, <- Hb by lia. unfold wrap.
    symmetry. apply Znumtheory.Zmod_div_mod; [lia|lia|]. exists (2 ^ (8 - shift)). rewrite Hb, <- Z.pow_add_r by lia. f_equal. lia. }
  pose proof (Z.mod_pos_bound num base ltac:(lia)). rewrite digit_letter by lia. rewrite Z.shiftr_div_pow2, <- Hb by lia.
  assert (negb (num / base =? 0) = negb (num <? base)) as -> by (f_equal; Z.to_euclidean_division_equations; nia).
  destruct (num <? base); [done|]. cbn [negb]. rewrite IH by (apply Z.div_pos; lia). by rewrite rev_app_distr.
Qed.

(** ** What is written *)

Lemma addchs_app e o cs1 cs2 : addchs e o (cs1 ++ cs2) = (o' ← addchs e o cs1; addchs e o' cs2).
Proof.
  revert o. induction cs1 as [|c cs1 IH]; intros o; [done|]. cbn [addchs app]. destruct (ADDCH e o c) as [o1|]; [|done]. rewrite !mbind_Some. apply IH.
Qed.

Lemma addchs_one e o c : ADDCH e o c = addchs e o [c].
Proof. cbn [addchs]. by destruct (ADDCH e o c). Qed.

Lemma addchs_none e o : addchs e o [] = Some o.
Proof. done. Qed.

Lemma addch_while_eq e o c n : addch_while e o c n = (o' ← addchs e o (replicate (Z.to_nat n) c); Some (o', Z.min n 0 - 1)).
Proof. done. Qed.

Lemma addchs_pos e o cs o' : addchs e o cs = Some o' -> o_pos o' = o_pos o + Z.of_nat (length cs) /\ o_stored o' = o_stored o.
Proof.
  revert o. induction cs as [|c cs IH]; intros o E; [injection E as <-; split; [simpl; lia|done]|]. cbn [addchs] in E.
  destruct (ADDCH e o c) as [o1|] eqn:E1; [|done]. unfold ADDCH in E1. rewrite mbind_Some in E. apply IH in E as [-> ->].
  assert (o_pos o1 = o_pos o + 1 /\ o_stored o1 = o_stored o) as [-> ->].
  { destruct (o_pos o <? e); [destruct (aset _ _ _); [|done]|]; by injection E1 as <-. }
  cbn [length]. split; [lia|done].
Qed.

(** Up to the limit the bytes are written, behind it they are counted. *)
Lemma addchs_spec e cs : forall o, 0 <= o_pos o -> e <= Z.of_nat (length (o_buf o)) \/ o_pos o + Z.of_nat (length cs) <= Z.of_nat (length (o_buf o)) ->
  addchs e o cs = Some (mk_out (blit (o_buf o) (Z.to_nat (o_pos o)) (take (Z.to_nat (e - o_pos o)) (u8 <$> cs))) (o_pos o + Z.of_nat (length cs)) (o_stored o)).
Proof.
  induction cs as [|c cs IH]; intros [b p st] Hp He; cbn [o_buf o_pos o_stored length] in *.
  - cbn [addchs length fmap list_fmap]. rewrite take_nil, blit_nil. f_equal. f_equal. lia.
  - cbn [addchs length fmap list_fmap]. unfold ADDCH. cbn [o_buf o_pos o_stored]. case_if.
    + rewrite aset_in by lia. rewrite !mbind_Some. rewrite IH by (cbn [o_pos o_buf]; rewrite ?length_insert; lia). cbn [o_buf o_pos o_stored].
      replace (Z.to_nat (e - p)) with (S (Z.to_nat (e - (p + 1)))) by lia. cbn [take].
      replace (Z.to_nat (p + 1)) with (Z.to_nat p + 1)%nat by lia. rewrite blit_cons by (rewrite length_take, length_fmap; lia). f_equal. f_equal. lia.
    + rewrite mbind_Some, IH by (cbn [o_pos o_buf]; lia). cbn [o_buf o_pos o_stored]. replace (Z.to_nat (e - p)) with 0%nat by lia.
      replace (Z.to_nat (e - (p + 1))) with 0%nat by lia. cbn [take].
      rewrite !blit_nil. f_equal. f_equal. lia.
Qed.

(** The text of a number with sign, prefix, precision and width. *)
Definition number_sign (num type : Z) : list Z :=
  if flag type SIGN then if s64 num <? 0 then [45] else if flag type PLUS then [43] else if flag type SPACE then [32] else [] else [].

Definition number_prefix (base type : Z) : list Z :=
  if flag type SPECIAL && negb (base =? 10) then 48 :: (if base =? 16 then [if flag type SMALL then 120 else 88] else []) else [].

Definition number_abs (num type : Z) : Z := if flag type SIGN then if s64 num <? 0 then u64 (- s64 num) else num else num.

Definition number_digits (num base type : Z) : list Z :=
  (if base =? 10 then id else fmap (cased (flag type SMALL))) (digits 22 base (number_abs num type)).

Definition number_text (num base width precision type : Z) : list Z :=
  let ds := number_digits num base type in
  let head := number_sign num type ++ number_prefix base type in
  let body := replicate (Z.to_nat (precision - Z.of_nat (length ds))) 48 ++ ds in
  let pad := Z.to_nat (width - Z.of_nat (length (head ++ body))) in
  if flag type LEFT then head ++ body ++ replicate pad 32
  else if flag type ZEROPAD then head ++ replicate pad 48 ++ body
  else replicate pad 32 ++ head ++ body.

Lemma ldiff_flags type bit bit' : Z.land bit bit' = 0 -> flag (Z.ldiff type bit') bit = flag type bit.
Proof.
  intros Hb. unfold flag. do 2 f_equal. apply Z.bits_inj'. intros n Hn. apply (f_equal (fun z => Z.testbit z n)) in Hb.
  rewrite !Z.land_spec, Z.ldiff_spec, Z.bits_0 in *. by destruct (Z.testbit type n), (Z.testbit bit n), (Z.testbit bit' n).
Qed.

Lemma flag_add type a b : Z.land a b = 0 -> 0 <= a -> 0 <= b -> flag type (a + b) = flag type a || flag type b.
Proof.
  intros Hab Ha Hb. unfold flag. rewrite Z.add_nocarry_lxor, Z.lxor_lor, Z.land_lor_distr_r by done.
  destruct (Z.eqb_spec (Z.lor (Z.land type a) (Z.land type b)) 0) as [E|E].
  - apply Z.lor_eq_0_iff in E as [-> ->]. done.
  - destruct (Z.eqb_spec (Z.land type a) 0) as [Ea|]; [|done]. destruct (Z.eqb_spec (Z.land type b) 0) as [Eb|]; [|done]. by rewrite Ea, Eb in E.
Qed.

Lemma small_locase type : Z.land type SMALL = if flag type SMALL then 32 else 0.
Proof.
  unfold flag. change SMALL with (2 ^ 5). pose proof (Z.land_ones (Z.shiftr type 5) 1 ltac:(lia)) as H1.
  assert (Z.land type (2 ^ 5) = if Z.testbit type 5 then 32 else 0) as ->.
  { apply Z.bits_inj'. intros n Hn. rewrite Z.land_spec, Z.pow2_bits_eqb by lia. destruct (Z.eqb_spec 5 n) as [<-|Hne].
    - rewrite andb_true_r. by destruct (Z.testbit type 5).
    - rewrite andb_false_r. destruct (Z.testbit type 5); [|by rewrite Z.bits_0]. change 32 with (2 ^ 5). by rewrite Z.pow2_bits_false by done. }
  by destruct (Z.testbit type 5).
Qed.

Lemma length_digits fuel base n : (length (digits fuel base n) <= fuel)%nat.
Proof. revert n. induction fuel as [|fuel IH]; intros n; [done|]. cbn [digits]. cbv zeta. case_if; [simpl; lia|]. rewrite length_app. specialize (IH (n / base)). simpl. lia. Qed.

Definition base_ok (base : Z) : Prop := base = 8 \/ base = 10 \/ base = 16.

Lemma number_tmp num base type : 0 <= num < 2 ^ 64 -> base_ok base ->
  (if num =? 0 then [48] else if negb (base =? 10) then pow2_digits 22 num (base - 1) (if base =? 16 then 4 else 3) (if flag type SMALL then 32 else 0) else put_dec num)
  = rev ((if base =? 10 then id else fmap (cased (flag type SMALL))) (digits 22 base num)).
Proof.
  intros Hn Hb. destruct (Z.eqb_spec num 0) as [->|Hz].
  - destruct Hb as [->|[->| ->]]; destruct (flag type SMALL); reflexivity.
  - assert (forall f : Z -> Z, rev (f <$> digits 22 base num) = f <$> rev (digits 22 base num)) as Hrev by (intros f; symmetry; apply map_rev).
    destruct Hb as [->|[->| ->]]; cbn [Z.eqb Pos.eqb negb id].
    + rewrite Hrev. by apply (pow2_digits_spec 22 8 3); [|lia|lia].
    + by apply put_dec_digits.
    + rewrite Hrev. by apply (pow2_digits_spec 22 16 4); [|lia|lia].
Qed.

Lemma length_number_digits num base type : (length (number_digits num base type) <= 22)%nat.
Proof. unfold number_digits. pose proof (length_digits 22 base (number_abs num type)). destruct (base =? 10); [done|]. by rewrite length_fmap. Qed.

Lemma number_abs_range num type : 0 <= num < 2 ^ 64 -> 0 <= number_abs num type < 2 ^ 64.
Proof. intros Hn. unfold number_abs. destruct (flag type SIGN), (s64 num <? 0); try done. by apply wrap_range. Qed.

(** Runs of characters, one behind the other; [simp] rewrites what is left. *)
Ltac runs simp :=
  repeat first
    [ reflexivity
    | progress cbv beta iota
    | rewrite mbind_Some
    | progress simp
    | rewrite addchs_app
    | rewrite addchs_none
    | match goal with |- context [addchs ?e ?o ?cs] => destruct (addchs e o cs); [|reflexivity] end ].

(** The type without [ZEROPAD] where the number is on the left. *)
Definition shown_type (type : Z) : Z := if flag type LEFT then Z.ldiff type ZEROPAD else type.

Lemma shown_flags type : let t := shown_type type in
  flag t SIGN = flag type SIGN /\ flag t PLUS = flag type PLUS /\ flag t SPACE = flag type SPACE /\ flag t LEFT = flag type LEFT /\
  flag t ZEROPAD = negb (flag type LEFT) && flag type ZEROPAD /\ flag t (ZEROPAD + LEFT) = flag type ZEROPAD || flag type LEFT.
Proof.
  unfold shown_type. cbv zeta. rewrite (flag_add _ ZEROPAD LEFT) by done. destruct (flag type LEFT) eqn:E; [|by rewrite E].
  rewrite !ldiff_flags by done. rewrite E, !orb_true_r. split_and!; try done. unfold flag.
  assert (Z.land (Z.ldiff type ZEROPAD) ZEROPAD = 0) as ->; [|done]. apply Z.bits_inj'. intros n Hn. rewrite Z.land_spec, Z.ldiff_spec, Z.bits_0.
  by destruct (Z.testbit type n), (Z.testbit ZEROPAD n).
Qed.

Lemma number_spec e o num base size precision type : 0 <= num < 2 ^ 64 -> base_ok base ->
  number e o num base size precision type = addchs e o (number_text num base size precision type).
Proof.
  intros Hn Hb. unfold number. fold (shown_type type). destruct (shown_flags type) as (F1 & F2 & F3 & F4 & F5 & F6). rewrite F1, F2, F3, F4, F5, F6, small_locase.
  set (sgn := number_sign num type). set (pfx := number_prefix base type).
  assert ((if flag type SIGN then if s64 num <? 0 then (45, u64 (- s64 num), size - 1) else if flag type PLUS then (43, num, size - 1)
           else if flag type SPACE then (32, num, size - 1) else (0, num, size) else (0, num, size)) =
          (hd 0 sgn, number_abs num type, size - Z.of_nat (length sgn))) as ->.
  { subst sgn. unfold number_sign, number_abs. destruct (flag type SIGN); [|simpl; f_equal; lia].
    destruct (s64 num <? 0); [done|]. destruct (flag type PLUS); [done|]. destruct (flag type SPACE); [done|]. simpl. f_equal. lia. }
  cbv beta iota zeta. rewrite (number_tmp (number_abs num type) base type (number_abs_range num type Hn) Hb). fold (number_digits num base type).
  pose proof (length_number_digits num base type) as Hlen. unfold number_text. fold sgn pfx. set (ds := number_digits num base type) in *.
  rewrite length_rev, rev_involutive, (proj2 (Z.ltb_ge 66 _)) by lia.
  match goal with |- context [if flag type SPECIAL && negb (base =? 10) then if base =? 16 then ?x else ?y else ?z] =>
    assert ((if flag type SPECIAL && negb (base =? 10) then if base =? 16 then x else y else z) = size - Z.of_nat (length sgn) - Z.of_nat (length pfx)) as -> end.
  { subst pfx. unfold number_prefix. destruct (flag type SPECIAL && negb (base =? 10)); [destruct (base =? 16)|]; simpl; lia. }
  set (i := Z.of_nat (length ds)) in *. set (prec := if precision <? i then i else precision).
  assert (forall o', (if negb (hd 0 sgn =? 0) then ADDCH e o' (hd 0 sgn) else Some o') = addchs e o' sgn) as Hs.
  { intros o'. subst sgn. unfold number_sign. destruct (flag type SIGN), (s64 num <? 0), (flag type PLUS), (flag type SPACE); cbn [hd Z.eqb negb]; rewrite ?addchs_one; reflexivity. }
  assert (forall o', (if flag type SPECIAL && negb (base =? 10) then o1 ← ADDCH e o' 48; if base =? 16 then ADDCH e o1 (Z.lor 88 (if flag type SMALL then 32 else 0)) else Some o1
    else Some o') = addchs e o' pfx) as Hp.
  { intros o'. subst pfx. unfold number_prefix. destruct (flag type SPECIAL && negb (base =? 10)); [|done]. cbn [addchs].
    destruct (ADDCH e o' 48) as [o1|]; [|done]. rewrite !mbind_Some. destruct (base =? 16); [|done]. rewrite addchs_one. by destruct (flag type SMALL). }
  assert (Z.to_nat (prec - i) = Z.to_nat (precision - i)) as Hprec by (unfold prec; case_if; lia). rewrite Hprec.
  set (pad := Z.to_nat (size - Z.of_nat (length ((sgn ++ pfx) ++ replicate (Z.to_nat (precision - i)) 48 ++ ds)))).
  set (sz := size - Z.of_nat (length sgn) - Z.of_nat (length pfx) - prec).
  assert (Z.to_nat sz = pad) as Hpad. { unfold sz, pad, prec. rewrite !length_app, length_replicate. case_if; lia. }
  assert (Z.to_nat (Z.min sz 0 - 1) = 0%nat /\ Z.to_nat (Z.min (Z.min sz 0 - 1) 0 - 1) = 0%nat) as [Hm1 Hm2] by lia.
  destruct (flag type LEFT), (flag type ZEROPAD); cbn [negb andb orb];
    runs ltac:(rewrite ?Hs, ?Hp, ?addch_while_eq, ?Hpad, ?Hm1, ?Hm2; cbn [replicate]).
Qed.

(** *** Text that does not depend on the buffer *)

(** Every conversion writes characters that are fixed by its arguments, or fails
    whatever the buffer is. *)
Definition uniform (f : Z -> out -> option out) : Prop := (forall e o, f e o = None) \/ exists cs, forall e o, f e o = addchs e o cs.

Lemma uniform_addchs cs : uniform (fun e o => addchs e o cs).
Proof. right. by exists cs. Qed.

Lemma uniform_bind f g : uniform f -> uniform g -> uniform (fun e o => o' ← f e o; g e o').
Proof.
  intros [Hf|[x Hx]] Hg; [left; intros e o; by rewrite Hf|]. destruct Hg as [Hg|[y Hy]].
  - left. intros e o. destruct (f e o); [apply Hg|done].
  - right. exists (x ++ y). intros e o. rewrite addchs_app, Hx. destruct (addchs e o x); [apply Hy|done].
Qed.

Lemma uniform_option {A} (x : option A) g : (forall a, uniform (g a)) -> uniform (fun e o => a ← x; g a e o).
Proof. intros Hg. destruct x as [a|]; [apply Hg|by left]. Qed.

Lemma uniform_padded s field_width flags : uniform (fun e o => put_padded e o s field_width flags).
Proof.
  unfold put_padded. set (len := Z.of_nat (length s)). destruct (flag flags LEFT); cbn [negb]; right.
  - exists (s ++ replicate (Z.to_nat (field_width - len)) 32). intros e o. rewrite mbind_Some. runs idtac.
  - exists (replicate (Z.to_nat (field_width - len)) 32 ++ s). intros e o.
    runs ltac:(replace (Z.to_nat (Z.min field_width len - 1 - len)) with 0%nat by lia; cbn [replicate]).
Qed.

Lemma uniform_string s field_width precision flags : uniform (fun e o => put_string e o s field_width precision flags).
Proof. apply uniform_padded. Qed.

Lemma uniform_string16 s field_width precision flags : uniform (fun e o => string16 e o s field_width precision flags).
Proof. unfold string16. apply uniform_option. intros a. apply uniform_padded. Qed.

Lemma uniform_number num base field_width precision type : 0 <= num < 2 ^ 64 -> base_ok base -> uniform (fun e o => number e o num base field_width precision type).
Proof. intros Hn Hb. right. eexists. intros e o. by apply number_spec. Qed.

Lemma u64_range z : 0 <= u64 z < 2 ^ 64.
Proof. by apply wrap_range. Qed.

Lemma base_16 : base_ok 16.
Proof. by right; right. Qed.

Create HintDb printf.
#[export] Hint Resolve uniform_string uniform_string16 uniform_number uniform_option u64_range base_16 : printf.

(** What a conversion returns, for every buffer: nothing, an error, or text. *)
Definition uniform_sum (f : Z -> out -> option (Z + out)) : Prop :=
  (forall e o, f e o = None) \/ (exists err, err < 0 /\ forall e o, f e o = Some (inl err)) \/ exists cs, forall e o, f e o = inr <$> addchs e o cs.

Lemma uniform_inr f : uniform f -> uniform_sum (fun e o => inr <$> f e o).
Proof. intros [Hf|[cs Hf]]; [left; intros e o; by rewrite Hf|right; right]. exists cs. intros e o. by rewrite Hf. Qed.

Lemma uniform_dp f p dp field_width precision flags : uniform_sum (fun e o => device_path_string e o f p dp field_width precision flags).
Proof.
  unfold device_path_string. destruct (p =? 0); [apply uniform_inr, uniform_string16|]. destruct (f dp); [apply uniform_inr, uniform_string16|].
  right. left. exists (- ENOMEM). by split.
Qed.

Lemma uniform_pointer_number num field_width precision flags : uniform_sum (fun e o => pointer_number e o num field_width precision flags).
Proof. unfold pointer_number. destruct (field_width =? -1); apply uniform_inr, uniform_number; auto with printf. Qed.

Lemma uniform_pointer `{PrintfConfig} fmt p obj field_width precision flags : uniform_sum (fun e o => pointer fmt e o p obj field_width precision flags).
Proof.
  unfold pointer. destruct (f ← efi_dp_str; _) as [f|]; [apply uniform_dp|]. repeat case_if; try apply uniform_pointer_number.
  1: { destruct (load_phys_addr obj) as [num|]; [apply uniform_pointer_number|by left]. }
  all: apply uniform_inr; unfold mac_address_string, ip6_addr_string, ip4_addr_string, uuid_string.
  all: do 2 (apply uniform_option; intros ?); apply uniform_string.
Qed.

(** *** The whole output *)

(** The text, and what [%n] stores, the last first, with the position in the text. *)
Record effect := mk_effect { e_text : list Z; e_stores : list (bool * Z) }.

Definition store_at (pos : Z) (x : bool * Z) : bool * Z := (x.1, if x.1 then pos + x.2 else s32 (pos + x.2)).

Definition emit (e : Z) (o : out) (x : effect) : option out :=
  o' ← addchs e o (e_text x); Some (mk_out (o_buf o') (o_pos o') ((store_at (o_pos o) <$> e_stores x) ++ o_stored o')).

Definition seq_effect (x y : effect) : effect :=
  mk_effect (e_text x ++ e_text y) (((fun s => (s.1, Z.of_nat (length (e_text x)) + s.2)) <$> e_stores y) ++ e_stores x).

Lemma emit_text e o cs : emit e o (mk_effect cs []) = addchs e o cs.
Proof. unfold emit. cbn [e_text e_stores]. destruct (addchs e o cs) as [[b p st]|]; done. Qed.

Lemma addchs_stored e o cs st : addchs e (mk_out (o_buf o) (o_pos o) st) cs = (o' ← addchs e o cs; Some (mk_out (o_buf o') (o_pos o') st)).
Proof.
  revert o. induction cs as [|c cs IH]; intros o; [done|]. cbn [addchs]. unfold ADDCH. cbn [o_buf o_pos o_stored]. case_if.
  - destruct (aset (o_buf o) (o_pos o) (u8 c)) as [b|]; [|done]. rewrite !mbind_Some. apply (IH (mk_out b (o_pos o + 1) (o_stored o))).
  - rewrite !mbind_Some. apply (IH (mk_out (o_buf o) (o_pos o + 1) (o_stored o))).
Qed.

Lemma emit_seq e o x y : emit e o (seq_effect x y) = (o' ← emit e o x; emit e o' y).
Proof.
  unfold emit, seq_effect. cbn [e_text e_stores]. rewrite addchs_app. destruct (addchs e o (e_text x)) as [o1|] eqn:E1; [|done]. rewrite !mbind_Some.
  rewrite addchs_stored. cbn [o_pos]. destruct (addchs e o1 (e_text y)) as [o2|] eqn:E2; [|done]. rewrite !mbind_Some. cbn [o_buf o_pos o_stored].
  apply addchs_pos in E1 as [Hp1 Hs1]. apply addchs_pos in E2 as [_ Hs2]. do 2 f_equal. rewrite Hs2, fmap_app, <- app_assoc, Hp1. f_equal.
  rewrite <- list_fmap_compose. apply list_fmap_ext. intros _ [l k] _. unfold store_at, compose. cbn [fst snd]. by rewrite Z.add_assoc.
Qed.

Definition uniform_conv (f : Z -> out -> option (Z + out * list Z * list va_val)) : Prop :=
  (forall e o, f e o = None) \/ (exists err, err < 0 /\ forall e o, f e o = Some (inl err)) \/
  exists x fmt args, forall e o, f e o = (o' ← emit e o x; Some (inr (o', fmt, args))).

Lemma uniform_conv_text f fmt args : uniform f -> uniform_conv (fun e o => o' ← f e o; Some (inr (o', fmt, args))).
Proof.
  intros [Hf|[cs Hf]]; [left; intros e o; by rewrite Hf|]. right. right. exists (mk_effect cs []), fmt, args. intros e o. by rewrite Hf, emit_text.
Qed.

Lemma uniform_conv_option {A} (x : option A) g : (forall a, x = Some a -> uniform_conv (g a)) -> uniform_conv (fun e o => a ← x; g a e o).
Proof. intros Hg. destruct x as [a|]; [by apply Hg|by left]. Qed.

Lemma number_arg_range q flags args num args' : number_arg q flags args = Some (num, args') -> 0 <= num < 2 ^ 64.
Proof.
  unfold number_arg. case_if.
  - destruct (va_arg_long args) as [[v a]|]; [|done]. intros [= <- <-]. apply u64_range.
  - destruct (va_arg_int args) as [[v a]|]; [|done]. rewrite mbind_Some. intros Hn. pose proof (wrap_range 16 v). pose proof (wrap_range 32 v).
    pose proof (u64_range (swrap 16 v)). pose proof (u64_range (s32 v)). destruct (q =? 104), (flag flags SIGN); injection Hn as <- <-; lia.
Qed.

Lemma number_base_ok c flags base flags' : number_base c flags = Some (base, flags') -> base_ok base.
Proof. unfold number_base, base_ok. repeat case_if; try done; intros [= <- <-]; auto. Qed.

Lemma uniform_convert `{PrintfConfig} d : uniform_conv (fun e o => convert e o d).
Proof.
  destruct d as [flags w p q fmt args]. unfold convert. destruct (ch fmt =? 99).
  { destruct (va_arg_int args) as [[v args']|]; [|left; intros e o; destruct (if negb _ then _ else _); done].
    right. right. exists (mk_effect (if flag flags LEFT then u8 v :: replicate (Z.to_nat (w - 1)) 32 else replicate (Z.to_nat (w - 1)) 32 ++ [u8 v]) []), (tl fmt), args'.
    intros e o. rewrite emit_text. destruct (flag flags LEFT); cbn [negb].
    - rewrite !mbind_Some. cbn [addchs]. by destruct (ADDCH e o (u8 v)).
    - runs ltac:(rewrite ?addchs_one). }
  destruct (ch fmt =? 115).
  { destruct (q =? 108); (apply uniform_conv_option; intros [s args'] _; apply uniform_conv_text; auto with printf). }
  destruct (ch fmt =? 112).
  { apply uniform_conv_option. intros [[ptr obj] args'] _. destruct (uniform_pointer (tl fmt) ptr obj w p flags) as [Hp|[(err & He & Hp)|[cs Hp]]].
    - left. intros e o. by rewrite Hp.
    - right. left. exists err. split; [done|]. intros e o. by rewrite Hp.
    - right. right. exists (mk_effect cs []), (skip_alnum (tl fmt)), args'. intros e o. rewrite Hp, emit_text. by destruct (addchs e o cs). }
  destruct (ch fmt =? 110).
  { apply uniform_conv_option. intros args' _. right. right. exists (mk_effect [] [(q =? 108, 0)]), (tl fmt), args'. intros e [b ps st].
    unfold emit. cbn. unfold store_at. cbn [fst snd]. by rewrite Z.add_0_r. }
  destruct (ch fmt =? 37). { apply uniform_conv_text. right. exists [37]. intros e o. apply addchs_one. }
  destruct (number_base (ch fmt) flags) as [[base flags']|] eqn:Eb.
  { apply uniform_conv_option. intros [num args'] En. apply uniform_conv_text, uniform_number; [by eapply number_arg_range|by eapply number_base_ok]. }
  right. right. exists (mk_effect (37 :: if ch fmt =? 0 then [] else [ch fmt]) []), (tl fmt), args. intros e o. rewrite emit_text. cbn [addchs].
  destruct (ADDCH e o 37) as [o1|]; [|done]. rewrite !mbind_Some. destruct (ch fmt =? 0); [done|]. cbn [negb]. rewrite addchs_one. by destruct (addchs e o1 _).
Qed.

Lemma uniform_format `{PrintfConfig} fuel : forall fmt args,
  (forall e o, format_loop fuel e o fmt args = None) \/
  exists err x, (forall z, err = Some z -> z < 0) /\ forall e o, format_loop fuel e o fmt args = (o' ← emit e o x; Some (err, o')).
Proof.
  assert (forall fuel args, exists err x, (forall z, err = Some z -> z < 0) /\ forall e o, format_loop fuel e o [] args = (o' ← emit e o x; Some (err, o'))) as Hnil.
  { intros f args. exists None, (mk_effect [] []). split; [done|]. intros e o. rewrite emit_text. by destruct f. }
  induction fuel as [|fuel IH]; intros [|c fmt] args; try (right; apply Hnil); [by left|]. cbn [format_loop]. destruct (c =? 37); cbn [negb].
  - destruct (parse_conversion fmt args) as [d|]; [|by left]. destruct (uniform_convert d) as [Hc|[(err & He & Hc)|(x & fmt' & args' & Hc)]].
    + left. intros e o. by rewrite mbind_Some, Hc.
    + right. exists (Some err), (mk_effect [] []). split; [by intros z [= <-]|]. intros e o. by rewrite mbind_Some, Hc, emit_text.
    + destruct (IH fmt' args') as [Hf|(err & y & He & Hf)].
      * left. intros e o. rewrite mbind_Some, Hc. destruct (emit e o x); [apply Hf|done].
      * right. exists err, (seq_effect x y). split; [done|]. intros e o. rewrite mbind_Some, Hc, emit_seq. destruct (emit e o x); [apply Hf|done].
  - destruct (IH fmt args) as [Hf|(err & y & He & Hf)].
    + left. intros e o. destruct (ADDCH e o c); [apply Hf|done].
    + right. exists err, (seq_effect (mk_effect [c] []) y). split; [done|]. intros e o. rewrite emit_seq, emit_text, <- addchs_one. destruct (ADDCH e o c); [apply Hf|done].
Qed.

(** *** Fuel *)

Lemma skip_atoi_length s : forall i, (length (skip_atoi s i).2 <= length s)%nat.
Proof. induction s as [|c s IH]; intros i; cbn [skip_atoi]; [done|]. case_if; [|done]. specialize (IH (i * 10 + c - 48)). simpl. lia. Qed.

Lemma parse_flags_length fmt : forall flags, (length (parse_flags fmt flags).2 <= length fmt)%nat.
Proof.
  induction fmt as [|c fmt IH]; intros flags; cbn [parse_flags]; [done|].
  repeat (case_if; [match goal with |- context [parse_flags fmt ?f] => specialize (IH f) end; simpl; lia|]). done.
Qed.

Lemma tl_length {A} (l : list A) : (length (tl l) <= length l)%nat.
Proof. destruct l; simpl; lia. Qed.

Lemma skip_alnum_length fmt : (length (skip_alnum fmt) <= length fmt)%nat.
Proof. induction fmt as [|c fmt IH]; cbn [skip_alnum]; [done|]. case_if; simpl; lia. Qed.

Lemma parse_conversion_length fmt args d : parse_conversion fmt args = Some d -> (length (c_fmt d) <= length fmt)%nat.
Proof.
  unfold parse_conversion. pose proof (parse_flags_length fmt 0) as L1. destruct (parse_flags fmt 0) as [flags f1]. cbn [snd] in L1.
  unfold parse_width. pose proof (skip_atoi_length f1 0) as L2. pose proof (tl_length f1) as L2'. destruct (skip_atoi f1 0) as [w0 f2]. cbn [snd] in L2.
  assert (forall w fl f a, (length f <= length fmt)%nat ->
    ('(p, fmt, args) ← parse_precision f a; let '(q, fmt) := parse_qualifier fmt in Some (mk_conv fl w p q fmt args)) = Some d -> (length (c_fmt d) <= length fmt)%nat) as Hrest.
  { intros w fl f a Hf E. destruct (parse_precision f a) as [[[p f'] a']|] eqn:Ep; [|done]. rewrite mbind_Some in E.
    assert (length f' <= length f)%nat as Hf'.
    { unfold parse_precision in Ep. pose proof (tl_length f). destruct (ch f =? 46); [|by injection Ep as _ <- _].
      pose proof (skip_atoi_length (tl f) 0). pose proof (tl_length (tl f)). destruct (fmt_digit (ch (tl f))).
      - destruct (skip_atoi (tl f) 0). cbn [snd] in *. injection Ep as _ <- _. lia.
      - destruct (ch (tl f) =? 42); [destruct (va_arg_int a) as [[??]|]; [|done]|]; injection Ep as _ <- _; lia. }
    unfold parse_qualifier in E. pose proof (tl_length f'). pose proof (tl_length (tl f')).
    destruct (existsb _ _); [destruct (_ && _)|]; injection E as <-; cbn [c_fmt]; lia. }
  destruct (fmt_digit (ch f1)); [rewrite mbind_Some; apply Hrest; lia|].
  destruct (ch f1 =? 42); [|rewrite mbind_Some; apply Hrest; lia]. destruct (va_arg_int args) as [[v a]|]; [|done].
  rewrite !mbind_Some. destruct (s32 v <? 0); apply Hrest; lia.
Qed.

Lemma convert_length `{PrintfConfig} e o d o' fmt args : convert e o d = Some (inr (o', fmt, args)) -> (length fmt <= length (c_fmt d))%nat.
Proof.
  destruct d as [flags w p q f a]. unfold convert. cbn [c_fmt]. pose proof (tl_length f). pose proof (skip_alnum_length (tl f)). intros E.
  repeat (lazymatch type of E with
          | Some _ = Some _ => first [injection E as _ <- _; lia | destruct (_ : Z + out); [done|injection E as _ <- _; lia]]
          | None = _ => discriminate E
          | (_ ≫= _) = _ => let x := fresh in apply bind_Some in E as (x & ? & E); repeat match goal with y : _ * _ |- _ => destruct y end; cbn beta iota in E
          | (if ?b then _ else _) = _ => destruct b
          | (match ?x with _ => _ end) = _ => destruct x
          end).
Qed.

(** More fuel than characters changes nothing. *)
Lemma format_fuel `{PrintfConfig} fuel : forall fuel' e o fmt args, (length fmt <= fuel)%nat -> (length fmt <= fuel')%nat ->
  format_loop fuel e o fmt args = format_loop fuel' e o fmt args.
Proof.
  induction fuel as [|fuel IH]; intros fuel' e o [|c fmt] args Hf Hf'; cbn [length] in *; try lia; try (by destruct fuel').
  destruct fuel' as [|fuel']; [lia|]. cbn [format_loop]. destruct (negb (c =? 37)).
  - destruct (ADDCH e o c) as [o1|]; [|done]. rewrite !mbind_Some. apply IH; lia.
  - destruct (parse_conversion fmt args) as [d|] eqn:Ed; [|done]. rewrite !mbind_Some. apply parse_conversion_length in Ed.
    destruct (convert e o d) as [[err|[[o1 f1] a1]]|] eqn:Ec; [done| |done]. rewrite !mbind_Some. apply convert_length in Ec. apply IH; lia.
Qed.

(** ** The buffer *)

(** [buf] with as much of the text as fits in front of a NUL, for a size of at least
    1. *)
Definition truncated (buf : list Z) (size : Z) (text : list Z) : list Z :=
  if size =? 0 then buf else blit buf 0 (take (Z.to_nat (size - 1)) text ++ [0]).

(** The buffer holds [size] bytes, or at least the text. *)
Definition room (addr : Z) (buf : list Z) (size : Z) (text : list Z) : Prop :=
  0 <= addr /\ 0 <= size /\ addr + size < 2 ^ 64 /\ (size <= Z.of_nat (length buf) \/ Z.of_nat (length text) < Z.of_nat (length buf)).

Lemma insert_blit buf cs (n : nat) x : (n <= length cs)%nat -> (n < length buf)%nat -> (length cs <= length buf)%nat -> (length cs <= S n)%nat ->
  <[n := x]> (blit buf 0 cs) = blit buf 0 (take n cs ++ [x]).
Proof.
  intros Hn Hb Hc Hc'. apply list_eq. intros i. rewrite list_lookup_insert, lookup_blit, lookup_blit by (rewrite ?length_app, ?length_take; simpl; lia).
  rewrite length_blit by (simpl; lia). rewrite length_app, length_take. cbn [length]. repeat case_decide; try lia; try done.
  - destruct H as [<- _]. rewrite lookup_app_r by (rewrite length_take; lia). rewrite length_take. by replace (n - 0 - n `min` length cs)%nat with 0%nat by lia.
  - rewrite lookup_app_l by (rewrite length_take; lia). rewrite lookup_take_lt by lia. done.
Qed.

Lemma internal_text `{PrintfConfig} addr buf size fmt args x :
  (forall e o, format_loop (length fmt) e o fmt args = (o' ← emit e o x; Some (None, o'))) ->
  let text := u8 <$> e_text x in room addr buf size text ->
  vsnprintf_internal addr buf size fmt args = Some (s32 (Z.of_nat (length text)), truncated buf size text, rev (store_at 0 <$> e_stores x)).
Proof.
  intros Hx text (Ha & Hs & Has & Hroom). unfold vsnprintf_internal. rewrite (wrap_small 64 (addr + size)), (proj2 (Z.ltb_ge (addr + size) addr)) by lia. rewrite Hx. unfold emit.
  assert (length (e_text x) = length text) as Hl by (unfold text; by rewrite length_fmap).
  rewrite addchs_spec; cbn [o_buf o_pos o_stored]; [|lia|lia]. rewrite !mbind_Some. cbn [o_buf o_pos o_stored]. fold text. rewrite app_nil_r, Z.sub_0_r, Z.add_0_l, Hl.
  unfold truncated. destruct (Z.eqb_spec size 0) as [->|Hz].
  { cbn [Z.ltb Z.compare Z.to_nat take]. by rewrite blit_nil. }
  rewrite (proj2 (Z.ltb_lt 0 size)) by lia. unfold ADDCH. cbn [o_buf o_pos o_stored]. change (Z.to_nat 0) with 0%nat.
  assert (length (blit buf 0 (take (Z.to_nat size) text)) = length buf) as Hlb by (apply length_blit; rewrite length_take; lia).
  destruct (Z.ltb_spec (Z.of_nat (length text)) size) as [Hlt|Hge].
  - rewrite aset_in by lia. rewrite !mbind_Some. cbn [o_buf o_pos o_stored]. rewrite (proj2 (Z.ltb_ge size _)) by lia. rewrite mbind_Some.
    rewrite insert_blit by (rewrite ?length_take; lia). rewrite Nat2Z.id, take_take, Nat.min_l, !take_ge by lia. by rewrite Z.add_simpl_r.
  - rewrite mbind_Some. cbn [o_buf o_pos o_stored]. rewrite (proj2 (Z.ltb_lt size _)) by lia. rewrite aset_in by lia. rewrite mbind_Some.
    rewrite insert_blit by (rewrite ?length_take; lia). rewrite take_take, Nat.min_l by lia. by rewrite Z.add_simpl_r.
Qed.

(** The text of a number alone. *)
Lemma internal_number `{PrintfConfig} addr buf fmt args num base width precision type :
  (forall e o, format_loop (length fmt) e o fmt args = (o' ← number e o num base width precision type; Some (None, o'))) ->
  0 <= num < 2 ^ 64 -> base_ok base -> let text := u8 <$> number_text num base width precision type in
  room addr buf INT_MAX text -> Z.of_nat (length text) < INT_MAX ->
  sprintf addr buf fmt args = Some (Z.of_nat (length text), blit buf 0 (text ++ [0]), []).
Proof.
  intros Hf Hn Hb text Hroom Hlen. unfold sprintf, vsprintf.
  rewrite (internal_text addr buf INT_MAX fmt args (mk_effect (number_text num base width precision type) [])); [| |exact Hroom].
  - cbn [e_text e_stores]. fold text. unfold truncated. cbn [fmap list_fmap rev]. rewrite take_ge by (unfold INT_MAX in *; lia).
    rewrite swrap_small by (unfold INT_MAX in *; lia). done.
  - intros e o. by rewrite emit_text, Hf, number_spec.
Qed.

Lemma cstr_blit buf text : Forall (fun c => c <> 0) text -> cstr (blit buf 0 (text ++ [0])) = text.
Proof.
  intros Ht. unfold blit. generalize (drop (0 + length (text ++ [0])) buf). intros rest. change (take 0 buf) with (@nil Z). rewrite app_nil_l, <- app_assoc.
  induction Ht as [|c text Hc _ IH]; [done|]. cbn [app cstr]. rewrite (proj2 (Z.eqb_neq c 0)) by done. f_equal. exact IH.
Qed.

Lemma digits_ascii fuel base n : 2 <= base <= 16 -> 0 <= n -> Forall (fun c => 48 <= c < 58 \/ 97 <= c < 103) (digits fuel base n).
Proof.
  intros Hb. revert n. induction fuel as [|fuel IH]; intros n Hn; cbn [digits]; [done|]. pose proof (Z.mod_pos_bound n base ltac:(lia)).
  set (c := if n mod base <? 10 then _ else _). assert (48 <= c < 58 \/ 97 <= c < 103) by (subst c; case_if; lia).
  case_if; [by apply Forall_singleton|]. apply Forall_app. split; [apply IH, Z.div_pos; lia|by apply Forall_singleton].
Qed.

(** Characters are unchanged in a buffer. *)
Lemma ascii_text cs : Forall (fun c => 32 <= c < 128) cs -> u8 <$> cs = cs /\ Forall (fun c => c <> 0) cs.
Proof.
  intros Hc. split; [|eapply Forall_impl; [exact Hc|]; simpl; lia].
  induction Hc as [|c cs Hc _ IH]; [done|]. cbn [fmap list_fmap]. rewrite wrap_small by lia. f_equal. exact IH.
Qed.

(** A format that prints a text of at most 23 characters, in a buffer that holds it. *)
Lemma sprintf_text `{PrintfConfig} addr buf fmt args num base width precision type cs :
  (forall e o, format_loop (length fmt) e o fmt args = (o' ← number e o num base width precision type; Some (None, o'))) ->
  0 <= num < 2 ^ 64 -> base_ok base -> number_text num base width precision type = cs -> Forall (fun c => 32 <= c < 128) cs -> (length cs <= 24)%nat ->
  0 <= addr -> addr + INT_MAX < 2 ^ 64 -> (25 <= length buf)%nat ->
  exists b, sprintf addr buf fmt args = Some (Z.of_nat (length cs), b, []) /\ cstr b = cs /\ length b = length buf.
Proof.
  intros Hf Hn Hb Ht Hc Hl Ha Has Hlen. destruct (ascii_text cs Hc) as [Hu Hnz]. pose proof (internal_number addr buf fmt args num base width precision type Hf Hn Hb) as Hs.
  cbv zeta in Hs. rewrite Ht, Hu in Hs. exists (blit buf 0 (cs ++ [0])). split_and!.
  - apply Hs; [|unfold INT_MAX; lia]. unfold room, INT_MAX in *. lia.
  - by apply cstr_blit.
  - apply length_blit. rewrite length_app. simpl. lia.
Qed.

(** A digit string of a number of 64 bits, read back. *)
Lemma read_digits base n : 8 <= base <= 16 -> 0 <= n < 2 ^ 64 -> strtoul_loop (digits 22 base n) base 0 = (n, []).
Proof.
  intros Hb Hn. destruct (digits_numeral base 22 n) as [Hd Hv]; [lia| |lia|].
  { pose proof (Z.pow_le_mono_l 8 base (Z.of_nat 22) ltac:(lia)). change (8 ^ Z.of_nat 22) with (2 ^ 66) in *. lia. }
  rewrite <- (app_nil_r (digits 22 base n)). rewrite strtoul_loop_numeral; [by rewrite Hv, wrap_small|done|]. intros [Hx _]. discriminate Hx.
Qed.

Lemma digits_nonempty fuel base n : digits (S fuel) base n <> [].
Proof. cbn [digits]. case_if; [done|]. intros Hnil. by apply app_nil in Hnil as [_ ?]. Qed.

(** Reading digits in a base, with or without the prefix of 16. *)
Lemma strtoul_digits base n : base = 8 \/ base = 10 -> 0 <= n < 2 ^ 64 -> simple_strtoul (digits 22 base n) base = (n, []).
Proof. intros [->| ->] Hn; unfold simple_strtoul, _parse_integer_fixup_radix; cbn [Z.eqb Pos.eqb andb]; by apply read_digits. Qed.

Lemma digits_top fuel base n : 2 <= base <= 16 -> 0 <= n -> isxdigit (ch (digits (S fuel) base n)) = true.
Proof.
  intros Hb. revert n. induction fuel as [|fuel IH]; intros n Hn.
  - cbn [digits]. pose proof (digit_char (n mod base)) as Hc. cbv zeta in Hc. pose proof (Z.mod_pos_bound n base ltac:(lia)). case_if; apply Hc; lia.
  - remember (S fuel) as f. cbn [digits]. case_if.
    + pose proof (digit_char (n mod base)) as Hc. cbv zeta in Hc. pose proof (Z.mod_pos_bound n base ltac:(lia)). apply Hc. lia.
    + specialize (IH (n / base) ltac:(apply Z.div_pos; lia)). subst f. destruct (digits (S fuel) base (n / base)) eqn:Ed; [by apply digits_nonempty in Ed|done].
Qed.

(** The second character of the hexadecimal digits of a number is no [x]. *)
Lemma digits_no_x fuel base n : 2 <= base <= 16 -> 0 <= n -> tolower (ch (at_off (digits fuel base n) 1)) <> 120.
Proof.
  intros Hb Hn. pose proof (digits_ascii fuel base n Hb Hn) as Ha. unfold at_off. change (Z.to_nat 1) with 1%nat.
  destruct (digits fuel base n) as [|c0 [|c ds]]; cbn [drop]; [by vm_compute|by vm_compute|]. inversion_clear Ha as [|?? _ Ha']. inversion_clear Ha' as [|?? Hc _]. cbn [ch hd].
  assert (forallb (fun c => negb (tolower c =? 120)) (seqZ 48 10 ++ seqZ 97 6) = true) as Hall by (vm_compute; reflexivity).
  rewrite forallb_forall in Hall. specialize (Hall c ltac:(apply list_elem_of_In, elem_of_app; rewrite !elem_of_seqZ; lia)). lia.
Qed.

Lemma strtoul_hex n : 0 <= n < 2 ^ 64 -> simple_strtoul (digits 22 16 n) 16 = (n, []).
Proof.
  intros Hn. pose proof (digits_no_x 22 16 n ltac:(lia) ltac:(lia)) as Hx. unfold simple_strtoul, _parse_integer_fixup_radix. cbn [Z.eqb Pos.eqb].
  rewrite (proj2 (Z.eqb_neq _ 120)) by done. rewrite andb_false_r. by apply read_digits.
Qed.

Lemma strtoul_prefix n base : 0 <= n < 2 ^ 64 -> base = 0 \/ base = 16 -> simple_strtoul ([48; 120] ++ digits 22 16 n) base = (n, []).
Proof.
  intros Hn Hb. pose proof (digits_top 21 16 n ltac:(lia) ltac:(lia)) as Hx. unfold simple_strtoul, _parse_integer_fixup_radix.
  change (at_off ([48; 120] ++ digits 22 16 n) 2) with (digits 22 16 n). rewrite Hx. destruct Hb as [-> | ->]; cbn [app ch hd].
  all: change (tolower (ch (at_off (48 :: 120 :: digits 22 16 n) 1))) with 120; cbn [Z.eqb Pos.eqb andb]; by apply read_digits.
Qed.

(** A format that is one conversion of an integer. *)
Lemma format_number `{PrintfConfig} f args fl w p q c base fl' num e o :
  parse_conversion f args = Some (mk_conv fl w p q [c] args) -> number_base c fl = Some (base, fl') -> number_arg q fl' args = Some (num, []) ->
  format_loop (length (37 :: f)) e o (37 :: f) args = (o' ← number e o num base w p fl'; Some (None, o')).
Proof.
  intros Hp Hb Hn. assert (c = 111 \/ c = 120 \/ c = 88 \/ c = 100 \/ c = 105 \/ c = 117) as Hc.
  { unfold number_base in Hb. destruct (c =? 111) eqn:?, (c =? 120) eqn:?, (c =? 88) eqn:?, ((c =? 100) || (c =? 105)) eqn:?, (c =? 117) eqn:?; try done; lia. }
  cbn [length format_loop Z.eqb Pos.eqb negb]. rewrite Hp, mbind_Some. unfold convert. cbn [ch hd tl].
  rewrite !(proj2 (Z.eqb_neq c _)) by lia. rewrite Hb, Hn, mbind_Some.
  destruct (number e o num base w p fl') as [o1|]; [|done]. rewrite !mbind_Some. by destruct f.
Qed.

Lemma cased_small (l : list Z) : cased true <$> l = l.
Proof. apply list_fmap_id. Qed.

(** The text without flags, and with the prefix. *)
Lemma number_text_plain num base type : flag type SIGN = false -> flag type SPECIAL = false -> base = 10 \/ flag type SMALL = true ->
  number_text num base (-1) (-1) type = digits 22 base num.
Proof.
  intros H1 H2 H3. unfold number_text, number_digits, number_sign, number_prefix, number_abs. rewrite H1, H2. cbn [andb app].
  assert ((if base =? 10 then id else fmap (cased (flag type SMALL))) (digits 22 base num) = digits 22 base num) as ->.
  { destruct H3 as [->| ->]; [done|]. destruct (base =? 10); [done|apply cased_small]. }
  rewrite !Z2Nat.nonpos by lia. cbn [replicate app]. rewrite app_nil_r. by destruct (flag type LEFT), (flag type ZEROPAD).
Qed.

Lemma number_text_hex num : number_text num 16 (-1) (-1) (Z.lor SPECIAL SMALL) = [48; 120] ++ digits 22 16 num.
Proof.
  unfold number_text, number_digits, number_sign, number_prefix, number_abs. change (flag (Z.lor SPECIAL SMALL) SIGN) with false.
  change (flag (Z.lor SPECIAL SMALL) SPECIAL) with true. change (flag (Z.lor SPECIAL SMALL) SMALL) with true.
  change (flag (Z.lor SPECIAL SMALL) LEFT) with false. change (flag (Z.lor SPECIAL SMALL) ZEROPAD) with false. cbn [Z.eqb Pos.eqb negb andb].
  rewrite cased_small, !Z2Nat.nonpos by lia. done.
Qed.

Lemma number_text_signed num :
  number_text num 10 (-1) (-1) SIGN = if s64 num <? 0 then 45 :: digits 22 10 (u64 (- s64 num)) else digits 22 10 num.
Proof.
  unfold number_text, number_digits, number_sign, number_prefix, number_abs. change (flag SIGN SIGN) with true. change (flag SIGN SPECIAL) with false.
  change (flag SIGN PLUS) with false. change (flag SIGN SPACE) with false. change (flag SIGN LEFT) with false. change (flag SIGN ZEROPAD) with false.
  cbn [Z.eqb Pos.eqb negb andb]. rewrite !Z2Nat.nonpos by lia. by destruct (s64 num <? 0).
Qed.

Lemma digits_printable fuel base n : 2 <= base <= 16 -> 0 <= n -> Forall (fun c => 32 <= c < 128) (digits fuel base n).
Proof. intros Hb Hn. eapply Forall_impl; [by apply digits_ascii|]. simpl. lia. Qed.

Lemma s64_range v : - 2 ^ 63 <= s64 v < 2 ^ 63.
Proof. unfold swrap. pose proof (Z.mod_pos_bound (v + 2 ^ (64 - 1)) (2 ^ 64) ltac:(lia)). change (2 ^ (64 - 1)) with (2 ^ 63) in *. lia. Qed.

(** Reading a signed number back. *)
Lemma strtol_signed v : 0 <= v < 2 ^ 64 ->
  simple_strtol (if s64 v <? 0 then 45 :: digits 22 10 (u64 (- s64 v)) else digits 22 10 v) 10 = (s64 v, []).
Proof.
  intros Hv. pose proof (s64_range v). unfold simple_strtol. destruct (Z.ltb_spec (s64 v) 0).
  - cbn [ch hd tl Z.eqb Pos.eqb]. rewrite strtoul_digits by (auto || apply u64_range). rewrite (wrap_small 64 (- s64 v)) by lia. rewrite Z.opp_involutive.
    by rewrite (swrap_small 64 (s64 v)).
  - assert (ch (digits 22 10 v) <> 45) as Hc.
    { pose proof (digits_ascii 22 10 v ltac:(lia) ltac:(lia)) as Hd. destruct (digits 22 10 v) as [|c ds]; [done|]. inversion_clear Hd. cbn [ch hd]. lia. }
    rewrite (proj2 (Z.eqb_neq _ 45) Hc), strtoul_digits by auto. done.
Qed.

(** *** The numbers of the environment *)

Lemma digits_fuel base f : forall f' n, 2 <= base -> 0 <= n < base ^ Z.of_nat f -> (0 < f <= f')%nat -> digits f' base n = digits f base n.
Proof.
  induction f as [|f IH]; intros f' n Hb Hn Hf; [lia|]. destruct f' as [|f']; [lia|]. cbn [digits]. cbv zeta. case_if; [done|].
  destruct f as [|f]; [simpl in Hn; lia|]. f_equal. apply IH; [done| |lia]. split; [apply Z.div_pos; lia|]. apply Z.div_lt_upper_bound; [lia|].
  rewrite (Nat2Z.inj_succ (S f)), Z.pow_succ_r in Hn by lia. lia.
Qed.

(** [sprintf(str, "%lx", value)] of [env_set_hex], whose buffer has 17 bytes: the
    digits that [EnvCmd.v] takes for the value. *)
Lemma sprintf_hex `{PrintfConfig} addr buf v :
  0 <= addr -> addr + INT_MAX < 2 ^ 64 -> (17 <= length buf)%nat -> 0 <= v < 2 ^ 64 ->
  exists b, sprintf addr buf (str "%lx") [va_long v] = Some (Z.of_nat (length (digits 16 16 v)), b, []) /\ cstr b = digits 16 16 v.
Proof.
  intros Ha Has Hlen Hv. assert (digits 22 16 v = digits 16 16 v) as Ed by (apply digits_fuel; [lia| |lia]; change (16 ^ Z.of_nat 16) with (2 ^ 64); lia).
  assert (number_text v 16 (-1) (-1) SMALL = digits 16 16 v) as Et by (rewrite number_text_plain; auto).
  destruct (ascii_text (digits 16 16 v)) as [Hu Hnz]; [apply digits_printable; lia|]. pose proof (length_digits 16 16 v) as Hl.
  exists (blit buf 0 (digits 16 16 v ++ [0])). split; [|by apply cstr_blit].
  pose proof (internal_number addr buf (str "%lx") [va_long v] v 16 (-1) (-1) SMALL) as Hs. cbv zeta in Hs. rewrite Et, Hu in Hs. apply Hs.
  - intros e o. rewrite <- (wrap_small 64 v Hv) at 2. by apply (format_number (str "lx") [va_long v] 0 (-1) (-1) 108 120 16 SMALL).
  - done.
  - by right; right.
  - unfold room, INT_MAX in *. lia.
  - unfold INT_MAX. lia.
Qed.

(** ** Correctness *)

(** C37: what is printed does not depend on the buffer.  If a call returns a length,
    as [snprintf(NULL, 0, ...)] does, there is a text of that length such that every
    call with the same format and arguments returns the same length and stores the
    same with [%n], writes the text, as far as it fits in front of a NUL, and leaves
    the rest of the buffer alone; nothing is written with a size of 0.  The buffer
    must have the size that is passed, or be longer than the text. *)
Theorem vsnprintf_truncates `{PrintfConfig} fmt args addr0 buf0 size0 ret b0 st :
  0 <= addr0 -> 0 <= size0 <= Z.of_nat (length buf0) -> addr0 + size0 < 2 ^ 64 ->
  vsnprintf_internal addr0 buf0 size0 fmt args = Some (ret, b0, st) -> 0 <= ret ->
  exists text, ret = s32 (Z.of_nat (length text)) /\
    forall addr buf size, room addr buf size text -> vsnprintf_internal addr buf size fmt args = Some (ret, truncated buf size text, st).
Proof.
  intros Ha Hs Has E Hret. destruct (uniform_format (length fmt) fmt args) as [Hf|(err & x & He & Hf)].
  { unfold vsnprintf_internal in E. by rewrite Hf in E. }
  destruct err as [z|].
  - exfalso. specialize (He z eq_refl). unfold vsnprintf_internal in E. rewrite Hf in E. destruct (emit _ _ x) as [o|]; [|done]. injection E as <- _ _. lia.
  - exists (u8 <$> e_text x). rewrite (internal_text addr0 buf0 size0 fmt args x Hf) in E by (split_and!; try done; [lia|left; lia]).
    injection E as <- _ <-. split; [done|]. intros addr buf size Hroom. by apply internal_text.
Qed.

(** C38: [number] prints a number of 64 bits as its digits in the base, found by
    divisions, with the sign, the prefix, the zeros up to the precision and the
    padding that the flags ask for; the decimal digits come from [put_dec], which
    multiplies in place of dividing. *)
Theorem number_prints end_ o num base width precision type :
  0 <= num < 2 ^ 64 -> base_ok base ->
  number end_ o num base width precision type = addchs end_ o (number_text num base width precision type) /\
  numeral base (digits 22 base num) = num /\ put_dec num = rev (digits 22 10 num).
Proof.
  intros Hn Hb. split_and!; [by apply number_spec| |by apply put_dec_digits].
  apply digits_numeral; [|split; [lia|]|lia]; destruct Hb as [->|[->| ->]]; try lia; apply (Z.lt_le_trans _ (2 ^ 64)); (lia || by vm_compute).
Qed.

(** C39: a number that is printed with [%lu], [%lx], [%#lx] or [%ld] is read back by
    [simple_strtoul] and [simple_strtol]; 25 bytes are enough. *)
Theorem sprintf_strtoul_roundtrip `{PrintfConfig} addr buf v :
  0 <= addr -> addr + INT_MAX < 2 ^ 64 -> (25 <= length buf)%nat -> 0 <= v < 2 ^ 64 ->
  (exists ret b, sprintf addr buf (str "%lu") [va_long v] = Some (ret, b, []) /\ simple_strtoul (cstr b) 10 = (v, [])) /\
  (exists ret b, sprintf addr buf (str "%lx") [va_long v] = Some (ret, b, []) /\ simple_strtoul (cstr b) 16 = (v, [])) /\
  (exists ret b, sprintf addr buf (str "%#lx") [va_long v] = Some (ret, b, []) /\ simple_strtoul (cstr b) 0 = (v, []) /\ simple_strtoul (cstr b) 16 = (v, [])) /\
  (exists ret b, sprintf addr buf (str "%ld") [va_long v] = Some (ret, b, []) /\ simple_strtol (cstr b) 10 = (s64 v, [])).
Proof.
  intros Ha Has Hlen Hv. pose proof (length_digits 22) as Hd.
  assert (u64 v = v) as Hu by (by apply wrap_small). split_and!.
  - destruct (sprintf_text addr buf (str "%lu") [va_long v] v 10 (-1) (-1) 0 (digits 22 10 v)) as (b & Es & Ec & _); try done; try lia.
    { intros e o. rewrite <- Hu at 2. by apply (format_number (str "lu") [va_long v] 0 (-1) (-1) 108 117 10 0). }
    { by right; left. } { apply number_text_plain; [done|done|by left]. } { by apply digits_printable; lia. } { specialize (Hd 10 v). lia. }
    eexists _, b. split; [exact Es|]. rewrite Ec. by apply strtoul_digits; [right|].
  - destruct (sprintf_text addr buf (str "%lx") [va_long v] v 16 (-1) (-1) SMALL (digits 22 16 v)) as (b & Es & Ec & _); try done; try lia.
    { intros e o. rewrite <- Hu at 2. by apply (format_number (str "lx") [va_long v] 0 (-1) (-1) 108 120 16 SMALL). }
    { by right; right. } { apply number_text_plain; [done|done|by right]. } { by apply digits_printable; lia. } { specialize (Hd 16 v). lia. }
    eexists _, b. split; [exact Es|]. rewrite Ec. by apply strtoul_hex.
  - destruct (sprintf_text addr buf (str "%#lx") [va_long v] v 16 (-1) (-1) (Z.lor SPECIAL SMALL) ([48; 120] ++ digits 22 16 v)) as (b & Es & Ec & _); try done; try lia.
    { intros e o. rewrite <- Hu at 2. by apply (format_number (str "#lx") [va_long v] SPECIAL (-1) (-1) 108 120 16 (Z.lor SPECIAL SMALL)). }
    { by right; right. } { apply number_text_hex. } { apply Forall_app. split; [repeat constructor; lia|apply digits_printable; lia]. } { specialize (Hd 16 v). rewrite length_app. change (length [48; 120]) with 2%nat. lia. }
    eexists _, b. split; [exact Es|]. rewrite Ec. split; apply strtoul_prefix; auto.
  - set (cs := if s64 v <? 0 then 45 :: digits 22 10 (u64 (- s64 v)) else digits 22 10 v).
    assert (Forall (fun c => 32 <= c < 128) cs /\ (length cs <= 24)%nat) as [Hc Hl].
    { pose proof (u64_range (- s64 v)). subst cs. pose proof (Hd 10 (u64 (- s64 v))). pose proof (Hd 10 v). destruct (s64 v <? 0); split; cbn [length]; try lia;
        [constructor; [lia|]|]; apply digits_printable; lia. }
    destruct (sprintf_text addr buf (str "%ld") [va_long v] v 10 (-1) (-1) SIGN cs) as (b & Es & Ec & _); try done.
    { intros e o. rewrite <- Hu at 2. by apply (format_number (str "ld") [va_long v] 0 (-1) (-1) 108 100 10 SIGN). }
    { by right; left. } { apply number_text_signed. }
    eexists _, b. split; [exact Es|]. rewrite Ec. by apply strtol_signed.
Qed.

(** ** Examples *)

#[local] Instance printf_config : PrintfConfig := {|
  CONFIG_CMD_NET := true; CONFIG_LIB_UUID := true; CONFIG_SYS_PBSIZE := 64; efi_dp_str := Some (fun _ => None) |}.

(** Witness: a call that only measures, and one with room for two characters. *)
Lemma vsnprintf_truncates_witness :
  exists text, 4 = s32 (Z.of_nat (length text)) /\
    vsnprintf_internal 4096 (replicate 3 9) 3 (str "a=%d") [va_int 42] = Some (4, truncated (replicate 3 9) 3 text, []).
Proof.
  destruct (vsnprintf_truncates (str "a=%d") [va_int 42] 0 [] 0 4 [] []) as (text & Hret & Hall); [lia|simpl; lia|lia|vm_compute; reflexivity|lia|].
  exists text. split; [exact Hret|]. apply Hall. unfold room. simpl. lia.
Defined.

Lemma number_prints_witness :
  number 4 (mk_out (replicate 4 9) 0 []) 255 16 6 (-1) (Z.lor SPECIAL SMALL) =
    addchs 4 (mk_out (replicate 4 9) 0 []) (number_text 255 16 6 (-1) (Z.lor SPECIAL SMALL)) /\
  numeral 16 (digits 22 16 255) = 255 /\ put_dec 255 = rev (digits 22 10 255).
Proof. apply (number_prints 4 (mk_out (replicate 4 9) 0 []) 255 16 6 (-1) (Z.lor SPECIAL SMALL)); [lia|by right; right]. Defined.

Lemma sprintf_strtoul_roundtrip_witness :
  exists ret b, sprintf 4096 (replicate 32 9) (str "%ld") [va_long (2 ^ 64 - 42)] = Some (ret, b, []) /\ simple_strtol (cstr b) 10 = (-42, []).
Proof.
  destruct (sprintf_strtoul_roundtrip 4096 (replicate 32 9) (2 ^ 64 - 42)) as (_ & _ & _ & Hd);
    [lia|unfold INT_MAX; lia|simpl; lia|lia|exact Hd].
Defined.

(** The flags of C. *)
Example number_layout :
  number_text 255 16 6 (-1) (Z.lor SPECIAL SMALL) = str "  0xff" /\ number_text 255 16 6 (-1) (Z.lor ZEROPAD SMALL) = str "0000ff" /\
  number_text 42 10 6 4 (Z.lor SIGN PLUS) = str " +0042" /\ number_text 42 10 6 (-1) (Z.lor SIGN LEFT) = str "42    " /\
  number_text 8 8 (-1) (-1) SPECIAL = str "010".
Proof. vm_compute. done. Qed.

Example addresses_printed :
  (fun r => cstr r.1.2) <$> sprintf 4096 (replicate 64 9) (str "%pM %pI4 %c%%") [va_ptr 1 [0; 1; 2; 0xab; 0xcd; 0xef]; va_ptr 1 [192; 168; 0; 1]; va_int 33]
  = Some (str "00:01:02:ab:cd:ef 192.168.0.1 !%").
Proof. vm_compute. reflexivity. Qed.

(** *** What the model shows *)

(** An error of [%pD], which allocates memory, is taken for a text that is too long:
    [vscnprintf] returns the size less 1, and [printf] prints what was in its buffer
    on the stack, up to a NUL somewhere. *)
Example printf_error_unnoticed :
  vsnprintf 4096 (replicate 8 7) 8 (str "%pD") [va_ptr 1 []] = Some (- ENOMEM, replicate 8 7, []) /\
  vscnprintf 4096 (replicate 8 7) 8 (str "%pD") [va_ptr 1 []] = Some (7, replicate 8 7, []) /\
  printf 4096 (replicate 64 7) (str "%pD") [va_ptr 1 []] = None.
Proof. vm_compute. done. Qed.

(** The buffer of 21 bytes is too small for a width of 21, and a number that is wider
    than the width makes the loop step over the NUL. *)
Example grouped_overrun :
  print_grouped_ull 4096 (replicate 21 1) 8192 (replicate 64 7) 1234567 9 = Some (str "  1,234,567") /\
  print_grouped_ull 4096 (replicate 21 1) 8192 (replicate 64 7) 1 19 = None /\
  print_grouped_ull 4096 (replicate 21 1) 8192 (replicate 64 7) 1234 3 = None.
Proof. vm_compute. done. Qed.

(** Behind half a surrogate pair the next character is read again, but counted twice:
    the last one is lost. *)
Example surrogate_loses_character : utf16_to_utf8 [0xd83d; 65; 66] 3 0 = str "?A".
Proof. vm_compute. reflexivity. Qed.
