(* ===== verification/Sha1.v ===== *)
(** * SHA-1 ([lib/sha1.c], [include/u-boot/sha1.h])

    The boot menu's password check and image verification use this SHA-1.  The
    code computes with [unsigned long], which has 64 bits on the target: only
    the low 32 bits of its values are meaningful.  The model keeps the 64-bit
    arithmetic; the specification is the 32-bit SHA-1 of FIPS 180. *)

From S2P Require Import Prelude StringLib Blocks.
Local Open Scope Z_scope.

(** ** The code *)

Record sha1_context := mk_ctx {
  total0 : Z;
  total1 : Z;
  state : Z * Z * Z * Z * Z;
  buffer : list Z
}.

(** [ctx->buffer] is not initialised: [buf] is what it holds. *)
Definition sha1_starts (buf : list Z) : sha1_context :=
  mk_ctx 0 0 (0x67452301, 0xEFCDAB89, 0x98BADCFE, 0x10325476, 0xC3D2E1F0) buf.

(** The rotation [S(x,n)]. *)
Definition S_ (x n : Z) : Z :=
  Z.lor (u64 (Z.shiftl x n)) (Z.shiftr (Z.land x 0xFFFFFFFF) (32 - n)).

(** [W[t & 0x0F]] *)
Definition W_at (W : list Z) (t : Z) : Z := nth (Z.to_nat (Z.land t 0x0F)) W 0.

(** [R(t)]: the new word and the array. *)
Definition R (t : Z) (W : list Z) : Z * list Z :=
  let temp := Z.lxor (Z.lxor (Z.lxor (W_at W (t - 3)) (W_at W (t - 8))) (W_at W (t - 14))) (W_at W t) in
  let w := S_ temp 1 in
  (w, <[Z.to_nat (Z.land t 0x0F) := w]> W).

Definition F_ (t x y z : Z) : Z :=
  if t <? 20 then Z.lxor z (Z.land x (Z.lxor y z))
  else if t <? 40 then Z.lxor (Z.lxor x y) z
  else if t <? 60 then Z.lor (Z.land x y) (Z.land z (Z.lor x y))
  else Z.lxor (Z.lxor x y) z.

Definition K_ (t : Z) : Z :=
  if t <? 20 then 0x5A827999 else if t <? 40 then 0x6ED9EBA1
  else if t <? 60 then 0x8F1BBCDC else 0xCA62C1D6.

(** [P(a,b,c,d,e,x)], with the five variables renamed for the next round as the
    code's calls do. *)
Definition P (t : Z) (v : Z * Z * Z * Z * Z) (x : Z) : Z * Z * Z * Z * Z :=
  let '(a, b, c, d, e) := v in
  (u64 (e + (S_ a 5 + F_ t b c d + K_ t + x)), a, S_ b 30, c, d).

(** The 80 rounds from [t] on. *)
Fixpoint rounds (n : nat) (t : Z) (W : list Z) (v : Z * Z * Z * Z * Z) : Z * Z * Z * Z * Z :=
  match n with
  | O => v
  | S n =>
      let '(x, W') := if t <? 16 then (W_at W t, W) else R t W in
      rounds n (t + 1) W' (P t v x)
  end.

Definition add5 (m : Z -> Z) (x y : Z * Z * Z * Z * Z) : Z * Z * Z * Z * Z :=
  let '(a, b, c, d, e) := x in
  let '(a', b', c', d', e') := y in (m (a + a'), m (b + b'), m (c + c'), m (d + d'), m (e + e')).

Definition load_words (dat : list Z) : list Z := (fun i => GET_UINT32_BE dat (4 * i)) <$> seq 0 16.

Definition sha1_process (st : Z * Z * Z * Z * Z) (dat : list Z) : Z * Z * Z * Z * Z :=
  add5 u64 st (rounds 80 0 (load_words dat) st).

(** [input] has [ilen] bytes, fewer than 2^32. *)
Definition sha1_update (ctx : sha1_context) (input : list Z) : sha1_context :=
  let ilen := Z.of_nat (length input) in
  if ilen <=? 0 then ctx
  else
    let left_ := Z.to_nat (Z.land (total0 ctx) 0x3F) in
    let t0 := Z.land (u64 (total0 ctx + ilen)) 0xFFFFFFFF in
    let t1 := if t0 <? ilen then u64 (total1 ctx + 1) else total1 ctx in
    let '(st, buf) := feed sha1_process (state ctx) (buffer ctx) left_ input in
    mk_ctx t0 t1 st buf.

Definition sha1_padding : list Z := 0x80 :: replicate 63 0.

Definition sha1_finish (ctx : sha1_context) : list Z :=
  let high := Z.lor (Z.shiftr (total0 ctx) 29) (u64 (Z.shiftl (total1 ctx) 3)) in
  let low := u64 (Z.shiftl (total0 ctx) 3) in
  let msglen := PUT_UINT32_BE high ++ PUT_UINT32_BE low in
  let last := Z.to_nat (Z.land (total0 ctx) 0x3F) in
  let padn := if (last <? 56)%nat then (56 - last)%nat else (120 - last)%nat in
  let ctx := sha1_update ctx (take padn sha1_padding) in
  let ctx := sha1_update ctx msglen in
  let '(a, b, c, d, e) := state ctx in
  PUT_UINT32_BE a ++ PUT_UINT32_BE b ++ PUT_UINT32_BE c ++ PUT_UINT32_BE d ++ PUT_UINT32_BE e.

Definition sha1_csum (buf input : list Z) : list Z :=
  sha1_finish (sha1_update (sha1_starts buf) input).

Definition sha1_csum_wd (buf input : list Z) (chunk_sz : nat) : option (list Z) :=
  ctx ← wd_loop sha1_update (length input) (sha1_starts buf) input chunk_sz; Some (sha1_finish ctx).

(** [for (i = 0; i < keylen; i++) { if (i >= 64) break; pad[i] ^= key[i]; }] *)
Fixpoint hmac_loop (i : nat) (key pad : list Z) : list Z :=
  match key with
  | [] => pad
  | k :: key =>
      if (64 <=? i)%nat then pad else hmac_loop (S i) key (<[i := Z.lxor (nth i pad 0) k]> pad)
  end.

Definition hmac_pad (byte : Z) (key : list Z) : list Z := hmac_loop 0 key (replicate 64 byte).

Definition sha1_hmac (buf key input : list Z) : list Z :=
  let tmpbuf := sha1_finish (sha1_update (sha1_update (sha1_starts buf) (hmac_pad 0x36 key)) input) in
  sha1_finish (sha1_update (sha1_update (sha1_starts buf) (hmac_pad 0x5C key)) tmpbuf).

(** ** The specification: FIPS 180 *)

Definition rotl (x n : Z) : Z := Z.lor (u32 (Z.shiftl x n)) (Z.shiftr x (32 - n)).

Definition not32 (x : Z) : Z := u32 (Z.lnot x).

Definition fips_f (t x y z : Z) : Z :=
  if t <? 20 then Z.lxor (Z.land x y) (Z.land (not32 x) z)
  else if t <? 40 then Z.lxor (Z.lxor x y) z
  else if t <? 60 then Z.lxor (Z.lxor (Z.land x y) (Z.land x z)) (Z.land y z)
  else Z.lxor (Z.lxor x y) z.

(** The message schedule. *)
Fixpoint wext (n : nat) (ws : list Z) : list Z :=
  match n with
  | O => ws
  | S n =>
      let t := length ws in
      let w := Z.lxor (Z.lxor (Z.lxor (nth (t - 3) ws 0) (nth (t - 8) ws 0)) (nth (t - 14) ws 0))
                 (nth (t - 16) ws 0) in
      wext n (ws ++ [rotl w 1])
  end.

Definition block_words (block : list Z) : list Z :=
  (fun i => be_word (take 4 (drop (4 * i) block))) <$> seq 0 16.

Definition schedule (block : list Z) : list Z := wext 64 (block_words block).

Definition fips_round (t : Z) (v : Z * Z * Z * Z * Z) (w : Z) : Z * Z * Z * Z * Z :=
  let '(a, b, c, d, e) := v in
  (u32 (rotl a 5 + fips_f t b c d + e + K_ t + w), a, rotl b 30, c, d).

Fixpoint fips_rounds (n : nat) (t : Z) (ws : list Z) (v : Z * Z * Z * Z * Z) : Z * Z * Z * Z * Z :=
  match n with
  | O => v
  | S n => fips_rounds n (t + 1) ws (fips_round t v (nth (Z.to_nat t) ws 0))
  end.

Definition compress (h : Z * Z * Z * Z * Z) (block : list Z) : Z * Z * Z * Z * Z :=
  add5 u32 h (fips_rounds 80 0 (schedule block) h).

Definition fips_h0 : Z * Z * Z * Z * Z :=
  (0x67452301, 0xEFCDAB89, 0x98BADCFE, 0x10325476, 0xC3D2E1F0).

Definition fips_state : nat -> list Z -> Z * Z * Z * Z * Z := md_state compress fips_h0.

Definition fips_sha1 (msg : list Z) : list Z :=
  let m := fips_pad msg in
  let '(a, b, c, d, e) := fips_state (length m / 64) m in
  concat ((fun x => rev (word_bytes 4 x)) <$> [a; b; c; d; e]).

(** ** Streams *)

Definition lo5 (v : Z * Z * Z * Z * Z) : Z * Z * Z * Z * Z :=
  let '(a, b, c, d, e) := v in (u32 a, u32 b, u32 c, u32 d, u32 e).

(** What a context holds. *)
#[export] Instance sha1_stream : Stream sha1_context := {
  update := sha1_update;
  holds ctx m := absorbed lo5 compress fips_h0 (total0 ctx) (total1 ctx) (state ctx) (buffer ctx) m
}.

Example fips_sha1_abc : fips_sha1 [97; 98; 99] = sha1_csum (replicate 64 0) [97; 98; 99].
Proof. vm_compute. reflexivity. Qed.

(** The test vectors of the self test. *)
Example sha1_abc : sha1_csum (replicate 64 0) [97; 98; 99] =
  [0xA9; 0x99; 0x3E; 0x36; 0x47; 0x06; 0x81; 0x6A; 0xBA; 0x3E;
   0x25; 0x71; 0x78; 0x50; 0xC2; 0x6C; 0x9C; 0xD0; 0xD8; 0x9D].
Proof. vm_compute. reflexivity. Qed.

Example sha1_448 : sha1_csum (replicate 64 7)
  [97;98;99;100;98;99;100;101;99;100;101;102;100;101;102;103;101;102;103;104;102;103;104;105;103;104;105;106;
   104;105;106;107;105;106;107;108;106;107;108;109;107;108;109;110;108;109;110;111;109;110;111;112;110;111;112;113] =
  [0x84; 0x98; 0x3E; 0x44; 0x1C; 0x3B; 0xD2; 0x6E; 0xBA; 0xAE;
   0x4A; 0xA1; 0xF9; 0x51; 0x29; 0xE5; 0xE5; 0x46; 0x70; 0xF1].
Proof. vm_compute. reflexivity. Qed.

(** ** The low 32 bits *)

(** The 64-bit rotation is the 32-bit rotation of the low bits. *)
Lemma u32_S x n : 0 <= n <= 32 -> u32 (S_ x n) = rotl (u32 x) n.
Proof.
  intros Hn. unfold S_, rotl. rewrite u32_lor, u32_u64. f_equal.
  - unfold wrap. rewrite !Z.shiftl_mul_pow2 by lia. by rewrite Zmult_mod_idemp_l.
  - change 0xFFFFFFFF with (Z.ones 32). rewrite <- u32_land. apply wrap_small.
    pose proof (wrap_range 32 x ltac:(lia)) as Hr. rewrite Z.shiftr_div_pow2 by lia.
    split; [apply Z.div_pos; lia|]. apply Z.le_lt_trans with (u32 x); [|lia].
    apply Z.div_le_upper_bound; [lia|]. pose proof (Z.pow_pos_nonneg 2 (32 - n)). nia.
Qed.

Lemma F_fips t x y z : u32 (F_ t x y z) = fips_f t (u32 x) (u32 y) (u32 z).
Proof.
  unfold F_, fips_f, not32. repeat case_if; rewrite ?u32_lxor, ?u32_and, ?u32_lor; try done.
  all: rewrite ?u32_lxor, ?u32_and, ?u32_lor; try done.
  - apply Z.bits_inj'. intros n Hn.
    rewrite !Z.lxor_spec, !Z.land_spec, ?Z.lxor_spec, !u32_bits, ?Z.lnot_spec, !u32_bits by done.
    destruct (Z.testbit x n), (Z.testbit y n), (Z.testbit z n), (n <? 32); done.
  - apply Z.bits_inj'. intros n Hn.
    rewrite !Z.lxor_spec, !Z.lor_spec, !Z.land_spec, ?Z.lor_spec, !u32_bits by done.
    destruct (Z.testbit x n), (Z.testbit y n), (Z.testbit z n), (n <? 32); done.
Qed.

Lemma u32_sum e a f k x :
  u32 (e + (a + f + k + x)) = u32 (u32 a + u32 f + u32 e + k + u32 x).
Proof.
  symmetry. unfold wrap. rewrite (Z.mod_eq a (2 ^ 32)), (Z.mod_eq f (2 ^ 32)), (Z.mod_eq e (2 ^ 32)),
    (Z.mod_eq x (2 ^ 32)) by lia.
  rewrite <- (Z.mod_add _ (a / 2 ^ 32 + f / 2 ^ 32 + e / 2 ^ 32 + x / 2 ^ 32) (2 ^ 32)) by lia.
  f_equal. lia.
Qed.

Lemma P_fips t v x : lo5 (P t v x) = fips_round t (lo5 v) (u32 x).
Proof.
  destruct v as [[[[a b] c] d] e]. unfold P, fips_round, lo5. rewrite u32_u64, (u32_S b) by lia.
  rewrite u32_sum, u32_S, F_fips by lia. done.
Qed.

(** *** The message schedule *)

Lemma length_wext n : forall ws, length (wext n ws) = (length ws + n)%nat.
Proof. induction n as [|n IH]; intros ws; simpl; [lia|]. rewrite IH, length_app. simpl. lia. Qed.

Lemma wext_prefix n : forall ws i, (i < length ws)%nat -> nth i (wext n ws) 0 = nth i ws 0.
Proof.
  induction n as [|n IH]; intros ws i Hi; [done|]. simpl.
  rewrite IH by (rewrite length_app; lia). by rewrite app_nth1.
Qed.

Lemma wext_word n : forall ws t,
  (16 <= length ws)%nat -> (length ws <= t < length ws + n)%nat ->
  nth t (wext n ws) 0 =
  rotl (Z.lxor (Z.lxor (Z.lxor (nth (t - 3) (wext n ws) 0) (nth (t - 8) (wext n ws) 0))
    (nth (t - 14) (wext n ws) 0)) (nth (t - 16) (wext n ws) 0)) 1.
Proof.
  induction n as [|n IH]; intros ws t Hl Ht; [lia|]. cbn [wext].
  set (w := rotl _ 1). destruct (decide (t = length ws)) as [->|].
  - rewrite !wext_prefix by (rewrite length_app; simpl; lia).
    rewrite app_nth2, Nat.sub_diag by lia. cbn [nth]. subst w.
    rewrite !app_nth1 by lia. done.
  - apply IH; rewrite length_app; simpl; lia.
Qed.

(** The circular array holds the last 16 words of the schedule. *)
Definition window (t : Z) (W ws : list Z) : Prop :=
  length W = 16%nat /\
  forall i, 0 <= i -> (t - 16 <= i < t \/ t < 16 /\ i < 16) ->
    u32 (nth (Z.to_nat (i mod 16)) W 0) = nth (Z.to_nat i) ws 0.

Lemma W_at_mod W t : W_at W t = nth (Z.to_nat (t mod 16)) W 0.
Proof. unfold W_at. change 0x0F with (Z.ones 4). by rewrite Z.land_ones by lia. Qed.

Lemma window_first block t :
  0 <= t < 16 -> forall W, window t W (schedule block) -> u32 (W_at W t) = nth (Z.to_nat t) (schedule block) 0.
Proof. intros Ht W [_ HW]. rewrite W_at_mod. apply HW; lia. Qed.

Lemma nth_insert (W : list Z) i j x :
  (i < length W)%nat -> nth j (<[i := x]> W) 0 = if decide (i = j) then x else nth j W 0.
Proof.
  intros Hi. rewrite !nth_lookup. case_decide as E.
  - subst. by rewrite list_lookup_insert_eq.
  - by rewrite list_lookup_insert_ne.
Qed.

Lemma window_next block t W :
  16 <= t < 80 -> window t W (schedule block) ->
  let '(x, W') := R t W in
  u32 x = nth (Z.to_nat t) (schedule block) 0 /\ window (t + 1) W' (schedule block).
Proof.
  intros Ht [Hl HW]. unfold R. cbv zeta.
  set (w := S_ _ 1).
  assert (u32 w = nth (Z.to_nat t) (schedule block) 0) as Hw.
  { subst w. rewrite u32_S, !u32_lxor by lia. rewrite !W_at_mod.
    rewrite (HW (t - 3)), (HW (t - 8)), (HW (t - 14)) by lia.
    replace (t mod 16) with ((t - 16) mod 16).
    2: { replace t with (t - 16 + 1 * 16) at 2 by lia. by rewrite Z.mod_add by lia. }
    rewrite (HW (t - 16)) by lia. unfold schedule.
    rewrite (wext_word 64 (block_words block) (Z.to_nat t)).
    2,3: unfold block_words; rewrite length_fmap, length_seq; lia.
    rewrite !Z2Nat.inj_sub by lia. done. }
  split; [exact Hw|]. split; [by rewrite length_insert|].
  intros i Hi0 Hi. change 0x0F with (Z.ones 4). rewrite Z.land_ones by lia. change (2 ^ 4) with 16.
  pose proof (Z.mod_pos_bound t 16). pose proof (Z.mod_pos_bound i 16).
  rewrite nth_insert by lia. case_decide as E.
  - assert (i = t) as ->; [|exact Hw]. assert (t mod 16 = i mod 16) as E' by lia.
    apply Z.cong_iff_0, Z.mod_divide in E' as [q Hq]; lia.
  - destruct (decide (i = t)) as [->|]; [by destruct E|]. apply HW; lia.
Qed.

Lemma rounds_fips block n : forall t W v,
  0 <= t -> t + Z.of_nat n = 80 -> window t W (schedule block) ->
  lo5 (rounds n t W v) = fips_rounds n t (schedule block) (lo5 v).
Proof.
  induction n as [|n IH]; intros t W v Ht Hn HW; [done|]. cbn [rounds fips_rounds].
  case_if.
  - assert (window (t + 1) W (schedule block)) as HW'.
    { destruct HW as [Hl HW]. split; [done|]. intros i Hi0 Hi. apply HW; lia. }
    rewrite IH by (lia || exact HW').
    rewrite P_fips, (window_first block t) by (lia || exact HW). reflexivity.
  - pose proof (window_next block t W ltac:(lia) HW) as Hr. destruct (R t W) as [x W'].
    destruct Hr as [Hx HW']. rewrite IH by (lia || exact HW'). rewrite P_fips, Hx. reflexivity.
Qed.

(** *** One block *)

Lemma process_fips st block :
  length block = 64%nat -> Forall byte_ok block ->
  lo5 (sha1_process st block) = compress (lo5 st) block.
Proof.
  intros Hl Hb. unfold sha1_process, compress.
  rewrite <- (rounds_fips block 80 0 (load_words block) st); [|lia|lia|].
  - destruct st as [[[[a b] c] d] e], (rounds 80 0 _ _) as [[[[a' b'] c'] d'] e'].
    unfold add5, lo5. rewrite !u32_u64.
    rewrite (u32_add a), (u32_add b), (u32_add c), (u32_add d), (u32_add e). reflexivity.
  - split; [unfold load_words; by rewrite length_fmap, length_seq|].
    intros i Hi0 Hi. rewrite Z.mod_small by lia. unfold schedule.
    rewrite wext_prefix by (unfold block_words; rewrite length_fmap, length_seq; lia).
    unfold load_words, block_words. rewrite !nth_lookup, !list_lookup_fmap, lookup_seq_lt by lia.
    simpl. apply get_be_word; [done|]. lia.
Qed.

#[export] Instance sha1_stream_ok : StreamOk sha1_context.
Proof.
  intros ctx m input Hab Hbi Hli Hl61. cbn [update holds sha1_stream] in *. unfold sha1_update.
  destruct (Z.leb_spec (Z.of_nat (length input)) 0) as [H0|H0].
  { assert (input = []) as -> by (apply nil_length_inv; lia). by rewrite app_nil_r. }
  pose proof (absorbed_update lo5 sha1_process compress fips_h0 process_fips 64 _ _ _ _ m input ltac:(lia) Hab Hbi (conj H0 Hli) Hl61) as Hu.
  unfold md_update in Hu. by destruct (feed _ _ _ _ _) as [st buf].
Qed.

Lemma starts_absorbed buf : length buf = 64%nat -> holds (sha1_starts buf) [].
Proof. by apply absorbed_nil. Qed.

(** ** The padding and the digest *)

Definition digest_bytes (v : Z * Z * Z * Z * Z) : list Z :=
  let '(a, b, c, d, e) := v in
  PUT_UINT32_BE a ++ PUT_UINT32_BE b ++ PUT_UINT32_BE c ++ PUT_UINT32_BE d ++ PUT_UINT32_BE e.

Lemma digest_lo v : digest_bytes (lo5 v) = digest_bytes v.
Proof. destruct v as [[[[a b] c] d] e]. unfold digest_bytes, lo5. by rewrite !put_wrap by lia. Qed.

Lemma fips_digest msg :
  fips_sha1 msg = digest_bytes (fips_state (length (fips_pad msg) / 64) (fips_pad msg)).
Proof.
  unfold fips_sha1. destruct (fips_state _ _) as [[[[a b] c] d] e].
  unfold digest_bytes. rewrite !put_be. cbn [fmap list_fmap concat]. by rewrite app_nil_r.
Qed.

(** [sha1_finish] gives the digest of the message that was fed. *)
Lemma finish_absorbed ctx m :
  holds ctx m -> Z.of_nat (length m) + 128 < 2 ^ 61 -> sha1_finish ctx = fips_sha1 m.
Proof.
  intros Hab Hlen. unfold sha1_finish.
  rewrite (msglen_fips 64 (Z.of_nat (length m))) by (lia || apply Hab).
  rewrite (absorbed_left _ _ _ _ _ _ _ _ Hab). pose proof (finish_holds ctx m Hab Hlen) as Hf.
  cbv zeta in *. cbn [update holds sha1_stream] in Hf. set (ctx' := sha1_update _ _) in *.
  rewrite fips_digest. unfold fips_state. rewrite <- (fed_state _ _ _ _ _ _ (ab_fed _ _ _ _ _ _ _ _ Hf)), digest_lo.
  unfold digest_bytes. reflexivity.
Qed.

Lemma length_digest v : length (digest_bytes v) = 20%nat.
Proof. by destruct v as [[[[a b] c] d] e]. Qed.

Lemma length_sha1 m : length (fips_sha1 m) = 20%nat.
Proof. rewrite fips_digest. apply length_digest. Qed.

Lemma sha1_bytes m : Forall byte_ok (fips_sha1 m).
Proof.
  rewrite fips_digest. destruct (fips_state _ _) as [[[[a b] c] d] e]. unfold digest_bytes.
  repeat (apply Forall_app; split); apply put_bytes.
Qed.

Lemma hash_pieces buf pieces :
  length buf = 64%nat -> Forall (Forall byte_ok) pieces ->
  Forall (fun p => Z.of_nat (length p) < 2 ^ 32) pieces -> Z.of_nat (length (concat pieces)) + 128 < 2 ^ 61 ->
  sha1_finish (foldl sha1_update (sha1_starts buf) pieces) = fips_sha1 (concat pieces).
Proof.
  intros Hb Hp Hl Ht. apply finish_absorbed; [|done].
  refine (updates_hold (C := sha1_context) (sha1_starts buf) [] pieces _ _ _ _); [by apply starts_absorbed|done|done|simpl; lia].
Qed.

Lemma sha1_csum_fips buf input :
  length buf = 64%nat -> Forall byte_ok input -> Z.of_nat (length input) < 2 ^ 32 ->
  sha1_csum buf input = fips_sha1 input.
Proof.
  intros Hb Hi Hl. pose proof (hash_pieces buf [input] Hb) as H.
  cbn [concat foldl] in H. rewrite app_nil_r in H. apply H; [by repeat constructor..|lia].
Qed.

(** *** HMAC *)

(** HMAC of RFC 2104, for keys of up to one block and for longer ones. *)
Definition hmac_block (byte : Z) (key : list Z) : list Z :=
  (fun i => Z.lxor byte (nth i key 0)) <$> seq 0 64.

Definition hmac_sha1 (key text : list Z) : list Z :=
  let key := if (64 <? length key)%nat then fips_sha1 key else key in
  fips_sha1 (hmac_block 0x5C key ++ fips_sha1 (hmac_block 0x36 key ++ text)).

Lemma hmac_loop_spec key : forall i pad,
  length pad = 64%nat ->
  hmac_loop i key pad = (fun j => if (i <=? j)%nat then Z.lxor (nth j pad 0) (nth (j - i) key 0) else nth j pad 0) <$> seq 0 64.
Proof.
  induction key as [|k key IH]; intros i pad Hp; cbn [hmac_loop].
  - apply list_eq_same_length with 64%nat; [by rewrite length_fmap, length_seq|done|].
    intros j x y Hj Hx. rewrite list_lookup_fmap, lookup_seq_lt by lia. cbn. intros [= <-].
    rewrite nth_lookup, Hx. simpl. destruct (j - i)%nat; rewrite Z.lxor_0_r; by case_if.
  - destruct (Nat.leb_spec 64 i).
    + apply list_eq_same_length with 64%nat; [by rewrite length_fmap, length_seq|done|].
      intros j x y Hj Hx. rewrite list_lookup_fmap, lookup_seq_lt by lia. cbn. intros [= <-].
      rewrite nth_lookup, Hx. rewrite (proj2 (Nat.leb_gt _ _)) by lia. done.
    + rewrite IH by (by rewrite length_insert). apply list_fmap_ext. intros j n Hj.
      apply lookup_seq in Hj as [-> Hj]. rewrite Nat.add_0_l, nth_insert by lia.
      destruct (Nat.leb_spec (S i) j), (Nat.leb_spec i j); try lia; case_decide; try lia; try done.
      * f_equal. replace (j - i)%nat with (S (j - S i)) by lia. done.
      * subst. by rewrite Nat.sub_diag.
Qed.

Lemma hmac_pad_block byte key : hmac_pad byte key = hmac_block byte (take 64 key).
Proof.
  unfold hmac_pad, hmac_block. rewrite hmac_loop_spec by apply length_replicate.
  apply list_fmap_ext. intros j n Hj. apply lookup_seq in Hj as [-> Hj].
  rewrite Nat.add_0_l, Nat.sub_0_r, !nth_lookup, lookup_replicate_2, lookup_take_lt by lia. done.
Qed.

Lemma hmac_block_bytes byte key : byte_ok byte -> Forall byte_ok key -> Forall byte_ok (hmac_block byte key).
Proof.
  intros Hb Hk. apply Forall_fmap, Forall_forall. intros i _. simpl.
  assert (byte_ok (nth i key 0)) as Hn.
  { rewrite nth_lookup. destruct (key !! i) eqn:E; simpl; [|by unfold byte_ok].
    rewrite Forall_lookup in Hk. by eapply Hk. }
  unfold byte_ok in *. split; [apply Z.lxor_nonneg; lia|].
  destruct (decide (Z.lxor byte (nth i key 0) = 0)) as [->|Hne]; [lia|].
  apply Z.log2_lt_cancel. apply Z.le_lt_trans with (Z.max (Z.log2 byte) (Z.log2 (nth i key 0))).
  - apply Z.log2_lxor; lia.
  - apply Z.max_lub_lt.
    + apply Z.le_lt_trans with (Z.log2 255); [apply Z.log2_le_mono; lia|reflexivity].
    + apply Z.le_lt_trans with (Z.log2 255); [apply Z.log2_le_mono; lia|reflexivity].
Qed.

(** ** The claims *)

(** Hashing incrementally: whatever the buffer holds at the start and
    however the message is cut into pieces (of less than 4 GiB each, of about
    2^61 bytes in all, where the 64-bit count of bits would overflow), the calls
    sha1_starts, sha1_update for each piece and sha1_finish return the SHA-1 of
    FIPS 180 of the whole message, although the code computes with 64-bit words. *)
Theorem sha1_streaming_correct (buf : list Z) (pieces : list (list Z)) :
  length buf = 64%nat -> Forall (Forall byte_ok) pieces ->
  Forall (fun p => Z.of_nat (length p) < 2 ^ 32) pieces -> Z.of_nat (length (concat pieces)) + 128 < 2 ^ 61 ->
  sha1_finish (foldl sha1_update (sha1_starts buf) pieces) = fips_sha1 (concat pieces).
Proof. apply hash_pieces. Qed.

(** Witness: a message in three pieces, one of them longer than a block. *)
Lemma sha1_streaming_correct_witness :
  sha1_finish (foldl sha1_update (sha1_starts (replicate 64 9)) [[1; 2; 3]; replicate 70 5; []]) =
  fips_sha1 ([1; 2; 3] ++ replicate 70 5 ++ [] ++ []).
Proof.
  apply (sha1_streaming_correct (replicate 64 9) [[1; 2; 3]; replicate 70 5; []]).
  - reflexivity.
  - repeat constructor; try (apply Forall_replicate); by unfold byte_ok.
  - repeat constructor.
  - reflexivity.
Defined.

(** The one-shot digest with a watchdog returns, for every chunk size from
    1 to 2^31 - 1, and gives the digest of the whole input: the SHA-1 that
    sha1_csum computes in one piece. *)
Theorem sha1_csum_wd_correct (buf input : list Z) (chunk_sz : nat) :
  length buf = 64%nat -> Forall byte_ok input -> Z.of_nat (length input) < 2 ^ 32 ->
  (0 < chunk_sz)%nat -> Z.of_nat chunk_sz < 2 ^ 31 ->
  sha1_csum_wd buf input chunk_sz = Some (sha1_csum buf input) /\ sha1_csum buf input = fips_sha1 input.
Proof.
  intros Hbuf Hb Hl Hc Hc31. rewrite sha1_csum_fips by done. split; [|reflexivity].
  destruct (wd_holds (length input) (sha1_starts buf) [] input chunk_sz) as (ctx & Hw & Hab);
    [done|done|lia|by apply starts_absorbed|done|simpl; lia|].
  unfold sha1_csum_wd. change sha1_update with (update (C := sha1_context)). rewrite Hw. cbn [mbind option_bind]. f_equal. apply finish_absorbed; [exact Hab|simpl; lia].
Qed.

(** Witness: 70 bytes in chunks of 9. *)
Lemma sha1_csum_wd_correct_witness :
  sha1_csum_wd (replicate 64 0) (replicate 70 5) 9 = Some (sha1_csum (replicate 64 0) (replicate 70 5)) /\
  sha1_csum (replicate 64 0) (replicate 70 5) = fips_sha1 (replicate 70 5).
Proof.
  apply (sha1_csum_wd_correct (replicate 64 0) (replicate 70 5) 9); try lia; try reflexivity.
  apply Forall_replicate. by unfold byte_ok.
Defined.

(** For a key of up to 64 bytes, sha1_hmac is HMAC-SHA-1 of RFC 2104; for a
    longer key it is the HMAC under the first 64 bytes of the key. *)
Theorem sha1_hmac_correct (buf key input : list Z) :
  length buf = 64%nat -> Forall byte_ok key -> Forall byte_ok input -> Z.of_nat (length input) < 2 ^ 32 ->
  sha1_hmac buf key input = hmac_sha1 (take 64 key) input.
Proof.
  intros Hbuf Hk Hi Hl. unfold sha1_hmac, hmac_sha1. rewrite !hmac_pad_block.
  rewrite (proj2 (Nat.ltb_ge _ _)) by (rewrite length_take; lia).
  assert (forall byte rest, byte_ok byte -> Forall byte_ok rest -> Z.of_nat (length rest) < 2 ^ 32 ->
    sha1_finish (sha1_update (sha1_update (sha1_starts buf) (hmac_block byte (take 64 key))) rest) =
    fips_sha1 (hmac_block byte (take 64 key) ++ rest)) as Hp.
  { intros byte rest Hb Hr Hlr.
    assert (length (hmac_block byte (take 64 key)) = 64%nat) as Hlb by (unfold hmac_block; by rewrite length_fmap).
    pose proof (hash_pieces buf [hmac_block byte (take 64 key); rest] Hbuf) as H.
    cbn [concat foldl] in H. rewrite app_nil_r in H. apply H.
    - apply Forall_cons; split; [|by apply Forall_singleton].
      apply hmac_block_bytes; [done|]. by apply Forall_take.
    - apply Forall_cons; split; [rewrite Hlb; lia|by apply Forall_singleton].
    - rewrite length_app, Hlb. lia. }
  rewrite (Hp 0x36 input) by (done || by unfold byte_ok).
  rewrite Hp; [reflexivity|by unfold byte_ok|apply sha1_bytes|rewrite length_sha1; lia].
Qed.

(** Witness: a short key. *)
Lemma sha1_hmac_correct_witness :
  sha1_hmac (replicate 64 0) (replicate 20 0x0b) [72; 105; 32; 84; 104; 101; 114; 101] =
  hmac_sha1 (take 64 (replicate 20 0x0b)) [72; 105; 32; 84; 104; 101; 114; 101].
Proof.
  apply (sha1_hmac_correct (replicate 64 0) (replicate 20 0x0b) [72; 105; 32; 84; 104; 101; 114; 101]).
  - reflexivity.
  - apply Forall_replicate. by unfold byte_ok.
  - repeat constructor; by unfold byte_ok.
  - reflexivity.
Defined.

(** RFC 2104 hashes a key that is longer than a block; the code cuts it off. *)
Example sha1_hmac_long_key :
  sha1_hmac (replicate 64 0) (replicate 80 0xaa) [1; 2; 3] <> hmac_sha1 (replicate 80 0xaa) [1; 2; 3].
Proof. vm_compute. discriminate. Qed.
