(* ===== verification/Sha256.v ===== *)
(** * SHA-256 ([lib/sha256.c], [include/u-boot/sha256.h])

    The code computes with 32-bit words.  The specification is the SHA-256 of
    FIPS 180; its constants are computed from square and cube roots of primes. *)

From S2P Require Import Prelude StringLib Blocks.
Local Open Scope Z_scope.

(** ** The code *)

Definition SHA256_SUM_LEN : Z := 32.
Definition SHA256_DER_LEN : Z := 19.
Definition CHUNKSZ_SHA256 : Z := 64 * 1024.

Definition sha256_der_prefix : list Z :=
  [0x30; 0x31; 0x30; 0x0d; 0x06; 0x09; 0x60; 0x86; 0x48; 0x01; 0x65; 0x03; 0x04; 0x02; 0x01; 0x05; 0x00; 0x04; 0x20].

(** The eight variables, or the eight words of [ctx->state]. *)
Definition words8 : Type := Z * Z * Z * Z * Z * Z * Z * Z.

Record sha256_context := mk_ctx256 {
  ctx_total0 : Z;
  ctx_total1 : Z;
  ctx_state : words8;
  ctx_buffer : list Z
}.

(** [ctx->buffer] is not initialised: [buf] is what it holds. *)
Definition sha256_starts (buf : list Z) : sha256_context :=
  mk_ctx256 0 0 (0x6A09E667, 0xBB67AE85, 0x3C6EF372, 0xA54FF53A, 0x510E527F, 0x9B05688C, 0x1F83D9AB, 0x5BE0CD19) buf.

Definition SHR (x n : Z) : Z := Z.shiftr (Z.land x 0xFFFFFFFF) n.
Definition ROTR (x n : Z) : Z := Z.lor (SHR x n) (u32 (Z.shiftl x (32 - n))).
Definition S0 (x : Z) : Z := Z.lxor (Z.lxor (ROTR x 7) (ROTR x 18)) (SHR x 3).
Definition S1 (x : Z) : Z := Z.lxor (Z.lxor (ROTR x 17) (ROTR x 19)) (SHR x 10).
Definition S2 (x : Z) : Z := Z.lxor (Z.lxor (ROTR x 2) (ROTR x 13)) (ROTR x 22).
Definition S3 (x : Z) : Z := Z.lxor (Z.lxor (ROTR x 6) (ROTR x 11)) (ROTR x 25).
Definition F0 (x y z : Z) : Z := Z.lor (Z.land x y) (Z.land z (Z.lor x y)).
Definition F1 (x y z : Z) : Z := Z.lxor z (Z.land x (Z.lxor y z)).

(** [R(t)]: the value that is stored in [W[t]]. *)
Definition R (W : list Z) (t : nat) : Z :=
  u32 (S1 (nth (t - 2) W 0) + nth (t - 7) W 0 + S0 (nth (t - 15) W 0) + nth (t - 16) W 0).

(** [P(a,b,c,d,e,f,g,h,x,K)], with the eight variables renamed for the next round
    as the code's calls do. *)
Definition P (v : words8) (x K : Z) : words8 :=
  let '(a, b, c, d, e, f, g, h) := v in
  let temp1 := u32 (h + S3 e + F1 e f g + K + x) in
  let temp2 := u32 (S2 a + F0 a b c) in
  (u32 (temp1 + temp2), a, b, c, u32 (d + temp1), e, f, g).

(** The last arguments of the 64 calls of [P]. *)
Definition K256 : list Z :=
  [0x428A2F98; 0x71374491; 0xB5C0FBCF; 0xE9B5DBA5; 0x3956C25B; 0x59F111F1; 0x923F82A4; 0xAB1C5ED5;
   0xD807AA98; 0x12835B01; 0x243185BE; 0x550C7DC3; 0x72BE5D74; 0x80DEB1FE; 0x9BDC06A7; 0xC19BF174;
   0xE49B69C1; 0xEFBE4786; 0x0FC19DC6; 0x240CA1CC; 0x2DE92C6F; 0x4A7484AA; 0x5CB0A9DC; 0x76F988DA;
   0x983E5152; 0xA831C66D; 0xB00327C8; 0xBF597FC7; 0xC6E00BF3; 0xD5A79147; 0x06CA6351; 0x14292967;
   0x27B70A85; 0x2E1B2138; 0x4D2C6DFC; 0x53380D13; 0x650A7354; 0x766A0ABB; 0x81C2C92E; 0x92722C85;
   0xA2BFE8A1; 0xA81A664B; 0xC24B8B70; 0xC76C51A3; 0xD192E819; 0xD6990624; 0xF40E3585; 0x106AA070;
   0x19A4C116; 0x1E376C08; 0x2748774C; 0x34B0BCB5; 0x391C0CB3; 0x4ED8AA4A; 0x5B9CCA4F; 0x682E6FF3;
   0x748F82EE; 0x78A5636F; 0x84C87814; 0x8CC70208; 0x90BEFFFA; 0xA4506CEB; 0xBEF9A3F7; 0xC67178F2].

(** The calls of [P] from [t] on.  [W] is the part of the array that has been
    written: [R(t)] writes the next word. *)
Fixpoint sha256_rounds (Ks : list Z) (t : nat) (W : list Z) (v : words8) : words8 :=
  match Ks with
  | [] => v
  | K :: Ks =>
      let '(x, W) := if (t <? 16)%nat then (nth t W 0, W) else let w := R W t in (w, W ++ [w]) in
      sha256_rounds Ks (S t) W (P v x K)
  end.

Definition add8 (x y : words8) : words8 :=
  let '(a, b, c, d, e, f, g, h) := x in
  let '(a', b', c', d', e', f', g', h') := y in
  (u32 (a + a'), u32 (b + b'), u32 (c + c'), u32 (d + d'), u32 (e + e'), u32 (f + f'), u32 (g + g'), u32 (h + h')).

Definition load_W (dat : list Z) : list Z := (fun i => u32 (GET_UINT32_BE dat (4 * i))) <$> seq 0 16.

Definition sha256_process (st : words8) (dat : list Z) : words8 := add8 st (sha256_rounds K256 0 (load_W dat) st).

(** [input] has [length] bytes, fewer than 2^32. *)
Definition sha256_update (ctx : sha256_context) (input : list Z) : sha256_context :=
  let length := Z.of_nat (length input) in
  if length =? 0 then ctx
  else
    let left_ := Z.to_nat (Z.land (ctx_total0 ctx) 0x3F) in
    let t0 := Z.land (u32 (ctx_total0 ctx + length)) 0xFFFFFFFF in
    let t1 := if t0 <? length then u32 (ctx_total1 ctx + 1) else ctx_total1 ctx in
    let '(st, buf) := feed sha256_process (ctx_state ctx) (ctx_buffer ctx) left_ input in
    mk_ctx256 t0 t1 st buf.

Definition sha256_padding : list Z := 0x80 :: replicate 63 0.

Definition put_words8 (v : words8) : list Z :=
  let '(a, b, c, d, e, f, g, h) := v in
  PUT_UINT32_BE a ++ PUT_UINT32_BE b ++ PUT_UINT32_BE c ++ PUT_UINT32_BE d ++
  PUT_UINT32_BE e ++ PUT_UINT32_BE f ++ PUT_UINT32_BE g ++ PUT_UINT32_BE h.

Definition sha256_finish (ctx : sha256_context) : list Z :=
  let high := Z.lor (Z.shiftr (ctx_total0 ctx) 29) (u32 (Z.shiftl (ctx_total1 ctx) 3)) in
  let low := u32 (Z.shiftl (ctx_total0 ctx) 3) in
  let msglen := PUT_UINT32_BE high ++ PUT_UINT32_BE low in
  let last := Z.to_nat (Z.land (ctx_total0 ctx) 0x3F) in
  let padn := if (last <? 56)%nat then (56 - last)%nat else (120 - last)%nat in
  let ctx := sha256_update ctx (take padn sha256_padding) in
  let ctx := sha256_update ctx msglen in
  put_words8 (ctx_state ctx).

(** Without a watchdog and with one. *)
Definition sha256_csum (buf input : list Z) : list Z := sha256_finish (sha256_update (sha256_starts buf) input).
Definition sha256_csum_wd (buf input : list Z) (chunk_sz : nat) : option (list Z) :=
  ctx ← wd_loop sha256_update (length input) (sha256_starts buf) input chunk_sz; Some (sha256_finish ctx).

(** ** The specification: FIPS 180 *)

(** The largest [r] with [r ^ k <= n], found bit by bit. *)
Definition iroot (k n : Z) : Z :=
  foldl (fun r i => if (r + 2 ^ i) ^ k <=? n then r + 2 ^ i else r) 0 (Z.of_nat <$> rev (seq 0 37)).

(** The first 32 bits of the fraction of the root of [p]. *)
Definition root_frac (k p : Z) : Z := u32 (iroot k (p * 2 ^ (32 * k))).

Definition primes : list Z :=
  [2; 3; 5; 7; 11; 13; 17; 19; 23; 29; 31; 37; 41; 43; 47; 53; 59; 61; 67; 71; 73; 79; 83; 89; 97; 101; 103; 107; 109; 113; 127; 131;
   137; 139; 149; 151; 157; 163; 167; 173; 179; 181; 191; 193; 197; 199; 211; 223; 227; 229; 233; 239; 241; 251; 257; 263; 269; 271;
   277; 281; 283; 293; 307; 311].

Definition fips_K : list Z := root_frac 3 <$> primes.

Definition rotr (x n : Z) : Z := Z.lor (Z.shiftr x n) (u32 (Z.shiftl x (32 - n))).
Definition Ch (x y z : Z) : Z := Z.lxor (Z.land x y) (Z.land (u32 (Z.lnot x)) z).
Definition Maj (x y z : Z) : Z := Z.lxor (Z.lxor (Z.land x y) (Z.land x z)) (Z.land y z).
Definition Sigma (r1 r2 r3 x : Z) : Z := Z.lxor (Z.lxor (rotr x r1) (rotr x r2)) (rotr x r3).
Definition sigma (r1 r2 s x : Z) : Z := Z.lxor (Z.lxor (rotr x r1) (rotr x r2)) (Z.shiftr x s).

(** The message schedule: [n] more words. *)
Fixpoint schedule256 (n : nat) (ws : list Z) : list Z :=
  match n with
  | O => ws
  | S n =>
      let t := length ws in
      schedule256 n (ws ++ [u32 (sigma 17 19 10 (nth (t - 2) ws 0) + nth (t - 7) ws 0 + sigma 7 18 3 (nth (t - 15) ws 0) + nth (t - 16) ws 0)])
  end.

Definition words256 (block : list Z) : list Z := (fun i => be_word (take 4 (drop (4 * i) block))) <$> seq 0 16.

Definition round256 (v : words8) (KW : Z * Z) : words8 :=
  let '(a, b, c, d, e, f, g, h) := v in
  let T1 := h + Sigma 6 11 25 e + Ch e f g + KW.1 + KW.2 in
  let T2 := Sigma 2 13 22 a + Maj a b c in
  (u32 (T1 + T2), a, b, c, u32 (d + T1), e, f, g).

Definition compress256 (h : words8) (block : list Z) : words8 :=
  add8 h (foldl round256 h (zip fips_K (schedule256 48 (words256 block)))).

Definition fips256_h0 : words8 :=
  (root_frac 2 2, root_frac 2 3, root_frac 2 5, root_frac 2 7, root_frac 2 11, root_frac 2 13, root_frac 2 17, root_frac 2 19).

Definition fips_sha256 (msg : list Z) : list Z :=
  let m := fips_pad msg in
  let '(a, b, c, d, e, f, g, h) := md_state compress256 fips256_h0 (length m / 64) m in
  concat ((fun x => rev (word_bytes 4 x)) <$> [a; b; c; d; e; f; g; h]).

(** A test vector of FIPS 180. *)
Example sha256_abc : sha256_csum (replicate 64 7) [97; 98; 99] =
  [0xba; 0x78; 0x16; 0xbf; 0x8f; 0x01; 0xcf; 0xea; 0x41; 0x41; 0x40; 0xde; 0x5d; 0xae; 0x22; 0x23;
   0xb0; 0x03; 0x61; 0xa3; 0x96; 0x17; 0x7a; 0x9c; 0xb4; 0x10; 0xff; 0x61; 0xf2; 0x00; 0x15; 0xad].
Proof. vm_compute. reflexivity. Qed.

(** The constants of the code are those of the standard. *)
Lemma K256_fips : K256 = fips_K.
Proof. vm_compute. reflexivity. Qed.

Lemma starts_h0 buf : ctx_state (sha256_starts buf) = fips256_h0.
Proof. vm_compute. reflexivity. Qed.

(** ** One block *)

Definition lo8 (v : words8) : words8 :=
  let '(a, b, c, d, e, f, g, h) := v in (u32 a, u32 b, u32 c, u32 d, u32 e, u32 f, u32 g, u32 h).

Lemma SHR_u32 x n : SHR x n = Z.shiftr (u32 x) n.
Proof. unfold SHR. change 0xFFFFFFFF with (Z.ones 32). by rewrite <- u32_land. Qed.

Lemma ROTR_u32 x n : 0 <= n <= 32 -> ROTR x n = rotr (u32 x) n.
Proof.
  intros Hn. unfold ROTR, rotr. rewrite SHR_u32. f_equal. unfold wrap. rewrite !Z.shiftl_mul_pow2 by lia. by rewrite Zmult_mod_idemp_l.
Qed.

Lemma S0_u32 x : S0 x = sigma 7 18 3 (u32 x).
Proof. unfold S0, sigma. by rewrite !ROTR_u32, SHR_u32 by lia. Qed.
Lemma S1_u32 x : S1 x = sigma 17 19 10 (u32 x).
Proof. unfold S1, sigma. by rewrite !ROTR_u32, SHR_u32 by lia. Qed.
Lemma S2_u32 x : S2 x = Sigma 2 13 22 (u32 x).
Proof. unfold S2, Sigma. by rewrite !ROTR_u32 by lia. Qed.
Lemma S3_u32 x : S3 x = Sigma 6 11 25 (u32 x).
Proof. unfold S3, Sigma. by rewrite !ROTR_u32 by lia. Qed.

Lemma F0_Maj x y z : u32 (F0 x y z) = Maj (u32 x) (u32 y) (u32 z).
Proof.
  unfold F0, Maj. apply Z.bits_inj'. intros n Hn.
  rewrite u32_bits, !Z.lxor_spec, !Z.lor_spec, !Z.land_spec, ?Z.lor_spec, !u32_bits by done.
  destruct (Z.testbit x n), (Z.testbit y n), (Z.testbit z n), (n <? 32); done.
Qed.

Lemma F1_Ch x y z : u32 (F1 x y z) = Ch (u32 x) (u32 y) (u32 z).
Proof.
  unfold F1, Ch. apply Z.bits_inj'. intros n Hn.
  rewrite u32_bits, !Z.lxor_spec, !Z.land_spec, ?Z.lxor_spec, !u32_bits, ?Z.lnot_spec, !u32_bits by done.
  destruct (Z.testbit x n), (Z.testbit y n), (Z.testbit z n), (n <? 32); done.
Qed.

(** Sums modulo 2^32: the wraps of the summands do not matter. *)
Lemma u32_sum_l x y : u32 (u32 x + y) = u32 (x + y).
Proof. unfold wrap. apply Zplus_mod_idemp_l. Qed.
Lemma u32_sum_r x y : u32 (x + u32 y) = u32 (x + y).
Proof. unfold wrap. apply Zplus_mod_idemp_r. Qed.

(** The first sum of a round, with wrapped and with plain arguments. *)
Lemma temp1_u32 h s f k x : u32 (h + s + f + k + x) = u32 (u32 h + s + u32 f + k + u32 x).
Proof.
  unfold wrap. symmetry. rewrite Zplus_mod_idemp_r.
  replace (h mod 2 ^ 32 + s + f mod 2 ^ 32 + k + x) with (h mod 2 ^ 32 + (f mod 2 ^ 32 + (s + k + x))) by ring.
  rewrite Zplus_mod_idemp_l. replace (h + (f mod 2 ^ 32 + (s + k + x))) with (f mod 2 ^ 32 + (h + (s + k + x))) by ring.
  rewrite Zplus_mod_idemp_l. f_equal. ring.
Qed.

Lemma P_round v x K : lo8 (P v x K) = round256 (lo8 v) (K, u32 x).
Proof.
  destruct v as [[[[[[[a b] c] d] e] f] g] h]. unfold P, round256, lo8. cbn [fst snd].
  rewrite S2_u32, S3_u32, !u32_idem, (temp1_u32 h), F1_Ch. set (T1 := u32 h + _ + _ + K + _).
  rewrite u32_sum_l, u32_sum_r, u32_sum_r, u32_sum_l.
  rewrite <- (u32_sum_r T1 (_ + F0 a b c)), <- (u32_sum_r _ (F0 a b c)), F0_Maj, u32_sum_r. reflexivity.
Qed.

Lemma length_schedule256 n : forall ws, length (schedule256 n ws) = (length ws + n)%nat.
Proof. induction n as [|n IH]; intros ws; cbn [schedule256]; [lia|]. rewrite IH, length_app. simpl. lia. Qed.

Lemma schedule256_prefix n : forall ws, take (length ws) (schedule256 n ws) = ws.
Proof.
  induction n as [|n IH]; intros ws; cbn [schedule256]; [by apply take_ge|].
  set (w := u32 _). pose proof (f_equal (take (length ws)) (IH (ws ++ [w]))) as E. rewrite take_take, take_app_length, length_app in E.
  rewrite Nat.min_l in E by lia. exact E.
Qed.

Lemma schedule256_lookup n ws i : (i < length ws)%nat -> schedule256 n ws !! i = ws !! i.
Proof. intros Hi. rewrite <- (schedule256_prefix n ws) at 2. by rewrite lookup_take_lt. Qed.

(** The words of the code are those of the schedule, and are 32-bit words. *)
Lemma R_schedule W : (16 <= length W)%nat -> Forall (fun w => u32 w = w) W ->
  R W (length W) = u32 (sigma 17 19 10 (nth (length W - 2) W 0) + nth (length W - 7) W 0 + sigma 7 18 3 (nth (length W - 15) W 0) + nth (length W - 16) W 0).
Proof.
  intros Hl HW. unfold R. rewrite S0_u32, S1_u32. assert (forall i, u32 (nth i W 0) = nth i W 0) as Hn; [|by rewrite !Hn].
  intros i. rewrite nth_lookup. destruct (W !! i) eqn:E; [|done]. rewrite Forall_lookup in HW. by apply (HW i).
Qed.

Lemma rounds_schedule Ks n : forall t W v,
  (t + length Ks = 16 + n)%nat -> (length W = Nat.max 16 t)%nat -> Forall (fun w => u32 w = w) W ->
  lo8 (sha256_rounds Ks t W v) = foldl round256 (lo8 v) (zip Ks (drop t (schedule256 (16 + n - length W) W))).
Proof.
  induction Ks as [|K Ks IH]; intros t W v Ht Hl HW; [done|]. cbn [sha256_rounds length] in *. destruct (Nat.ltb_spec t 16) as [Hlt|Hge].
  - rewrite IH by (lia || done). set (ws := schedule256 _ W).
    assert (ws !! t = Some (nth t W 0)) as Hw.
    { rewrite nth_lookup. destruct (lookup_lt_is_Some_2 W t ltac:(lia)) as [w Hw]. unfold ws.
      rewrite schedule256_lookup, Hw by lia. done. }
    rewrite (drop_S ws _ t Hw). cbn [zip zip_with foldl]. rewrite P_round. do 3 f_equal.
    rewrite nth_lookup in Hw |- *. destruct (W !! t) eqn:E; [|done]. rewrite Forall_lookup in HW. by apply (HW t).
  - assert (t = length W) as -> by lia. rewrite (R_schedule W) by (lia || done).
    replace (16 + n - length W)%nat with (S (16 + n - S (length W))) by lia. cbn [schedule256]. set (w := u32 _).
    rewrite IH; [|lia|rewrite length_app; simpl; lia|].
    2: { apply Forall_app. split; [done|]. apply Forall_singleton, u32_idem. }
    rewrite length_app. cbn [length]. rewrite Nat.add_1_r.
    set (ws := schedule256 _ (W ++ [w])). assert (ws !! length W = Some w) as Hw.
    { unfold ws. rewrite schedule256_lookup by (rewrite length_app; simpl; lia). by rewrite lookup_app_r, Nat.sub_diag by lia. }
    rewrite (drop_S ws _ _ Hw). cbn [zip zip_with foldl]. rewrite P_round. unfold w. by rewrite u32_idem.
Qed.

Lemma process256_fips st block : length block = 64%nat -> Forall byte_ok block ->
  lo8 (sha256_process st block) = compress256 (lo8 st) block.
Proof.
  intros Hl Hb. unfold sha256_process, compress256. rewrite <- K256_fips.
  assert (load_W block = words256 block) as ->.
  { apply list_fmap_ext. intros i j Hj. apply lookup_seq in Hj as [-> Hj]. apply get_be_word; [done|lia]. }
  assert (Forall (fun w => u32 w = w) (words256 block)) as HW.
  { apply Forall_fmap, Forall_forall. intros i Hi%elem_of_seq. cbn. rewrite <- get_be_word by (done || lia). apply u32_idem. }
  pose proof (rounds_schedule K256 48 0 (words256 block) st eq_refl eq_refl HW) as Hr. rewrite drop_0 in Hr.
  change (16 + 48 - length (words256 block))%nat with 48%nat in Hr. rewrite <- Hr.
  destruct st as [[[[[[[a b] c] d] e] f] g] h], (sha256_rounds _ _ _ _) as [[[[[[[a' b'] c'] d'] e'] f'] g'] h'].
  unfold add8, lo8. by rewrite !u32_idem, !u32_sum_l, !u32_sum_r.
Qed.

(** ** Streams *)

#[export] Instance sha256_stream : Stream sha256_context := {
  update := sha256_update;
  holds ctx m := absorbed lo8 compress256 fips256_h0 (ctx_total0 ctx) (ctx_total1 ctx) (ctx_state ctx) (ctx_buffer ctx) m
}.

#[export] Instance sha256_stream_ok : StreamOk sha256_context.
Proof.
  intros ctx m input Hab Hbi Hli Hl61. cbn [update holds sha256_stream] in *. unfold sha256_update.
  destruct (Z.eqb_spec (Z.of_nat (length input)) 0) as [H0|H0].
  { assert (input = []) as -> by (apply nil_length_inv; lia). by rewrite app_nil_r. }
  pose proof (absorbed_update lo8 sha256_process compress256 fips256_h0 process256_fips 32 _ _ _ _ m input
    ltac:(lia) Hab Hbi ltac:(lia) Hl61) as Hu.
  unfold md_update in Hu. by destruct (feed _ _ _ _ _) as [st buf].
Qed.

Lemma starts256_holds buf : length buf = 64%nat -> holds (sha256_starts buf) [].
Proof. intros Hb. apply absorbed_nil; [|done]. rewrite starts_h0. vm_compute. reflexivity. Qed.

Lemma put_lo8 v : put_words8 (lo8 v) = put_words8 v.
Proof. destruct v as [[[[[[[a b] c] d] e] f] g] h]. unfold put_words8, lo8. by rewrite !put_wrap by lia. Qed.

Lemma fips256_digest msg :
  fips_sha256 msg = put_words8 (md_state compress256 fips256_h0 (length (fips_pad msg) / 64) (fips_pad msg)).
Proof.
  unfold fips_sha256. destruct (md_state _ _ _ _) as [[[[[[[a b] c] d] e] f] g] h].
  unfold put_words8. rewrite !put_be. cbn [fmap list_fmap concat]. by rewrite app_nil_r.
Qed.

(** [sha256_finish] gives the digest of the message that was fed. *)
Lemma finish256_fips ctx m : holds ctx m -> Z.of_nat (length m) + 128 < 2 ^ 61 -> sha256_finish ctx = fips_sha256 m.
Proof.
  intros Hab Hlen. unfold sha256_finish.
  rewrite (msglen_fips 32 (Z.of_nat (length m))) by (lia || apply Hab).
  rewrite (absorbed_left _ _ _ _ _ _ _ _ Hab). pose proof (finish_holds ctx m Hab Hlen) as Hf.
  cbv zeta in *. cbn [update holds sha256_stream] in Hf. set (ctx' := sha256_update _ _) in *.
  rewrite fips256_digest, <- (fed_state _ _ _ _ _ _ (ab_fed _ _ _ _ _ _ _ _ Hf)). symmetry. apply put_lo8.
Qed.

Lemma length_sha256 m : length (fips_sha256 m) = 32%nat.
Proof. rewrite fips256_digest. by destruct (md_state _ _ _ _) as [[[[[[[a b] c] d] e] f] g] h]. Qed.

Lemma sha256_bytes m : Forall byte_ok (fips_sha256 m).
Proof.
  rewrite fips256_digest. destruct (md_state _ _ _ _) as [[[[[[[a b] c] d] e] f] g] h]. unfold put_words8.
  repeat (apply Forall_app; split); apply put_bytes.
Qed.

Lemma hash256_pieces buf pieces :
  length buf = 64%nat -> Forall (Forall byte_ok) pieces ->
  Forall (fun p => Z.of_nat (length p) < 2 ^ 32) pieces -> Z.of_nat (length (concat pieces)) + 128 < 2 ^ 61 ->
  sha256_finish (foldl sha256_update (sha256_starts buf) pieces) = fips_sha256 (concat pieces).
Proof.
  intros Hb Hp Hl Ht. apply finish256_fips; [|done].
  refine (updates_hold (C := sha256_context) (sha256_starts buf) [] pieces _ _ _ _); [by apply starts256_holds|done|done|simpl; lia].
Qed.

Lemma sha256_csum_wd_fips buf input chunk_sz :
  length buf = 64%nat -> Forall byte_ok input -> Z.of_nat (length input) < 2 ^ 32 -> (0 < chunk_sz)%nat -> Z.of_nat chunk_sz < 2 ^ 31 ->
  sha256_csum_wd buf input chunk_sz = Some (fips_sha256 input).
Proof.
  intros Hbuf Hb Hl Hc Hc31.
  destruct (wd_holds (length input) (sha256_starts buf) [] input chunk_sz) as (ctx & Hw & Hab);
    [done|done|lia|by apply starts256_holds|done|simpl; lia|].
  unfold sha256_csum_wd. change sha256_update with (update (C := sha256_context)). rewrite Hw. cbn [mbind option_bind].
  f_equal. apply finish256_fips; [exact Hab|simpl; lia].
Qed.

(** ** The claims *)

(** C23: however a message is cut into pieces and whatever the buffer holds at the
    start, [sha256_starts], [sha256_update] for each piece and [sha256_finish]
    give the SHA-256 of FIPS 180 of the whole message, with the constants of the
    standard computed from the primes. *)
Theorem sha256_streaming_correct (buf : list Z) (pieces : list (list Z)) :
  length buf = 64%nat -> Forall (Forall byte_ok) pieces ->
  Forall (fun p => Z.of_nat (length p) < 2 ^ 32) pieces -> Z.of_nat (length (concat pieces)) + 128 < 2 ^ 61 ->
  sha256_finish (foldl sha256_update (sha256_starts buf) pieces) = fips_sha256 (concat pieces).
Proof. apply hash256_pieces. Qed.

(** Witness: a message in three pieces, one of them longer than a block. *)
Lemma sha256_streaming_correct_witness :
  sha256_finish (foldl sha256_update (sha256_starts (replicate 64 9)) [[1; 2; 3]; replicate 70 5; []]) =
  fips_sha256 ([1; 2; 3] ++ replicate 70 5 ++ [] ++ []).
Proof.
  apply (sha256_streaming_correct (replicate 64 9) [[1; 2; 3]; replicate 70 5; []]).
  - reflexivity.
  - repeat constructor; try (apply Forall_replicate); by unfold byte_ok.
  - repeat constructor.
  - reflexivity.
Defined.
