(* ===== verification/Md5.v ===== *)
(** * MD5 ([lib/md5.c])

    One of the digests of the hash nodes of a FIT image.  The words are read from
    and written to memory in little-endian order, as the machine has it. *)

From S2P Require Import Prelude StringLib Blocks.
Local Open Scope Z_scope.

Definition words4 : Type := Z * Z * Z * Z.

Record MD5Context := mk_md5 { md5_buf : words4; bits0 : Z; bits1 : Z; md5_in : list Z }.

(** A 32-bit load. *)
Definition le32 (b : list Z) (i : nat) : Z :=
  nth i b 0 + 2 ^ 8 * nth (i + 1) b 0 + 2 ^ 16 * nth (i + 2) b 0 + 2 ^ 24 * nth (i + 3) b 0.

(** [do { t = ...; *(__u32 * ) buf = t; buf += 4; } while (--longs)] *)
Fixpoint byteReverse (buf : list Z) (longs : nat) {struct longs} : list Z :=
  match longs, buf with
  | S longs, b0 :: b1 :: b2 :: b3 :: buf =>
      let t := Z.lor (u32 (Z.shiftl (Z.lor (Z.shiftl b3 8) b2) 16)) (Z.lor (Z.shiftl b1 8) b0) in
      word_bytes 4 t ++ byteReverse buf longs
  | _, _ => buf
  end.

(** ** One block *)

Definition MF1 (x y z : Z) : Z := Z.lxor z (Z.land x (Z.lxor y z)).
Definition MF2 (x y z : Z) : Z := MF1 z x y.
Definition MF3 (x y z : Z) : Z := Z.lxor (Z.lxor x y) z.
Definition MF4 (x y z : Z) : Z := Z.lxor y (Z.lor x (u32 (Z.lnot z))).

(** [MD5STEP(f, w, x, y, z, data, s)]: the new [w]. *)
Definition MD5STEP (f : Z -> Z -> Z -> Z) (w x y z data s : Z) : Z :=
  let w := u32 (w + u32 (f x y z + data)) in
  let w := Z.lor (u32 (Z.shiftl w s)) (Z.shiftr w (32 - s)) in
  u32 (w + x).

(** The steps: the function, the index in [in], the constant and the shift.  A
    step assigns to the first of its four words; the next one has the words in
    the order d, a, b, c. *)
Definition md5_steps : list ((Z -> Z -> Z -> Z) * nat * Z * Z) :=
  [(MF1, 0%nat, 0xd76aa478, 7); (MF1, 1%nat, 0xe8c7b756, 12); (MF1, 2%nat, 0x242070db, 17); (MF1, 3%nat, 0xc1bdceee, 22);
   (MF1, 4%nat, 0xf57c0faf, 7); (MF1, 5%nat, 0x4787c62a, 12); (MF1, 6%nat, 0xa8304613, 17); (MF1, 7%nat, 0xfd469501, 22);
   (MF1, 8%nat, 0x698098d8, 7); (MF1, 9%nat, 0x8b44f7af, 12); (MF1, 10%nat, 0xffff5bb1, 17); (MF1, 11%nat, 0x895cd7be, 22);
   (MF1, 12%nat, 0x6b901122, 7); (MF1, 13%nat, 0xfd987193, 12); (MF1, 14%nat, 0xa679438e, 17); (MF1, 15%nat, 0x49b40821, 22);
   (MF2, 1%nat, 0xf61e2562, 5); (MF2, 6%nat, 0xc040b340, 9); (MF2, 11%nat, 0x265e5a51, 14); (MF2, 0%nat, 0xe9b6c7aa, 20);
   (MF2, 5%nat, 0xd62f105d, 5); (MF2, 10%nat, 0x02441453, 9); (MF2, 15%nat, 0xd8a1e681, 14); (MF2, 4%nat, 0xe7d3fbc8, 20);
   (MF2, 9%nat, 0x21e1cde6, 5); (MF2, 14%nat, 0xc33707d6, 9); (MF2, 3%nat, 0xf4d50d87, 14); (MF2, 8%nat, 0x455a14ed, 20);
   (MF2, 13%nat, 0xa9e3e905, 5); (MF2, 2%nat, 0xfcefa3f8, 9); (MF2, 7%nat, 0x676f02d9, 14); (MF2, 12%nat, 0x8d2a4c8a, 20);
   (MF3, 5%nat, 0xfffa3942, 4); (MF3, 8%nat, 0x8771f681, 11); (MF3, 11%nat, 0x6d9d6122, 16); (MF3, 14%nat, 0xfde5380c, 23);
   (MF3, 1%nat, 0xa4beea44, 4); (MF3, 4%nat, 0x4bdecfa9, 11); (MF3, 7%nat, 0xf6bb4b60, 16); (MF3, 10%nat, 0xbebfbc70, 23);
   (MF3, 13%nat, 0x289b7ec6, 4); (MF3, 0%nat, 0xeaa127fa, 11); (MF3, 3%nat, 0xd4ef3085, 16); (MF3, 6%nat, 0x04881d05, 23);
   (MF3, 9%nat, 0xd9d4d039, 4); (MF3, 12%nat, 0xe6db99e5, 11); (MF3, 15%nat, 0x1fa27cf8, 16); (MF3, 2%nat, 0xc4ac5665, 23);
   (MF4, 0%nat, 0xf4292244, 6); (MF4, 7%nat, 0x432aff97, 10); (MF4, 14%nat, 0xab9423a7, 15); (MF4, 5%nat, 0xfc93a039, 21);
   (MF4, 12%nat, 0x655b59c3, 6); (MF4, 3%nat, 0x8f0ccc92, 10); (MF4, 10%nat, 0xffeff47d, 15); (MF4, 1%nat, 0x85845dd1, 21);
   (MF4, 8%nat, 0x6fa87e4f, 6); (MF4, 15%nat, 0xfe2ce6e0, 10); (MF4, 6%nat, 0xa3014314, 15); (MF4, 13%nat, 0x4e0811a1, 21);
   (MF4, 4%nat, 0xf7537e82, 6); (MF4, 11%nat, 0xbd3af235, 10); (MF4, 2%nat, 0x2ad7d2bb, 15); (MF4, 9%nat, 0xeb86d391, 21)].

Definition md5_step (inb : list Z) (v : words4) (st : (Z -> Z -> Z -> Z) * nat * Z * Z) : words4 :=
  let '(a, b, c, d) := v in
  let '(f, i, K, s) := st in
  (d, MD5STEP f a b c d (u32 (le32 inb (4 * i) + K)) s, b, c).

Definition add4 (x y : words4) : words4 :=
  let '(a, b, c, d) := x in let '(a', b', c', d') := y in (u32 (a + a'), u32 (b + b'), u32 (c + c'), u32 (d + d')).

Definition MD5Transform (buf : words4) (inb : list Z) : words4 := add4 buf (foldl (md5_step inb) buf md5_steps).

(** ** The context *)

(** [junk]: what is on the stack. *)
Definition MD5Init (junk : list Z) : MD5Context := mk_md5 (0x67452301, 0xefcdab89, 0x98badcfe, 0x10325476) 0 0 junk.

(** [memmove(ctx->in, ...); byteReverse(ctx->in, 16); MD5Transform(...)] with a
    full buffer. *)
Definition md5_block (buf : words4) (inb : list Z) : words4 * list Z :=
  let inb := byteReverse inb 16 in (MD5Transform buf inb, inb).

(** [while (len >= 64)] *)
Fixpoint md5_loop (fuel : nat) (buf : words4) (inb input : list Z) : words4 * list Z * list Z :=
  match fuel with
  | O => (buf, inb, input)
  | S fuel =>
      if (64 <=? length input)%nat then
        let '(buf, inb) := md5_block buf (blit inb 0 (take 64 input)) in
        md5_loop fuel buf inb (drop 64 input)
      else (buf, inb, input)
  end.

(** [input] has [len] bytes, fewer than 2^32. *)
Definition MD5Update (ctx : MD5Context) (input : list Z) : MD5Context :=
  let len := Z.of_nat (length input) in
  let t := bits0 ctx in
  let b0 := u32 (t + u32 (Z.shiftl len 3)) in
  let b1 := if b0 <? t then u32 (bits1 ctx + 1) else bits1 ctx in
  let b1 := u32 (b1 + Z.shiftr len 29) in
  let t := Z.to_nat (Z.land (Z.shiftr t 3) 0x3f) in
  if negb (Nat.eqb t 0) && (length input <? 64 - t)%nat then mk_md5 (md5_buf ctx) b0 b1 (blit (md5_in ctx) t input)
  else
    let '(buf, inb, input) :=
      if negb (Nat.eqb t 0) then
        let '(buf, inb) := md5_block (md5_buf ctx) (blit (md5_in ctx) t (take (64 - t) input)) in (buf, inb, drop (64 - t) input)
      else (md5_buf ctx, md5_in ctx, input) in
    let '(buf, inb, input) := md5_loop (length input) buf inb input in
    mk_md5 buf b0 b1 (blit inb 0 input).

Definition put_words4 (v : words4) : list Z :=
  let '(a, b, c, d) := v in word_bytes 4 a ++ word_bytes 4 b ++ word_bytes 4 c ++ word_bytes 4 d.

Definition MD5Final (ctx : MD5Context) : list Z :=
  let count := Z.to_nat (Z.land (Z.shiftr (bits0 ctx) 3) 0x3F) in
  let inb := blit (md5_in ctx) count [0x80] in
  let p := S count in
  let count := (64 - 1 - count)%nat in
  let '(buf, inb) :=
    if (count <? 8)%nat then
      let '(buf, inb) := md5_block (md5_buf ctx) (blit inb p (replicate count 0)) in (buf, blit inb 0 (replicate 56 0))
    else (md5_buf ctx, blit inb p (replicate (count - 8) 0)) in
  let inb := byteReverse inb 14 in
  let inb := blit (blit inb 56 (word_bytes 4 (bits0 ctx))) 60 (word_bytes 4 (bits1 ctx)) in
  byteReverse (put_words4 (MD5Transform buf inb)) 4.

Definition md5 (junk input : list Z) : list Z := MD5Final (MD5Update (MD5Init junk) input).
Definition md5_wd (junk input : list Z) (chunk_sz : nat) : option (list Z) :=
  ctx ← wd_loop MD5Update (length input) (MD5Init junk) input chunk_sz; Some (MD5Final ctx).

(** ** The specification: RFC 1321 *)

Definition rfc_F (x y z : Z) : Z := Z.lor (Z.land x y) (Z.land (u32 (Z.lnot x)) z).
Definition rfc_G (x y z : Z) : Z := Z.lor (Z.land x z) (Z.land y (u32 (Z.lnot z))).
Definition rfc_H (x y z : Z) : Z := Z.lxor (Z.lxor x y) z.
Definition rfc_I (x y z : Z) : Z := Z.lxor y (Z.lor x (u32 (Z.lnot z))).

(** The sine and the cosine of a number of radians, with 96 bits behind the point:
    of 1 by the power series, of [S n] by the addition theorems. *)
Fixpoint series1 (terms : nat) (term k : Z) : Z :=
  match terms with O => 0 | S terms => term + series1 terms (Z.quot (- term) ((k + 1) * (k + 2))) (k + 2) end.
Definition sin1 : Z := series1 20 (2 ^ 96) 1.
Definition cos1 : Z := series1 20 (2 ^ 96) 0.

(** [|sin i|] for the next [n] numbers, from the sine and the cosine of [i]. *)
Fixpoint sines (n : nat) (s1 c1 s c : Z) : list Z :=
  match n with
  | O => []
  | S n => Z.abs s :: sines n s1 c1 (Z.shiftr (s * c1 + c * s1) 96) (Z.shiftr (c * c1 - s * s1) 96)
  end.

(** The table T of the standard: the integer parts of 2^32 * |sin i|, from 1 on. *)
Definition rfc_T : list Z := (fun x => Z.shiftr x 64) <$> sines 64 sin1 cos1 sin1 cos1.

Definition rfc_index (i : nat) : nat :=
  if (i <? 16)%nat then i else if (i <? 32)%nat then ((5 * i + 1) mod 16)%nat else if (i <? 48)%nat then ((3 * i + 5) mod 16)%nat else ((7 * i) mod 16)%nat.
Definition rfc_shift (i : nat) : Z := nth (i mod 4) (nth (i / 16) [[7; 12; 17; 22]; [5; 9; 14; 20]; [4; 11; 16; 23]; [6; 10; 15; 21]] []) 0.
Definition rfc_fun (i : nat) : Z -> Z -> Z -> Z := nth (i / 16) [rfc_F; rfc_G; rfc_H; rfc_I] rfc_I.

Definition rotl (x s : Z) : Z := Z.lor (u32 (Z.shiftl x s)) (Z.shiftr x (32 - s)).

(** Step [i], with the constant of the table. *)
Definition rfc_round (X : list Z) (v : words4) (iT : nat * Z) : words4 :=
  let '(a, b, c, d) := v in
  let '(i, T) := iT in
  (d, u32 (b + rotl (u32 (a + rfc_fun i b c d + nth (rfc_index i) X 0 + T)) (rfc_shift i)), b, c).

Definition rfc_words (block : list Z) : list Z := (fun i => le32 block (4 * i)) <$> seq 0 16.
Definition rfc_compress (h : words4) (block : list Z) : words4 := add4 h (foldl (rfc_round (rfc_words block)) h (zip (seq 0 64) rfc_T)).
Definition rfc_h0 : words4 := (0x67452301, 0xefcdab89, 0x98badcfe, 0x10325476).

(** The message with the bit 1, zeros, and its length in bits. *)
Definition rfc_pad (msg : list Z) : list Z :=
  let n := length msg in
  msg ++ [0x80] ++ replicate ((119 - n mod 64) mod 64) 0 ++ word_bytes 8 (8 * Z.of_nat n).

Definition rfc_md5 (msg : list Z) : list Z :=
  let m := rfc_pad msg in put_words4 (md_state rfc_compress rfc_h0 (length m / 64) m).

(** Test vectors of RFC 1321. *)
Example md5_abc : md5 (replicate 64 7) [97; 98; 99] =
  [0x90; 0x01; 0x50; 0x98; 0x3c; 0xd2; 0x4f; 0xb0; 0xd6; 0x96; 0x3f; 0x7d; 0x28; 0xe1; 0x7f; 0x72].
Proof. vm_compute. reflexivity. Qed.
Example md5_empty : md5 (replicate 64 7) [] =
  [0xd4; 0x1d; 0x8c; 0xd9; 0x8f; 0x00; 0xb2; 0x04; 0xe9; 0x80; 0x09; 0x98; 0xec; 0xf8; 0x42; 0x7e].
Proof. vm_compute. reflexivity. Qed.

(** ** One block *)

Definition step_consts (st : (Z -> Z -> Z -> Z) * nat * Z * Z) : Z := st.1.2.

Lemma rfc_T_values : rfc_T = step_consts <$> md5_steps.
Proof. vm_compute. reflexivity. Qed.

Definition code_fun (i : nat) : Z -> Z -> Z -> Z := nth (i / 16) [MF1; MF2; MF3; MF4] MF4.

(** The steps of the code are those of the standard. *)
Lemma md5_steps_rfc : md5_steps = (fun iT => (code_fun iT.1, rfc_index iT.1, iT.2, rfc_shift iT.1)) <$> zip (seq 0 64) rfc_T.
Proof. rewrite rfc_T_values. reflexivity. Qed.

Definition lo4 (v : words4) : words4 := let '(a, b, c, d) := v in (u32 a, u32 b, u32 c, u32 d).

Lemma MF_rfc i x y z : u32 (code_fun i x y z) = rfc_fun i (u32 x) (u32 y) (u32 z).
Proof.
  unfold code_fun, rfc_fun.
  destruct (i / 16)%nat as [|[|[|[|n]]]]; cbn [nth]; unfold MF1, MF2, MF3, MF4, rfc_F, rfc_G, rfc_H, rfc_I, MF1; try (destruct n);
    apply Z.bits_inj'; intros k Hk; rewrite u32_bits by done;
    rewrite ?Z.lxor_spec, ?Z.lor_spec, ?Z.land_spec, ?Z.lxor_spec, ?u32_bits, ?Z.lnot_spec, ?u32_bits by done;
    destruct (Z.testbit x k), (Z.testbit y k), (Z.testbit z k), (k <? 32); done.
Qed.

Lemma md5_step_rfc inb v i T : (i < 64)%nat -> lo4 (md5_step inb v (code_fun i, rfc_index i, T, rfc_shift i)) = rfc_round (rfc_words inb) (lo4 v) (i, T).
Proof.
  intros Hi. destruct v as [[[a b] c] d]. unfold md5_step, rfc_round, lo4, MD5STEP. rewrite u32_idem.
  assert (rfc_index i < 16)%nat as Hx.
  { unfold rfc_index. repeat case_match; [by apply Nat.ltb_lt|apply Nat.mod_upper_bound; lia..]. }
  assert (nth (rfc_index i) (rfc_words inb) 0 = le32 inb (4 * rfc_index i)) as ->.
  { unfold rfc_words. rewrite nth_lookup, list_lookup_fmap, lookup_seq_lt by done. reflexivity. }
  rewrite <- MF_rfc. set (f := code_fun i b c d). set (x := le32 inb _).
  assert (u32 (a + u32 (f + u32 (x + T))) = u32 (u32 a + u32 f + x + T)) as ->.
  { unfold wrap. rewrite (Zplus_mod_idemp_r (x + T)), (Zplus_mod_idemp_r (f + (x + T))). replace (a mod 2 ^ 32 + f mod 2 ^ 32 + x + T) with (a mod 2 ^ 32 + (f mod 2 ^ 32 + (x + T))) by ring.
    rewrite Zplus_mod_idemp_l. replace (a + (f mod 2 ^ 32 + (x + T))) with (f mod 2 ^ 32 + (a + (x + T))) by ring.
    rewrite Zplus_mod_idemp_l. f_equal. ring. }
  fold (rotl (u32 (u32 a + u32 f + x + T)) (rfc_shift i)). do 3 f_equal. unfold wrap. rewrite Zplus_mod_idemp_l. f_equal. ring.
Qed.

Lemma md5_steps_fold inb l : Forall (fun iT : nat * Z => (iT.1 < 64)%nat) l -> forall v,
  lo4 (foldl (md5_step inb) v ((fun iT => (code_fun iT.1, rfc_index iT.1, iT.2, rfc_shift iT.1)) <$> l)) = foldl (rfc_round (rfc_words inb)) (lo4 v) l.
Proof.
  induction 1 as [|[i T] l Hi Hl IH]; intros v; [done|]. cbn [fmap list_fmap foldl fst snd]. rewrite IH. f_equal. by apply md5_step_rfc.
Qed.

Lemma transform_rfc st block : lo4 (MD5Transform st block) = rfc_compress (lo4 st) block.
Proof.
  unfold MD5Transform, rfc_compress. rewrite md5_steps_rfc at 1.
  pose proof (md5_steps_fold block (zip (seq 0 64) rfc_T)) as Hf. rewrite <- Hf.
  2: { apply Forall_forall. intros [i T] Hin. apply elem_of_zip_l, elem_of_seq in Hin. cbn [fst]. lia. }
  destruct st as [[[a b] c] d], (foldl _ _ _) as [[[a' b'] c'] d']. unfold add4, lo4.
  rewrite !u32_idem. by rewrite <- !u32_add.
Qed.

(** ** The buffer *)

Lemma le_word_bytes b0 b1 b2 b3 : byte_ok b0 -> byte_ok b1 -> byte_ok b2 -> byte_ok b3 ->
  word_bytes 4 (Z.lor (u32 (Z.shiftl (Z.lor (Z.shiftl b3 8) b2) 16)) (Z.lor (Z.shiftl b1 8) b0)) = [b0; b1; b2; b3].
Proof.
  unfold byte_ok. intros H0 H1 H2 H3. rewrite !Z.shiftl_mul_pow2 by lia. rewrite (lor_add b3 b2), (lor_add b1 b0) by lia.
  rewrite (wrap_small 32) by lia. rewrite lor_add by lia. cbn [word_bytes]. rewrite !Z.shiftr_div_pow2 by lia. unfold wrap.
  change (2 ^ 8) with 256. change (2 ^ 16) with 65536. repeat f_equal; Z.to_euclidean_division_equations; lia.
Qed.

(** On a little-endian machine the words are not changed. *)
Lemma byteReverse_id n : forall buf, Forall byte_ok buf -> byteReverse buf n = buf.
Proof.
  induction n as [|n IH]; intros buf Hb; [done|]. destruct buf as [|b0 [|b1 [|b2 [|b3 buf]]]]; try done. cbn [byteReverse].
  rewrite !Forall_cons in Hb. destruct Hb as (H0 & H1 & H2 & H3 & Hb). rewrite le_word_bytes, IH by done. reflexivity.
Qed.

Lemma md5_block_id st block : Forall byte_ok block -> md5_block st block = (MD5Transform st block, block).
Proof. intros Hb. unfold md5_block. by rewrite byteReverse_id. Qed.

Lemma blit_full buf b : length buf = length b -> blit buf 0 b = b.
Proof. intros Hl. unfold blit. rewrite take_0, drop_ge by lia. by rewrite app_nil_r. Qed.

(** The loop processes the blocks; the buffer is left with bytes. *)
Lemma md5_loop_process fuel : forall st inb input, length inb = 64%nat -> Forall byte_ok inb -> Forall byte_ok input ->
  exists inb', md5_loop fuel st inb input = ((process_loop MD5Transform fuel st input).1, inb', (process_loop MD5Transform fuel st input).2) /\
    length inb' = 64%nat /\ Forall byte_ok inb'.
Proof.
  induction fuel as [|fuel IH]; intros st inb input Hl Hb Hi; [by exists inb|]. cbn [md5_loop process_loop].
  destruct (Nat.leb_spec 64 (length input)); [|by exists inb].
  assert (length (take 64 input) = 64%nat) as Ht by (rewrite length_take; lia).
  rewrite blit_full, md5_block_id by (congruence || by apply Forall_take). apply IH; [done|by apply Forall_take|by apply Forall_drop].
Qed.

Lemma blit_bytes buf d b : Forall byte_ok buf -> Forall byte_ok b -> Forall byte_ok (blit buf d b).
Proof. intros Hb Hbs. unfold blit. rewrite !Forall_app. split_and!; [by apply Forall_take|done|by apply Forall_drop]. Qed.

(** ** The context *)

(** The number of bits, in two words. *)
Lemma bits_update l n : 0 <= l -> 0 <= n ->
  let t := (8 * l) mod 2 ^ 32 in
  let b1 := (8 * l / 2 ^ 32) mod 2 ^ 32 in
  let b0 := u32 (t + u32 (Z.shiftl n 3)) in
  b0 = (8 * (l + n)) mod 2 ^ 32 /\
  u32 ((if b0 <? t then u32 (b1 + 1) else b1) + Z.shiftr n 29) = (8 * (l + n) / 2 ^ 32) mod 2 ^ 32.
Proof.
  intros Hl Hn. cbv zeta. rewrite Z.shiftl_mul_pow2, Z.shiftr_div_pow2 by lia.
  assert (n / 2 ^ 29 = 8 * n / 2 ^ 32) as -> by (change (2 ^ 32) with (8 * 2 ^ 29); by rewrite Z.div_mul_cancel_l by lia).
  replace (n * 2 ^ 3) with (8 * n) by lia. replace (8 * (l + n)) with (8 * l + 8 * n) by lia.
  generalize (8 * l), (8 * n). intros x y. set (M := 2 ^ 32). assert (0 < M) by (unfold M; lia). unfold wrap. fold M.
  pose proof (Z.div_mod x M ltac:(lia)) as Hx. pose proof (Z.div_mod y M ltac:(lia)) as Hy.
  pose proof (Z.mod_pos_bound x M ltac:(lia)) as Bx. pose proof (Z.mod_pos_bound y M ltac:(lia)) as By.
  assert (forall c, (if (c : bool) then (x / M mod M + 1) mod M else x / M mod M) = (x / M + (if c then 1 else 0)) mod M) as Hc.
  { intros []; [by rewrite Zplus_mod_idemp_l|by rewrite Z.add_0_r]. }
  rewrite Hc, <- Zplus_mod. split; [done|]. rewrite Zplus_mod_idemp_l.
  destruct (Z.lt_ge_cases (x mod M + y mod M) M).
  - assert ((x + y) mod M = x mod M + y mod M) as E by (symmetry; apply (Z.mod_unique _ _ (x / M + y / M)); lia).
    rewrite E. rewrite (proj2 (Z.ltb_ge _ _)) by lia. f_equal. apply (Z.div_unique _ _ _ (x mod M + y mod M)); lia.
  - assert ((x + y) mod M = x mod M + y mod M - M) as E by (symmetry; apply (Z.mod_unique _ _ (x / M + y / M + 1)); lia).
    rewrite E. rewrite (proj2 (Z.ltb_lt _ _)) by lia. f_equal. apply (Z.div_unique _ _ _ (x mod M + y mod M - M)); lia.
Qed.

Record md5_holds (ctx : MD5Context) (m : list Z) : Prop := {
  mh_bits0 : bits0 ctx = (8 * Z.of_nat (length m)) mod 2 ^ 32;
  mh_bits1 : bits1 ctx = (8 * Z.of_nat (length m) / 2 ^ 32) mod 2 ^ 32;
  mh_in : Forall byte_ok (md5_in ctx);
  mh_fed : fed lo4 rfc_compress rfc_h0 (md5_buf ctx) (md5_in ctx) m
}.

#[export] Instance md5_stream : Stream MD5Context := { update := MD5Update; holds := md5_holds }.

(** The bytes in the buffer. *)
Lemma md5_left ctx m : md5_holds ctx m -> Z.to_nat (Z.land (Z.shiftr (bits0 ctx) 3) 0x3f) = (length m mod 64)%nat.
Proof.
  intros Hm. rewrite (mh_bits0 _ _ Hm). set (n := Z.of_nat (length m)).
  rewrite Z.shiftr_div_pow2 by lia. change 0x3f with (Z.ones 6). rewrite Z.land_ones by lia.
  assert (((8 * n) mod 2 ^ 32 / 2 ^ 3) mod 2 ^ 6 = n mod 64) as ->.
  { change (2 ^ 32) with 4294967296. change (2 ^ 3) with 8. change (2 ^ 6) with 64. Z.to_euclidean_division_equations. lia. }
  unfold n. change 64 with (Z.of_nat 64). by rewrite <- Nat2Z.inj_mod, Nat2Z.id.
Qed.

(** The rest of the input is what is pending. *)
Lemma md5_pending st inb m : length inb = 64%nat -> Forall byte_ok m -> lo4 st = md_state rfc_compress rfc_h0 (length m / 64) m ->
  fed lo4 rfc_compress rfc_h0 st (blit inb 0 (drop (64 * (length m / 64)) m)) m.
Proof.
  intros Hl Hm Hst. destruct (buffer_pending inb m Hl) as [H1 H2]. cbv zeta in H1, H2.
  assert ((if (0 <? length (drop (64 * (length m / 64)) m))%nat then blit inb 0 (drop (64 * (length m / 64)) m) else inb) =
    blit inb 0 (drop (64 * (length m / 64)) m)) as E.
  { destruct (drop (64 * (length m / 64)) m); [by rewrite blit_nil|done]. }
  rewrite E in H1, H2. by split.
Qed.

#[export] Instance md5_stream_ok : StreamOk MD5Context.
Proof.
  intros ctx m input Hm Hbi Hli Hl61. cbn [update holds md5_stream] in *. pose proof Hm as [Hb0 Hb1 Hin Hfed]. unfold MD5Update.
  rewrite (md5_left ctx m Hm), Hb0, Hb1. set (l := (length m mod 64)%nat).
  destruct (bits_update (Z.of_nat (length m)) (Z.of_nat (length input))) as [E0 E1]; [lia..|]. cbv zeta in E0, E1. rewrite E1. rewrite E0.
  rewrite <- Nat2Z.inj_add, <- length_app.
  assert (forall st block, length block = 64%nat -> Forall byte_ok block -> lo4 (MD5Transform st block) = rfc_compress (lo4 st) block) as Hp
    by (intros; apply transform_rfc).
  pose proof (msg_split m) as [Hd Hl64]. fold l in Hd, Hl64.
  assert (Forall byte_ok (m ++ input)) as Hall by (apply Forall_app; split; [apply Hfed|done]).
  destruct (Nat.eqb_spec l 0) as [El|El]; cbn [negb andb].
  - destruct (update_aligned lo4 MD5Transform rfc_compress rfc_h0 Hp (md5_buf ctx) (md5_in ctx) m input Hfed Hbi El) as (st' & Hpl & Hst').
    destruct (md5_loop_process (length input) (md5_buf ctx) (md5_in ctx) input) as (inb' & -> & Hl' & Hb'); [apply Hfed|done|done|].
    rewrite Hpl. cbn [fst snd]. split; cbn [bits0 bits1 md5_in md5_buf]; [done|done|apply blit_bytes; [done|by apply Forall_drop]|].
    by apply md5_pending.
  - destruct (Nat.ltb_spec (length input) (64 - l)) as [Hs|Hs].
    + destruct (update_short lo4 MD5Transform rfc_compress rfc_h0 (md5_buf ctx) (md5_in ctx) m input Hfed Hs) as (_ & [Hq Hr] & Hbl & Hbt).
      split; cbn [bits0 bits1 md5_in md5_buf]; [done|done|by apply blit_bytes|].
      split; [done|done| |]; rewrite ?Hq, ?Hr; [|done]. by apply state_prefix with (buf := md5_in ctx).
    + destruct (update_straddle lo4 MD5Transform rfc_compress rfc_h0 Hp (md5_buf ctx) (md5_in ctx) m input Hfed Hbi Hs) as (Hbl & st' & Hpl & Hst').
      fold l in Hbl, Hpl. set (inb := blit (md5_in ctx) l (take (64 - l) input)) in *.
      assert (Forall byte_ok inb) as Hib by (apply blit_bytes; [done|by apply Forall_take]). rewrite md5_block_id by done.
      destruct (md5_loop_process (length (drop (64 - l) input)) (MD5Transform (md5_buf ctx) inb) inb (drop (64 - l) input)) as (inb' & -> & Hl' & Hb');
        [done|done|by apply Forall_drop|].
      rewrite Hpl. cbn [fst snd]. split; cbn [bits0 bits1 md5_in md5_buf]; [done|done|apply blit_bytes; [done|by apply Forall_drop]|].
      by apply md5_pending.
Qed.

(** ** The end of the message *)

Lemma word_bytes_wrap x : word_bytes 4 (u32 x) = word_bytes 4 x.
Proof. rewrite <- (rev_involutive (word_bytes 4 (u32 x))), <- put_be. by rewrite put_wrap, put_be, rev_involutive by lia. Qed.

(** The length in bits, in two words. *)
Lemma bits_bytes ctx m : md5_holds ctx m -> word_bytes 4 (bits0 ctx) ++ word_bytes 4 (bits1 ctx) = word_bytes 8 (8 * Z.of_nat (length m)).
Proof.
  intros Hm. rewrite (mh_bits0 _ _ Hm), (mh_bits1 _ _ Hm). set (n := 8 * Z.of_nat (length m)).
  change 8%nat with (4 + 4)%nat. rewrite word_bytes_app. change (8 * Z.of_nat 4) with 32. rewrite Z.shiftr_div_pow2 by lia.
  change (n mod 2 ^ 32) with (u32 n). change ((n / 2 ^ 32) mod 2 ^ 32) with (u32 (n / 2 ^ 32)). by rewrite !word_bytes_wrap.
Qed.

Lemma blit_tail pre x b d n : d = length pre -> length x = n -> (length b <= n)%nat -> blit (pre ++ x) d b = pre ++ b ++ drop (length b) x.
Proof. intros -> Hx Hb. unfold blit. rewrite take_app_length, drop_app_add. reflexivity. Qed.

(** The last block of the padded message. *)
Lemma last_block inb a b : length inb = 64%nat -> length a = 4%nat -> length b = 4%nat -> blit (blit inb 56 a) 60 b = take 56 inb ++ a ++ b.
Proof.
  intros Hl Ha Hb. apply list_eq. intros i. rewrite !lookup_blit by (rewrite ?length_blit; lia). rewrite Ha, Hb.
  assert (length (take 56 inb) = 56%nat) as Ht by (rewrite length_take; lia). repeat case_decide; try lia.
  - rewrite lookup_app_r, lookup_app_r by lia. f_equal. lia.
  - rewrite lookup_app_r, lookup_app_l by lia. f_equal. lia.
  - destruct (Nat.lt_ge_cases i 56); [by rewrite lookup_app_l, lookup_take_lt by lia|].
    rewrite lookup_ge_None_2, lookup_ge_None_2; [done|rewrite !length_app; lia|lia].
Qed.

Lemma put_lo4 v : put_words4 (lo4 v) = put_words4 v.
Proof. destruct v as [[[a b] c] d]. unfold put_words4, lo4. by rewrite !word_bytes_wrap. Qed.

Lemma put_words4_bytes v : Forall byte_ok (put_words4 v).
Proof. destruct v as [[[a b] c] d]. unfold put_words4. rewrite !Forall_app. split_and!; apply word_bytes_ok. Qed.

(** The digest, from the state before the blocks [tail] that end the padded
    message. *)
Lemma md5_tail st m tail v :
  let q := (length m / 64)%nat in
  lo4 st = md_state rfc_compress rfc_h0 q m -> rfc_pad m = take (64 * q) m ++ tail -> (length tail mod 64 = 0)%nat ->
  lo4 v = foldl rfc_compress (lo4 st) (Blocks.blocks (length tail / 64) tail) -> byteReverse (put_words4 v) 4 = rfc_md5 m.
Proof.
  intros q Hst Hpad H64 Hv. rewrite byteReverse_id by apply put_words4_bytes. rewrite <- put_lo4, Hv. unfold rfc_md5. cbv zeta. f_equal.
  assert (64 * q <= length m)%nat as Hq by (pose proof (Nat.div_mod_eq (length m) 64); unfold q; lia).
  assert (length (take (64 * q) m) = 64 * q)%nat as Ht by (rewrite length_take; lia).
  assert (length (rfc_pad m) / 64 = q + length tail / 64)%nat as ->.
  { rewrite Hpad, length_app, Ht, (Nat.mul_comm 64), Nat.div_add_l by lia. done. }
  rewrite Hst. unfold md_state. rewrite blocks_app, foldl_app. f_equal.
  - f_equal. rewrite <- (take_drop (64 * q) m) at 1. rewrite Hpad. by rewrite !blocks_prefix by lia.
  - f_equal. rewrite Hpad, drop_app_le, drop_ge by lia. done.
Qed.

Lemma md5_finish ctx m : md5_holds ctx m -> MD5Final ctx = rfc_md5 m.
Proof.
  intros Hm. pose proof (bits_bytes ctx m Hm) as Hbits. pose proof Hm as [_ _ Hin [Hmb Hl Hst Hpend]]. unfold MD5Final. rewrite (md5_left ctx m Hm).
  set (l := (length m mod 64)%nat) in *. set (q := (length m / 64)%nat) in *.
  assert (length m = 64 * q + l /\ l < 64)%nat as [Hd Hl64] by (split; [apply Nat.div_mod_eq|apply Nat.mod_upper_bound; lia]).
  set (p := drop (64 * q) m) in *. assert (length p = l) as Hpl by (unfold p; rewrite length_drop; lia).
  assert (byte_ok 0x80 /\ forall k, Forall byte_ok (replicate k 0)) as [B80 B0] by (split; [done|intros k; by apply Forall_replicate]).
  set (len8 := word_bytes 8 (8 * Z.of_nat (length m))) in *.
  assert (blit (md5_in ctx) l [0x80] = (p ++ [0x80]) ++ drop (S l) (md5_in ctx)) as ->.
  { unfold blit. rewrite Hpend, <- app_assoc. cbn [length]. by rewrite Nat.add_1_r. }
  assert (length (p ++ [0x80]) = S l) as Hp1 by (rewrite length_app; cbn [length]; lia).
  assert (length (drop (S l) (md5_in ctx)) = 63 - l)%nat as Hx by (rewrite length_drop; lia).
  assert (Forall byte_ok (p ++ [0x80])) as Hp1b by (apply Forall_app; split; [by apply Forall_drop|by apply Forall_singleton]).
  assert (rfc_pad m = take (64 * q) m ++ (p ++ [0x80]) ++ replicate ((119 - l) mod 64) 0 ++ len8) as Hpad.
  { unfold rfc_pad. fold l len8. rewrite <- !app_assoc, (app_assoc (take _ _)). unfold p. by rewrite take_drop. }
  destruct (Nat.ltb_spec (64 - 1 - l) 8) as [H8|H8].
  - rewrite (blit_tail (p ++ [0x80]) _ _ (S l) (63 - l)) by (rewrite ?length_replicate; lia). rewrite length_replicate, drop_ge, app_nil_r by lia.
    set (b1 := (p ++ [0x80]) ++ replicate (64 - 1 - l) 0). assert (length b1 = 64%nat) as Hb1 by (unfold b1; rewrite length_app, length_replicate; lia).
    assert (Forall byte_ok b1) as Hb1b by (apply Forall_app; by split). rewrite md5_block_id by done.
    rewrite (byteReverse_id 14) by (by apply blit_bytes). rewrite last_block by (rewrite ?length_blit; rewrite ?length_replicate; lia || done).
    rewrite Hbits. unfold blit. rewrite take_0, app_nil_l, take_app_length' by (by rewrite length_replicate).
    apply (md5_tail (md5_buf ctx) m (b1 ++ replicate 56 0 ++ len8)); [done| | |].
    + rewrite Hpad. f_equal. unfold b1. rewrite <- !app_assoc. do 2 f_equal. rewrite Nat.mod_small by lia.
      replace (119 - l)%nat with (64 - 1 - l + 56)%nat by lia. by rewrite replicate_add, <- app_assoc.
    + by rewrite !length_app, Hb1.
    + rewrite !length_app, Hb1. change ((64 + (length (replicate 56 0%Z) + length len8)) / 64)%nat with 2%nat. cbn [Blocks.blocks foldl].
      rewrite take_app_length', drop_app_length' by done. rewrite take_ge by done. by rewrite !transform_rfc.
  - rewrite (blit_tail (p ++ [0x80]) _ _ (S l) (63 - l)) by (rewrite ?length_replicate; lia). rewrite length_replicate.
    set (x := drop (64 - 1 - l - 8) _). set (b0 := (p ++ [0x80]) ++ replicate (64 - 1 - l - 8) 0).
    assert (length b0 = 56%nat) as Hb0 by (unfold b0; rewrite length_app, length_replicate; lia).
    assert (length x = 8%nat) as Hxl by (unfold x; rewrite length_drop; lia).
    rewrite (app_assoc (p ++ [0x80])). fold b0.
    rewrite (byteReverse_id 14) by (apply Forall_app; split; [apply Forall_app; by split|by apply Forall_drop, Forall_drop]).
    rewrite last_block, Hbits by (rewrite ?length_app; lia || done). rewrite take_app_length' by done.
    apply (md5_tail (md5_buf ctx) m (b0 ++ len8)); [done| | |].
    + rewrite Hpad. f_equal. unfold b0. rewrite <- !app_assoc. do 4 f_equal.
      rewrite <- (Nat.mod_unique (119 - l) 64 1 (64 - 1 - l - 8)); lia.
    + by rewrite length_app, Hb0.
    + rewrite length_app, Hb0. change ((56 + length len8) / 64)%nat with 1%nat. cbn [Blocks.blocks foldl].
      rewrite take_ge by (by rewrite length_app, Hb0). by rewrite transform_rfc.
Qed.

(** However a message is cut into pieces and whatever the buffer holds at the
    start, the digest is the MD5 of RFC 1321 of the whole message. *)
Theorem md5_streaming_correct (junk : list Z) (pieces : list (list Z)) :
  length junk = 64%nat -> Forall byte_ok junk -> Forall (Forall byte_ok) pieces ->
  Forall (fun p => Z.of_nat (length p) < 2 ^ 32) pieces -> Z.of_nat (length (concat pieces)) < 2 ^ 61 ->
  MD5Final (foldl MD5Update (MD5Init junk) pieces) = rfc_md5 (concat pieces).
Proof.
  intros Hj Hjb Hp Hl Ht. apply md5_finish.
  refine (updates_hold (C := MD5Context) (MD5Init junk) [] pieces _ Hp Hl _); [|simpl; lia]. by split.
Qed.

Lemma md5_wd_rfc junk input chunk_sz :
  length junk = 64%nat -> Forall byte_ok junk -> Forall byte_ok input -> Z.of_nat (length input) < 2 ^ 32 -> (0 < chunk_sz)%nat ->
  Z.of_nat chunk_sz < 2 ^ 31 -> md5_wd junk input chunk_sz = Some (rfc_md5 input).
Proof.
  intros Hj Hjb Hb Hl Hc Hc31.
  destruct (wd_holds (C := MD5Context) (length input) (MD5Init junk) [] input chunk_sz) as (ctx & Hw & Hab); [done|done|lia|by split|done|simpl; lia|].
  unfold md5_wd. change MD5Update with (update (C := MD5Context)). rewrite Hw, mbind_Some. f_equal. by apply md5_finish.
Qed.

Lemma length_md5 m : length (rfc_md5 m) = 16%nat.
Proof. unfold rfc_md5. cbv zeta. by destruct (md_state _ _ _ _) as [[[a b] c] d]. Qed.

Lemma md5_bytes m : Forall byte_ok (rfc_md5 m).
Proof. apply put_words4_bytes. Qed.

Lemma md5_one junk input : length junk = 64%nat -> Forall byte_ok junk -> Forall byte_ok input -> Z.of_nat (length input) < 2 ^ 32 ->
  md5 junk input = rfc_md5 input.
Proof.
  intros Hj Hjb Hi Hl. apply md5_finish.
  refine (update_holds (C := MD5Context) (MD5Init junk) [] input _ Hi Hl _); [by split|simpl; lia].
Qed.
