(* ===== verification/WgMenu.v ===== *)
(** * The WatchGuard boot menu ([common/wgmenu.c])

    The menu keeps its options in a fixed array and draws itself with ANSI
    escape sequences.  The model keeps the file's static variables in a record
    and returns what is printed as a list of tokens, which a small terminal
    interprets, so that the theorems speak about what is on the screen. *)

From S2P Require Import Prelude StringLib.
Local Open Scope Z_scope.

(** ** The code *)

(** What the [printf] calls send: the escape sequences and plain text. *)
Inductive token :=
  | ANSI_CLEAR
  | ANSI_REVERSE
  | ANSI_NORMAL
  | ANSI_GOTOYX (y x : Z)
  | TEXT (s : list Z).

Definition SCREEN_HIGH : Z := 24.
Definition SCREEN_WIDTH : Z := 80.
Definition MAX_MENU_ITEMS : nat := 10.
Definition FIRST_LINE_Y : Z := 2.
Definition TABLE_START_Y : Z := 4.
Definition TABLE_START_X : Z := 2.
Definition TABLE_LENGHT : Z := SCREEN_WIDTH - 6.
Definition TABLE_HIGH : Z := SCREEN_HIGH / 2.
Definition MENU_0_ROW : Z := TABLE_START_Y + 1.

(** [FIRST_LINE_X_FUN(strlen(...))] is computed in [size_t] and cast to [int]. *)
Definition FIRST_LINE_X_FUN (len : Z) : Z := s32 (u64 (SCREEN_WIDTH - len) / 2).

(** The function and its argument are pointers, 0 for [NULL]. *)
Record wgmenu_option := mk_option {
  label : option (list Z);
  fn : Z;
  user : Z
}.

Record wgmenu := mk_menu {
  wg_options : list wgmenu_option;
  max_width : Z;
  num_options : Z;
  option_pos : Z;
  boot_menu : Z
}.

Definition wgmenu_init : wgmenu :=
  mk_menu (replicate MAX_MENU_ITEMS (mk_option None 0 0)) (TABLE_LENGHT - 4) 0 0 1.

(** [printf] of a string with the format [%-<width>s]. *)
Definition pad_right (width : Z) (s : list Z) : list Z :=
  s ++ replicate (Z.to_nat width - length s) 32.

(** The format is built in a buffer of 10 bytes: a width of more than six
    digits overflows it. *)
Definition __wgmenu_print_option (m : wgmenu) (n : Z) (reverse : bool) : option (list token) :=
  opt ← aget (wg_options m) n;
  l ← label opt;
  if max_width m <? 10 ^ 6 then
    Some ([ANSI_GOTOYX (MENU_0_ROW + n) (TABLE_START_X + 1)]
      ++ (if reverse then [ANSI_REVERSE] else [])
      ++ [TEXT (pad_right (max_width m) l)]
      ++ (if reverse then [ANSI_NORMAL] else [])
      ++ [ANSI_GOTOYX (SCREEN_HIGH + 2) 1])
  else None.

Definition put_at (y x : Z) (s : list Z) : list token := [ANSI_GOTOYX y x; TEXT s].

(** [version] is the generated [WG_VERSION_STRING]. *)
Definition __wgmenu_show_bootmenu_table (version : list Z) : list token :=
  [ANSI_CLEAR] ++ put_at FIRST_LINE_Y (FIRST_LINE_X_FUN (strlen version)) version
  ++ flat_map (fun i => put_at TABLE_START_Y (TABLE_START_X + i) (str "-")) (seqZ 0 TABLE_LENGHT)
  ++ flat_map (fun j => put_at (TABLE_START_Y + j) TABLE_START_X (str "|")) (seqZ 0 TABLE_HIGH)
  ++ flat_map (fun j => put_at (TABLE_START_Y + j) (TABLE_START_X + TABLE_LENGHT) (str "|")) (seqZ 0 TABLE_HIGH)
  ++ flat_map (fun i => put_at (TABLE_START_Y + TABLE_HIGH) (TABLE_START_X + i) (str "-")) (seqZ 1 (TABLE_LENGHT - 1))
  ++ put_at TABLE_START_Y TABLE_START_X (str "+")
  ++ put_at TABLE_START_Y (TABLE_START_X + TABLE_LENGHT) (str "+")
  ++ put_at (TABLE_START_Y + TABLE_HIGH) TABLE_START_X (str "+")
  ++ put_at (TABLE_START_Y + TABLE_HIGH) (TABLE_START_X + TABLE_LENGHT) (str "+")
  ++ put_at (TABLE_START_Y + TABLE_HIGH + 2) 7
       (str "Use the ^ and v keys to select which entry is highlighted.")
  ++ put_at (TABLE_START_Y + TABLE_HIGH + 3) 7 (str "Press enter to boot the selected OS.")
  ++ [ANSI_GOTOYX (SCREEN_HIGH + 2) 1].

(** [for (opt = wg_options; opt != wg_options + num; opt++)], from option [n] on. *)
Fixpoint print_options (m : wgmenu) (n : Z) (count : nat) : option (list token) :=
  match count with
  | O => Some []
  | S count =>
      o ← __wgmenu_print_option m n (n =? 0);
      rest ← print_options m (n + 1) count;
      Some (o ++ rest)
  end.

Definition __wgmenu_show_bootmenu (version : list Z) (m : wgmenu) : option (list token) :=
  o ← print_options m 0 (Z.to_nat (num_options m));
  Some (__wgmenu_show_bootmenu_table version ++ o).

Definition set_pos (m : wgmenu) (p : Z) : wgmenu :=
  mk_menu (wg_options m) (max_width m) (num_options m) p (boot_menu m).

(** The return value, [opt - wg_options], is always 0. *)
Definition __wgmenu_wg_display_menu (m : wgmenu) (key : Z) : option (wgmenu * list token) :=
  o1 ← __wgmenu_print_option m (option_pos m) false;
  let m' :=
    if key =? 65 then (if 0 <? option_pos m then set_pos m (option_pos m - 1) else m)
    else if key =? 66 then
      (if option_pos m <? num_options m - 1 then set_pos m (option_pos m + 1) else m)
    else m in
  o2 ← __wgmenu_print_option m' (option_pos m') true;
  Some (m', o1 ++ o2).

(** Returns the state, what is printed, and [hooked]. *)
Definition wgmenu_hook (m : wgmenu) (key : Z) : option (wgmenu * list token * Z) :=
  if ((key =? 65) || (key =? 66)) && negb (num_options m =? 0) then
    '(m', o) ← __wgmenu_wg_display_menu m key;
    Some (m', o, 1)
  else Some (m, [], 0).

Definition wgmenu_add (m : wgmenu) (lbl : list Z) (f u : Z) : option wgmenu :=
  opts ← aset (wg_options m) (num_options m) (mk_option (Some lbl) f u);
  let len := s32 (strlen lbl) in
  let w := if max_width m <? len then len else max_width m in
  Some (mk_menu opts w (num_options m + 1) (option_pos m) (boot_menu m)).

Definition label_SYSA : list Z := str "WatchGuard (SYSA)".
Definition label_SYSB : list Z := str "WatchGuard (SYSB Recovery/Diagnostic Mode)".

Definition wgmenu_show (version : list Z) (m : wgmenu) : option (wgmenu * list token) :=
  m ← wgmenu_add m label_SYSA 0 0;
  m ← wgmenu_add m label_SYSB 0 0;
  o ← __wgmenu_show_bootmenu version m;
  Some (m, o).

Definition wgmenu_selected (m : wgmenu) : Z := option_pos m.
Definition wgmenu_inmenu (m : wgmenu) : Z := boot_menu m.
Definition wgmenu_exit (m : wgmenu) : wgmenu :=
  mk_menu (wg_options m) (max_width m) (num_options m) (option_pos m) 0.

(** The keys pressed while the menu is shown, in order. *)
Fixpoint run_keys (m : wgmenu) (keys : list Z) : option (wgmenu * list token) :=
  match keys with
  | [] => Some (m, [])
  | k :: keys =>
      '(m, o, _) ← wgmenu_hook m k;
      '(m, o') ← run_keys m keys;
      Some (m, o ++ o')
  end.

(** ** A terminal *)

(** A cell holds a character and whether it is shown in reverse video. *)
Record terminal := mk_term {
  cursor : Z * Z;
  reversed : bool;
  cells : gmap (Z * Z) (Z * bool)
}.

Fixpoint write_text (cs : gmap (Z * Z) (Z * bool)) (y x : Z) (r : bool) (s : list Z) : gmap (Z * Z) (Z * bool) :=
  match s with
  | [] => cs
  | c :: s => write_text (<[(y, x) := (c, r)]> cs) y (x + 1) r s
  end.

Definition term_step (t : terminal) (k : token) : terminal :=
  match k with
  | ANSI_CLEAR => mk_term (cursor t) (reversed t) ∅
  | ANSI_REVERSE => mk_term (cursor t) true (cells t)
  | ANSI_NORMAL => mk_term (cursor t) false (cells t)
  | ANSI_GOTOYX y x => mk_term (y, x) (reversed t) (cells t)
  | TEXT s =>
      let '(y, x) := cursor t in
      mk_term (y, x + Z.of_nat (length s)) (reversed t) (write_text (cells t) y x (reversed t) s)
  end.

Definition term_run (t : terminal) (o : list token) : terminal := foldl term_step t o.

(** ** What the menu promises *)

(** The selection as an index: up and down move it within the options. *)
Definition move (num pos key : Z) : Z :=
  if key =? 65 then Z.max 0 (pos - 1) else if key =? 66 then Z.min (num - 1) (pos + 1) else pos.

Definition opt_label (m : wgmenu) (i : Z) : list Z := default [] (o ← aget (wg_options m) i; label o).

(** The menu has between one and ten options, each with a label that fits the
    width, and one of them is selected. *)
Record menu_ok (m : wgmenu) : Prop := {
  ok_len : length (wg_options m) = MAX_MENU_ITEMS;
  ok_num : 0 <= num_options m <= 10;
  ok_pos : num_options m = 0 /\ option_pos m = 0 \/ 0 <= option_pos m < num_options m;
  ok_width : 70 <= max_width m < 10 ^ 6;
  ok_labels : forall i, 0 <= i < num_options m ->
    exists o l, aget (wg_options m) i = Some o /\ label o = Some l /\ Z.of_nat (length l) <= max_width m
}.

(** Each option is on its line, and exactly the selected one is in reverse. *)
Definition shows (t : terminal) (m : wgmenu) : Prop :=
  reversed t = false /\
  forall i j, 0 <= i < num_options m -> 0 <= j < max_width m ->
    cells t !! (MENU_0_ROW + i, TABLE_START_X + 1 + j) =
    Some (nth (Z.to_nat j) (pad_right (max_width m) (opt_label m i)) 0, bool_decide (i = option_pos m)).

(** ** Lemmas *)

Lemma write_text_lookup s : forall cs y x r y' x',
  write_text cs y x r s !! (y', x') =
  if bool_decide (y' = y /\ x <= x' < x + Z.of_nat (length s))
  then Some (nth (Z.to_nat (x' - x)) s 0, r) else cs !! (y', x').
Proof.
  induction s as [|c s IH]; intros cs y x r y' x'; cbn [write_text length].
  - by rewrite bool_decide_false by lia.
  - rewrite IH. case_bool_decide as H1; case_bool_decide as H2; try lia.
    + by replace (Z.to_nat (x' - x)) with (S (Z.to_nat (x' - (x + 1)))) by lia.
    + assert (y' = y /\ x' = x) as [-> ->] by lia. by rewrite lookup_insert_eq, Z.sub_diag.
    + rewrite lookup_insert_ne; [done|]. intros [= -> ->]. lia.
Qed.

Lemma term_run_app t o1 o2 : term_run t (o1 ++ o2) = term_run (term_run t o1) o2.
Proof. apply foldl_app. Qed.

Lemma length_pad width s :
  Z.of_nat (length s) <= width -> Z.of_nat (length (pad_right width s)) = width.
Proof. intros. unfold pad_right. rewrite length_app, length_replicate. lia. Qed.

(** Printing an option writes its line and nothing else. *)
Lemma print_option_spec m n r :
  menu_ok m -> 0 <= n < num_options m ->
  exists o, __wgmenu_print_option m n r = Some o /\
    forall t, reversed t = false ->
      reversed (term_run t o) = false /\
      forall y x, cells (term_run t o) !! (y, x) =
        if bool_decide (y = MENU_0_ROW + n /\ TABLE_START_X + 1 <= x < TABLE_START_X + 1 + max_width m)
        then Some (nth (Z.to_nat (x - (TABLE_START_X + 1))) (pad_right (max_width m) (opt_label m n)) 0, r)
        else cells t !! (y, x).
Proof.
  intros Hm Hn. destruct (ok_labels m Hm n Hn) as (op & l & Hop & Hl & Hlen).
  unfold __wgmenu_print_option, opt_label. rewrite Hop. cbn [mbind option_bind]. rewrite Hl.
  cbn [mbind option_bind default]. pose proof (ok_width m Hm) as Hw.
  rewrite (proj2 (Z.ltb_lt _ _)) by lia. eexists. split; [done|]. intros t Ht.
  destruct r; unfold term_run; cbn [app foldl term_step reversed cells cursor]; (split; [done|]); intros y x.
  all: rewrite write_text_lookup, length_pad by done; rewrite ?Ht; done.
Qed.

Lemma opt_label_pos m p i : opt_label (set_pos m p) i = opt_label m i.
Proof. done. Qed.

Lemma set_pos_ok m p : menu_ok m -> 0 <= p < num_options m -> menu_ok (set_pos m p).
Proof. intros [H1 H2 H3 H4 H5] Hp. split; simpl; [done|done|lia|done|done]. Qed.

Lemma display_menu_move m key :
  menu_ok m -> 0 < num_options m -> (key = 65 \/ key = 66) ->
  exists o, __wgmenu_wg_display_menu m key = Some (set_pos m (move (num_options m) (option_pos m) key), o) /\
    forall t, shows t m -> shows (term_run t o) (set_pos m (move (num_options m) (option_pos m) key)).
Proof.
  intros Hm Hnum Hk. pose proof (ok_pos m Hm) as Hp. unfold __wgmenu_wg_display_menu.
  set (p := move (num_options m) (option_pos m) key).
  assert (0 <= p < num_options m) as Hp' by (subst p; unfold move; repeat case_if; lia).
  destruct (print_option_spec m (option_pos m) false Hm) as (o1 & -> & Ho1); [lia|]. cbn [mbind option_bind].
  match goal with |- context [__wgmenu_print_option ?e] => assert (e = set_pos m p) as -> end.
  { destruct m; subst p; unfold move, set_pos; simpl in *. repeat case_if; f_equal; lia. }
  destruct (print_option_spec (set_pos m p) p true (set_pos_ok m p Hm Hp') Hp') as (o2 & H2 & Ho2).
  replace (option_pos (set_pos m p)) with p by done. rewrite H2. cbn [mbind option_bind].
  eexists. split; [done|]. intros t [Hr Hs]. destruct (Ho1 t Hr) as [Hr1 Hc1].
  destruct (Ho2 _ Hr1) as [Hr2 Hc2]. rewrite term_run_app. split; [done|].
  intros i j Hi Hj. simpl in Hi, Hj. rewrite Hc2, Hc1, opt_label_pos. cbn [max_width set_pos option_pos].
  case_bool_decide as E1; [|case_bool_decide as E2].
  - replace i with p by lia. rewrite bool_decide_true by done. f_equal. f_equal. f_equal. lia.
  - replace i with (option_pos m) by lia. rewrite (bool_decide_false (option_pos m = p)) by lia.
    f_equal. f_equal. f_equal. lia.
  - rewrite (Hs i j Hi Hj). f_equal. f_equal. apply bool_decide_ext. lia.
Qed.

Lemma wgmenu_hook_move m key :
  menu_ok m ->
  exists o h, wgmenu_hook m key = Some (set_pos m (if num_options m =? 0 then option_pos m
      else move (num_options m) (option_pos m) key), o, h) /\
    forall t, shows t m -> shows (term_run t o) (set_pos m (if num_options m =? 0 then option_pos m
      else move (num_options m) (option_pos m) key)).
Proof.
  intros Hm. pose proof (ok_num m Hm). unfold wgmenu_hook.
  assert (set_pos m (option_pos m) = m) as Hid by (by destruct m).
  destruct (Z.eqb_spec (num_options m) 0); rewrite ?andb_false_r, ?andb_true_r.
  - rewrite Hid. by exists [], 0.
  - destruct ((key =? 65) || (key =? 66)) eqn:Ek.
    + destruct (display_menu_move m key Hm) as (o & -> & Ho); [lia|bool_to_prop; lia|].
      cbn. by exists o, 1.
    + unfold move. bool_to_prop. rewrite !(proj2 (Z.eqb_neq _ _)) by done. rewrite Hid. by exists [], 0.
Qed.

Lemma run_keys_move keys : forall m,
  menu_ok m -> 0 < num_options m ->
  exists o, run_keys m keys = Some (set_pos m (foldl (move (num_options m)) (option_pos m) keys), o) /\
    menu_ok (set_pos m (foldl (move (num_options m)) (option_pos m) keys)) /\
    forall t, shows t m -> shows (term_run t o) (set_pos m (foldl (move (num_options m)) (option_pos m) keys)).
Proof.
  induction keys as [|k keys IH]; intros m Hm Hnum; cbn [run_keys foldl].
  - assert (set_pos m (option_pos m) = m) as -> by (by destruct m). by exists [].
  - destruct (wgmenu_hook_move m k Hm) as (o & h & -> & Ho). rewrite (proj2 (Z.eqb_neq _ _)) in * by lia.
    set (p := move (num_options m) (option_pos m) k) in *. cbn [mbind option_bind].
    assert (0 <= p < num_options m) as Hp.
    { pose proof (ok_pos m Hm). subst p; unfold move; repeat case_if; lia. }
    destruct (IH (set_pos m p) (set_pos_ok m p Hm Hp) Hnum) as (o' & -> & Hok & Ho').
    cbn [mbind option_bind]. exists (o ++ o'). split; [done|]. split; [done|].
    intros t Ht. rewrite term_run_app. apply Ho', Ho, Ht.
Qed.

Lemma wgmenu_init_ok : menu_ok wgmenu_init.
Proof. split; simpl; try done; try lia. Qed.

Lemma wgmenu_add_ok m lbl f u :
  menu_ok m -> num_options m < 10 -> cstring lbl -> Z.of_nat (length lbl) < 10 ^ 6 ->
  exists m', wgmenu_add m lbl f u = Some m' /\ menu_ok m' /\
    num_options m' = num_options m + 1 /\ option_pos m' = option_pos m /\
    forall i, 0 <= i < num_options m' ->
      opt_label m' i = if i =? num_options m then lbl else opt_label m i.
Proof.
  intros [Hlen Hnum Hpos Hw Hl] Hn Hc Hlbl. unfold wgmenu_add. unfold MAX_MENU_ITEMS in Hlen.
  rewrite aset_in by lia. cbn [mbind option_bind]. rewrite strlen_cstring, swrap_small by (done || lia).
  assert (forall i x, 0 <= i < num_options m + 1 ->
    aget (<[Z.to_nat (num_options m) := x]> (wg_options m)) i =
    if i =? num_options m then Some x else aget (wg_options m) i) as Hget.
  { intros i x Hi. unfold aget. rewrite (proj2 (Z.leb_le _ _)) by lia. case_if; subst.
    - rewrite list_lookup_insert_eq by lia. done.
    - rewrite list_lookup_insert_ne by lia. done. }
  eexists. split; [done|]. cbn [num_options option_pos]. split_and!; try done.
  - split; cbn [wg_options max_width num_options option_pos]; rewrite ?length_insert; try done; try lia.
    + case_if; lia.
    + intros i Hi. rewrite Hget by lia. destruct (Z.eqb_spec i (num_options m)).
      * exists (mk_option (Some lbl) f u), lbl. split_and!; try done. case_if; lia.
      * destruct (Hl i) as (o & l & Ho & Hol & Hle); [lia|]. exists o, l. split_and!; try done. case_if; lia.
  - intros i Hi. unfold opt_label. cbn [wg_options]. rewrite Hget by lia. by case_if.
Qed.

Lemma print_options_spec count : forall m n,
  menu_ok m -> 0 <= n -> n + Z.of_nat count = num_options m ->
  exists o, print_options m n count = Some o /\
    forall t, reversed t = false ->
      reversed (term_run t o) = false /\
      (forall y x, y < MENU_0_ROW + n -> cells (term_run t o) !! (y, x) = cells t !! (y, x)) /\
      forall i j, n <= i < num_options m -> 0 <= j < max_width m ->
        cells (term_run t o) !! (MENU_0_ROW + i, TABLE_START_X + 1 + j) =
        Some (nth (Z.to_nat j) (pad_right (max_width m) (opt_label m i)) 0, i =? 0).
Proof.
  induction count as [|count IH]; intros m n Hm Hn Hc; cbn [print_options].
  - exists []. split; [done|]. intros t Ht. split_and!; try done. lia.
  - destruct (print_option_spec m n (n =? 0) Hm) as (o1 & -> & Ho1); [lia|]. cbn [mbind option_bind].
    destruct (IH m (n + 1) Hm) as (o2 & -> & Ho2); [lia|lia|]. cbn [mbind option_bind].
    eexists. split; [done|]. intros t Ht. rewrite term_run_app.
    destruct (Ho1 t Ht) as [Hr1 Hc1]. destruct (Ho2 _ Hr1) as (Hr2 & Hk2 & Hc2). split_and!; [done| |].
    + intros y x Hy. rewrite Hk2, Hc1 by lia. by rewrite bool_decide_false by lia.
    + intros i j Hi Hj. destruct (decide (i = n)) as [->|]; [|apply Hc2; lia].
      rewrite Hk2, Hc1 by lia. rewrite bool_decide_true by lia. f_equal. f_equal. f_equal. lia.
Qed.

Definition plain (k : token) : bool := match k with ANSI_REVERSE | ANSI_NORMAL => false | _ => true end.

Lemma plain_reversed o : forall t, forallb plain o = true -> reversed (term_run t o) = reversed t.
Proof.
  induction o as [|k o IH]; intros t Ho; [done|]. cbn [forallb] in Ho. bool_to_prop.
  unfold term_run in *. cbn [foldl]. rewrite IH by done. destruct k; try done.
  cbn [term_step]. by destruct (cursor t).
Qed.

Lemma table_plain version : forallb plain (__wgmenu_show_bootmenu_table version) = true.
Proof. reflexivity. Qed.

Lemma show_bootmenu_shows version m :
  menu_ok m -> option_pos m = 0 ->
  exists o, __wgmenu_show_bootmenu version m = Some o /\
    forall t, reversed t = false -> shows (term_run t o) m.
Proof.
  intros Hm Hp. pose proof (ok_num m Hm). unfold __wgmenu_show_bootmenu.
  destruct (print_options_spec (Z.to_nat (num_options m)) m 0 Hm) as (o & -> & Ho); [lia..|].
  cbn [mbind option_bind]. eexists. split; [done|]. intros t Ht. rewrite term_run_app.
  destruct (Ho (term_run t (__wgmenu_show_bootmenu_table version))) as (Hr & _ & Hc).
  { by rewrite plain_reversed by apply table_plain. }
  split; [done|]. intros i j Hi Hj. rewrite Hc by done. f_equal. f_equal. rewrite Hp.
  destruct (Z.eqb_spec i 0); by case_bool_decide.
Qed.

Lemma wgmenu_show_ok version m :
  menu_ok m -> num_options m <= 8 -> option_pos m = 0 ->
  exists m' o, wgmenu_show version m = Some (m', o) /\ menu_ok m' /\
    num_options m' = num_options m + 2 /\ option_pos m' = 0 /\
    opt_label m' (num_options m) = label_SYSA /\ opt_label m' (num_options m + 1) = label_SYSB /\
    forall t, reversed t = false -> shows (term_run t o) m'.
Proof.
  intros Hm Hn Hp. pose proof (ok_num m Hm). unfold wgmenu_show.
  assert (cstring label_SYSA /\ cstring label_SYSB) as [Ha Hb].
  { split; apply Forall_forall; intros x Hx; apply list_elem_of_In in Hx; simpl in Hx; lia. }
  destruct (wgmenu_add_ok m label_SYSA 0 0 Hm) as (m1 & -> & Hm1 & Hn1 & Hp1 & Hl1); [lia|done|done|].
  cbn [mbind option_bind].
  destruct (wgmenu_add_ok m1 label_SYSB 0 0 Hm1) as (m2 & -> & Hm2 & Hn2 & Hp2 & Hl2); [lia|done|done|].
  cbn [mbind option_bind].
  destruct (show_bootmenu_shows version m2 Hm2) as (o & -> & Ho); [lia|]. cbn [mbind option_bind].
  exists m2, o. split_and!; try done; try lia.
  - rewrite Hl2, (proj2 (Z.eqb_neq _ _)), Hl1, Z.eqb_refl by lia. done.
  - rewrite Hl2, Hn1, Z.eqb_refl by lia. done.
Qed.

(** ** The claims *)

(** C6: the boot menu on the screen.  Showing a menu that has room for its two
    options and then pressing any keys never leaves the option array; the
    selection moves up and down within the options (65 and 66 are the last bytes
    of the arrow keys) and does not change on other keys; and at every point each
    option is on its own line of the screen, with exactly the selected one in
    reverse video. *)
Theorem wgmenu_screen_tracks_selection (version : list Z) (m : wgmenu) (t : terminal) (keys : list Z) :
  menu_ok m -> num_options m <= 8 -> option_pos m = 0 -> reversed t = false ->
  exists m1 o1 m2 o2,
    wgmenu_show version m = Some (m1, o1) /\ shows (term_run t o1) m1 /\
    num_options m1 = num_options m + 2 /\
    run_keys m1 keys = Some (m2, o2) /\ menu_ok m2 /\
    wgmenu_selected m2 = foldl (move (num_options m + 2)) 0 keys /\
    shows (term_run (term_run t o1) o2) m2.
Proof.
  intros Hm Hn Hp Ht. pose proof (ok_num m Hm).
  destruct (wgmenu_show_ok version m Hm Hn Hp) as (m1 & o1 & H1 & Hm1 & Hn1 & Hp1 & _ & _ & Hs).
  destruct (run_keys_move keys m1 Hm1) as (o2 & H2 & Hm2 & Ho2); [lia|].
  eexists m1, o1, _, o2. split_and!; [done|by apply Hs|done|exact H2|done| |apply Ho2, Hs, Ht].
  unfold wgmenu_selected, set_pos. cbn [option_pos]. by rewrite Hn1, Hp1.
Qed.

(** Witness: the menu at power-up, with a few keys. *)
Lemma wgmenu_screen_tracks_selection_witness :
  exists m1 o1 m2 o2,
    wgmenu_show (str "WatchGuard") wgmenu_init = Some (m1, o1) /\
    shows (term_run (mk_term (1, 1) false ∅) o1) m1 /\
    num_options m1 = num_options wgmenu_init + 2 /\
    run_keys m1 [27; 91; 66; 27; 91; 66] = Some (m2, o2) /\ menu_ok m2 /\
    wgmenu_selected m2 = foldl (move (num_options wgmenu_init + 2)) 0 [27; 91; 66; 27; 91; 66] /\
    shows (term_run (term_run (mk_term (1, 1) false ∅) o1) o2) m2.
Proof.
  apply (wgmenu_screen_tracks_selection (str "WatchGuard") wgmenu_init (mk_term (1, 1) false ∅)
    [27; 91; 66; 27; 91; 66]).
  - apply wgmenu_init_ok.
  - simpl. lia.
  - reflexivity.
  - reflexivity.
Defined.

(** [wgmenu_show] adds its options each time and does not check for room: its
    sixth call writes after the end of the array. *)
Example wgmenu_show_overflow :
  (foldl (fun m _ => m ≫= fun m => fst <$> wgmenu_show [] m) (Some wgmenu_init) (seq 0 5)) ≠ None /\
  (foldl (fun m _ => m ≫= fun m => fst <$> wgmenu_show [] m) (Some wgmenu_init) (seq 0 6)) = None.
Proof. split; [vm_compute; discriminate|vm_compute; reflexivity]. Qed.
