(* ===== verification/Autoboot.v ===== *)
(** * Autoboot and the main loop ([common/autoboot.c], [common/main.c], [common/cli.c])

    The countdown, the boot menu with its password, and the main loop, in the
    configuration of the Firebox: [CONFIG_WG_BOOTMENU] and [CONFIG_OF_CONTROL],
    without keyed autoboot (which has its own section), boot counting, [preboot],
    silent console or power-on self tests.

    The console and the clock are scripts: the results of the calls of [tstc],
    [getc], [get_timer] and [cli_readline] in the order in which the code makes
    them.  A run that needs more input than its script has is [Wait].  The
    environment keeps the heap pointers of its values, because the code holds on
    to them.  Console text other than the menu is left out. *)

From S2P Require Import Prelude StringLib Strto Sha1 WgMenu.
Local Open Scope Z_scope.

(** ** Results *)

Inductive ub := OutOfBounds | UseAfterFree.

Inductive res (A : Type) :=
  | Ok (a : A)
  | Wait
  | Undefined (u : ub).
Arguments Ok {_} _.
Arguments Wait {_}.
Arguments Undefined {_} _.

#[global] Instance res_bind : MBind res := fun A B f r =>
  match r with Ok a => f a | Wait => Wait | Undefined u => Undefined u end.

Definition in_bounds {A} (o : option A) : res A :=
  match o with Some a => Ok a | None => Undefined OutOfBounds end.

(** ** The environment with its pointers

    A variable's value is a heap string that [env_set] allocates; overwriting
    or deleting the variable frees it ([_compare_and_overwrite_entry] and
    [_hdelete] of [lib/hashtable.c]).  A freed pointer is not used again for
    another string: a pointer that is not in the heap is dangling. *)

Definition ptr := nat.

Record env := mk_env {
  vars : gmap (list Z) ptr;
  heap : gmap ptr (list Z);
  brk : ptr
}.

Definition env_get (e : env) (name : list Z) : option ptr := vars e !! name.

(** The string a variable holds. *)
Definition value_of (e : env) (name : list Z) : option (list Z) := p ← vars e !! name; heap e !! p.

Definition free_value (e : env) (name : list Z) : env :=
  match vars e !! name with
  | Some p => mk_env (vars e) (delete p (heap e)) (brk e)
  | None => e
  end.

(** [set_ok] is whether the permission check and the callback of the variable
    allow the change. *)
Definition env_set (set_ok : list Z -> list Z -> bool) (e : env) (name value : list Z) : env :=
  if negb (set_ok name value) then e
  else
    let e := free_value e name in
    match value with
    | [] => mk_env (delete name (vars e)) (heap e) (brk e)
    | _ => mk_env (<[name := brk e]> (vars e)) (<[brk e := value]> (heap e)) (S (brk e))
    end.

(** ** The world of a run *)

Inductive event :=
  | EvRunCommand (cmd : option (list Z))
  | EvRunList (cmd : list Z)
  | EvSecure (cmd : option (list Z))
  | EvCli.

(** One pass of the polling loop: what [tstc] returns and, if no key is
    pressed, whether less than a second has passed. *)
Record tick := mk_tick { tstc : bool; in_time : bool }.

(** A result of [cli_readline]: its return value and [console_buffer]. *)
Record line := mk_line { line_len : Z; console_buffer : list Z }.

Record world := mk_world {
  ticks : list tick;
  keys : list Z;
  lines : list line;
  menu : wgmenu;
  output : list token;
  environment : env;
  trace : list event
}.

Definition with_env (w : world) (e : env) : world :=
  mk_world (ticks w) (keys w) (lines w) (menu w) (output w) e (trace w).
Definition with_menu (w : world) (m : wgmenu) (o : list token) : world :=
  mk_world (ticks w) (keys w) (lines w) m (output w ++ o) (environment w) (trace w).
Definition with_input (w : world) (ts : list tick) (ks : list Z) (ls : list line) : world :=
  mk_world ts ks ls (menu w) (output w) (environment w) (trace w).
Definition emit (w : world) (ev : event) : world :=
  mk_world (ticks w) (keys w) (lines w) (menu w) (output w) (environment w) (trace w ++ [ev]).

Definition wg_pw_hash : list Z :=
  [0xe5; 0x97; 0x30; 0x1a; 0x1d; 0x89; 0xff; 0x3f; 0x6d; 0x31;
   0x8d; 0xbf; 0x4d; 0xba; 0x0a; 0x5a; 0xbc; 0x5e; 0xcb; 0xea].

Definition bootcmd : list Z := str "bootcmd".
Definition burn_in : list Z := str "Burn_In_Time".
Definition wgBootSysA : list Z := str "wgBootSysA".
Definition wgBootSysB : list Z := str "wgBootSysB".
Definition run_SysA : list Z := str "run wgBootSysA".
Definition run_SysB : list Z := str "run wgBootSysB".
Definition default_SysA : list Z := str "setenv bootargs console=ttyS0,115200 root=/dev/sda3 earlycon=uart8250,mmio,0x21c0500; scsi scan; ext4load scsi 0:3 0x82000000 kernel_T20_T40.itb; bootm 0x82000000".
Definition default_SysB : list Z := str "setenv bootargs console=ttyS0,115200 root=/dev/sda2 earlycon=uart8250,mmio,0x21c0500; scsi scan; ext4load scsi 0:2 0x82000000 kernel_T20_T40.itb; bootm 0x82000000".

Section Autoboot.

(** The parts around: the permission to set variables, what the command
    interpreter does to the environment, the uninitialised hash buffer, the
    generated version strings, the settings of the device tree and the samples
    of the GPIO register of the reset button.  The hash of the password is an
    argument, too: the code has [wg_pw_hash]. *)
Context (set_ok : list Z -> list Z -> bool) (exec : list Z -> env -> env).
Context (stk : list Z) (menu_version uboot_version : list Z) (pw_hash : list Z).
Context (fdt_int : list Z -> Z -> Z) (fdt_string : list Z -> option (list Z)).

Definition setenv (w : world) (name value : list Z) : world :=
  with_env w (env_set set_ok (environment w) name value).

(** [run_command(s, 0)] of a pointer that may be [NULL]. *)
Definition run_command (w : world) (s : option ptr) : res world :=
  match s with
  | None => Ok (emit w (EvRunCommand None))
  | Some p =>
      match heap (environment w) !! p with
      | None => Undefined UseAfterFree
      | Some c => Ok (with_env (emit w (EvRunCommand (Some c))) (exec c (environment w)))
      end
  end.

(** *** [abortboot_normal] *)

(** [memcmp(wg_pw_hash, sha1(console_buffer), 20) == 0], [pw_hash] being the constant. *)
Definition password_good (l : line) : bool :=
  memcmp pw_hash (sha1_csum stk (take (Z.to_nat (line_len l)) (console_buffer l))) 20 =? 0.

(** The locals [wg_keypress] and [wg_selected], and [abort]. *)
Record locals := mk_locals { wg_keypress : Z; wg_selected : Z; abort : bool }.

(** [while (wg_keypress != 13)]: each pass reads one key. *)
Fixpoint menu_loop (ks : list Z) (w : world) (v : locals) : res (world * locals) :=
  if wg_keypress v =? 13 then Ok (with_input w (ticks w) ks (lines w), v)
  else
    match ks with
    | [] => Wait
    | k :: ks =>
        '(m, o, _) ← in_bounds (wgmenu_hook (menu w) k);
        let w := with_menu w m o in
        let v := mk_locals k (wgmenu_selected m) (abort v) in
        if k =? 3 then
          let w := with_menu w (wgmenu_exit (menu w)) [] in
          match lines w with
          | [] => Wait
          | l :: ls =>
              let w := with_input w (ticks w) (keys w) ls in
              if 0 <? line_len l then
                if password_good l
                then Ok (with_input w (ticks w) ks ls, mk_locals k (wg_selected v) true)
                else menu_loop ks w v
              else menu_loop ks w v
          end
        else menu_loop ks w v
    end.

(** The polling loop of one second: whether a key ended it ([wg_break]). *)
Fixpoint poll_loop (ts : list tick) (w : world) (v : locals) : res (bool * world * locals) :=
  match ts with
  | [] => Wait
  | t :: ts =>
      if tstc t then
        '(w, v) ← menu_loop (keys w) (with_input w ts (keys w) (lines w)) v;
        Ok (true, with_menu w (wgmenu_exit (menu w)) [], v)
      else if in_time t then poll_loop ts w v
      else Ok (false, with_input w ts (keys w) (lines w), v)
  end.

(** The [switch] on the selected option, and running the command right away if
    the variable had to be made up. *)
Definition select_os (w : world) (selected : Z) : res world :=
  if 0 <=? selected then
    let '(w, not_found) :=
      if selected =? 1 then
        let '(w, nf) :=
          match env_get (environment w) wgBootSysB with
          | None => (setenv w wgBootSysB default_SysB, true)
          | Some _ => (w, false)
          end in
        (setenv w bootcmd run_SysB, nf)
      else
        let '(w, nf) :=
          match env_get (environment w) wgBootSysA with
          | None => (setenv w wgBootSysA default_SysA, true)
          | Some _ => (w, false)
          end in
        (setenv w bootcmd run_SysA, nf) in
    if (not_found : bool) then run_command w (env_get (environment w) bootcmd) else Ok w
  else Ok w.

(** [while ((bootdelay > 0) && (!abort))], with [bootdelay] as a natural number. *)
Fixpoint countdown (bootdelay : nat) (w : world) (v : locals) : res (world * locals) :=
  match bootdelay with
  | O => Ok (w, v)
  | S n =>
      if abort v then Ok (w, v)
      else
        '(wg_break, w, v) ← poll_loop (ticks w) w v;
        let bootdelay := if (wg_break : bool) then O else n in
        w ← match env_get (environment w) burn_in with
              | None => if (bootdelay =? 0)%nat && negb (abort v) then select_os w (wg_selected v) else Ok w
              | Some _ => Ok w
              end;
        if wg_break then Ok (w, v) else countdown n w v
  end.

Definition abortboot_normal (bootdelay : Z) (w : world) : res (world * bool) :=
  '(m, o) ← in_bounds (wgmenu_show menu_version (menu w));
  '(w, v) ← countdown (Z.to_nat bootdelay) (with_menu w m o) (mk_locals 0 0 false);
  Ok (w, abort v).

Definition abortboot (bootdelay : Z) (w : world) : res (world * bool) :=
  if 0 <=? bootdelay then abortboot_normal bootdelay w else Ok (w, false).

(** *** [bootdelay_process] and [autoboot_command] *)

Definition CONFIG_BOOTDELAY : Z := 3.
Definition CONFIG_SYS_TEXT_BASE : Z := 0x40100000.

Definition env_set_hex (w : world) (name : list Z) (value : Z) : world :=
  setenv w name (digits 16 16 (u64 value)).

Definition process_fdt_options (w : world) : world :=
  let addr := fdt_int (str "kernel-offset") 0 in
  let w := if addr =? 0 then w else env_set_hex w (str "kernaddr") (CONFIG_SYS_TEXT_BASE + addr) in
  let addr := fdt_int (str "rootdisk-offset") 0 in
  if addr =? 0 then w else env_set_hex w (str "rootaddr") (CONFIG_SYS_TEXT_BASE + addr).

(** A boot command: a pointer into the environment, or a string of the device tree. *)
Inductive command := EnvCmd (p : ptr) | FdtCmd (s : list Z).

Definition deref (e : env) (c : command) : option (list Z) :=
  match c with EnvCmd p => heap e !! p | FdtCmd s => Some s end.

(** Returns the boot command and [stored_bootdelay]. *)
Definition bootdelay_process (w : world) : world * option command * Z :=
  let bootdelay :=
    match value_of (environment w) (str "bootdelay") with
    | Some s => s32 (fst (simple_strtol s 10))
    | None => CONFIG_BOOTDELAY
    end in
  let bootdelay := fdt_int (str "bootdelay") bootdelay in
  let s := EnvCmd <$> env_get (environment w) bootcmd in
  (process_fdt_options w, s, bootdelay).

Definition autoboot_command (w : world) (stored_bootdelay : Z) (s : option command) : res world :=
  match s with
  | Some c =>
      if stored_bootdelay =? -1 then Ok w
      else
        '(w, ab) ← abortboot stored_bootdelay w;
        if (ab : bool) then Ok w
        else
          match deref (environment w) c with
          | None => Undefined UseAfterFree
          | Some cmd => Ok (with_env (emit w (EvRunList cmd)) (exec cmd (environment w)))
          end
  | None => Ok w
  end.

(** *** [main_loop] *)

Definition BUTTON_RESET : Z := 12.

Definition read_btn_status (reg_val btn : Z) : Z :=
  if Z.land reg_val (Z.shiftl 1 (31 - btn - 8)) =? 0 then 1 else 0.

(** The register is read up to three times, 1 ms apart. *)
Fixpoint detect_SYSB_keypress (samples : list Z) (i : nat) {struct i} : res Z :=
  match i with
  | O => Ok 0
  | S i =>
      match samples with
      | [] => Wait
      | reg_val :: samples =>
          if read_btn_status reg_val BUTTON_RESET =? 1 then Ok 1 else detect_SYSB_keypress samples i
      end
  end.

Definition cli_process_fdt (s : option command) : option command * bool :=
  (match fdt_string (str "bootcmd") with Some c => Some (FdtCmd c) | None => s end,
   negb (fdt_int (str "bootsecure") 0 =? 0)).

(** [snprintf] into the buffer of 1024 bytes, with a size of 1023. *)
Definition othbootargs : list Z := take 1022 (str "uboot_ver='" ++ uboot_version ++ str "'").

(** What becomes of the boot: the main loop ends in the command line, or the
    secure boot command hangs. *)
Inductive ending := Cli | Hang.

Definition cli_loop (w : world) : res (world * ending) := Ok (emit w EvCli, Cli).

Definition cli_secure_boot_cmd (w : world) (s : option command) : res (world * ending) :=
  match s with
  | None => Ok (emit w (EvSecure None), Hang)
  | Some c =>
      match deref (environment w) c with
      | None => Undefined UseAfterFree
      | Some cmd => Ok (emit w (EvSecure (Some cmd)), Hang)
      end
  end.

(** The rest of [main_loop] after the reset button was found pressed: [None] if
    it went to the command line for good. *)
Definition sysb_requested (w : world) : res (world * option (option command)) :=
  match env_get (environment w) burn_in, env_get (environment w) wgBootSysB with
  | None, None => Ok (emit (emit w (EvRunCommand (Some (str "print wgBootSysB")))) EvCli, None)
  | b, _ =>
      let w := setenv w bootcmd (match b with Some _ => str "run wgBootODMOS" | None => run_SysB end) in
      let s := env_get (environment w) bootcmd in
      w ← run_command w s;
      Ok (w, Some (EnvCmd <$> s))
  end.

Definition main_loop (w : world) (samples : list Z) : res (world * ending) :=
  let w := setenv w (str "othbootargs") othbootargs in
  let '(w, s, stored_bootdelay) := bootdelay_process w in
  let '(s, secure) := cli_process_fdt s in
  if (secure : bool) then cli_secure_boot_cmd w s
  else
    sysbReq ← detect_SYSB_keypress samples 3;
    if sysbReq =? 1 then
      '(w, r) ← sysb_requested w;
      match r with
      | None => Ok (w, Cli)
      | Some s =>
          w ← autoboot_command w stored_bootdelay s;
          cli_loop w
      end
    else
      w ← autoboot_command w stored_bootdelay s;
      cli_loop w.
End Autoboot.

(** ** The environment *)

(** Every variable has its own live string; [brk] is above all of them. *)
Record env_ok (e : env) : Prop := {
  live : forall n p, vars e !! n = Some p -> is_Some (heap e !! p);
  own : forall n n' p, vars e !! n = Some p -> vars e !! n' = Some p -> n = n';
  fresh_brk : forall p, is_Some (heap e !! p) -> (p < brk e)%nat
}.

(** Setting a variable is deleting it and allocating its new value. *)
Definition unset (e : env) (n : list Z) : env :=
  mk_env (delete n (vars e)) (heap (free_value e n)) (brk e).

Definition alloc (e : env) (n v : list Z) : env :=
  mk_env (<[n := brk e]> (vars e)) (<[brk e := v]> (heap e)) (S (brk e)).

Lemma env_set_alloc set_ok e n v :
  set_ok n v = true -> v <> [] -> env_set set_ok e n v = alloc (unset e n) n v.
Proof.
  intros H Hv. unfold env_set. rewrite H. destruct v as [|c v]; [done|]. unfold alloc, unset, free_value. simpl.
  rewrite insert_delete_eq. by destruct (vars e !! n).
Qed.

Lemma unset_heap e n p :
  heap (unset e n) !! p = if decide (vars e !! n = Some p) then None else heap e !! p.
Proof.
  unfold unset, free_value. cbn [heap]. destruct (vars e !! n) as [q|]; cbn [heap]; case_decide as E; try done.
  - injection E as ->. apply lookup_delete_eq.
  - apply lookup_delete_ne. congruence.
Qed.

Lemma unset_ok e n : env_ok e -> env_ok (unset e n).
Proof.
  intros [Hl Ho Hf]. split.
  - intros m q Hq. cbn [unset vars] in Hq. apply lookup_delete_Some in Hq as [Hne Hq]. rewrite unset_heap. case_decide as E.
    + by destruct Hne; apply (Ho n m q).
    + by apply (Hl m).
  - intros m m' q Hq Hq'. cbn [unset vars] in Hq, Hq'. apply lookup_delete_Some in Hq as [_ Hq], Hq' as [_ Hq']. by apply (Ho m m' q).
  - intros q. rewrite unset_heap. case_decide; [by intros [? ?]|apply Hf].
Qed.

Lemma alloc_ok e n v : env_ok e -> vars e !! n = None -> env_ok (alloc e n v).
Proof.
  intros [Hl Ho Hf] Hn. assert (forall k, vars e !! k <> Some (brk e)) as Hb.
  { intros k Hk. pose proof (Hf _ (Hl _ _ Hk)). lia. }
  split; unfold alloc; cbn [vars heap brk].
  - intros m q Hq. destruct (decide (q = brk e)) as [->|]; [by rewrite lookup_insert_eq|].
    rewrite lookup_insert_ne by done. apply lookup_insert_Some in Hq as [[<- <-]|[_ Hq]]; [done|by apply (Hl m)].
  - intros m m' q Hq Hq'. apply lookup_insert_Some in Hq as [[<- <-]|[Hne Hq]], Hq' as [[<- E]|[Hne' Hq']]; try done.
    + by destruct (Hb m').
    + subst. by destruct (Hb m).
    + by apply (Ho m m' q).
  - intros q Hq. apply lookup_insert_is_Some in Hq as [<-|[_ Hq]]; [lia|]. pose proof (Hf _ Hq). lia.
Qed.

Lemma env_set_ok set_ok e n v : env_ok e -> env_ok (env_set set_ok e n v).
Proof.
  intros He. destruct (set_ok n v) eqn:H; [|unfold env_set; by rewrite H].
  destruct (decide (v = [])) as [->|Hv].
  - unfold env_set. rewrite H. replace (mk_env _ _ _) with (unset e n); [by apply unset_ok|].
    unfold unset, free_value. by destruct (vars e !! n).
  - rewrite env_set_alloc by done. apply alloc_ok; [by apply unset_ok|]. apply lookup_delete_eq.
Qed.

(** After a variable is set, it holds the value, the others are as before, and
    the pointer to the old value dangles. *)
Lemma env_set_value set_ok e n v n' :
  env_ok e -> set_ok n v = true -> v <> [] ->
  value_of (env_set set_ok e n v) n' = if decide (n' = n) then Some v else value_of e n'.
Proof.
  intros He H Hv. rewrite env_set_alloc by done. unfold value_of, alloc. cbn [vars heap].
  case_decide as E.
  - subst. rewrite lookup_insert_eq. cbn. by rewrite lookup_insert_eq.
  - rewrite lookup_insert_ne by done. cbn [vars unset]. rewrite lookup_delete_ne by done.
    destruct (vars e !! n') as [q|] eqn:Eq; [|done]. cbn [mbind option_bind]. cbn [brk].
    rewrite lookup_insert_ne, unset_heap.
    + rewrite decide_False; [done|]. intros Hq. by apply E, (own e He n' n q).
    + pose proof (fresh_brk e He q (live e He _ _ Eq)). cbn [unset brk]. lia.
Qed.

Lemma env_set_dangling set_ok e n v p :
  env_ok e -> set_ok n v = true -> v <> [] -> env_get e n = Some p -> heap (env_set set_ok e n v) !! p = None.
Proof.
  intros He H Hv Hp. rewrite env_set_alloc by done. unfold alloc. cbn [heap brk].
  rewrite lookup_insert_ne, unset_heap by (pose proof (fresh_brk e He p (live e He _ _ Hp)); simpl; lia).
  by rewrite decide_True.
Qed.

Lemma env_set_get set_ok e n v n' :
  n' <> n -> env_get (env_set set_ok e n v) n' = env_get e n'.
Proof.
  intros Hn. unfold env_set, env_get, free_value. case_if; [done|].
  destruct v, (vars e !! n); cbn [vars]; by rewrite ?lookup_delete_ne, ?lookup_insert_ne.
Qed.

Lemma env_set_other set_ok e n v n' :
  env_ok e -> n' <> n -> value_of (env_set set_ok e n v) n' = value_of e n'.
Proof.
  intros He Hn. destruct (set_ok n v) eqn:H; [|unfold env_set; by rewrite H].
  destruct (decide (v = [])) as [->|Hv]; [|rewrite env_set_value by done; by rewrite decide_False].
  unfold env_set. rewrite H. cbn [negb]. replace (mk_env _ _ _) with (unset e n).
  2: { unfold unset, free_value. by destruct (vars e !! n). }
  unfold value_of. cbn [unset vars]. rewrite lookup_delete_ne by done.
  destruct (vars e !! n') as [q|] eqn:Eq; [|done]. cbn [mbind option_bind]. fold (unset e n).
  rewrite unset_heap, decide_False; [done|]. intros Hq. by apply Hn, (own e He n' n q).
Qed.

(** ** The menu *)

(** A line as [cli_readline] returns it. *)
Definition line_ok (l : line) : Prop :=
  Forall byte_ok (console_buffer l) /\ Z.of_nat (length (console_buffer l)) < 2 ^ 32.

(** The password as FIPS 180 defines it. *)
Definition is_password (pw_hash : list Z) (l : line) : Prop :=
  0 < line_len l /\ fips_sha1 (take (Z.to_nat (line_len l)) (console_buffer l)) = pw_hash.

Section Menu.
Context (stk : list Z) (pw_hash : list Z).

Lemma password_good_iff l :
  length stk = 64%nat -> length pw_hash = 20%nat -> line_ok l -> password_good stk pw_hash l = true <-> fips_sha1 (take (Z.to_nat (line_len l)) (console_buffer l)) = pw_hash.
Proof.
  intros Hstk Hpw [Hb Hl]. unfold password_good. rewrite Z.eqb_eq, sha1_csum_fips; [|done|by apply Forall_take|rewrite length_take; lia].
  rewrite memcmp_0 by (rewrite ?length_sha1; lia). rewrite !take_ge by (rewrite ?length_sha1; lia).
  split; congruence.
Qed.

Lemma hook_in_bounds m k :
  menu_ok m ->
  exists m' o h, wgmenu_hook m k = Some (m', o, h) /\ menu_ok m' /\ num_options m' = num_options m /\
    option_pos m' = (if num_options m =? 0 then option_pos m else move (num_options m) (option_pos m) k).
Proof.
  intros Hm. destruct (wgmenu_hook_move m k Hm) as (o & h & -> & _).
  eexists _, o, h. split_and!; [done| |done|done].
  pose proof (ok_pos m Hm). pose proof (ok_num m Hm).
  destruct (Z.eqb_spec (num_options m) 0); [by destruct m|]. apply set_pos_ok; [done|].
  unfold move; repeat case_if; lia.
Qed.

Lemma exit_ok m : menu_ok m -> menu_ok (wgmenu_exit m).
Proof. intros [H1 H2 H3 H4 H5]. by split. Qed.

(** What the menu changes in the world. *)
Definition menu_frame (w w' : world) : Prop :=
  ticks w' = ticks w /\ environment w' = environment w /\ trace w' = trace w.

Lemma menu_loop_enter ks w v :
  wg_keypress v = 13 -> menu_loop stk pw_hash ks w v = Ok (with_input w (ticks w) ks (lines w), v).
Proof. intros H. destruct ks; cbn [menu_loop]; by rewrite H. Qed.

(** A menu that returns was left with Enter, or with Ctrl-C and the password. *)
Lemma menu_loop_inv ks : forall w v w' v',
  menu_ok (menu w) -> menu_loop stk pw_hash ks w v = Ok (w', v') ->
  menu_ok (menu w') /\ menu_frame w w' /\
  (abort v' = abort v /\ wg_keypress v' = 13 \/
   abort v' = true /\ exists ks1 ls l, ks = ks1 ++ 3 :: keys w' /\ 13 ∉ ks1 /\
     lines w = ls ++ l :: lines w' /\ 0 < line_len l /\ password_good stk pw_hash l = true).
Proof.
  induction ks as [|k ks IH]; intros w v w' v' Hm; cbn [menu_loop].
  - case_if; [|done]. intros [= <- <-]. split_and!; try done. by left.
  - case_if. { intros [= <- <-]. split_and!; try done. by left. }
    destruct (hook_in_bounds (menu w) k Hm) as (m & o & h & -> & Hm' & _). cbn [in_bounds mbind res_bind].
    destruct (Z.eqb_spec k 3) as [->|Hk].
    + cbn [with_menu lines menu]. destruct (lines w) as [|l ls] eqn:El; [done|].
      assert (forall w1 v1, menu_ok (menu w1) -> ticks w1 = ticks w -> environment w1 = environment w ->
        trace w1 = trace w -> lines w1 = ls -> abort v1 = abort v -> menu_loop stk pw_hash ks w1 v1 = Ok (w', v') ->
        menu_ok (menu w') /\ menu_frame w w' /\
        (abort v' = abort v /\ wg_keypress v' = 13 \/
         abort v' = true /\ exists ks1 ls0 l0, 3 :: ks = ks1 ++ 3 :: keys w' /\ 13 ∉ ks1 /\
           l :: ls = ls0 ++ l0 :: lines w' /\ 0 < line_len l0 /\ password_good stk pw_hash l0 = true)) as Hrec.
      { intros w1 v1 Hm1 Ht He Htr Hls Hab H. apply IH in H as (H1 & (H2 & H3 & H4) & H5); [|done].
        split_and!; [done|split_and!; congruence|].
        destruct H5 as [[Hb Hk]|(Hb & ks1 & ls0 & l0 & -> & Hn & Hl0 & Hp)]; [left; by rewrite Hb|right].
        split; [done|]. exists (3 :: ks1), (l :: ls0), l0. split_and!; try done.
        - by apply not_elem_of_cons.
        - simpl. by rewrite <- Hl0, Hls.
        - apply Hp.
        - apply Hp. }
      destruct (0 <? line_len l) eqn:Elen; [|apply Hrec; cbn; try done; by apply exit_ok].
      destruct (password_good stk pw_hash l) eqn:Epw; [|apply Hrec; cbn; try done; by apply exit_ok].
      intros [= <- <-]. cbn. split_and!; [by apply exit_ok|done|]. right. split; [done|].
      exists [], [], l. bool_to_prop. split_and!; try done. apply not_elem_of_nil.
    + destruct (decide (k = 13)) as [->|].
      { rewrite menu_loop_enter by done. intros [= <- <-]. split_and!; try done. by left. }
      intros H. apply IH in H as (H1 & (H2 & H3 & H4) & H5); [|done]. split_and!; [done|done|].
      destruct H5 as [H5|(Hb & ks1 & ls0 & l0 & -> & Hn & Hl0 & Hp)]; [by left|right].
      split; [done|]. exists (k :: ks1), ls0, l0. split_and!; try done; try apply Hp. by apply not_elem_of_cons.
Qed.

Lemma menu_loop_selected ks : forall w v w' v',
  menu_ok (menu w) -> 0 <= wg_selected v -> menu_loop stk pw_hash ks w v = Ok (w', v') -> 0 <= wg_selected v'.
Proof.
  induction ks as [|k ks IH]; intros w v w' v' Hm Hs; cbn [menu_loop]; (case_if; [by intros [= <- <-]|]); [done|].
  destruct (hook_in_bounds (menu w) k Hm) as (m & o & h & -> & Hm' & _). cbn [in_bounds mbind res_bind].
  assert (0 <= wgmenu_selected m) by (pose proof (ok_pos m Hm'); unfold wgmenu_selected; lia).
  pose proof (exit_ok m Hm').
  case_if; [|by apply IH]. destruct (lines (with_menu _ _ _)) as [|l ls]; [done|].
  repeat case_if; [by intros [= <- <-]|by apply IH..].
Qed.

(** Keys other than Enter and Ctrl-C move the selection; Enter leaves the menu. *)
Lemma menu_loop_select ks : forall w v rest,
  menu_ok (menu w) -> num_options (menu w) <> 0 -> wg_keypress v <> 13 -> 13 ∉ ks -> 3 ∉ ks ->
  exists w', menu_loop stk pw_hash (ks ++ 13 :: rest) w v =
      Ok (w', mk_locals 13 (foldl (move (num_options (menu w))) (option_pos (menu w)) ks) (abort v)) /\
    menu_ok (menu w') /\ menu_frame w w' /\ keys w' = rest /\ lines w' = lines w.
Proof.
  induction ks as [|k ks IH]; intros w v rest Hm Hn Hk H13 H3; cbn [menu_loop app foldl].
  - rewrite (proj2 (Z.eqb_neq _ _)) by done.
    destruct (hook_in_bounds (menu w) 13 Hm) as (m & o & h & -> & Hm' & _ & Hp).
    cbn [in_bounds mbind res_bind]. rewrite menu_loop_enter by done.
    unfold wgmenu_selected. rewrite Hp, (proj2 (Z.eqb_neq (num_options (menu w)) 0)) by done. by eexists.
  - rewrite (proj2 (Z.eqb_neq _ _)) by done. apply not_elem_of_cons in H13 as [H13 Hks], H3 as [H3 Hks3].
    destruct (hook_in_bounds (menu w) k Hm) as (m & o & h & -> & Hm' & Hn' & Hp).
    cbn [in_bounds mbind res_bind]. rewrite (proj2 (Z.eqb_neq k 3)) by done.
    rewrite (proj2 (Z.eqb_neq (num_options (menu w)) 0)) in Hp by done.
    destruct (IH (with_menu w m o) (mk_locals k (wgmenu_selected m) (abort v)) rest) as (w' & -> & H1 & H2 & H4 & H5);
      try done; cbn; [by rewrite Hn'|]. exists w'. cbn [menu with_menu abort]. by rewrite Hn', Hp.
Qed.

(** Ctrl-C and the password leave it at once. *)
Lemma menu_loop_password w v ks l ls :
  menu_ok (menu w) -> wg_keypress v <> 13 -> lines w = l :: ls -> 0 < line_len l -> password_good stk pw_hash l = true ->
  exists w' p, menu_loop stk pw_hash (3 :: ks) w v = Ok (w', mk_locals 3 p true) /\
    menu_ok (menu w') /\ menu_frame w w' /\ keys w' = ks /\ lines w' = ls.
Proof.
  intros Hm Hk Hl Hlen Hp. cbn [menu_loop]. rewrite (proj2 (Z.eqb_neq _ _)) by done.
  destruct (hook_in_bounds (menu w) 3 Hm) as (m & o & h & -> & Hm' & _ & _).
  cbn [in_bounds mbind res_bind lines with_menu with_input Z.eqb Pos.eqb]. rewrite Hl.
  rewrite (proj2 (Z.ltb_lt _ _)), Hp by done. eexists _, _. split; [done|]. split_and!; try done. by apply exit_ok.
Qed.
End Menu.

(** With two options the last arrow key wins: the selection after [ks]. *)
Definition last_arrow (ks : list Z) : Z :=
  match last (filter (fun k => k = 65 \/ k = 66) ks) with
  | Some 66 => 1
  | _ => 0
  end.

Lemma foldl_move_last ks : foldl (move 2) 0 ks = last_arrow ks.
Proof.
  assert (forall ks, 0 <= foldl (move 2) 0 ks <= 1) as Hr.
  { induction ks0 as [|k ks0 IH] using rev_ind; [simpl; lia|]. rewrite foldl_app. cbn [foldl].
    unfold move at 1 3. repeat case_if; lia. }
  induction ks as [|k ks IH] using rev_ind; [done|].
  rewrite foldl_app. cbn [foldl]. unfold last_arrow. rewrite filter_app. specialize (Hr ks).
  unfold move at 1. repeat case_if; subst.
  - rewrite (filter_cons_True _ 65), filter_nil, last_snoc by auto. lia.
  - rewrite (filter_cons_True _ 66), filter_nil, last_snoc by auto. lia.
  - rewrite (filter_cons_False _ k), filter_nil, app_nil_r by lia. apply IH.
Qed.

(** ** The countdown *)

(** [n] seconds in which no key is pressed, with any number of polls each. *)
Inductive idle : nat -> list tick -> Prop :=
  | idle_none : idle 0 []
  | idle_second n k ts : idle n ts -> idle (S n) (replicate k (mk_tick false true) ++ mk_tick false false :: ts).

(** An environment from which the menu can boot: both systems have their
    command, and the device is not in its burn-in test. *)
Record bootable (e : env) : Prop := {
  boot_env : env_ok e;
  boot_burn : env_get e burn_in = None;
  boot_A : env_get e wgBootSysA <> None;
  boot_B : env_get e wgBootSysB <> None
}.

(** The command of the selected system. *)
Definition selected_cmd (sel : Z) : list Z := if sel =? 1 then run_SysB else run_SysA.

Section Countdown.
Context (set_ok : list Z -> list Z -> bool) (exec : list Z -> env -> env).
Context (stk : list Z) (pw_hash : list Z).

Lemma selected_cmd_nonempty sel : selected_cmd sel <> [].
Proof. unfold selected_cmd. by case_if. Qed.

Lemma poll_quiet k ts w v :
  poll_loop stk pw_hash (replicate k (mk_tick false true) ++ mk_tick false false :: ts) w v =
  Ok (false, with_input w ts (keys w) (lines w), v).
Proof. by induction k. Qed.

Lemma poll_key k b ts w v :
  poll_loop stk pw_hash (replicate k (mk_tick false true) ++ mk_tick true b :: ts) w v =
  '(w, v) ← menu_loop stk pw_hash (keys w) (with_input w ts (keys w) (lines w)) v;
  Ok (true, with_menu w (wgmenu_exit (menu w)) [], v).
Proof. by induction k. Qed.

Lemma select_os_set w sel :
  0 <= sel -> bootable (environment w) -> select_os set_ok exec w sel = Ok (setenv set_ok w bootcmd (selected_cmd sel)).
Proof.
  intros Hs [_ _ HA HB]. unfold select_os, selected_cmd. rewrite (proj2 (Z.leb_le _ _)) by done.
  destruct (sel =? 1).
  - by destruct (env_get (environment w) wgBootSysB).
  - by destruct (env_get (environment w) wgBootSysA).
Qed.

(** The seconds without a key before the last one only count down. *)
Lemma countdown_idle n pre :
  idle n pre -> forall d w v ts, (n < d)%nat -> abort v = false -> ticks w = pre ++ ts ->
  exists w', countdown set_ok exec stk pw_hash d w v = countdown set_ok exec stk pw_hash (d - n) w' v /\
    ticks w' = ts /\ keys w' = keys w /\ lines w' = lines w /\ menu w' = menu w /\
    environment w' = environment w /\ trace w' = trace w.
Proof.
  induction 1 as [|n k pre Hi IH]; intros d w v ts Hd Hab Ht.
  - exists w. by rewrite Nat.sub_0_r.
  - destruct d as [|d]; [lia|]. cbn [countdown]. rewrite Hab, Ht, <- app_assoc, <- app_comm_cons, poll_quiet. cbn [mbind res_bind].
    destruct (Nat.eqb_spec d 0) as [->|]; [lia|]. cbn [andb].
    set (w1 := with_input w (pre ++ ts) (keys w) (lines w)).
    assert (forall o : option ptr, match o with Some _ => Ok w1 | None => Ok w1 end = Ok w1) as -> by (by intros []).
    cbn [mbind res_bind]. destruct (IH d w1 v ts) as (w' & -> & H1); [lia|done|done|].
    exists w'. split; [done|]. exact H1.
Qed.

Lemma countdown_timeout n pre :
  idle n pre -> forall w v ts, (0 < n)%nat -> abort v = false -> 0 <= wg_selected v -> bootable (environment w) ->
  ticks w = pre ++ ts ->
  exists w', countdown set_ok exec stk pw_hash n w v = Ok (w', v) /\ keys w' = keys w /\ lines w' = lines w /\
    environment w' = env_set set_ok (environment w) bootcmd (selected_cmd (wg_selected v)) /\ trace w' = trace w.
Proof.
  induction 1 as [|n k pre Hi IH]; intros w v ts Hn Hab Hsel Hb Ht; [lia|].
  cbn [countdown]. rewrite Hab, Ht, <- app_assoc, <- app_comm_cons, poll_quiet.
  cbn [mbind res_bind with_input environment]. rewrite (boot_burn _ Hb), Hab.
  destruct n as [|n]; cbn [Nat.eqb andb negb].
  - inversion Hi; subst. rewrite select_os_set by done. cbn [mbind res_bind countdown]. by eexists.
  - cbn [mbind res_bind]. destruct (IH (with_input w (pre ++ ts) (keys w) (lines w)) v ts) as (w' & H & H'); try done.
    + lia.
    + exists w'. by split.
Qed.

(** What a countdown that returns did: nothing was chosen with the password, or
    the boot command was set. *)
Lemma poll_inv ts : forall w v wb w' v',
  menu_ok (menu w) -> poll_loop stk pw_hash ts w v = Ok (wb, w', v') ->
  menu_ok (menu w') /\ environment w' = environment w /\ trace w' = trace w /\
  (wb = false /\ v' = v /\ keys w' = keys w /\ lines w' = lines w \/
   wb = true /\ (abort v' = abort v \/ abort v' = true /\
     exists ks1 ls l, keys w = ks1 ++ 3 :: keys w' /\ 13 ∉ ks1 /\ lines w = ls ++ l :: lines w' /\
       0 < line_len l /\ password_good stk pw_hash l = true)).
Proof.
  induction ts as [|t ts IH]; intros w v wb w' v' Hm; cbn [poll_loop]; [done|].
  destruct (tstc t); [|destruct (in_time t)].
  - destruct (menu_loop stk pw_hash (keys w) _ v) as [[w1 v1]| |] eqn:El; [|done..].
    apply menu_loop_inv in El as (Hm1 & (_ & He & Htr) & H); [|done]. cbn [mbind res_bind].
    intros [= <- <- <-]. cbn [with_menu environment trace menu keys lines]. split_and!; [by apply exit_ok|done|done|].
    right. split; [done|]. destruct H as [[H _]|H]; [by left|by right].
  - intros H. by apply IH.
  - intros [= <- <- <-]. split_and!; try done. by left.
Qed.

Lemma poll_selected ts : forall w v wb w' v',
  menu_ok (menu w) -> 0 <= wg_selected v -> poll_loop stk pw_hash ts w v = Ok (wb, w', v') -> 0 <= wg_selected v'.
Proof.
  induction ts as [|t ts IH]; intros w v wb w' v' Hm Hs; cbn [poll_loop]; [done|].
  destruct (tstc t); [|destruct (in_time t)].
  - destruct (menu_loop stk pw_hash (keys w) _ v) as [[w1 v1]| |] eqn:El; [|done..].
    cbn [mbind res_bind]. intros [= <- <- <-]. by eapply menu_loop_selected; [| |exact El].
  - by apply IH.
  - by intros [= <- <- <-].
Qed.

Lemma countdown_password d : forall w v w' v',
  menu_ok (menu w) -> abort v = false -> countdown set_ok exec stk pw_hash d w v = Ok (w', v') -> abort v' = true ->
  environment w' = environment w /\ trace w' = trace w /\
  exists ks1 ls l, keys w = ks1 ++ 3 :: keys w' /\ 13 ∉ ks1 /\ lines w = ls ++ l :: lines w' /\
    0 < line_len l /\ password_good stk pw_hash l = true.
Proof.
  induction d as [|d IH]; intros w v w' v' Hm Hab; cbn [countdown]; [intros [= <- <-]; congruence|].
  rewrite Hab. destruct (poll_loop stk pw_hash (ticks w) w v) as [[[wb w1] v1]| |] eqn:Ep; [|done..].
  apply poll_inv in Ep as (Hm1 & He1 & Htr1 & H1); [|done]. cbn [mbind res_bind]. rewrite He1.
  destruct H1 as [(-> & -> & Hk & Hl)|(-> & H1)].
  - rewrite Hab. destruct (Nat.eqb_spec d 0) as [->|Hd]; cbn [andb negb countdown].
    + destruct (match env_get _ burn_in with Some _ => _ | None => _ end) as [w2| |]; [|done..].
      cbn [mbind res_bind]. intros [= <- <-]. congruence.
    + assert (forall o : option ptr, match o with Some _ => Ok w1 | None => Ok w1 end = Ok w1) as -> by (by intros []).
      cbn [mbind res_bind]. intros H Hab'. apply IH in H; [|done..].
      destruct H as (He & Htr & H). rewrite He1, Htr1, Hk, Hl in *. done.
  - destruct (abort v1) eqn:Ea.
    + rewrite andb_false_r. assert (forall o : option ptr, match o with Some _ => Ok w1 | None => Ok w1 end = Ok w1) as -> by (by intros []).
      cbn [mbind res_bind]. intros [= <- <-] _. destruct H1 as [H1|[_ H1]]; [congruence|done].
    + destruct (match env_get _ burn_in with Some _ => _ | None => _ end) as [w2| |]; [|done..].
      cbn [mbind res_bind]. intros [= <- <-]. congruence.
Qed.

Lemma countdown_sets d : forall w v w' v',
  menu_ok (menu w) -> abort v = false -> 0 <= wg_selected v -> bootable (environment w) -> (0 < d)%nat ->
  countdown set_ok exec stk pw_hash d w v = Ok (w', v') -> abort v' = false ->
  exists sel, environment w' = env_set set_ok (environment w) bootcmd (selected_cmd sel).
Proof.
  induction d as [|d IH]; intros w v w' v' Hm Hab Hs Hb Hd; cbn [countdown]; [lia|].
  rewrite Hab. destruct (poll_loop stk pw_hash (ticks w) w v) as [[[wb w1] v1]| |] eqn:Ep; [|done..].
  pose proof (poll_selected _ _ _ _ _ _ Hm Hs Ep) as Hs1.
  apply poll_inv in Ep as (Hm1 & He1 & Htr1 & H1); [|done]. cbn [mbind res_bind].
  rewrite He1, (boot_burn _ Hb). rewrite <- He1 in Hb.
  destruct H1 as [(-> & -> & Hk & Hl)|(-> & H1)].
  - rewrite Hab. destruct (Nat.eqb_spec d 0) as [->|Hd0]; cbn [andb negb countdown].
    + rewrite select_os_set by done. cbn [mbind res_bind]. intros [= <- <-] _. exists (wg_selected v). by rewrite <- He1.
    + cbn [mbind res_bind]. intros H Hab'. rewrite <- He1. apply (IH w1 v w' v'); try done; lia.
  - cbn [Nat.eqb andb]. destruct (abort v1) eqn:Ea; cbn [negb].
    + cbn [mbind res_bind]. intros [= <- <-]. congruence.
    + rewrite select_os_set by done. cbn [mbind res_bind]. intros [= <- <-] _. exists (wg_selected v1). by rewrite <- He1.
Qed.
End Countdown.

(** Two worlds that differ in the menu only. *)
Definition same_but_menu (w w1 : world) : Prop :=
  ticks w1 = ticks w /\ keys w1 = keys w /\ lines w1 = lines w /\ environment w1 = environment w /\ trace w1 = trace w.

Lemma abortboot_start set_ok exec stk ver pw bd w :
  menu w = wgmenu_init ->
  exists w1, abortboot_normal set_ok exec stk ver pw bd w =
      ('(w', v) ← countdown set_ok exec stk pw (Z.to_nat bd) w1 (mk_locals 0 0 false); Ok (w', abort v)) /\
    menu_ok (menu w1) /\ num_options (menu w1) = 2 /\ option_pos (menu w1) = 0 /\ same_but_menu w w1.
Proof.
  intros Hm. unfold abortboot_normal. rewrite Hm.
  destruct (wgmenu_show_ok ver wgmenu_init wgmenu_init_ok) as (m & o & -> & Hok & Hn & Hp & _); [simpl; lia|done|].
  cbn [in_bounds mbind res_bind]. exists (with_menu w m o). by split_and!.
Qed.

Lemma bootcmd_names : burn_in <> bootcmd /\ wgBootSysA <> bootcmd /\ wgBootSysB <> bootcmd.
Proof. by split_and!; vm_compute. Qed.

(** A run of the menu that ends in booting: no key for the whole delay, or a key
    during it and then some keys [ks] other than Ctrl-C and Enter, and Enter. *)
Inductive boots (bd : Z) (w : world) (ks : list Z) : Prop :=
  | boots_timeout pre ts :
      idle (Z.to_nat bd) pre -> ticks w = pre ++ ts -> ks = [] -> boots bd w ks
  | boots_enter n pre k b ts rest :
      idle n pre -> Z.of_nat n < bd ->
      ticks w = pre ++ replicate k (mk_tick false true) ++ mk_tick true b :: ts ->
      keys w = ks ++ 13 :: rest -> 13 ∉ ks -> 3 ∉ ks -> boots bd w ks.

Lemma countdown_boots set_ok exec stk pw bd w ks :
  0 < bd -> menu_ok (menu w) -> num_options (menu w) = 2 -> option_pos (menu w) = 0 ->
  bootable (environment w) -> boots bd w ks ->
  exists w' v, countdown set_ok exec stk pw (Z.to_nat bd) w (mk_locals 0 0 false) = Ok (w', v) /\ abort v = false /\
    environment w' = env_set set_ok (environment w) bootcmd (selected_cmd (last_arrow ks)) /\ trace w' = trace w.
Proof.
  intros Hbd Hm Hn Hp Hb [pre ts Hi Ht ->|n pre k b ts rest Hi Hnd Ht Hk H13 H3].
  - destruct (countdown_timeout set_ok exec stk pw _ _ Hi w (mk_locals 0 0 false) ts)
      as (w' & -> & _ & _ & He & Htr); try done; [lia|]. exists w'. by eexists.
  - destruct (countdown_idle set_ok exec stk pw _ _ Hi (Z.to_nat bd) w (mk_locals 0 0 false) _ ltac:(lia) eq_refl Ht)
      as (w1 & -> & Ht1 & Hk1 & Hl1 & Hm1 & He1 & Htr1).
    destruct (Z.to_nat bd - n)%nat as [|d] eqn:Ed; [lia|]. cbn [countdown abort]. rewrite Ht1, poll_key.
    rewrite <- Hm1 in Hm, Hn, Hp.
    destruct (menu_loop_select stk pw ks (with_input w1 ts (keys w1) (lines w1)) (mk_locals 0 0 false) rest)
      as (w2 & Hml & Hm2 & (_ & He2 & Htr2) & _); try done; [cbn; by rewrite Hn|].
    rewrite <- Hk1 in Hk. rewrite <- Hk in Hml. rewrite Hml. cbn [mbind res_bind with_menu environment trace Nat.eqb andb negb abort wg_selected].
    cbn [with_input environment trace menu] in *. rewrite He2, He1, (boot_burn _ Hb), Hn, Hp, foldl_move_last.
    rewrite select_os_set; [|unfold last_arrow; repeat case_match; lia|cbn [with_menu environment]; by rewrite He2, He1].
    cbn [mbind res_bind]. eexists _, _. split; [done|]. cbn. by rewrite He2, He1, Htr2, Htr1.
Qed.

Lemma boots_same bd w w1 ks : same_but_menu w w1 -> boots bd w ks -> boots bd w1 ks.
Proof.
  intros (Ht & Hk & _) [pre ts Hi E ->|n pre k b ts rest Hi Hnd E Ek H13 H3].
  - by eapply boots_timeout; [exact Hi|rewrite Ht|].
  - by eapply boots_enter; [exact Hi|done|rewrite Ht; exact E|rewrite Hk; exact Ek|..].
Qed.

(** ** The claims *)

(** A world for the witnesses: the power-up menu, an environment with the boot
    command and both systems, and the given input. *)
Definition demo_env : env :=
  mk_env {[bootcmd := 0%nat; wgBootSysA := 1%nat; wgBootSysB := 2%nat]}
    {[0%nat := str "run wgBootSysA"; 1%nat := default_SysA; 2%nat := default_SysB]} 3%nat.

Definition demo (ts : list tick) (ks : list Z) (ls : list line) : world :=
  mk_world ts ks ls wgmenu_init [] demo_env [].

Lemma demo_env_ok : env_ok demo_env.
Proof.
  split.
  - intros n p Hp. cbn [demo_env vars heap] in *.
    repeat (apply lookup_insert_Some in Hp as [[_ <-]|[_ Hp]]; [by eexists|]).
    apply lookup_singleton_Some in Hp as [_ <-]. by eexists.
  - intros n n' p Hp Hp'. cbn [demo_env vars] in *.
    rewrite !lookup_insert_Some, lookup_singleton_Some in Hp, Hp'.
    destruct Hp as [[<- <-]|[_ [[<- <-]|[_ [<- <-]]]]], Hp' as [[<- E]|[_ [[<- E]|[_ [<- E]]]]]; done.
  - intros p Hp. cbn [demo_env heap brk] in *.
    rewrite !lookup_insert_is_Some, lookup_singleton_is_Some in Hp. lia.
Qed.

Lemma demo_bootable : bootable demo_env.
Proof. split; [apply demo_env_ok| | |]; by vm_compute. Qed.

(** C1: the console is behind the password.  When the countdown returns 1,
    which gives the command line, Ctrl-C was pressed before Enter, and the line
    read after it is not empty and has the SHA-1 (of FIPS 180) that is compiled
    in; neither the environment was changed nor a command run. *)
Theorem console_needs_password set_ok exec stk ver pw bd w w' :
  length stk = 64%nat -> length pw = 20%nat -> Forall line_ok (lines w) -> menu w = wgmenu_init ->
  abortboot_normal set_ok exec stk ver pw bd w = Ok (w', true) ->
  environment w' = environment w /\ trace w' = trace w /\
  exists ks ls l, keys w = ks ++ 3 :: keys w' /\ 13 ∉ ks /\ lines w = ls ++ l :: lines w' /\ is_password pw l.
Proof.
  intros Hstk Hpw Hl Hm. destruct (abortboot_start set_ok exec stk ver pw bd w Hm)
    as (w1 & -> & Hm1 & _ & _ & (_ & Hk1 & Hl1 & He1 & Htr1)).
  destruct (countdown _ _ _ _ _ _ _) as [[w2 v2]| |] eqn:Ec; [|done..]. cbn [mbind res_bind]. intros [= <- Hab].
  apply countdown_password in Ec as (He & Htr & ks & ls & l & Hk & H13 & Hls & Hlen & Hp); [|done..].
  rewrite He, Htr, He1, Htr1. split_and!; [done..|]. exists ks, ls, l.
  rewrite Hk1 in Hk. rewrite Hl1 in Hls. split_and!; try done. split; [done|].
  apply (password_good_iff stk); try done. rewrite Hls in Hl. by apply Forall_app in Hl as [_ [? _]%Forall_cons].
Qed.

(** Witness: the right password after a wrong one, with the hash of [abc]. *)
Definition abc_line : line := mk_line 3 [97; 98; 99; 0].

Lemma console_needs_password_witness :
  exists w', abortboot_normal (fun _ _ => true) (fun _ e => e) (replicate 64 0) [] (fips_sha1 [97; 98; 99]) 3
    (demo [mk_tick false true; mk_tick true true] [66; 3; 3] [mk_line 1 [65]; abc_line]) = Ok (w', true) /\
  environment w' = demo_env /\ trace w' = [] /\
  exists ks ls l, [66; 3; 3] = ks ++ 3 :: keys w' /\ 13 ∉ ks /\ [mk_line 1 [65]; abc_line] = ls ++ l :: lines w' /\
    is_password (fips_sha1 [97; 98; 99]) l.
Proof.
  eexists. split; [vm_compute; reflexivity|].
  apply (console_needs_password (fun _ _ => true) (fun _ e => e) (replicate 64 0) [] (fips_sha1 [97; 98; 99]) 3
    (demo [mk_tick false true; mk_tick true true] [66; 3; 3] [mk_line 1 [65]; abc_line])).
  - reflexivity.
  - reflexivity.
  - repeat constructor; unfold byte_ok; simpl; lia.
  - reflexivity.
  - vm_compute. reflexivity.
Defined.

(** C5: the password opens the console.  If a key is pressed during the
    countdown, the first key read is Ctrl-C and the line typed is the password,
    the countdown returns 1 at once and changes nothing. *)
Theorem password_opens_console set_ok exec stk ver pw bd w n pre k b ts ks l ls :
  length stk = 64%nat -> length pw = 20%nat -> menu w = wgmenu_init ->
  idle n pre -> Z.of_nat n < bd -> ticks w = pre ++ replicate k (mk_tick false true) ++ mk_tick true b :: ts ->
  keys w = 3 :: ks -> lines w = l :: ls -> line_ok l -> is_password pw l ->
  exists w', abortboot_normal set_ok exec stk ver pw bd w = Ok (w', true) /\
    environment w' = environment w /\ trace w' = trace w /\ keys w' = ks /\ lines w' = ls.
Proof.
  intros Hstk Hpw Hm Hi Hn Ht Hk Hl Hlok [Hlen Hp].
  destruct (abortboot_start set_ok exec stk ver pw bd w Hm) as (w1 & -> & Hm1 & _ & _ & (Ht1 & Hk1 & Hl1 & He1 & Htr1)).
  destruct (countdown_idle set_ok exec stk pw _ _ Hi (Z.to_nat bd) w1 (mk_locals 0 0 false) _ ltac:(lia) eq_refl
    (eq_trans Ht1 Ht)) as (w2 & -> & Ht2 & Hk2 & Hl2 & Hm2 & He2 & Htr2).
  destruct (Z.to_nat bd - n)%nat as [|d] eqn:Ed; [lia|]. cbn [countdown abort]. rewrite Ht2, poll_key.
  destruct (menu_loop_password stk pw (with_input w2 ts (keys w2) (lines w2)) (mk_locals 0 0 false) ks l ls)
    as (w3 & p & Hml & Hm3 & (_ & He3 & Htr3) & Hk3 & Hl3).
  { cbn [with_input menu]. by rewrite Hm2. } { done. } { cbn [with_input lines]. by rewrite Hl2, Hl1. } { done. }
  { by apply password_good_iff. }
  assert (keys w2 = 3 :: ks) as Hk' by (by rewrite Hk2, Hk1). rewrite Hk' in *. rewrite Hml.
  cbn [mbind res_bind Nat.eqb andb negb abort]. cbn [with_input environment trace] in *.
  assert (forall (o : option ptr) (x : world), match o with Some _ => Ok x | None => Ok x end = Ok x) as ->
    by (by intros []).
  cbn [mbind res_bind]. eexists. split; [done|]. cbn [with_menu environment trace keys lines].
  by rewrite He3, He2, He1, Htr3, Htr2, Htr1, Hk3, Hl3.
Qed.

(** Witness: the password of the hash of [abc], in the second second. *)
Lemma password_opens_console_witness :
  exists w', abortboot_normal (fun _ _ => true) (fun _ e => e) (replicate 64 0) [] (fips_sha1 [97; 98; 99]) 3
    (demo [mk_tick false false; mk_tick true true] [3; 7] [abc_line]) = Ok (w', true) /\
  environment w' = demo_env /\ trace w' = [] /\ keys w' = [7] /\ lines w' = [].
Proof.
  apply (password_opens_console (fun _ _ => true) (fun _ e => e) (replicate 64 0) [] (fips_sha1 [97; 98; 99]) 3
    (demo [mk_tick false false; mk_tick true true] [3; 7] [abc_line])
    1 [mk_tick false false] 0 true [] [7] abc_line []); try reflexivity.
  - apply (idle_second 0 0 []). constructor.
  - split; [repeat constructor; unfold byte_ok; simpl; lia|reflexivity].
  - split; [reflexivity|reflexivity].
Defined.



(** *** The boot command that is run *)

(** During the burn-in test the countdown does not touch the environment. *)
Lemma countdown_burn set_ok exec stk pw d : forall w v w' v',
  menu_ok (menu w) -> env_get (environment w) burn_in <> None ->
  countdown set_ok exec stk pw d w v = Ok (w', v') -> environment w' = environment w /\ trace w' = trace w.
Proof.
  induction d as [|d IH]; intros w v w' v' Hm Hb; cbn [countdown]; [by intros [= <- <-]|].
  destruct (abort v); [by intros [= <- <-]|].
  destruct (poll_loop stk pw (ticks w) w v) as [[[wb w1] v1]| |] eqn:Ep; [|done..].
  apply poll_inv in Ep as (Hm1 & He1 & Htr1 & _); [|done]. cbn [mbind res_bind]. rewrite He1.
  destruct (env_get (environment w) burn_in) as [q|] eqn:Eb; [|done]. cbn [mbind res_bind].
  destruct wb; [intros [= <- <-]; by split|]. intros H. apply IH in H as [-> ->]; [by split|done|].
  by rewrite He1, Eb.
Qed.

(** Where autoboot runs the boot command it was given.  With a delay of 0,
    or during the burn-in test, autoboot_command runs exactly the string that
    bootcmd holds, unless the password was entered. *)
Theorem autoboot_runs_bootcmd set_ok exec stk ver pw bd w p cmd w' :
  menu w = wgmenu_init -> bd = 0 \/ 0 < bd /\ env_get (environment w) burn_in <> None ->
  env_get (environment w) bootcmd = Some p -> heap (environment w) !! p = Some cmd ->
  autoboot_command set_ok exec stk ver pw w bd (Some (EnvCmd p)) = Ok w' ->
  abortboot_normal set_ok exec stk ver pw bd w = Ok (w', true) \/
  trace w' = trace w ++ [EvRunList cmd] /\ environment w' = exec cmd (environment w).
Proof.
  intros Hm Hbd Hp Hcmd. unfold autoboot_command, abortboot.
  rewrite (proj2 (Z.eqb_neq bd (-1))), (proj2 (Z.leb_le 0 bd)) by lia.
  destruct (abortboot_start set_ok exec stk ver pw bd w Hm) as (w1 & -> & Hm1 & _ & _ & (_ & _ & _ & He1 & Htr1)).
  destruct (countdown _ _ _ _ _ _ _) as [[w2 v2]| |] eqn:Ec; [|done..]. cbn [mbind res_bind].
  assert (environment w2 = environment w1 /\ trace w2 = trace w1) as [He2 Htr2].
  { destruct Hbd as [->|[_ Hb]]; [cbn [Z.to_nat countdown] in Ec; by injection Ec as <- <-|].
    apply countdown_burn in Ec; [done|done|by rewrite He1]. }
  destruct (abort v2) eqn:Ea; [intros [= <-]; by left|].
  cbn [deref]. rewrite He2, He1, Hcmd. intros [= <-]. right. cbn [with_env emit trace environment].
  by rewrite Htr2, Htr1.
Qed.

(** Witness: a delay of 0. *)
Lemma autoboot_runs_bootcmd_witness :
  exists w', autoboot_command (fun _ _ => true) (fun _ e => e) (replicate 64 0) [] wg_pw_hash
      (demo [] [] []) 0 (Some (EnvCmd 0%nat)) = Ok w' /\
  (abortboot_normal (fun _ _ => true) (fun _ e => e) (replicate 64 0) [] wg_pw_hash 0 (demo [] [] []) = Ok (w', true) \/
   trace w' = [] ++ [EvRunList run_SysA] /\ environment w' = demo_env).
Proof.
  eexists. split; [vm_compute; reflexivity|].
  apply (autoboot_runs_bootcmd (fun _ _ => true) (fun _ e => e) (replicate 64 0) [] wg_pw_hash 0 (demo [] [] [])
    0%nat run_SysA).
  - reflexivity.
  - by left.
  - reflexivity.
  - reflexivity.
  - vm_compute. reflexivity.
Defined.

(** C3: the boot command is read through a freed pointer.  With a delay and
    outside of the burn-in test, the string that autoboot_command runs is the
    value bootcmd had before the menu, and the menu has replaced that value and
    freed the string.  So autoboot_command returns only if the password was
    entered, and whenever the menu ends in booting, the string it runs was
    freed. *)
Theorem autoboot_runs_freed_command set_ok exec stk ver pw bd w p :
  (forall v, set_ok bootcmd v = true) -> menu w = wgmenu_init -> bootable (environment w) -> 0 < bd ->
  env_get (environment w) bootcmd = Some p ->
  (forall w', autoboot_command set_ok exec stk ver pw w bd (Some (EnvCmd p)) = Ok w' ->
     abortboot_normal set_ok exec stk ver pw bd w = Ok (w', true)) /\
  (forall ks, boots bd w ks ->
     autoboot_command set_ok exec stk ver pw w bd (Some (EnvCmd p)) = Undefined UseAfterFree).
Proof.
  intros Hset Hm Hb Hbd Hp. unfold autoboot_command, abortboot.
  rewrite (proj2 (Z.eqb_neq bd (-1))), (proj2 (Z.leb_le 0 bd)) by lia.
  destruct (abortboot_start set_ok exec stk ver pw bd w Hm) as (w1 & -> & Hm1 & Hn1 & Hp1 & Hs).
  pose proof Hs as (_ & _ & _ & He1 & _).
  assert (forall sel, heap (env_set set_ok (environment w) bootcmd (selected_cmd sel)) !! p = None) as Hdang.
  { intros sel. apply env_set_dangling; [apply Hb|done|apply selected_cmd_nonempty|done]. }
  split.
  - destruct (countdown _ _ _ _ _ _ _) as [[w2 v2]| |] eqn:Ec; [|done..]. cbn [mbind res_bind].
    destruct (abort v2) eqn:Ea; [by intros w' [= <-]|].
    apply countdown_sets in Ec as (sel & He2); try done; [|by rewrite He1|lia].
    intros w'. cbn [deref]. by rewrite He2, He1, Hdang.
  - intros ks Hr. destruct (countdown_boots set_ok exec stk pw bd w1 ks) as (w2 & v & -> & Hab & He & _); try done.
    { by rewrite He1. } { by apply (boots_same bd w). }
    cbn [mbind res_bind]. rewrite Hab. cbn [deref]. by rewrite He, He1, Hdang.
Qed.

(** Witness: three seconds without a key. *)
Lemma autoboot_runs_freed_command_witness :
  autoboot_command (fun _ _ => true) (fun _ e => e) (replicate 64 0) [] wg_pw_hash
    (demo (replicate 3 (mk_tick false false)) [] []) 3 (Some (EnvCmd 0%nat)) = Undefined UseAfterFree.
Proof.
  apply (autoboot_runs_freed_command (fun _ _ => true) (fun _ e => e) (replicate 64 0) [] wg_pw_hash 3
    (demo (replicate 3 (mk_tick false false)) [] []) 0%nat) with (ks := []).
  - reflexivity.
  - reflexivity.
  - apply demo_bootable.
  - lia.
  - reflexivity.
  - apply (boots_timeout 3 _ [] (replicate 3 (mk_tick false false)) []); [|reflexivity..].
    apply (idle_second 2 0), (idle_second 1 0), (idle_second 0 0), idle_none.
Defined.

(** *** The main loop *)

Lemma read_btn_bit r : read_btn_status r BUTTON_RESET = if Z.testbit r 11 then 0 else 1.
Proof.
  unfold read_btn_status. change (Z.shiftl 1 (31 - BUTTON_RESET - 8)) with (2 ^ 11).
  assert (Z.land r (2 ^ 11) = if Z.testbit r 11 then 2 ^ 11 else 0) as ->; [|by destruct (Z.testbit r 11)].
  apply Z.bits_inj'. intros n Hn. rewrite Z.land_spec, Z.pow2_bits_eqb by lia.
  destruct (Z.eqb_spec 11 n) as [<-|]; [|rewrite andb_false_r].
  - by destruct (Z.testbit r 11).
  - destruct (Z.testbit r 11); [|by rewrite Z.bits_0]. by rewrite Z.pow2_bits_false.
Qed.

(** A register value is 0 in bit 11 while the button is pressed. *)
Definition pressed (r : Z) : bool := negb (Z.testbit r 11).

Lemma detect_pressed i : forall samples,
  (i <= length samples)%nat ->
  detect_SYSB_keypress samples i = Ok (if existsb pressed (take i samples) then 1 else 0).
Proof.
  induction i as [|i IH]; intros samples Hl; [done|]. destruct samples as [|r samples]; [simpl in Hl; lia|].
  cbn [detect_SYSB_keypress take existsb]. rewrite read_btn_bit. unfold pressed at 1.
  destruct (Z.testbit r 11); cbn [negb orb Z.eqb Pos.eqb]; [|done]. apply IH. simpl in Hl. lia.
Qed.

(** The variables that are set before the boot command is read. *)
Definition early (n : list Z) : Prop := n = str "othbootargs" \/ n = str "kernaddr" \/ n = str "rootaddr".

Lemma early_steps set_ok ver fdt w :
  env_ok (environment w) ->
  let w1 := process_fdt_options set_ok fdt (setenv set_ok w (str "othbootargs") (othbootargs ver)) in
  same_but_menu w (with_env w1 (environment w)) /\ menu w1 = menu w /\ env_ok (environment w1) /\
  forall n, ~ early n -> env_get (environment w1) n = env_get (environment w) n /\
    value_of (environment w1) n = value_of (environment w) n.
Proof.
  intros He. cbv zeta. unfold process_fdt_options, env_set_hex, setenv, early.
  repeat case_if; cbn [with_env environment]; (split; [done|]); (split; [done|]);
    (split; [repeat apply env_set_ok; done|]); intros n Hn.
  all: rewrite !env_set_get by tauto; split; [done|].
  all: rewrite !env_set_other by (tauto || (repeat apply env_set_ok; done)); done.
Qed.

(** The reset button.  If one of the three samples of the register shows
    the button pressed, and the device has a command for SYSB and is neither in
    its burn-in test nor booting securely, the main loop sets bootcmd to "run
    wgBootSysB" and runs it before it reads any key; what follows is autoboot
    and, when that returns, the command line. *)
Theorem reset_button_boots_SYSB set_ok exec stk ver uver pw fdt_int fdt_string w samples :
  (forall v, set_ok bootcmd v = true) -> env_ok (environment w) -> env_get (environment w) burn_in = None ->
  env_get (environment w) wgBootSysB <> None -> fdt_int (str "bootsecure") 0 = 0 ->
  (3 <= length samples)%nat -> existsb pressed (take 3 samples) = true ->
  exists w1 bd p,
    trace w1 = trace w ++ [EvRunCommand (Some run_SysB)] /\
    ticks w1 = ticks w /\ keys w1 = keys w /\ lines w1 = lines w /\ menu w1 = menu w /\
    main_loop set_ok exec stk ver uver pw fdt_int fdt_string w samples =
      (w2 ← autoboot_command set_ok exec stk ver pw w1 bd (Some (EnvCmd p)); cli_loop w2).
Proof.
  intros Hset He Hb HB Hsec Hlen Hs. unfold main_loop, bootdelay_process, cli_process_fdt. rewrite Hsec.
  cbn [Z.eqb negb]. rewrite detect_pressed, Hs by lia. cbn [mbind res_bind Z.eqb Pos.eqb].
  pose proof (early_steps set_ok uver fdt_int w He) as (Hsame & Hmenu & He1 & Hget).
  set (w1 := process_fdt_options _ _ _) in *. unfold sysb_requested.
  rewrite (proj1 (Hget burn_in ltac:(unfold early; by intros [?|[?|?]]))), Hb.
  rewrite (proj1 (Hget wgBootSysB ltac:(unfold early; by intros [?|[?|?]]))). destruct (env_get (environment w) wgBootSysB) as [q|]; [|done]. cbv zeta.
  assert (value_of (environment (setenv set_ok w1 bootcmd run_SysB)) bootcmd = Some run_SysB) as Hv.
  { cbn [setenv with_env environment]. rewrite env_set_value by done. by rewrite decide_True. }
  unfold value_of in Hv. destruct (vars _ !! bootcmd) as [p|] eqn:Ep; [|done].
  cbn [mbind option_bind] in Hv. change (env_get (environment (setenv set_ok w1 bootcmd run_SysB)) bootcmd = Some p) in Ep.
  rewrite Ep. unfold run_command. rewrite Hv. cbn [mbind res_bind fmap option_fmap option_map].
  destruct Hsame as (Ht & Hk & Hl & _ & Htr). cbn in Ht, Hk, Hl, Htr.
  eexists _, _, p. split_and!; [| | | | |reflexivity]; cbn; congruence.
Qed.

(** Witness: the third sample shows the button pressed. *)
Lemma reset_button_boots_SYSB_witness :
  exists w1 bd p,
    trace w1 = [] ++ [EvRunCommand (Some run_SysB)] /\
    ticks w1 = [] /\ keys w1 = [13] /\ lines w1 = [] /\ menu w1 = wgmenu_init /\
    main_loop (fun _ _ => true) (fun _ e => e) (replicate 64 0) [] [] wg_pw_hash (fun _ d => d) (fun _ => None)
      (demo [] [13] []) [0xFFFF; 0xFFFF; 0] =
      (w2 ← autoboot_command (fun _ _ => true) (fun _ e => e) (replicate 64 0) [] wg_pw_hash w1 bd (Some (EnvCmd p));
       cli_loop w2).
Proof.
  apply (reset_button_boots_SYSB (fun _ _ => true) (fun _ e => e) (replicate 64 0) [] [] wg_pw_hash (fun _ d => d)
    (fun _ => None) (demo [] [13] []) [0xFFFF; 0xFFFF; 0]).
  - reflexivity.
  - apply demo_env_ok.
  - reflexivity.
  - vm_compute. discriminate.
  - reflexivity.
  - simpl. lia.
  - reflexivity.
Defined.


