(* ===== verification/EnvAttr.v ===== *)
(** * Attribute lists ([env/attr.c], [lib/linux_string.c])

    The environment associates variables with flags and callbacks through lists
    of the form [name:attributes,name:attributes,...].  This file has the
    trimming of white space, the walk over such a list, and both variants of the
    lookup of a name: with regular expressions, whose engine is an argument, and
    without. *)

From S2P Require Import Prelude StringLib.
Local Open Scope Z_scope.

(** ** The code *)

(** *** [lib/linux_string.c] *)

Fixpoint skip_spaces (s : list Z) : list Z :=
  match s with
  | [] => []
  | c :: s' => if isspace c then skip_spaces s' else s
  end.

(** [while (end >= s && isspace( *end)) end--; *(end + 1) = 0], where [n] is
    [end + 1 - s]. *)
Fixpoint trim_end (s : list Z) (n : nat) : list Z :=
  match n with
  | O => []
  | S n' => if isspace (nth n' s 0) then trim_end s n' else take n s
  end.

Definition strim (s : list Z) : list Z :=
  let s := skip_spaces s in
  let size := Z.to_nat (strlen s) in
  if Nat.eqb size 0 then s else trim_end s size.

(** *** [env_attr_walk] *)

Definition ENV_ATTR_LIST_DELIM : Z := 44.
Definition ENV_ATTR_SEP : Z := 58.

Section Walk.
Context {S : Type} (callback : list Z -> option (list Z) -> S -> Z * S) (malloc : Z -> bool).

(** The name and the attributes of a copied entry. *)
Definition split_entry (entry_cpy : list Z) : list Z * option (list Z) :=
  match strchr entry_cpy ENV_ATTR_SEP with
  | Some k => (strim (take (Z.to_nat k) entry_cpy), Some (strim (at_off entry_cpy (k + 1))))
  | None => (strim entry_cpy, None)
  end.

(** The [do] loop from the entry on; every pass but the last skips a comma. *)
Fixpoint walk_loop (fuel : nat) (entry : list Z) (priv : S) : option (Z * S) :=
  match fuel with
  | O => None
  | Datatypes.S fuel =>
      let entry_end := strchr entry ENV_ATTR_LIST_DELIM in
      let entry_len := match entry_end with None => strlen entry | Some n => n end in
      if negb (entry_len =? 0) && negb (malloc (entry_len + 1)) then Some (- ENOMEM, priv)
      else
        let '(retval, priv) :=
          if entry_len =? 0 then (0, priv)
          else
            let '(name, attributes) := split_entry (take (Z.to_nat entry_len) entry) in
            if negb (strlen name =? 0) then callback name attributes priv else (0, priv) in
        if negb (retval =? 0) then Some (retval, priv)
        else
          match entry_end with
          | Some n => walk_loop fuel (at_off entry (n + 1)) priv
          | None => Some (0, priv)
          end
  end.

Definition env_attr_walk (attr_list : option (list Z)) (priv : S) : option (Z * S) :=
  match attr_list with
  | None => Some (1, priv)
  | Some l => walk_loop (Datatypes.S (length l)) l priv
  end.
End Walk.

(** *** [env_attr_lookup] with regular expressions *)

Section Regex.
(** [slre_compile] and [slre_match] of a pattern and a string. *)
Context (compiles : list Z -> bool) (matches : list Z -> list Z -> bool) (malloc : Z -> bool).

Record regex_callback_priv := mk_priv {
  searched_for : list Z;
  regex : option (list Z);
  attributes : option (list Z)
}.

Definition regex_callback (name : list Z) (attr : option (list Z)) (cbp : regex_callback_priv)
    : Z * regex_callback_priv :=
  let rx := [94] ++ name ++ [36] in
  if compiles rx then
    if matches rx (searched_for cbp) then
      match attr with
      | None => (- EINVAL, cbp)
      | Some a =>
          if malloc (strlen rx + 1) then
            if malloc (strlen a + 1)
            then (0, mk_priv (searched_for cbp) (Some rx) (Some a))
            else (- ENOMEM, mk_priv (searched_for cbp) None None)
          else (- ENOMEM, mk_priv (searched_for cbp) None (attributes cbp))
      end
    else (0, cbp)
  else (- EINVAL, cbp).

(** The return value and what is copied to [attributes]. *)
Definition env_attr_lookup (attr_list : option (list Z)) (name : list Z) : option (Z * option (list Z)) :=
  match attr_list with
  | None => Some (- EINVAL, None)
  | Some _ =>
      '(retval, priv) ← env_attr_walk regex_callback malloc attr_list (mk_priv name None None);
      if negb (retval =? 0) then Some (retval, None)
      else
        match regex priv with
        | Some _ => Some (0, attributes priv)
        | None => Some (- ENOENT, None)
        end
  end.
End Regex.

(** *** [env_attr_lookup] without regular expressions *)

(** The character at [searched + i]; the code reads [searched - 1] as well,
    which is [before]. *)
Definition char_at (before : Z) (searched : list Z) (i : Z) : Z :=
  if i <? 0 then before else ch (at_off searched i).

(** [while ( *prevch == ' ' && prevch >= searched) prevch--], for [prevch] at
    [n - 1]. *)
Fixpoint skip_back (before : Z) (searched : list Z) (n : nat) : Z :=
  match n with
  | O => -1
  | S n' => if char_at before searched (Z.of_nat n') =? 32 then skip_back before searched n' else Z.of_nat n'
  end.

(** [while ( *nextch == ' ') nextch++] *)
Fixpoint skip_blanks (s : list Z) : list Z :=
  match s with
  | [] => []
  | c :: s' => if c =? 32 then skip_blanks s' else s
  end.

(** The tests of a match at the offset [m]. *)
Definition exact_match (before : Z) (searched search_for : list Z) (m : Z) : bool :=
  let prevch := skip_back before searched (Z.to_nat m) in
  let next := ch (skip_blanks (at_off searched (m + strlen search_for))) in
  negb (negb (m =? 0) && negb (char_at before searched prevch =? ENV_ATTR_LIST_DELIM) && negb (prevch =? -1)) &&
  negb (negb (next =? ENV_ATTR_SEP) && negb (next =? ENV_ATTR_LIST_DELIM) && negb (next =? 0)).

(** The [for (;;)] loop from [cur_searched]; [result] is the last exact match. *)
Fixpoint name_search_loop (fuel : nat) (before : Z) (searched search_for : list Z) (cur : Z)
    (result : option Z) : option (option Z) :=
  match fuel with
  | O => None
  | S fuel =>
      match strstr (at_off searched cur) search_for with
      | None => Some result
      | Some k =>
          let m := cur + k in
          let result := if exact_match before searched search_for m then Some m else result in
          name_search_loop fuel before searched search_for (m + 1) result
      end
  end.

(** [*result] and the return value. *)
Definition reverse_name_search (before : Z) (searched search_for : list Z) : option (option Z * Z) :=
  if ch search_for =? 0 then Some (Some 0, strlen searched)
  else
    r ← name_search_loop (S (S (length searched))) before searched search_for 0 None;
    Some (r, match r with Some _ => strlen search_for | None => 0 end).

Definition env_attr_lookup_plain (before : Z) (attr_list : option (list Z)) (name : list Z)
    : option (Z * option (list Z)) :=
  match attr_list with
  | None => Some (- EINVAL, None)
  | Some l =>
      '(r, entry_len) ← reverse_name_search before l name;
      match r with
      | None => Some (- ENOENT, None)
      | Some m =>
          let entry := skip_blanks (at_off l (m + entry_len)) in
          if negb (ch entry =? ENV_ATTR_SEP) then Some (0, Some [])
          else
            let entry := skip_blanks (tl entry) in
            let len := match strpbrk entry [ENV_ATTR_LIST_DELIM; 32] with None => strlen entry | Some d => d end in
            Some (0, Some (take (Z.to_nat len) entry))
      end
  end.

(** ** The specification *)

(** The parts of a string between the separators. *)
Fixpoint split_on (sep : Z) (s : list Z) : list (list Z) :=
  match s with
  | [] => [[]]
  | c :: s' =>
      if c =? sep then [] :: split_on sep s'
      else match split_on sep s' with
           | [] => [[c]]
           | p :: ps => (c :: p) :: ps
           end
  end.

(** White space is removed at both ends. *)
Definition trim (s : list Z) : list Z := rev (skip_spaces (rev (skip_spaces s))).

Definition parse_entry (e : list Z) : option (list Z * option (list Z)) :=
  let name := trim (default [] (head (split_on ENV_ATTR_SEP e))) in
  if bool_decide (name = []) then None
  else Some (name, if bool_decide (ENV_ATTR_SEP ∈ e)
                   then Some (trim (drop (S (length (default [] (head (split_on ENV_ATTR_SEP e))))) e)) else None).

(** The entries of a list. *)
Definition entries (l : list Z) : list (list Z * option (list Z)) :=
  omap parse_entry (split_on ENV_ATTR_LIST_DELIM l).

(** The callback for each entry, up to the first that returns an error. *)
Fixpoint walk_entries {S} (callback : list Z -> option (list Z) -> S -> Z * S)
    (es : list (list Z * option (list Z))) (priv : S) : Z * S :=
  match es with
  | [] => (0, priv)
  | (n, a) :: es =>
      let '(r, priv) := callback n a priv in
      if r =? 0 then walk_entries callback es priv else (r, priv)
  end.

(** ** Lemmas *)

Lemma skip_spaces_suffix s : exists pre, s = pre ++ skip_spaces s.
Proof.
  induction s as [|c s [pre IH]]; [by exists []|]. cbn [skip_spaces]. destruct (isspace c); [|by exists []].
  exists (c :: pre). cbn [app]. by rewrite <- IH.
Qed.

Lemma cstring_app s t : cstring (s ++ t) <-> cstring s /\ cstring t.
Proof. apply Forall_app. Qed.

Lemma cstring_take s n : cstring s -> cstring (take n s).
Proof. apply Forall_take. Qed.

Lemma cstring_drop s n : cstring s -> cstring (drop n s).
Proof. apply Forall_drop. Qed.

Lemma cstring_skip s : cstring s -> cstring (skip_spaces s).
Proof. intros H. destruct (skip_spaces_suffix s) as [pre E]. rewrite E in H. by apply cstring_app in H as [_ ?]. Qed.

#[export] Hint Resolve cstring_take cstring_drop cstring_skip : uboot.

Lemma trim_end_spec s n :
  (n <= length s)%nat -> trim_end s n = rev (skip_spaces (rev (take n s))).
Proof.
  induction n as [|n IH]; intros Hn; [done|]. cbn [trim_end].
  destruct (lookup_lt_is_Some_2 s n) as [c Hc]; [lia|]. rewrite (take_S_r _ _ _ Hc), rev_app_distr.
  rewrite nth_lookup, Hc. change (default 0 (Some c)) with c. cbn [rev app skip_spaces].
  destruct (isspace c); [apply IH; lia|]. cbn [rev]. by rewrite rev_involutive.
Qed.

Lemma strim_trim s : cstring s -> strim s = trim s.
Proof.
  intros Hs. unfold strim, trim. rewrite strlen_cstring, Nat2Z.id by auto with uboot.
  destruct (Nat.eqb_spec (length (skip_spaces s)) 0) as [H|H].
  - by apply nil_length_inv in H as ->.
  - rewrite trim_end_spec by lia. by rewrite take_ge by lia.
Qed.

Lemma cstring_trim s : cstring s -> cstring (trim s).
Proof. intros Hs. unfold trim. by apply Forall_rev, cstring_skip, Forall_rev, cstring_skip. Qed.

#[export] Hint Resolve cstring_trim : uboot.

(** [strchr] finds the end of the first part. *)
Lemma split_on_strchr sep s :
  0 < sep < 256 -> cstring s ->
  match strchr s sep with
  | Some n => split_on sep s = take (Z.to_nat n) s :: split_on sep (at_off s (n + 1)) /\
      0 <= n < Z.of_nat (length s) /\ sep ∈ s
  | None => split_on sep s = [s] /\ sep ∉ s
  end.
Proof.
  intros Hsep Hs. induction s as [|c s IH]; cbn [strchr split_on]; rewrite (wrap_small 8 sep) by lia.
  - rewrite (proj2 (Z.eqb_neq _ _)) by lia. split; [done|apply not_elem_of_nil].
  - apply Forall_cons in Hs as [Hc Hs]. specialize (IH Hs). case_if; subst.
    + split; [|split; [simpl; lia|set_solver]]. by rewrite take_0.
    + rewrite (proj2 (Z.eqb_neq c 0)) by lia. destruct (strchr s sep) as [n|]; cbn [mbind option_bind].
      * destruct IH as (-> & Hn & Hin). split; [|split; [simpl; lia|set_solver]].
        unfold at_off. replace (Z.to_nat (1 + n)) with (S (Z.to_nat n)) by lia.
        by replace (Z.to_nat (1 + n + 1)) with (S (Z.to_nat (n + 1))) by lia.
      * destruct IH as [-> Hin]. split; [done|set_solver].
Qed.

(** A copied entry is taken apart as the specification says. *)
Lemma split_entry_parse e :
  cstring e ->
  parse_entry e = (let '(n, a) := split_entry e in if strlen n =? 0 then None else Some (n, a)) /\
  cstring (fst (split_entry e)).
Proof.
  intros He. unfold parse_entry, split_entry. pose proof (split_on_strchr ENV_ATTR_SEP e ltac:(done) He) as Hs.
  assert (forall n, cstring n -> (strlen n =? 0) = bool_decide (n = [])) as Hlen.
  { intros n Hn. rewrite strlen_cstring by done. case_bool_decide; subst; [done|].
    apply Z.eqb_neq. destruct n; simpl; [done|lia]. }
  destruct (strchr e ENV_ATTR_SEP) as [k|].
  - destruct Hs as (-> & Hk & Hin). cbn [head fst].
    change (default [] (Some (take (Z.to_nat k) e))) with (take (Z.to_nat k) e).
    rewrite !strim_trim by (unfold at_off; auto with uboot). rewrite Hlen by auto with uboot.
    split; [|auto with uboot]. rewrite (bool_decide_true (ENV_ATTR_SEP ∈ e)) by done.
    rewrite length_take, Nat.min_l by lia. unfold at_off. by replace (Z.to_nat (k + 1)) with (S (Z.to_nat k)) by lia.
  - destruct Hs as (-> & Hin). cbn [head]. change (default [] (Some e)) with e. rewrite !strim_trim by done.
    cbn [fst]. rewrite Hlen by auto with uboot. rewrite (bool_decide_false (ENV_ATTR_SEP ∈ e)) by done.
    split; [done|auto with uboot].
Qed.

Lemma entries_cons e rest : omap parse_entry (e :: rest) = match parse_entry e with Some x => x :: omap parse_entry rest | None => omap parse_entry rest end.
Proof. done. Qed.

(** One pass of the loop is one part of the list. *)
Lemma walk_loop_entries {S} (callback : list Z -> option (list Z) -> S -> Z * S) malloc fuel : forall l priv,
  (forall n, malloc n = true) -> cstring l -> (length l < fuel)%nat ->
  walk_loop callback malloc fuel l priv = Some (walk_entries callback (entries l) priv).
Proof.
  induction fuel as [|fuel IH]; intros l priv Hm Hl Hf; [lia|]. cbn [walk_loop].
  pose proof (split_on_strchr ENV_ATTR_LIST_DELIM l ltac:(done) Hl) as Hs. unfold entries.
  assert (forall e k, cstring e -> Z.of_nat (length e) = k ->
    (if k =? 0 then (0, priv) else
       let '(name, attributes) := split_entry (take (Z.to_nat k) e) in
       if negb (strlen name =? 0) then callback name attributes priv else (0, priv)) =
    match parse_entry e with Some (n, a) => callback n a priv | None => (0, priv) end) as Hone.
  { intros e k He <-. rewrite Nat2Z.id, take_ge by lia. case_if.
    - assert (e = []) as -> by (apply nil_length_inv; lia). done.
    - destruct (split_entry_parse e He) as [-> _]. destruct (split_entry e) as [n a]. by destruct (strlen n =? 0). }
  rewrite Hm, andb_false_r.
  destruct (strchr l ENV_ATTR_LIST_DELIM) as [n|].
  - destruct Hs as (-> & Hn & _). rewrite entries_cons.
    pose proof (Hone (take (Z.to_nat n) l) n ltac:(auto with uboot) ltac:(rewrite length_take; lia)) as H1.
    rewrite take_idemp in H1. rewrite H1.
    assert (forall p, walk_loop callback malloc fuel (at_off l (n + 1)) p =
      Some (walk_entries callback (entries (at_off l (n + 1))) p)) as Hrec.
    { intros p. apply IH; [done|unfold at_off; auto with uboot|unfold at_off; rewrite length_drop; lia]. }
    destruct (parse_entry _) as [[nm a]|]; cbn [walk_entries].
    + destruct (callback nm a priv) as [r p]. destruct (r =? 0); cbn [negb]; [|done]. by rewrite Hrec.
    + cbn. by rewrite Hrec.
  - destruct Hs as (-> & _). rewrite entries_cons.
    rewrite strlen_cstring by done. rewrite (Hone l) by done.
    destruct (parse_entry l) as [[nm a]|]; cbn [walk_entries omap list_omap]; [|done].
    destruct (callback nm a priv) as [r p]. by destruct (r =? 0).
Qed.

(** *** The lookup with regular expressions *)

Section Lookup.
Context (compiles : list Z -> bool) (matches : list Z -> list Z -> bool) (malloc : Z -> bool).
Context (Hm : forall n, malloc n = true) (name : list Z).

(** The pattern must describe the whole name. *)
Definition whole (n : list Z) : list Z := [94] ++ n ++ [36].

(** An entry on which the lookup fails: the pattern is not valid, or it matches
    and has no attributes. *)
Definition bad_entry (e : list Z * option (list Z)) : bool :=
  negb (compiles (whole (fst e))) ||
  (matches (whole (fst e)) name && match snd e with None => true | Some _ => false end).

Definition hit_entry (e : list Z * option (list Z)) : option (list Z) :=
  if matches (whole (fst e)) name then snd e else None.

(** What the callback has found so far. *)
Definition found (priv : regex_callback_priv) (acc : option (list Z)) : Prop :=
  searched_for priv = name /\ attributes priv = acc /\
  match acc with None => regex priv = None | Some _ => exists r, regex priv = Some r end.

Lemma regex_callback_step n a priv :
  searched_for priv = name ->
  regex_callback compiles matches malloc n a priv =
  if bad_entry (n, a) then (- EINVAL, priv)
  else match hit_entry (n, a) with
       | Some x => (0, mk_priv name (Some (whole n)) (Some x))
       | None => (0, priv)
       end.
Proof.
  intros Hs. unfold regex_callback, bad_entry, hit_entry. cbn [fst snd]. fold (whole n). rewrite Hs, Hm.
  destruct (compiles (whole n)), (matches (whole n) name), a; cbn; try done. by rewrite Hm.
Qed.

Lemma regex_walk es : forall priv acc,
  found priv acc ->
  exists priv', walk_entries (regex_callback compiles matches malloc) es priv =
      (if existsb bad_entry es then - EINVAL else 0, priv') /\
    (existsb bad_entry es = false -> found priv' (last (option_list acc ++ omap hit_entry es))).
Proof.
  induction es as [|[n a] es IH]; intros priv acc Hf; cbn [walk_entries existsb].
  - exists priv. split; [done|]. intros _. by destruct acc.
  - pose proof Hf as (Hs & Ha & Hr). rewrite regex_callback_step by done.
    destruct (bad_entry (n, a)); cbn [orb]; [by eexists|].
    change (omap hit_entry ((n, a) :: es)) with
      (match hit_entry (n, a) with Some x => x :: omap hit_entry es | None => omap hit_entry es end).
    destruct (hit_entry (n, a)) as [x|]; cbn [Z.eqb]; [|by apply IH].
    destruct (IH (mk_priv name (Some (whole n)) (Some x)) (Some x)) as (p' & E & H').
    { split_and!; try done. by eexists. }
    exists p'. split; [exact E|]. intros Hb. specialize (H' Hb).
    by destruct acc as [a0|].
Qed.
End Lookup.

(** ** The claims *)

(** Walking an attribute list calls the callback for the entries of the
    list in their order (the parts between commas whose name, trimmed of white
    space, is not empty, with the trimmed attributes after the first colon), up
    to the first call that returns an error, which is the result. *)
Theorem env_attr_walk_entries {S} (callback : list Z -> option (list Z) -> S -> Z * S) malloc l priv :
  (forall n, malloc n = true) -> cstring l ->
  env_attr_walk callback malloc (Some l) priv = Some (walk_entries callback (entries l) priv).
Proof. intros Hm Hl. apply walk_loop_entries; [done|done|lia]. Qed.

(** Witness: collecting the entries of a list with blanks and empty parts. *)
Lemma env_attr_walk_entries_witness :
  env_attr_walk (fun n a acc => (0, acc ++ [(n, a)])) (fun _ => true) (Some (str " a :x y,, :z,b")) [] =
  Some (walk_entries (fun n a acc => (0, acc ++ [(n, a)])) (entries (str " a :x y,, :z,b")) []).
Proof.
  apply (env_attr_walk_entries (fun n a acc => (0, acc ++ [(n, a)])) (fun _ => true) (str " a :x y,, :z,b") []).
  - reflexivity.
  - repeat constructor; simpl; lia.
Defined.

Example env_attr_walk_example :
  env_attr_walk (fun n a acc => (0, acc ++ [(n, a)])) (fun _ => true) (Some (str " a :x y,, :z,b")) [] =
  Some (0, [(str "a", Some (str "x y")); (str "b", None)]).
Proof. vm_compute. reflexivity. Qed.

(** The lookup with regular expressions.  If the pattern of an entry is not
    valid, or an entry that matches has no attributes, the lookup fails with
    -EINVAL; otherwise it gives the attributes of the last entry whose pattern
    describes the whole name, or -ENOENT if there is none. *)
Theorem env_attr_lookup_last compiles matches malloc l name :
  (forall n, malloc n = true) -> cstring l ->
  env_attr_lookup compiles matches malloc (Some l) name =
  Some (if existsb (bad_entry compiles matches name) (entries l) then (- EINVAL, None)
        else match last (omap (hit_entry matches name) (entries l)) with
             | Some a => (0, Some a)
             | None => (- ENOENT, None)
             end).
Proof.
  intros Hm Hl. unfold env_attr_lookup, env_attr_walk.
  rewrite walk_loop_entries by (done || lia).
  destruct (regex_walk compiles matches malloc Hm name (entries l) (mk_priv name None None) None)
    as (p' & -> & Hf); [by split_and!|]. cbn [mbind option_bind].
  destruct (existsb _ (entries l)); [done|]. destruct (Hf eq_refl) as (_ & Ha & Hr). cbn [option_list app] in *.
  destruct (last _) as [a|]; cbn.
  - destruct Hr as [r ->]. by rewrite Ha.
  - by rewrite Hr.
Qed.

(** Witness: with patterns that describe exactly themselves. *)
Lemma env_attr_lookup_last_witness :
  env_attr_lookup (fun _ => true) (fun r s => bool_decide (r = whole s)) (fun _ => true)
    (Some (str "a:x,b:y,a:z")) (str "a") =
  Some (if existsb (bad_entry (fun _ => true) (fun r s => bool_decide (r = whole s)) (str "a")) (entries (str "a:x,b:y,a:z"))
        then (- EINVAL, None)
        else match last (omap (hit_entry (fun r s => bool_decide (r = whole s)) (str "a")) (entries (str "a:x,b:y,a:z"))) with
             | Some a => (0, Some a)
             | None => (- ENOENT, None)
             end).
Proof.
  apply (env_attr_lookup_last (fun _ => true) (fun r s => bool_decide (r = whole s)) (fun _ => true)
    (str "a:x,b:y,a:z") (str "a")).
  - reflexivity.
  - repeat constructor; simpl; lia.
Defined.

(** *** The lookup without regular expressions *)

(** [name] stands at [i] as the name of an entry: what is before it, without
    the blanks in front of it, is empty or ends with a comma, and what follows
    it after blanks is a colon, a comma or the end. *)
Definition name_at (s name : list Z) (i : nat) : Prop :=
  occurs name s i /\
  (let pre := rev (skip_blanks (rev (take i s))) in pre = [] \/ last pre = Some ENV_ATTR_LIST_DELIM) /\
  (let rest := skip_blanks (drop (i + length name) s) in
   rest = [] \/ head rest = Some ENV_ATTR_SEP \/ head rest = Some ENV_ATTR_LIST_DELIM).

Lemma skip_back_spec before s n :
  (n <= length s)%nat ->
  let pre := rev (skip_blanks (rev (take n s))) in
  skip_back before s n = Z.of_nat (length pre) - 1 /\
  char_at before s (skip_back before s n) = match last pre with Some c => c | None => before end.
Proof.
  induction n as [|n IH]; intros Hn; [done|]. cbn [skip_back].
  destruct (lookup_lt_is_Some_2 s n) as [c Hc]; [lia|].
  rewrite (take_S_r _ _ _ Hc), rev_app_distr. cbn [rev app skip_blanks].
  assert (char_at before s (Z.of_nat n) = c) as ->.
  { unfold char_at, at_off, ch. rewrite (proj2 (Z.ltb_ge _ _)), Nat2Z.id by lia. by rewrite (drop_S _ _ _ Hc). }
  case_if; [apply IH; lia|]. cbn [rev]. rewrite rev_involutive. rewrite length_app, length_take, last_snoc.
  split; [simpl; lia|]. unfold char_at, at_off, ch. rewrite (proj2 (Z.ltb_ge _ _)), Nat2Z.id by lia.
  by rewrite (drop_S _ _ _ Hc).
Qed.

Lemma skip_blanks_cstring s : cstring s -> cstring (skip_blanks s).
Proof.
  induction s as [|c s IH]; intros H; [done|]. pose proof H as [_ Hs]%Forall_cons.
  cbn [skip_blanks]. case_if; [by apply IH|done].
Qed.

Lemma exact_match_name before s name i :
  cstring s -> cstring name -> occurs name s i -> (i <= length s)%nat ->
  exact_match before s name (Z.of_nat i) = true <-> name_at s name i.
Proof.
  intros Hs Hn Ho Hi. unfold exact_match, name_at. rewrite strlen_cstring by done.
  destruct (skip_back_spec before s i Hi) as [Hb Hc]. rewrite Nat2Z.id, Hc, Hb.
  set (pre := rev (skip_blanks (rev (take i s)))) in *. unfold at_off.
  replace (Z.to_nat (Z.of_nat i + Z.of_nat (length name))) with (i + length name)%nat by lia.
  pose proof (skip_blanks_cstring _ (cstring_drop s (i + length name) Hs)) as Hr.
  set (rest := skip_blanks (drop (i + length name) s)) in *. unfold ch.
  assert (i = 0%nat -> pre = []) as H0 by (intros ->; done).
  assert (forall x, last pre = Some x -> pre <> []) as Hl by (by intros x Hx ->).
  rewrite andb_true_iff, !negb_true_iff, !andb_false_iff, !negb_false_iff, !Z.eqb_eq.
  assert (length pre = 0%nat <-> pre = []) as Hp0 by (destruct pre; simpl; split; done || lia).
  split.
  - intros [H1 H2]. split_and!; [done| |].
    + destruct (last pre) as [c|] eqn:E; [|left; by apply last_None].
      destruct H1 as [[H1|H1]|H1]; [left; apply H0; lia|right; by rewrite H1|left; apply Hp0; lia].
    + destruct rest as [|c rest']; [by left|]. cbn [hd head] in *. apply Forall_cons in Hr as [Hcr _].
      destruct H2 as [[->| ->]| ->]; [right; by left|right; by right|lia].
  - intros (_ & H1 & H2). split.
    + destruct H1 as [->|H1]; [right; simpl; lia|]. rewrite H1. left. by right.
    + destruct rest as [|c rest']; [by right|]. cbn [hd head] in *. left.
      destruct H2 as [H2|[H2|H2]]; [done|injection H2 as ->; by left|injection H2 as ->; by right].
Qed.

Lemma occurs_drop t s c k : occurs t (drop c s) k <-> occurs t s (c + k).
Proof. unfold occurs. by rewrite drop_drop. Qed.

Lemma occurs_le t s i : t <> [] -> occurs t s i -> (i < length s)%nat.
Proof.
  intros Ht Ho. apply (f_equal length) in Ho. rewrite length_take, length_drop in Ho.
  destruct t; [done|]. cbn [length] in Ho. lia.
Qed.

(** The loop ends with the last name at or after [c], or keeps what it had. *)
Lemma name_search_loop_last before s name fuel : forall c result,
  cstring s -> cstring name -> name <> [] -> (c <= length s)%nat -> (length s - c < fuel)%nat ->
  exists r, name_search_loop fuel before s name (Z.of_nat c) result = Some r /\
    ((r = result /\ forall j, (c <= j)%nat -> ~ name_at s name j) \/
     exists i, (c <= i)%nat /\ r = Some (Z.of_nat i) /\ name_at s name i /\
       forall j, (i < j)%nat -> ~ name_at s name j).
Proof.
  induction fuel as [|fuel IH]; intros c result Hs Hn Hne Hc Hf; [lia|]. cbn [name_search_loop].
  unfold at_off at 1. rewrite Nat2Z.id.
  pose proof (strstr_spec (drop c s) name (cstring_drop s c Hs) Hn Hne) as Hstr.
  destruct (strstr (drop c s) name) as [k0|].
  - destruct Hstr as (k & -> & Ho & Hmin). apply occurs_drop in Ho. pose proof (occurs_le _ _ _ Hne Ho) as Hlt.
    replace (Z.of_nat c + Z.of_nat k) with (Z.of_nat (c + k)) by lia.
    pose proof (exact_match_name before s name (c + k) Hs Hn Ho ltac:(lia)) as Hx.
    replace (Z.of_nat (c + k) + 1) with (Z.of_nat (S (c + k))) by lia.
    assert (forall j, (c <= j < c + k)%nat -> ~ name_at s name j) as Hskip.
    { intros j Hj [Hoj _]. apply (Hmin (j - c)%nat); [lia|]. apply occurs_drop.
      by replace (c + (j - c))%nat with j by lia. }
    edestruct (IH (S (c + k)) (if exact_match before s name (Z.of_nat (c + k)) then Some (Z.of_nat (c + k)) else result))
      as (r & -> & Hr); [done..|lia|lia|]. exists r. split; [done|].
    destruct Hr as [[-> Hr]|(i & Hi & -> & Hi1 & Hi2)]; [|right; exists i; split_and!; try done; lia].
    destruct (exact_match before s name (Z.of_nat (c + k))).
    + right. exists (c + k)%nat. split_and!; [lia|done|by apply Hx|]. intros j Hj. apply Hr. lia.
    + left. split; [done|]. intros j Hj Hat. destruct (decide (j < c + k)%nat) as [H1|H1]; [by apply (Hskip j)|].
      destruct (decide (j = c + k)%nat) as [->|H2]; [by apply Hx in Hat|]. apply (Hr j); [lia|done].
  - exists result. split; [done|]. left. split; [done|]. intros j Hj [Ho _].
    apply (Hstr (j - c)%nat). apply occurs_drop. by replace (c + (j - c))%nat with j by lia.
Qed.

(** The search for a name without regular expressions ends and gives the
    last place at which the name stands as the name of an entry, whatever byte
    is in front of the list (which the code reads). *)
Theorem reverse_name_search_last before s name :
  cstring s -> cstring name -> name <> [] ->
  exists r n, reverse_name_search before s name = Some (r, n) /\
    match r with
    | None => n = 0 /\ forall j, ~ name_at s name j
    | Some m => n = Z.of_nat (length name) /\ exists i, m = Z.of_nat i /\ name_at s name i /\
        forall j, (i < j)%nat -> ~ name_at s name j
    end.
Proof.
  intros Hs Hn Hne. unfold reverse_name_search.
  assert (ch name <> 0) as Hc0 by (destruct name; [done|]; apply Forall_cons in Hn as [? _]; simpl; lia).
  rewrite (proj2 (Z.eqb_neq _ _) Hc0).
  destruct (name_search_loop_last before s name (S (S (length s))) 0 None) as (r & Hr & Hl); [done..|lia|lia|].
  change (Z.of_nat 0) with 0 in Hr. rewrite Hr. cbn [mbind option_bind]. rewrite strlen_cstring by done.
  eexists _, _. split; [done|]. destruct Hl as [[-> Hl]|(i & _ & -> & Hi & Hl)].
  - split; [done|]. intros j. apply Hl. lia.
  - split; [done|]. by exists i.
Qed.

(** Witness: a name that is also a part of another one. *)
Lemma reverse_name_search_last_witness :
  exists r n, reverse_name_search 44 (str "ip:a, ip :b,xip:c") (str "ip") = Some (r, n) /\
    match r with
    | None => n = 0 /\ forall j, ~ name_at (str "ip:a, ip :b,xip:c") (str "ip") j
    | Some m => n = Z.of_nat (length (str "ip")) /\
        exists i, m = Z.of_nat i /\ name_at (str "ip:a, ip :b,xip:c") (str "ip") i /\
        forall j, (i < j)%nat -> ~ name_at (str "ip:a, ip :b,xip:c") (str "ip") j
    end.
Proof.
  apply (reverse_name_search_last 44 (str "ip:a, ip :b,xip:c") (str "ip")).
  - repeat constructor; simpl; lia.
  - repeat constructor; simpl; lia.
  - discriminate.
Defined.

Example env_attr_lookup_plain_example :
  env_attr_lookup_plain 0 (Some (str "ip:a, ip :b,xip:c")) (str "ip") = Some (0, Some (str "b")) /\
  env_attr_lookup_plain 0 (Some (str "ip:a, ip :b,xip:c")) (str "i") = Some (- ENOENT, None).
Proof. split; vm_compute; reflexivity. Qed.
