(* ===== verification/EnvFlags.v ===== *)
(** * Flags and callbacks of variables ([env/flags.c], [env/callback.c])

    A variable of the environment can have a type, an access policy and a
    callback, given by the variables [.flags] and [.callbacks] and by static
    lists.  The functions here are what the hash table calls back: this file
    makes them an instance of the hash table's class of hooks.

    Types and access policies are the numbers of their enumerations.  The
    configuration is that of the Firebox: networking and regular expressions are
    on, and [CONFIG_ENV_OVERWRITE] is set. *)

From S2P Require Import Prelude StringLib Hashtable EnvAttr.
Local Open Scope Z_scope.

(** ** Types and access policies *)

Definition vartype_string : Z := 0.
Definition vartype_decimal : Z := 1.
Definition vartype_hex : Z := 2.
Definition vartype_bool : Z := 3.
Definition vartype_ipaddr : Z := 4.
Definition vartype_macaddr : Z := 5.
Definition vartype_end : Z := 6.

Definition varaccess_any : Z := 0.
Definition varaccess_readonly : Z := 1.
Definition varaccess_writeonce : Z := 2.
Definition varaccess_changedefault : Z := 3.

Definition VARTYPE_BIN_MASK : Z := 0x7.
Definition PREVENT_DELETE : Z := 0x8.
Definition PREVENT_CREATE : Z := 0x10.
Definition PREVENT_OVERWR : Z := 0x20.
Definition PREVENT_NONDEF_OVERWR : Z := 0x40.
Definition VARACCESS_BIN_MASK : Z := 0x78.

Definition env_flags_vartype_rep : list Z := str "sdxbim".
Definition env_flags_varaccess_rep : list Z := str "aroc".
Definition env_flags_varaccess_mask : list Z :=
  [0;
   Z.lor (Z.lor PREVENT_DELETE PREVENT_CREATE) PREVENT_OVERWR;
   Z.lor PREVENT_DELETE PREVENT_OVERWR;
   Z.lor PREVENT_DELETE PREVENT_NONDEF_OVERWR].

Definition env_flags_parse_vartype (flags : list Z) : Z :=
  if strlen flags <=? 0 then vartype_string
  else default vartype_string (strchr env_flags_vartype_rep (ch flags)).

Definition env_flags_parse_varaccess (flags : list Z) : Z :=
  if strlen flags <=? 1 then varaccess_any
  else default varaccess_any (strchr env_flags_varaccess_rep (ch (at_off flags 1))).

(** The index of the mask that the flags have. *)
Fixpoint mask_loop (masks : list Z) (i bits : Z) : Z :=
  match masks with
  | [] => varaccess_any
  | m :: masks => if m =? bits then i else mask_loop masks (i + 1) bits
  end.

Definition env_flags_parse_varaccess_from_binflags (binflags : Z) : Z :=
  mask_loop env_flags_varaccess_mask 0 (Z.land binflags VARACCESS_BIN_MASK).

Definition env_parse_flags_to_bin (flags : list Z) : Z :=
  Z.lor (Z.land (env_flags_parse_vartype flags) VARTYPE_BIN_MASK)
    (nth (Z.to_nat (env_flags_parse_varaccess flags)) env_flags_varaccess_mask 0).

(** ** Checking values *)

Definition is_hex_prefix (value : list Z) : bool :=
  (ch value =? 48) && ((ch (at_off value 1) =? 120) || (ch (at_off value 1) =? 88)).

(** [for (i = max_digits; i != 0; i--)]: how many digits are skipped; the NUL is
    not a digit. *)
Fixpoint skip_digits (hex : bool) (value : list Z) (i : Z) : Z :=
  if i =? 0 then 0
  else
    match value with
    | [] => 0
    | c :: value =>
        if hex && negb (isxdigit c) then 0
        else if negb hex && negb (isdigit c) then 0
        else 1 + skip_digits hex value (i - 1)
    end.

(** The offset of [*end]. *)
Definition skip_num (hex : bool) (value : list Z) (max_digits : Z) : Z :=
  let skip := if hex && is_hex_prefix value then 2 else 0 in
  skip + skip_digits hex (at_off value skip) max_digits.

(** The loop of [eth_validate_ethaddr_str], with [n] groups left. *)
Fixpoint ethaddr_loop (n : nat) (cur : list Z) : Z :=
  match n with
  | O => 0
  | S n =>
      let e := skip_num true cur 2 in
      if e =? 0 then -1
      else if (e =? 2) && is_hex_prefix cur then -1
      else if negb (Nat.eqb n 0) && negb (ch (at_off cur e) =? 58) then -1
      else if Nat.eqb n 0 && negb (ch (at_off cur e) =? 0) then -1
      else ethaddr_loop n (at_off cur (e + 1))
  end.

Definition eth_validate_ethaddr_str (addr : list Z) : Z := ethaddr_loop 6 addr.

(** The loop over the numbers of an IP address. *)
Fixpoint ipaddr_loop (n : nat) (cur : list Z) : Z :=
  match n with
  | O => 0
  | S n =>
      let e := skip_num false cur 3 in
      if e =? 0 then -1
      else if negb (Nat.eqb n 0) && negb (ch (at_off cur e) =? 46) then -1
      else if Nat.eqb n 0 && negb (ch (at_off cur e) =? 0) then -1
      else ipaddr_loop n (at_off cur (e + 1))
  end.

Definition _env_flags_validate_type (value : list Z) (type : Z) : Z :=
  if type =? vartype_string then 0
  else if type =? vartype_decimal then
    if negb (ch (at_off value (skip_num false value (-1))) =? 0) then -1 else 0
  else if type =? vartype_hex then
    let e := skip_num true value (-1) in
    if negb (ch (at_off value e) =? 0) then -1
    else if (e =? 2) && is_hex_prefix value then -1 else 0
  else if type =? vartype_bool then
    if negb (existsb (Z.eqb (ch value)) (str "1ytYT0nfNF")) then -1
    else if negb (ch (at_off value 1) =? 0) then -1 else 0
  else if type =? vartype_ipaddr then ipaddr_loop 4 value
  else if type =? vartype_macaddr then (if eth_validate_ethaddr_str value =? 0 then 0 else -1)
  else if type =? vartype_end then -1
  else 0.

(** ** The hooks of the hash table *)

(** The callbacks: the two of this code, and those of the other parts by number. *)
Inductive clbk := cb_flags | cb_callbacks | cb_other (n : nat).

Definition ENV_FLAGS_LIST_STATIC : list Z :=
  str "eth\d?addr:ma,ipaddr:i,gatewayip:i,netmask:i,serverip:i,nvlan:d,vlan:d,dnsip:i,".

Definition ENV_CALLBACK_LIST_STATIC : list Z :=
  str "\.callbacks:callbacks,\.flags:flags,baudrate:baudrate,bootfile:bootfile,ipaddr:ipaddr,gatewayip:gatewayip,netmask:netmask,serverip:serverip,nvlan:nvlan,vlan:vlan,eth\d?addr:ethaddr,loadaddr:loadaddr,stdin:console,stdout:console,stderr:console,serial#:serialno,".

(** Copying attributes into a buffer of [n] bytes: [None] is an overflow. *)
Definition into_buffer (n : nat) (r : Z * option (list Z)) : option (Z * list Z) :=
  match snd r with
  | None => Some (fst r, [])
  | Some a => if (length a <? n)%nat then Some (fst r, a) else None
  end.

Section Hooks.
(** The regular expressions, the default values, the callbacks of the other
    parts with their names, and the strings that [.flags] and [.callbacks] held
    at the first call. *)
Context (compiles : list Z -> bool) (matches : list Z -> list Z -> bool).
Context (env_get_default : list Z -> option (list Z)).
Context (clbk_tbl : list (list Z * clbk)).
Context (other : nat -> list Z -> option (list Z) -> env_op -> Z -> Z).
Context (flags_list callback_list : option (list Z)).

(** Memory does not run out. *)
Definition lookup (l : option (list Z)) (name : list Z) : option (Z * option (list Z)) :=
  env_attr_lookup compiles matches (fun _ => true) l name.

(** [flags] has [ENV_FLAGS_ATTR_MAX_LEN + 1] bytes: what it holds when the
    lookup was successful. *)
Definition env_flags_lookup (flags_list : option (list Z)) (name : list Z) : option (Z * list Z) :=
  r ← match flags_list with None => Some (1, []) | Some _ => lookup flags_list name ≫= into_buffer 3 end;
  if negb (fst r =? 0) then lookup (Some ENV_FLAGS_LIST_STATIC) name ≫= into_buffer 3 else Some r.

Definition set_entry_flags (e : ENTRY clbk) (f : Z) : ENTRY clbk :=
  mk_ENTRY (key e) (data e) (callback e) f.
Definition set_entry_callback (e : ENTRY clbk) (c : option clbk) : ENTRY clbk :=
  mk_ENTRY (key e) (data e) c (flags e).

Definition env_flags_init (var_entry : ENTRY clbk) : option (ENTRY clbk) :=
  name ← key var_entry;
  '(ret, fl) ← env_flags_lookup flags_list name;
  Some (if (ret =? 0) && negb (strlen fl =? 0)
        then set_entry_flags var_entry (env_parse_flags_to_bin fl) else var_entry).

(** [find_env_callback] *)
Fixpoint find_env_callback (tbl : list (list Z * clbk)) (name : list Z) : option clbk :=
  match tbl with
  | [] => None
  | (n, c) :: tbl => if strcmp name n =? 0 then Some c else find_env_callback tbl name
  end.

(** [callback_name] has 256 bytes. *)
Definition env_callback_init (var_entry : ENTRY clbk) : option (ENTRY clbk) :=
  name ← key var_entry;
  r ← match callback_list with None => Some (1, []) | Some _ => lookup callback_list name ≫= into_buffer 256 end;
  '(ret, cb) ← if negb (fst r =? 0) then lookup (Some ENV_CALLBACK_LIST_STATIC) name ≫= into_buffer 256 else Some r;
  Some (if (ret =? 0) && negb (strlen cb =? 0)
        then match find_env_callback clbk_tbl cb with
             | Some c => set_entry_callback var_entry (Some c)
             | None => var_entry
             end
        else var_entry).

Definition env_flags_validate (item : ENTRY clbk) (newval : option (list Z)) (op : env_op) (flag : Z) : Z :=
  let newval := default [] newval in
  let type_ok :=
    match op with
    | env_op_delete => true
    | _ => negb (_env_flags_validate_type newval (Z.land VARTYPE_BIN_MASK (flags item)) <? 0)
    end in
  if negb type_ok then -1
  else if negb (Z.land flag H_FORCE =? 0) then 0
  else
    match op with
    | env_op_delete => if negb (Z.land (flags item) PREVENT_DELETE =? 0) then 1 else 0
    | env_op_overwrite =>
        if negb (Z.land (flags item) PREVENT_OVERWR =? 0) then 1
        else if negb (Z.land (flags item) PREVENT_NONDEF_OVERWR =? 0) then
          let defval := default [] (key item ≫= env_get_default) in
          if negb (strcmp (default [] (data item)) defval =? 0) then 1 else 0
        else 0
    | env_op_create => if negb (Z.land (flags item) PREVENT_CREATE =? 0) then 1 else 0
    end.

(** *** The callbacks of [.flags] and [.callbacks] *)

(** A lookup does not call the hooks. *)
Definition find_hooks : EnvHooks clbk := {|
  hk_change_ok := None;
  hk_callback := fun _ _ _ _ _ t => (0, t);
  hk_init := fun _ e => e;
  hk_malloc := fun _ => true
|}.

Definition as_htab (t : list (_ENTRY clbk)) : hsearch_data clbk :=
  mk_htab (Some t) (Z.of_nat (length t) - 1) 0.

(** The entry that [hsearch_r] finds, changed by [f]. *)
Definition update_entry (t : list (_ENTRY clbk)) (name : list Z) (f : ENTRY clbk -> ENTRY clbk) : list (_ENTRY clbk) :=
  match @hsearch_r clbk find_hooks name None FIND (as_htab t) 0 with
  | Some (_, Some i, _, _) =>
      match aget t i with
      | Some s => <[Z.to_nat i := mk__ENTRY (used s) (f (entry s))]> t
      | None => t
      end
  | _ => t
  end.

(** [hwalk_r] with a function that changes the entry and returns 0. *)
Definition walk_live (t : list (_ENTRY clbk)) (f : ENTRY clbk -> ENTRY clbk) : list (_ENTRY clbk) :=
  match @hwalk_r clbk (as_htab t) (fun e => (0, f e)) with
  | Some (_, h) => default t (table h)
  | None => t
  end.

Definition clear_flags (e : ENTRY clbk) : ENTRY clbk := set_entry_flags e 0.

Definition set_flags (name : list Z) (value : option (list Z)) (t : list (_ENTRY clbk))
    : Z * list (_ENTRY clbk) :=
  (0, update_entry t name (fun e =>
        set_entry_flags e
          (match value with
           | None => 0
           | Some v => if strlen v =? 0 then 0 else env_parse_flags_to_bin v
           end))).

Definition attr_walk (callback : list Z -> option (list Z) -> list (_ENTRY clbk) -> Z * list (_ENTRY clbk))
    (l : option (list Z)) (t : list (_ENTRY clbk)) : list (_ENTRY clbk) :=
  match env_attr_walk callback (fun _ => true) l t with Some (_, t') => t' | None => t end.

Definition on_flags (value : option (list Z)) (t : list (_ENTRY clbk)) : list (_ENTRY clbk) :=
  let t := walk_live t clear_flags in
  let t := attr_walk set_flags (Some ENV_FLAGS_LIST_STATIC) t in
  attr_walk set_flags value t.

Definition clear_callback (e : ENTRY clbk) : ENTRY clbk := set_entry_callback e None.

Definition set_callback (name : list Z) (value : option (list Z)) (t : list (_ENTRY clbk))
    : Z * list (_ENTRY clbk) :=
  (0, update_entry t name (fun e =>
        match value with
        | None => set_entry_callback e None
        | Some v =>
            if strlen v =? 0 then set_entry_callback e None
            else match find_env_callback clbk_tbl v with
                 | Some c => set_entry_callback e (Some c)
                 | None => e
                 end
        end)).

Definition on_callbacks (value : option (list Z)) (t : list (_ENTRY clbk)) : list (_ENTRY clbk) :=
  let t := walk_live t clear_callback in
  let t := attr_walk set_callback (Some ENV_CALLBACK_LIST_STATIC) t in
  attr_walk set_callback value t.

(** *** The instance *)

Definition run_callback (c : clbk) (name : list Z) (value : option (list Z)) (op : env_op) (flag : Z)
    (t : list (_ENTRY clbk)) : Z * list (_ENTRY clbk) :=
  match c with
  | cb_flags => (0, on_flags value t)
  | cb_callbacks => (0, on_callbacks value t)
  | cb_other n => (other n name value op flag, t)
  end.

(** A new entry gets its callback first, then its flags. *)
Definition init_entry (e : ENTRY clbk) : ENTRY clbk :=
  let e := default e (env_callback_init e) in default e (env_flags_init e).

Definition env_hooks : EnvHooks clbk := {|
  hk_change_ok := Some env_flags_validate;
  hk_callback := run_callback;
  hk_init := fun _ e => init_entry e;
  hk_malloc := fun _ => true
|}.
End Hooks.

(** ** The formats of the types *)

Definition digit (hex : bool) (c : Z) : bool := if hex then isxdigit c else isdigit c.

(** A number: at least one digit, after [0x] or [0X] if the number may be
    hexadecimal. *)
Definition number (hex : bool) (g : list Z) (n : nat) : Prop :=
  exists p ds, g = p ++ ds /\ (p = [] \/ hex = true /\ (p = str "0x" \/ p = str "0X")) /\
    Forall (fun c => digit hex c = true) ds /\ length ds = n /\ (0 < n)%nat.

(** [n] numbers of at most [max] digits with [sep] between them. *)
Inductive numbers (hex : bool) (max : nat) (sep : Z) : nat -> list Z -> Prop :=
  | numbers_one g k : number hex g k -> (k <= max)%nat -> numbers hex max sep 1 g
  | numbers_more g k n rest : number hex g k -> (k <= max)%nat -> numbers hex max sep n rest ->
      numbers hex max sep (S n) (g ++ sep :: rest).

Definition type_format (type : Z) (v : list Z) : Prop :=
  if type =? vartype_decimal then Forall (fun c => isdigit c = true) v
  else if type =? vartype_hex then v = [] \/ exists n, number true v n
  else if type =? vartype_bool then exists c, v = [c] /\ c ∈ str "1ytYT0nfNF"
  else if type =? vartype_ipaddr then numbers false 3 46 4 v
  else if type =? vartype_macaddr then numbers true 2 58 6 v
  else True.

Lemma digit_chars hex : digit hex 0 = false /\ digit hex 46 = false /\ digit hex 58 = false /\
  digit hex 120 = false /\ digit hex 88 = false.
Proof. by destruct hex. Qed.

Lemma digit_nul hex : digit hex 0 = false.
Proof. apply digit_chars. Qed.

Lemma skip_digits_cons hex c s i :
  skip_digits hex (c :: s) i = if i =? 0 then 0 else if digit hex c then 1 + skip_digits hex s (i - 1) else 0.
Proof. cbn [skip_digits]. unfold digit. destruct (i =? 0), hex, (isxdigit c), (isdigit c); done. Qed.

(** The digits that are skipped: as many as there are, up to the limit. *)
Lemma skip_digits_split hex s : forall i,
  exists ds rest, s = ds ++ rest /\ Forall (fun c => digit hex c = true) ds /\
    skip_digits hex s i = Z.of_nat (length ds) /\ (0 <= i -> Z.of_nat (length ds) <= i) /\
    (Z.of_nat (length ds) = i \/ digit hex (ch rest) = false).
Proof.
  induction s as [|c s IH]; intros i.
  - exists [], []. simpl. split_and!; try done; [by case_if|right; apply digit_nul].
  - rewrite skip_digits_cons. case_if; [|destruct (digit hex c) eqn:Ec].
    + exists [], (c :: s). split_and!; try done. left. simpl. lia.
    + destruct (IH (i - 1)) as (ds & rest & -> & Hd & -> & Hle & Hend). exists (c :: ds), rest.
      split_and!; [done|by constructor|simpl; lia|simpl; lia|]. destruct Hend; [left; simpl; lia|by right].
    + exists [], (c :: s). split_and!; try done. by right.
Qed.

(** The number of digits skipped when the end is known. *)
Lemma skip_digits_exact hex ds rest : forall i,
  Forall (fun c => digit hex c = true) ds -> digit hex (ch rest) = false ->
  (i < 0 \/ Z.of_nat (length ds) <= i) -> skip_digits hex (ds ++ rest) i = Z.of_nat (length ds).
Proof.
  induction ds as [|d ds IH]; intros i Hd Hr Hi.
  - cbn [app length]. destruct rest as [|c rest]; [simpl; by case_if|].
    rewrite skip_digits_cons. cbn [ch hd] in Hr. rewrite Hr. by case_if.
  - apply Forall_cons in Hd as [Hd Hds]. cbn [app length] in *. rewrite skip_digits_cons, Hd.
    rewrite (proj2 (Z.eqb_neq _ _)) by lia. rewrite IH by (done || lia). lia.
Qed.

Lemma is_hex_prefix_iff v : is_hex_prefix v = true <-> exists r, v = str "0x" ++ r \/ v = str "0X" ++ r.
Proof.
  unfold is_hex_prefix, at_off, ch. split.
  - intros H. bool_to_prop. destruct v as [|a [|b v]]; simpl in *; [lia..|]. exists v.
    destruct H0; bool_to_prop; subst; [by left|by right].
  - by intros [r [-> | ->]].
Qed.

(** *** Numbers *)

Lemma at_off_app (s t : list Z) n : n = Z.of_nat (length s) -> at_off (s ++ t) n = t.
Proof. intros ->. unfold at_off. rewrite Nat2Z.id. by rewrite drop_app_length. Qed.

(** What follows a number: the end or a separator. *)
Definition after_number (rest : list Z) : Prop := ch rest = 0 \/ ch rest = 46 \/ ch rest = 58.

Lemma after_number_digit hex rest : after_number rest -> digit hex (ch rest) = false.
Proof. pose proof (digit_chars hex). intros [-> | [-> | ->]]; tauto. Qed.

Lemma digits_no_prefix ds rest :
  Forall (fun c => digit true c = true) ds -> ds <> [] -> after_number rest -> is_hex_prefix (ds ++ rest) = false.
Proof.
  intros Hd Hne Hr. destruct (is_hex_prefix (ds ++ rest)) eqn:E; [|done]. exfalso.
  unfold is_hex_prefix, at_off, ch in E. bool_to_prop. destruct ds as [|a [|b ds]]; [done| |].
  - change (Z.to_nat 1) with 1%nat in *. cbn in H0. unfold after_number, ch in Hr. rewrite drop_0 in H0.
    destruct H0; bool_to_prop; lia.
  - apply Forall_cons in Hd as [_ [Hb _]%Forall_cons]. change (Z.to_nat 1) with 1%nat in *. cbn in H0.
    destruct H0; bool_to_prop; subst; done.
Qed.

(** [skip_num] at a number. *)
Lemma skip_num_number hex g n rest i :
  number hex g n -> after_number rest -> (i < 0 \/ Z.of_nat n <= i) ->
  skip_num hex (g ++ rest) i = Z.of_nat (length g) /\ 0 < Z.of_nat (length g) /\
  hex && (Z.of_nat (length g) =? 2) && is_hex_prefix (g ++ rest) = false.
Proof.
  intros (p & ds & -> & Hp & Hd & Hl & Hn) Hr Hi. pose proof (after_number_digit hex rest Hr) as Hdr.
  assert (ds <> []) as Hne by (intros ->; simpl in Hl; lia).
  unfold skip_num. destruct Hp as [->|(-> & Hp)].
  - cbn [app]. assert (hex && is_hex_prefix (ds ++ rest) = false) as E.
    { destruct hex; [|done]. by apply digits_no_prefix. }
    rewrite E. cbn [Z.add]. change (at_off (ds ++ rest) 0) with (ds ++ rest).
    rewrite skip_digits_exact by (done || lia).
    split_and!; [done|lia|]. rewrite andb_comm, andb_assoc, (andb_comm _ hex), E. done.
  - assert (is_hex_prefix ((p ++ ds) ++ rest) = true) as ->.
    { apply is_hex_prefix_iff. exists (ds ++ rest). rewrite <- app_assoc. destruct Hp as [-> | ->]; [by left|by right]. }
    assert (length p = 2%nat) as Hlp by (by destruct Hp as [-> | ->]).
    cbn [andb]. rewrite <- app_assoc, at_off_app by (rewrite Hlp; done).
    rewrite skip_digits_exact by (done || lia). rewrite length_app, Hlp.
    split_and!; [lia|lia|]. rewrite andb_true_r. apply Z.eqb_neq. lia.
Qed.

(** What [skip_num] skips is a number, unless it is nothing or only a prefix. *)
Lemma skip_num_split hex s i :
  skip_num hex s i <> 0 -> hex && (skip_num hex s i =? 2) && is_hex_prefix s = false ->
  exists g rest n, s = g ++ rest /\ number hex g n /\ skip_num hex s i = Z.of_nat (length g) /\
    (0 <= i -> Z.of_nat n <= i).
Proof.
  unfold skip_num. destruct (hex && is_hex_prefix s) eqn:Ep.
  - apply andb_true_iff in Ep as [-> Hp]. rewrite Hp, andb_true_r. cbn [andb]. intros _ H2. apply Z.eqb_neq in H2.
    apply is_hex_prefix_iff in Hp as (r & Hp).
    assert (exists p, s = p ++ r /\ (p = str "0x" \/ p = str "0X") /\ length p = 2%nat) as (p & -> & Hpp & Hlp).
    { destruct Hp as [-> | ->]; eexists; split_and!; [done|by left|done|done|by right|done]. }
    rewrite at_off_app in * by (rewrite Hlp; done).
    destruct (skip_digits_split true r i) as (ds & rest & -> & Hd & Hsk & Hle & _). rewrite Hsk in *.
    exists (p ++ ds), rest, (length ds). split_and!; [by rewrite app_assoc| |rewrite length_app, Hlp; lia|done].
    exists p, ds. split_and!; try done; [by right|lia].
  - change (at_off s 0) with s. intros H0 _. destruct (skip_digits_split hex s i) as (ds & rest & -> & Hd & Hsk & Hle & _).
    rewrite Hsk in *. exists ds, rest, (length ds). split_and!; [done| |lia|done].
    exists [], ds. split_and!; try done; [by left|lia].
Qed.

(** *** Lists of numbers *)

(** The loops over a MAC address and an IP address have the same form. *)
Fixpoint num_loop (hex : bool) (max sep : Z) (n : nat) (cur : list Z) : Z :=
  match n with
  | O => 0
  | S n =>
      let e := skip_num hex cur max in
      if e =? 0 then -1
      else if hex && (e =? 2) && is_hex_prefix cur then -1
      else if negb (Nat.eqb n 0) && negb (ch (at_off cur e) =? sep) then -1
      else if Nat.eqb n 0 && negb (ch (at_off cur e) =? 0) then -1
      else num_loop hex max sep n (at_off cur (e + 1))
  end.

Lemma ethaddr_num_loop n : forall cur, ethaddr_loop n cur = num_loop true 2 58 n cur.
Proof. induction n as [|n IH]; intros cur; [done|]. cbn [ethaddr_loop num_loop andb]. repeat case_if; auto. Qed.

Lemma ipaddr_num_loop n : forall cur, ipaddr_loop n cur = num_loop false 3 46 n cur.
Proof. induction n as [|n IH]; intros cur; [done|]. cbn [ipaddr_loop num_loop andb]. repeat case_if; auto. Qed.

Lemma num_loop_result hex max sep n : forall cur, num_loop hex max sep n cur = 0 \/ num_loop hex max sep n cur = -1.
Proof. induction n as [|n IH]; intros cur; [by left|]. cbn [num_loop]. repeat case_if; auto. Qed.

Lemma num_loop_numbers hex (max : nat) sep n : forall cur,
  sep = 46 \/ sep = 58 -> cstring cur ->
  num_loop hex (Z.of_nat max) sep (S n) cur = 0 <-> numbers hex max sep (S n) cur.
Proof.
  induction n as [|n IH]; intros cur Hsep Hc.
  - change (num_loop hex (Z.of_nat max) sep 1 cur) with
      (let e := skip_num hex cur (Z.of_nat max) in
       if e =? 0 then -1 else if hex && (e =? 2) && is_hex_prefix cur then -1
       else if negb (ch (at_off cur e) =? 0) then -1 else 0). cbv zeta. split.
    + do 3 (case_if; [done|]). intros _.
      edestruct (skip_num_split hex cur (Z.of_nat max)) as (g & rest & k & -> & Hg & He & Hk);
        [done|by apply andb_false_iff|].
      rewrite He in *. rewrite at_off_app in * by done.
      assert (rest = []) as ->. { apply cstring_app in Hc as [_ Hc]. destruct rest as [|c r]; [done|].
        apply Forall_cons in Hc as [Hc _]. unfold ch in *. simpl in *. lia. }
      rewrite app_nil_r. apply (numbers_one hex max sep g k); [done|lia].
    + intros Hn. inversion Hn as [g k Hg Hk E|g k n' rest Hg Hk Hn' E1 E2]; subst; [|inversion Hn'].
      destruct (skip_num_number hex cur k [] (Z.of_nat max)) as (He & Hpos & Hx); [done|by left|lia|].
      rewrite app_nil_r in *. rewrite He, Hx. rewrite (proj2 (Z.eqb_neq _ _)) by lia.
      assert (at_off cur (Z.of_nat (length cur)) = []) as ->; [|done].
      unfold at_off. rewrite Nat2Z.id. by apply drop_ge.
  - change (num_loop hex (Z.of_nat max) sep (S (S n)) cur) with
      (let e := skip_num hex cur (Z.of_nat max) in
       if e =? 0 then -1 else if hex && (e =? 2) && is_hex_prefix cur then -1
       else if negb (ch (at_off cur e) =? sep) then -1 else num_loop hex (Z.of_nat max) sep (S n) (at_off cur (e + 1))).
    cbv zeta. split.
    + do 3 (case_if; [done|]).
      edestruct (skip_num_split hex cur (Z.of_nat max)) as (g & rest & k & -> & Hg & He & Hk);
        [done|by apply andb_false_iff|].
      rewrite He in *. rewrite at_off_app in * by done. apply cstring_app in Hc as [_ Hc].
      destruct rest as [|c r]; [unfold ch in *; simpl in *; lia|]. cbn [ch hd] in *. subst c.
      replace (g ++ sep :: r) with ((g ++ [sep]) ++ r) by (by rewrite <- app_assoc).
      rewrite at_off_app by (rewrite length_app; simpl; lia). apply Forall_cons in Hc as [_ Hc].
      rewrite IH by done. rewrite <- app_assoc. intros Hr. apply (numbers_more hex max sep g k); [done|lia|done].
    + intros Hn. inversion Hn as [|g k n' rest Hg Hk Hn' E1 E2]; subst.
      apply cstring_app in Hc as [_ [Hc0 Hc]%Forall_cons].
      destruct (skip_num_number hex g k (sep :: rest) (Z.of_nat max)) as (He & Hpos & Hx); [done|right; simpl; tauto|lia|].
      rewrite He, Hx. rewrite (proj2 (Z.eqb_neq _ _)) by lia. rewrite at_off_app by done. cbn [ch hd].
      rewrite Z.eqb_refl. cbn [negb].
      replace (g ++ sep :: rest) with ((g ++ [sep]) ++ rest) by (by rewrite <- app_assoc).
      rewrite at_off_app by (rewrite length_app; simpl; lia). by apply IH.
Qed.

Lemma ch_zero_nil (s : list Z) : cstring s -> ch s = 0 <-> s = [].
Proof.
  intros Hs. split; [|by intros ->]. destruct s as [|c s]; [done|]. apply Forall_cons in Hs as [Hc _]. simpl. lia.
Qed.

Lemma at_off_cstring s n : cstring s -> cstring (at_off s n).
Proof. apply Forall_drop. Qed.

Lemma validate_decimal v :
  cstring v -> ch (at_off v (skip_num false v (-1))) = 0 <-> Forall (fun c => isdigit c = true) v.
Proof.
  intros Hv. unfold skip_num. cbn [andb Z.add]. change (at_off v 0) with v. split.
  - destruct (skip_digits_split false v (-1)) as (ds & rest & E & Hd & -> & _). rewrite E in *.
    rewrite at_off_app by done. apply cstring_app in Hv as [_ Hr]. intros H. apply ch_zero_nil in H as ->; [|done].
    by rewrite app_nil_r.
  - intros Hd. pose proof (skip_digits_exact false v [] (-1) Hd eq_refl ltac:(lia)) as E.
    rewrite app_nil_r in E. rewrite E, Z.add_0_l. unfold at_off. rewrite Nat2Z.id. by rewrite drop_ge.
Qed.

Lemma validate_hex v :
  cstring v ->
  (ch (at_off v (skip_num true v (-1))) = 0 /\ (skip_num true v (-1) =? 2) && is_hex_prefix v = false) <->
  v = [] \/ exists n, number true v n.
Proof.
  intros Hv. split.
  - intros [H0 Hp]. destruct (decide (skip_num true v (-1) = 0)) as [E|E].
    + left. rewrite E in H0. by apply ch_zero_nil.
    + right. destruct (skip_num_split true v (-1) E Hp) as (g & rest & n & -> & Hg & He & _). exists n.
      rewrite He, at_off_app in H0 by done. apply cstring_app in Hv as [_ Hr].
      apply ch_zero_nil in H0 as ->; [|done]. by rewrite app_nil_r.
  - intros [-> | [n Hn]]; [done|]. destruct (skip_num_number true v n [] (-1)) as (He & _ & Hx); [done|by left|lia|].
    rewrite app_nil_r in *. rewrite He. split; [|done]. unfold at_off. rewrite Nat2Z.id. by rewrite drop_ge.
Qed.

Lemma validate_bool v :
  cstring v ->
  (existsb (Z.eqb (ch v)) (str "1ytYT0nfNF") = true /\ ch (at_off v 1) = 0) <-> exists c, v = [c] /\ c ∈ str "1ytYT0nfNF".
Proof.
  intros Hv. rewrite existsb_exists. split.
  - intros [(x & Hx & E) H1]. apply Z.eqb_eq in E. apply ch_zero_nil in H1; [|by apply at_off_cstring].
    destruct v as [|c v].
    + cbn [ch hd] in E. exfalso. subst x. cbn in Hx. repeat destruct Hx as [Hx|Hx]; done.
    + cbn [ch hd] in E. subst x. exists c. change (drop 0 v = []) in H1. rewrite drop_0 in H1. subst v.
      split; [done|]. by apply list_elem_of_In.
  - intros (c & -> & Hc). split; [|done]. exists c. split; [by apply list_elem_of_In|apply Z.eqb_refl].
Qed.

Lemma validate_type_format v type :
  cstring v -> 0 <= type <= 5 -> (_env_flags_validate_type v type <? 0) = false <-> type_format type v.
Proof.
  intros Hv Ht. unfold _env_flags_validate_type, type_format.
  destruct (Z.eqb_spec type vartype_string) as [->|]; [done|].
  destruct (Z.eqb_spec type vartype_decimal) as [->|].
  { rewrite <- validate_decimal by done. case_if; [split; [done|]; intros; done|]. by rewrite E. }
  destruct (Z.eqb_spec type vartype_hex) as [->|].
  { rewrite <- validate_hex by done. cbv zeta.
    destruct (Z.eqb_spec (ch (at_off v (skip_num true v (-1)))) 0) as [E0|E0]; cbn [negb]; [|split; [done|tauto]].
    destruct ((skip_num true v (-1) =? 2) && is_hex_prefix v); [split; [done|by intros [_ ?]]|]. done. }
  destruct (Z.eqb_spec type vartype_bool) as [->|].
  { rewrite <- validate_bool by done. destruct (existsb _ _); cbn [negb]; [|split; [done|by intros [? _]]].
    destruct (Z.eqb_spec (ch (at_off v 1)) 0) as [E0|E0]; cbn [negb]; [by rewrite E0|split; [done|tauto]]. }
  assert (forall hex max sep n, sep = 46 \/ sep = 58 ->
    (num_loop hex (Z.of_nat max) sep (S n) v <? 0) = false <-> numbers hex max sep (S n) v) as Hloop.
  { intros hex max sep k Hsep. rewrite <- num_loop_numbers by done.
    destruct (num_loop_result hex (Z.of_nat max) sep (S k) v) as [-> | ->]; done. }
  destruct (Z.eqb_spec type vartype_ipaddr) as [->|].
  { rewrite ipaddr_num_loop. change 3 with (Z.of_nat 3). apply Hloop. by left. }
  destruct (Z.eqb_spec type vartype_macaddr) as [->|].
  { rewrite <- (Hloop true 2%nat 58 5%nat) by (by right). unfold eth_validate_ethaddr_str. rewrite ethaddr_num_loop.
    change (Z.of_nat 2) with 2. destruct (num_loop_result true 2 58 6 v) as [-> | ->]; done. }
  unfold vartype_string, vartype_decimal, vartype_hex, vartype_bool, vartype_ipaddr, vartype_macaddr in *. lia.
Qed.

(** ** The access policies *)

(** Which operations a policy allows; [is_default] says whether the variable
    still has its default value. *)
Definition allows (access : Z) (op : env_op) (is_default : bool) : bool :=
  if access =? varaccess_any then true
  else if access =? varaccess_readonly then false
  else match op with
       | env_op_create => true
       | env_op_overwrite => (access =? varaccess_changedefault) && is_default
       | env_op_delete => false
       end.

Lemma strchr_range s c i :
  cstring s -> 0 < c < 256 -> strchr s c = Some i -> 0 <= i < Z.of_nat (length s).
Proof.
  intros Hs Hc Hi. pose proof (split_on_strchr c s Hc Hs) as H. rewrite Hi in H. apply H.
Qed.

Lemma rep_cstring : cstring env_flags_vartype_rep /\ cstring env_flags_varaccess_rep.
Proof. split; repeat constructor; simpl; lia. Qed.

Lemma parse_vartype_range fl : cstring fl -> 0 <= env_flags_parse_vartype fl <= 5.
Proof.
  intros Hf. unfold env_flags_parse_vartype. rewrite strlen_cstring by done. case_if; [done|].
  destruct fl as [|c fl]; [simpl in *; lia|]. apply Forall_cons in Hf as [Hc _]. cbn [ch hd].
  destruct (strchr env_flags_vartype_rep c) as [i|] eqn:Ei; [|done].
  apply strchr_range in Ei; [|apply rep_cstring|done]. change (length env_flags_vartype_rep) with 6%nat in Ei. simpl. lia.
Qed.

Lemma parse_varaccess_range fl : cstring fl -> 0 <= env_flags_parse_varaccess fl <= 3.
Proof.
  intros Hf. unfold env_flags_parse_varaccess. rewrite strlen_cstring by done. case_if; [done|].
  destruct fl as [|c [|c' fl]]; [simpl in *; lia..|]. apply Forall_cons in Hf as [_ [Hc _]%Forall_cons].
  change (ch (at_off (c :: c' :: fl) 1)) with c'.
  destruct (strchr env_flags_varaccess_rep c') as [i|] eqn:Ei; [|done].
  apply strchr_range in Ei; [|apply rep_cstring|done]. change (length env_flags_varaccess_rep) with 4%nat in Ei. simpl. lia.
Qed.

(** The type and the policy can be read off the binary flags. *)
Lemma bin_flags t a :
  0 <= t <= 5 -> 0 <= a <= 3 ->
  let b := Z.lor (Z.land t VARTYPE_BIN_MASK) (nth (Z.to_nat a) env_flags_varaccess_mask 0) in
  Z.land VARTYPE_BIN_MASK b = t /\
  (Z.land b PREVENT_DELETE =? 0) = (a =? varaccess_any) /\
  (Z.land b PREVENT_CREATE =? 0) = negb (a =? varaccess_readonly) /\
  (Z.land b PREVENT_OVERWR =? 0) = ((a =? varaccess_any) || (a =? varaccess_changedefault)) /\
  (Z.land b PREVENT_NONDEF_OVERWR =? 0) = negb (a =? varaccess_changedefault) /\
  env_flags_parse_varaccess_from_binflags b = a.
Proof.
  intros Ht Ha. assert (t = 0 \/ t = 1 \/ t = 2 \/ t = 3 \/ t = 4 \/ t = 5) as Et by lia.
  assert (a = 0 \/ a = 1 \/ a = 2 \/ a = 3) as Ea by lia.
  destruct Ea as [-> | [-> | [-> | ->]]], Et as [-> | [-> | [-> | [-> | [-> | ->]]]]]; vm_compute; done.
Qed.

Section Policy.
Context (env_get_default : list Z -> option (list Z)).

Definition has_default (item : ENTRY clbk) : bool :=
  strcmp (default [] (data item)) (default [] (key item ≫= env_get_default)) =? 0.

Lemma validate_policy item fl newval op flag :
  cstring fl -> cstring (default [] newval) -> flags item = env_parse_flags_to_bin fl ->
  env_flags_validate env_get_default item newval op flag = 0 <->
  (op = env_op_delete \/ type_format (env_flags_parse_vartype fl) (default [] newval)) /\
  (Z.land flag H_FORCE <> 0 \/ allows (env_flags_parse_varaccess fl) op (has_default item) = true).
Proof.
  intros Hf Hn Hfl. pose proof (parse_vartype_range fl Hf) as Ht. pose proof (parse_varaccess_range fl Hf) as Ha.
  destruct (bin_flags _ _ Ht Ha) as (B1 & B2 & B3 & B4 & B5 & _). unfold env_parse_flags_to_bin in Hfl.
  rewrite <- Hfl in B1, B2, B3, B4, B5. pose proof (validate_type_format (default [] newval) _ Hn Ht) as Htf.
  unfold env_flags_validate. cbv zeta. rewrite B1, B2, B3, B4, B5. rewrite <- Htf.
  fold (has_default item). unfold allows.
  set (tb := _env_flags_validate_type _ _ <? 0). set (f := Z.land flag H_FORCE).
  unfold varaccess_any, varaccess_readonly, varaccess_changedefault in *.
  set (a := env_flags_parse_varaccess fl) in *.
  destruct op, tb, (Z.eqb_spec f 0), (Z.eqb_spec a 0), (Z.eqb_spec a 1), (Z.eqb_spec a 3), (has_default item);
    cbn; naive_solver lia.
Qed.
End Policy.

(** ** The instance satisfies the hash table's interface *)

(** A change of an entry that keeps its name and value. *)
Definition keeps (f : ENTRY clbk -> ENTRY clbk) : Prop := forall e, key (f e) = key e /\ data (f e) = data e.

Lemma view_insert (t : list (_ENTRY clbk)) i s f :
  keeps f -> t !! i = Some s -> view <$> <[i := mk__ENTRY (used s) (f (entry s))]> t = view <$> t.
Proof.
  intros Hf Hi. rewrite list_fmap_insert. apply list_insert_id. rewrite list_lookup_fmap, Hi. cbn [fmap option_fmap option_map].
  unfold view. cbn [used entry]. destruct (Hf (entry s)) as [-> ->]. done.
Qed.

Lemma update_entry_view t name f : keeps f -> view <$> update_entry t name f = view <$> t.
Proof.
  intros Hf. unfold update_entry.
  destruct (hsearch_r _ _ _ _ _) as [[[[r [i|]] err] h]|]; [|done..].
  destruct (aget t i) as [s|] eqn:Es; [|done]. apply aget_Some in Es as [_ Es]. by apply view_insert.
Qed.

Lemma hwalk_loop_view fuel : forall f i (h h' : hsearch_data clbk) r t,
  keeps f -> table h = Some t -> hwalk_loop fuel (fun e => (0, f e)) i h = Some (r, h') ->
  exists t', table h' = Some t' /\ view <$> t' = view <$> t.
Proof.
  induction fuel as [|fuel IH]; intros f i h h' r t Hf Ht; cbn [hwalk_loop]; [done|].
  case_if; [|intros [= <- <-]; by exists t]. unfold get_slot. rewrite Ht. cbn [mbind option_bind].
  destruct (aget t i) as [s|] eqn:Es; [|done]. cbn [mbind option_bind].
  case_if; [|by apply IH]. unfold set_slot. rewrite Ht. cbn [mbind option_bind].
  apply aget_Some in Es as [Hi Es]. rewrite aset_in by done. cbn [mbind option_bind Z.eqb negb].
  intros H. eapply IH in H as (t' & Ht' & Hv); [|done|done]. exists t'. split; [done|].
  rewrite Hv. by apply view_insert.
Qed.

Lemma walk_live_view t f : keeps f -> view <$> walk_live t f = view <$> t.
Proof.
  intros Hf. unfold walk_live, hwalk_r. destruct (hwalk_loop _ _ _ _) as [[r h]|] eqn:E; [|done].
  eapply hwalk_loop_view in E as (t' & -> & Hv); [|done|done]. done.
Qed.

(** What every call of the callback keeps, the walk keeps. *)
Lemma walk_loop_keeps {S} (P : S -> Prop) callback malloc fuel : forall l priv r priv',
  (forall n a p, P p -> P (snd (callback n a p))) -> P priv ->
  walk_loop callback malloc fuel l priv = Some (r, priv') -> P priv'.
Proof.
  induction fuel as [|fuel IH]; intros l priv r priv' Hcb HP; cbn [walk_loop]; [done|].
  case_if; [by intros [= _ <-]|].
  match goal with |- context [let '(a, b) := ?x in _] => assert (P (snd x)) as Hx; [|destruct x as [rv pv]] end.
  { case_if; [done|]. destruct (split_entry _) as [n a]. case_if; [by apply Hcb|done]. }
  cbn [snd] in Hx. case_if; [by intros [= _ <-]|]. destruct (strchr l _); [by apply IH|by intros [= _ <-]].
Qed.

Lemma attr_walk_view callback l t :
  (forall n a p, view <$> snd (callback n a p) = view <$> p) -> view <$> attr_walk callback l t = view <$> t.
Proof.
  intros Hcb. unfold attr_walk, env_attr_walk. destruct l as [l|]; [|done].
  destruct (walk_loop _ _ _ _ _) as [[r t']|] eqn:E; [|done].
  apply (walk_loop_keeps (fun p => view <$> p = view <$> t)) in E; [done| |done].
  intros n a p Hp. by rewrite Hcb.
Qed.

Lemma set_flags_view n a p : view <$> snd (set_flags n a p) = view <$> p.
Proof. apply update_entry_view. by intros e. Qed.

Lemma set_callback_view tbl n a p : view <$> snd (set_callback tbl n a p) = view <$> p.
Proof. apply update_entry_view. intros e. by repeat case_match. Qed.

Lemma on_flags_view value t : view <$> on_flags value t = view <$> t.
Proof.
  unfold on_flags. rewrite !attr_walk_view by apply set_flags_view. apply walk_live_view. by intros e.
Qed.

Lemma on_callbacks_view tbl value t : view <$> on_callbacks tbl value t = view <$> t.
Proof.
  unfold on_callbacks. rewrite !attr_walk_view by apply set_callback_view. apply walk_live_view. by intros e.
Qed.

Section Instance.
Context (compiles : list Z -> bool) (matches : list Z -> list Z -> bool).
Context (env_get_default : list Z -> option (list Z)) (clbk_tbl : list (list Z * clbk)).
Context (other : nat -> list Z -> option (list Z) -> env_op -> Z -> Z) (flags_list callback_list : option (list Z)).
Let hooks := env_hooks compiles matches env_get_default clbk_tbl other flags_list callback_list.

Lemma init_entry_keeps e :
  key (init_entry compiles matches clbk_tbl flags_list callback_list e) = key e /\
  data (init_entry compiles matches clbk_tbl flags_list callback_list e) = data e.
Proof.
  unfold init_entry. assert (forall (e : ENTRY clbk) o, (forall e', o = Some e' -> key e' = key e /\ data e' = data e) ->
    key (default e o) = key e /\ data (default e o) = data e) as Hd by (intros e0 [e'|] H; [by apply H|done]).
  set (e1 := default e _). assert (key e1 = key e /\ data e1 = data e) as [<- <-].
  { apply Hd. intros e'. unfold env_callback_init. intros H.
    destruct (key e) eqn:Ek; [|done]. cbn [mbind option_bind] in H.
    destruct (match callback_list with Some _ => _ | None => _ end) as [r|]; [|done]. cbn [mbind option_bind] in H.
    destruct (if negb (fst r =? 0) then _ else _) as [[ret cb]|]; [|done]. cbn [mbind option_bind] in H.
    injection H as <-. by repeat case_match. }
  apply Hd. intros e'. unfold env_flags_init. intros H. destruct (key e1) eqn:Ek; [|done]. cbn [mbind option_bind] in H.
  destruct (env_flags_lookup _ _ _ _) as [[ret fl]|]; [|done]. cbn [mbind option_bind] in H.
  injection H as <-. by case_match.
Qed.

Lemma env_hooks_ok : @EnvHooksOk clbk hooks.
Proof.
  split.
  - intros c name val op flag t. destruct c; cbn; [apply on_flags_view|apply on_callbacks_view|done].
  - intros t e. apply init_entry_keeps.
  - intros t e. apply init_entry_keeps.
  - done.
Qed.

(** *** Protected variables *)

Lemma allowed_validate e newval op flag :
  @allowed clbk hooks e newval op flag = (env_flags_validate env_get_default e newval op flag =? 0).
Proof. done. Qed.

(** A refused change of a variable leaves the table as it is. *)
Lemma refused_overwrite htab vs m k d flag :
  @htab_ok clbk htab vs m -> cstring k -> is_Some (m !! k) ->
  (forall i s, get_slot htab i = Some s -> key (entry s) = Some k -> used s <> -1 ->
     env_flags_validate env_get_default (entry s) (Some d) env_op_overwrite flag <> 0) ->
  @hsearch_r clbk hooks k (Some d) ENTER htab flag = Some (0, None, EPERM, htab).
Proof.
  intros Hok Hk [old Hold] Hdeny. pose proof env_hooks_ok as Hh.
  destruct (@hsearch_cases clbk hooks htab vs m k (Some d) ENTER flag Hok Hk) as [(i & Hhit & Hr)|(Hmiss & _)].
  2: { apply (stores_None _ _ _ (h_stores _ _ _ Hok)) in Hmiss. congruence. }
  destruct Hok as [Hview Hpr Hsz Htbl Hst _].
  destruct (@compare_hit clbk hooks Hh htab vs k (Some d) ENTER flag i Hview Hsz Htbl Hk Hhit) as (s & Hs & Hks & Hc).
  rewrite (@change_denied_allowed clbk hooks _ _ _ _ _ s Hs), mbind_Some, allowed_validate in Hc.
  destruct Hhit as (d0 & u & Hu & Hpos). destruct (get_slot_view _ _ _ _ Hview Hu) as (s' & Hs' & Hv').
  assert (s' = s) as -> by congruence. injection Hv' as Hus _ _.
  rewrite (proj2 (Z.eqb_neq _ _) (Hdeny i s Hs Hks ltac:(lia))) in Hc. by apply Hr.
Qed.

Lemma refused_delete htab vs m k flag :
  @htab_ok clbk htab vs m -> cstring k -> is_Some (m !! k) ->
  (forall i s, get_slot htab i = Some s -> key (entry s) = Some k -> used s <> -1 ->
     env_flags_validate env_get_default (entry s) None env_op_delete flag <> 0) ->
  @hdelete_r clbk hooks k htab flag = Some (0, EPERM, htab).
Proof.
  intros Hok Hk [old Hold] Hdeny. pose proof env_hooks_ok as Hh.
  pose proof (@hsearch_find clbk hooks Hh htab vs m k None 0 Hok Hk) as Hf. rewrite Hold in Hf.
  destruct Hf as (i & (u & Hu & Hpos) & Hi & Hfind). unfold hdelete_r. rewrite Hfind, mbind_Some. cbv beta iota.
  rewrite (proj2 (Z.eqb_neq i 0)) by lia. cbn [mbind option_bind].
  destruct (get_slot_view _ _ _ _ (h_view _ _ _ Hok) Hu) as (s & Hs & Hv). injection Hv as Hus Hks Hds.
  rewrite (@change_denied_allowed clbk hooks _ _ _ _ _ s Hs), mbind_Some, allowed_validate.
  by rewrite (proj2 (Z.eqb_neq _ _) (Hdeny i s Hs Hks ltac:(lia))).
Qed.
End Instance.

(** ** Claims *)

(** C14: what [_env_flags_validate_type] accepts is the format of the type:
    digits for a decimal, at least one digit after an [0x] for a hexadecimal, one
    letter for a boolean, four numbers of up to three digits with dots for an IP
    address, six groups of up to two hexadecimal digits with colons for a MAC
    address, anything for a string. *)
Theorem validate_type_correct v type :
  cstring v -> 0 <= type <= 5 -> (_env_flags_validate_type v type <? 0) = false <-> type_format type v.
Proof. apply validate_type_format. Qed.

(** Witness: a MAC address. *)
Lemma validate_type_correct_witness : type_format vartype_macaddr (str "00:90:7f:1:2:0xa").
Proof.
  apply (validate_type_correct (str "00:90:7f:1:2:0xa") vartype_macaddr); [repeat constructor; simpl; lia|done|].
  vm_compute. reflexivity.
Defined.

(** For a variable whose flags were given by the text [fl],
    [env_flags_validate] accepts a change if and only if the new value has the
    format of the type of [fl] (a deletion has no value) and the change is forced
    or the access policy of [fl] allows it. *)
Theorem env_flags_policy env_get_default item fl newval op flag :
  cstring fl -> cstring (default [] newval) -> flags item = env_parse_flags_to_bin fl ->
  env_flags_validate env_get_default item newval op flag = 0 <->
  (op = env_op_delete \/ type_format (env_flags_parse_vartype fl) (default [] newval)) /\
  (Z.land flag H_FORCE <> 0 \/ allows (env_flags_parse_varaccess fl) op (has_default env_get_default item) = true).
Proof. apply validate_policy. Qed.

(** Witness: a variable that may be changed from its default value only. *)
Lemma env_flags_policy_witness :
  let item := mk_ENTRY (Some (str "vlan")) (Some (str "7")) (None : option clbk) (env_parse_flags_to_bin (str "dc")) in
  let dflt := fun _ => Some (str "7") in
  env_flags_validate dflt item (Some (str "9")) env_op_overwrite 0 = 0 <->
  (env_op_overwrite = env_op_delete \/ type_format (env_flags_parse_vartype (str "dc")) (str "9")) /\
  (Z.land 0 H_FORCE <> 0 \/ allows (env_flags_parse_varaccess (str "dc")) env_op_overwrite (has_default dflt item) = true).
Proof.
  intros item dflt.
  apply (env_flags_policy dflt item (str "dc") (Some (str "9")) env_op_overwrite 0);
    [repeat constructor; simpl; lia|repeat constructor; simpl; lia|reflexivity].
Defined.

Section Composition.
Context (compiles : list Z -> bool) (matches : list Z -> list Z -> bool).
Context (env_get_default : list Z -> option (list Z)) (clbk_tbl : list (list Z * clbk)).
Context (other : nat -> list Z -> option (list Z) -> env_op -> Z -> Z) (flags_list callback_list : option (list Z)).
Local Notation hooks := (env_hooks compiles matches env_get_default clbk_tbl other flags_list callback_list).

(** C12: in the environment, a variable that its flags make read-only or
    write-once can be neither overwritten nor deleted without force: both calls
    return 0 with [EPERM] and the table is the same afterwards. *)
Theorem protected_variable_kept htab vs m k d fl flag :
  @htab_ok clbk htab vs m -> cstring k -> is_Some (m !! k) -> cstring d -> cstring fl ->
  (forall i s, get_slot htab i = Some s -> key (entry s) = Some k -> used s <> -1 ->
     flags (entry s) = env_parse_flags_to_bin fl) ->
  env_flags_parse_varaccess fl = varaccess_readonly \/ env_flags_parse_varaccess fl = varaccess_writeonce ->
  Z.land flag H_FORCE = 0 ->
  @hsearch_r clbk hooks k (Some d) ENTER htab flag = Some (0, None, EPERM, htab) /\
  @hdelete_r clbk hooks k htab flag = Some (0, EPERM, htab).
Proof.
  intros Hok Hk Hm Hd Hf Hfl Ha Hforce. split.
  - eapply refused_overwrite; [done..|]. intros i s Hs Hks Hu. rewrite (validate_policy _ _ fl) by (done || constructor || by eapply Hfl).
    intros [_ [H|H]]; [done|]. by destruct Ha as [Ea|Ea]; rewrite Ea in H.
  - eapply refused_delete; [done..|]. intros i s Hs Hks Hu. rewrite (validate_policy _ _ fl) by (done || constructor || by eapply Hfl).
    intros [_ [H|H]]; [done|]. by destruct Ha as [Ea|Ea]; rewrite Ea in H.
Qed.

End Composition.

(** A matcher for patterns without special characters. *)
Definition literal (pat name : list Z) : bool := bool_decide (pat = whole name).

Definition example_hooks : EnvHooks clbk :=
  env_hooks (fun _ => true) literal (fun _ => None)
    [(str "flags", cb_flags); (str "callbacks", cb_callbacks)] (fun _ _ _ _ _ => 0) (Some (str "id:so")) None.

Definition new_table : hsearch_data clbk := mk_htab None 0 0.

Definition example_run (os : list ht_op) : option (list (option (list Z) + bool) * hsearch_data clbk) :=
  '(_, h) ← @hcreate_r clbk example_hooks 2 new_table; @run_hts clbk example_hooks h os.

(** Witness: the write-once variable [id] of the list [id:so]. *)
Lemma protected_variable_kept_witness :
  exists htab, example_run [HEnter (str "id") (str "7") 0] = Some ([inr true], htab) /\
  @hsearch_r clbk example_hooks (str "id") (Some (str "8")) ENTER htab 0 = Some (0, None, EPERM, htab) /\
  @hdelete_r clbk example_hooks (str "id") htab 0 = Some (0, EPERM, htab).
Proof.
  unfold example_run.
  pose proof (env_hooks_ok (fun _ => true) literal (fun _ => None)
    [(str "flags", cb_flags); (str "callbacks", cb_callbacks)] (fun _ _ _ _ _ => 0) (Some (str "id:so")) None) as Hh.
  destruct (@hcreate_spec clbk example_hooks Hh 2 new_table 5) as (h1 & E1 & Hsz & Hok & _); [done|done|lia|].
  destruct (empty_table_ok 5) as (_ & _ & _ & Hnu); [lia|].
  destruct (@run_hts_refines clbk example_hooks Hh [HEnter (str "id") (str "7") 0] h1 _ ∅ Hok)
    as (rs & h2 & vs2 & m2 & E2 & Hs & Hok2); [repeat constructor; simpl; lia|simpl in *; lia|].
  rewrite E1. cbn [mbind option_bind]. vm_compute in E1. injection E1 as <-. vm_compute in E2.
  injection E2 as <- <-. eexists. split; [vm_compute; reflexivity|].
  inversion Hs as [|? ? ? m1 ? ? ? H1 H2]; subst. inversion H2; subst. inversion H1; subst.
  eapply (protected_variable_kept _ _ _ _ _ _ _ _ _ _ (str "id") (str "8") (str "so") 0 Hok2).
  - repeat constructor; simpl; lia.
  - rewrite lookup_insert_eq. by eexists.
  - repeat constructor; simpl; lia.
  - repeat constructor; simpl; lia.
  - intros i s Hi Hk _. unfold get_slot in Hi. cbn [table mbind option_bind] in Hi.
    apply aget_Some in Hi as [Hi0 Hi]. destruct (Z.to_nat i) as [|[|[|[|[|[|n]]]]]]; cbn in Hi;
      simplify_eq; first [discriminate Hk | vm_compute; reflexivity].
  - right. reflexivity.
  - reflexivity.
Defined.


(** The static list holds patterns, but [set_flags] looks its names up literally:
    the pattern of the MAC address names no variable.  Any change of [.flags]
    therefore drops the flags of [ethaddr], which [env_flags_init] had set. *)
Definition mac_pattern (pat name : list Z) : bool :=
  literal pat name ||
  bool_decide (pat = whole (str "eth\d?addr") /\ name = str "ethaddr") ||
  bool_decide (pat = whole (str "\.flags") /\ name = str ".flags").

Example changing_flags_drops_pattern_flags :
  let hooks := env_hooks (fun _ => true) mac_pattern (fun _ => None)
    [(str "flags", cb_flags); (str "callbacks", cb_callbacks)] (fun _ _ _ _ _ => 0) None None in
  fst <$> ('(_, h) ← @hcreate_r clbk hooks 4 new_table;
           @run_hts clbk hooks h
             [HEnter (str "ethaddr") (str "00:90:7f:1:2:3") 0;
              HEnter (str "ethaddr") (str "garbage") 0;
              HEnter (str ".flags") (str "x:s") 0;
              HEnter (str "ethaddr") (str "garbage") 0])
  = Some [inr true; inr false; inr true; inr true].
Proof. vm_compute. reflexivity. Qed.
