(* ===== verification/Crc32.v ===== *)
(** * CRC-32 ([lib/crc32.c])

    The checksum of the stored environment and of images.  The code reads the
    buffer by words where it can and uses a table; the specification divides bit
    by bit.  The target is little endian, so the conversions to and from little
    endian are the identity.  A buffer is the list of the bytes from its address
    on; reading behind its end is [None]. *)

From S2P Require Import Prelude StringLib.
Local Open Scope Z_scope.

(** ** The code *)

Definition crc_table : list Z :=
  [0x00000000; 0x77073096; 0xee0e612c; 0x990951ba; 0x076dc419; 0x706af48f; 0xe963a535; 0x9e6495a3;
   0x0edb8832; 0x79dcb8a4; 0xe0d5e91e; 0x97d2d988; 0x09b64c2b; 0x7eb17cbd; 0xe7b82d07; 0x90bf1d91;
   0x1db71064; 0x6ab020f2; 0xf3b97148; 0x84be41de; 0x1adad47d; 0x6ddde4eb; 0xf4d4b551; 0x83d385c7;
   0x136c9856; 0x646ba8c0; 0xfd62f97a; 0x8a65c9ec; 0x14015c4f; 0x63066cd9; 0xfa0f3d63; 0x8d080df5;
   0x3b6e20c8; 0x4c69105e; 0xd56041e4; 0xa2677172; 0x3c03e4d1; 0x4b04d447; 0xd20d85fd; 0xa50ab56b;
   0x35b5a8fa; 0x42b2986c; 0xdbbbc9d6; 0xacbcf940; 0x32d86ce3; 0x45df5c75; 0xdcd60dcf; 0xabd13d59;
   0x26d930ac; 0x51de003a; 0xc8d75180; 0xbfd06116; 0x21b4f4b5; 0x56b3c423; 0xcfba9599; 0xb8bda50f;
   0x2802b89e; 0x5f058808; 0xc60cd9b2; 0xb10be924; 0x2f6f7c87; 0x58684c11; 0xc1611dab; 0xb6662d3d;
   0x76dc4190; 0x01db7106; 0x98d220bc; 0xefd5102a; 0x71b18589; 0x06b6b51f; 0x9fbfe4a5; 0xe8b8d433;
   0x7807c9a2; 0x0f00f934; 0x9609a88e; 0xe10e9818; 0x7f6a0dbb; 0x086d3d2d; 0x91646c97; 0xe6635c01;
   0x6b6b51f4; 0x1c6c6162; 0x856530d8; 0xf262004e; 0x6c0695ed; 0x1b01a57b; 0x8208f4c1; 0xf50fc457;
   0x65b0d9c6; 0x12b7e950; 0x8bbeb8ea; 0xfcb9887c; 0x62dd1ddf; 0x15da2d49; 0x8cd37cf3; 0xfbd44c65;
   0x4db26158; 0x3ab551ce; 0xa3bc0074; 0xd4bb30e2; 0x4adfa541; 0x3dd895d7; 0xa4d1c46d; 0xd3d6f4fb;
   0x4369e96a; 0x346ed9fc; 0xad678846; 0xda60b8d0; 0x44042d73; 0x33031de5; 0xaa0a4c5f; 0xdd0d7cc9;
   0x5005713c; 0x270241aa; 0xbe0b1010; 0xc90c2086; 0x5768b525; 0x206f85b3; 0xb966d409; 0xce61e49f;
   0x5edef90e; 0x29d9c998; 0xb0d09822; 0xc7d7a8b4; 0x59b33d17; 0x2eb40d81; 0xb7bd5c3b; 0xc0ba6cad;
   0xedb88320; 0x9abfb3b6; 0x03b6e20c; 0x74b1d29a; 0xead54739; 0x9dd277af; 0x04db2615; 0x73dc1683;
   0xe3630b12; 0x94643b84; 0x0d6d6a3e; 0x7a6a5aa8; 0xe40ecf0b; 0x9309ff9d; 0x0a00ae27; 0x7d079eb1;
   0xf00f9344; 0x8708a3d2; 0x1e01f268; 0x6906c2fe; 0xf762575d; 0x806567cb; 0x196c3671; 0x6e6b06e7;
   0xfed41b76; 0x89d32be0; 0x10da7a5a; 0x67dd4acc; 0xf9b9df6f; 0x8ebeeff9; 0x17b7be43; 0x60b08ed5;
   0xd6d6a3e8; 0xa1d1937e; 0x38d8c2c4; 0x4fdff252; 0xd1bb67f1; 0xa6bc5767; 0x3fb506dd; 0x48b2364b;
   0xd80d2bda; 0xaf0a1b4c; 0x36034af6; 0x41047a60; 0xdf60efc3; 0xa867df55; 0x316e8eef; 0x4669be79;
   0xcb61b38c; 0xbc66831a; 0x256fd2a0; 0x5268e236; 0xcc0c7795; 0xbb0b4703; 0x220216b9; 0x5505262f;
   0xc5ba3bbe; 0xb2bd0b28; 0x2bb45a92; 0x5cb36a04; 0xc2d7ffa7; 0xb5d0cf31; 0x2cd99e8b; 0x5bdeae1d;
   0x9b64c2b0; 0xec63f226; 0x756aa39c; 0x026d930a; 0x9c0906a9; 0xeb0e363f; 0x72076785; 0x05005713;
   0x95bf4a82; 0xe2b87a14; 0x7bb12bae; 0x0cb61b38; 0x92d28e9b; 0xe5d5be0d; 0x7cdcefb7; 0x0bdbdf21;
   0x86d3d2d4; 0xf1d4e242; 0x68ddb3f8; 0x1fda836e; 0x81be16cd; 0xf6b9265b; 0x6fb077e1; 0x18b74777;
   0x88085ae6; 0xff0f6a70; 0x66063bca; 0x11010b5c; 0x8f659eff; 0xf862ae69; 0x616bffd3; 0x166ccf45;
   0xa00ae278; 0xd70dd2ee; 0x4e048354; 0x3903b3c2; 0xa7672661; 0xd06016f7; 0x4969474d; 0x3e6e77db;
   0xaed16a4a; 0xd9d65adc; 0x40df0b66; 0x37d83bf0; 0xa9bcae53; 0xdebb9ec5; 0x47b2cf7f; 0x30b5ffe9;
   0xbdbdf21c; 0xcabac28a; 0x53b39330; 0x24b4a3a6; 0xbad03605; 0xcdd70693; 0x54de5729; 0x23d967bf;
   0xb3667a2e; 0xc4614ab8; 0x5d681b02; 0x2a6f2b94; 0xb40bbe37; 0xc30c8ea1; 0x5a05df1b; 0x2d02ef8d].

(** [make_crc_table] computes the table for [CONFIG_DYNAMIC_CRC_TABLE]. *)
Definition crc_poly_terms : list Z := [0; 1; 2; 4; 5; 7; 8; 10; 11; 12; 16; 22; 23; 26].
Definition crc_poly : Z := fold_left (fun poly p => Z.lor poly (Z.shiftl 1 (31 - p))) crc_poly_terms 0.

Fixpoint crc_entry (k : nat) (c : Z) : Z :=
  match k with
  | O => c
  | S k => crc_entry k (if negb (Z.land c 1 =? 0) then Z.lxor crc_poly (Z.shiftr c 1) else Z.shiftr c 1)
  end.

Definition make_crc_table : list Z := (fun n => crc_entry 8 n) <$> seqZ 0 256.

Section Table.
Context (tab : list Z).

Definition DO_CRC (crc x : Z) : option Z :=
  t ← aget tab (Z.land (Z.lxor crc x) 255); Some (Z.lxor t (Z.shiftr crc 8)).

(** [do { DO_CRC( *p++) } while ((--len) && ((long)p)&3)], with [p] the address
    of [buf]. *)
Fixpoint align_loop (crc p : Z) (buf : list Z) (len : Z) : option (Z * list Z * Z) :=
  match buf with
  | [] => None
  | x :: buf =>
      crc ← DO_CRC crc x;
      let len := len - 1 in
      let p := p + 1 in
      if negb (len =? 0) && negb (Z.land p 3 =? 0) then align_loop crc p buf len else Some (crc, buf, len)
  end.

Fixpoint word_loop (crc : Z) (buf : list Z) (len : Z) {struct buf} : option (Z * list Z) :=
  if len =? 0 then Some (crc, buf)
  else
    match buf with
    | b0 :: b1 :: b2 :: b3 :: buf =>
        let word := b0 + 2 ^ 8 * b1 + 2 ^ 16 * b2 + 2 ^ 24 * b3 in
        let crc := Z.lxor crc word in
        crc ← DO_CRC crc 0; crc ← DO_CRC crc 0; crc ← DO_CRC crc 0; crc ← DO_CRC crc 0;
        word_loop crc buf (len - 1)
    | _ => None
    end.

(** [do { DO_CRC( *++p) } while (--len)] *)
Fixpoint tail_loop (crc : Z) (buf : list Z) (len : Z) : option Z :=
  match buf with
  | [] => None
  | x :: buf =>
      crc ← DO_CRC crc x;
      let len := len - 1 in
      if negb (len =? 0) then tail_loop crc buf len else Some crc
  end.

(** [addr] is the address of [buf]. *)
Definition crc32_no_comp (crc addr : Z) (buf : list Z) (len : Z) : option Z :=
  '(crc, buf, len) ← if negb (Z.land addr 3 =? 0) && negb (len =? 0)
                     then align_loop crc addr buf len else Some (crc, buf, len);
  let rem_len := Z.land len 3 in
  let len := Z.shiftr len 2 in
  '(crc, buf) ← word_loop crc buf len;
  if negb (rem_len =? 0) then tail_loop crc buf rem_len else Some crc.

Definition crc32 (crc addr : Z) (p : list Z) (len : Z) : option Z :=
  r ← crc32_no_comp (u32 (Z.lxor crc 0xffffffff)) addr p len;
  Some (u32 (Z.lxor r 0xffffffff)).

(** The loop with a watchdog: [curr < end] is a positive number of bytes left.
    The difference of the pointers is stored in an [int] and compared as an
    unsigned number. *)
Fixpoint crc32_wd_loop (fuel : nat) (crc addr : Z) (buf : list Z) (left chunk_sz : Z) : option Z :=
  match fuel with
  | O => None
  | S fuel =>
      if 0 <? left then
        let chunk := s32 left in
        let chunk := if chunk_sz <? u32 chunk then s32 chunk_sz else chunk in
        crc ← crc32 crc addr buf (u32 chunk);
        crc32_wd_loop fuel crc (addr + chunk) (drop (Z.to_nat chunk) buf) (left - chunk) chunk_sz
      else Some crc
  end.

Definition crc32_wd (crc addr : Z) (buf : list Z) (len chunk_sz : Z) : option Z :=
  crc32_wd_loop (S (Z.to_nat len)) crc addr buf len chunk_sz.

(** The configuration without a watchdog. *)
Definition crc32_nowd (crc addr : Z) (buf : list Z) (len chunk_sz : Z) : option Z := crc32 crc addr buf len.

(** The bytes that are stored in [output]: the big-endian checksum. *)
Definition crc32_wd_buf (addr : Z) (input : list Z) (ilen chunk_sz : Z) : option (list Z) :=
  crc ← crc32_wd 0 addr input ilen chunk_sz;
  Some [Z.shiftr crc 24; Z.land (Z.shiftr crc 16) 255; Z.land (Z.shiftr crc 8) 255; Z.land crc 255].
End Table.

(** ** Division bit by bit

    The register holds a polynomial over GF(2), the lowest power in the most
    significant bit; one step multiplies by x modulo the polynomial of CRC-32. *)

Definition crc_bit (c : Z) : Z := if Z.odd c then Z.lxor 0xedb88320 (Z.shiftr c 1) else Z.shiftr c 1.
Definition crc_step (c : Z) : Z := Nat.iter 8 crc_bit c.
Definition crc_byte (c x : Z) : Z := crc_step (Z.lxor c x).
Definition crc_bytes (c : Z) (l : list Z) : Z := fold_left crc_byte l c.

(** The checksum of a list of bytes, continuing from [c]. *)
Definition crc_spec (c : Z) (l : list Z) : Z :=
  Z.lxor (crc_bytes (Z.lxor c 0xffffffff) l) 0xffffffff.

Definition word32 (c : Z) : Prop := 0 <= c < 2 ^ 32.

(** ** The register *)

(** Proves an equation between exclusive ors. *)
Ltac xor_solve :=
  apply Z.bits_inj'; intros ? _; rewrite ?Z.lxor_spec;
  repeat match goal with |- context [Z.testbit ?x ?n] => destruct (Z.testbit x n) end; reflexivity.

Lemma wrap_lxor w a b : 0 <= w -> wrap w (Z.lxor a b) = Z.lxor (wrap w a) (wrap w b).
Proof.
  intros Hw. unfold wrap. apply Z.bits_inj'. intros n Hn. rewrite Z.lxor_spec.
  destruct (Z.lt_ge_cases n w).
  - by rewrite !Z.mod_pow2_bits_low, Z.lxor_spec by lia.
  - by rewrite !Z.mod_pow2_bits_high by lia.
Qed.

Lemma lxor_range w a b : 0 <= w -> 0 <= a < 2 ^ w -> 0 <= b < 2 ^ w -> 0 <= Z.lxor a b < 2 ^ w.
Proof.
  intros Hw Ha Hb. rewrite <- (wrap_small w a), <- (wrap_small w b), <- wrap_lxor by lia. by apply wrap_range.
Qed.

Lemma word32_byte x : byte_ok x -> word32 x.
Proof. unfold byte_ok, word32. lia. Qed.

Lemma odd_lxor a b : Z.odd (Z.lxor a b) = xorb (Z.odd a) (Z.odd b).
Proof. rewrite <- !Z.bit0_odd. apply Z.lxor_spec. Qed.

Lemma crc_bit_lxor a b : crc_bit (Z.lxor a b) = Z.lxor (crc_bit a) (crc_bit b).
Proof. unfold crc_bit. rewrite odd_lxor, Z.shiftr_lxor. destruct (Z.odd a), (Z.odd b); cbn [xorb]; xor_solve. Qed.

(** The steps of the register are linear. *)
Lemma iter_crc_bit_lxor n a b : Nat.iter n crc_bit (Z.lxor a b) = Z.lxor (Nat.iter n crc_bit a) (Nat.iter n crc_bit b).
Proof. induction n as [|n IH]; [done|]. cbn [Nat.iter nat_rect]. fold (Nat.iter n crc_bit (Z.lxor a b)). by rewrite IH, crc_bit_lxor. Qed.

Lemma crc_step_lxor a b : crc_step (Z.lxor a b) = Z.lxor (crc_step a) (crc_step b).
Proof. apply iter_crc_bit_lxor. Qed.

Lemma crc_bit_double h : crc_bit (2 * h) = h.
Proof.
  unfold crc_bit. rewrite Z.odd_mul. cbn [Z.odd andb]. rewrite Z.shiftr_div_pow2 by lia.
  by rewrite Z.mul_comm, Z.div_mul.
Qed.

Lemma crc_step_shiftl h : crc_step (256 * h) = h.
Proof.
  unfold crc_step. cbn [Nat.iter nat_rect].
  replace (256 * h) with (2 * (2 * (2 * (2 * (2 * (2 * (2 * (2 * h)))))))) by lia. by rewrite !crc_bit_double.
Qed.

Lemma crc_bit_range c : word32 c -> word32 (crc_bit c).
Proof.
  intros Hc. unfold crc_bit. assert (word32 (Z.shiftr c 1)) as Hs.
  { rewrite Z.shiftr_div_pow2 by lia. unfold word32 in *. split; [apply Z.div_pos|apply Z.div_lt_upper_bound]; lia. }
  destruct (Z.odd c); [|done]. apply (lxor_range 32); [lia| |done]. by vm_compute.
Qed.

Lemma crc_step_range c : word32 c -> word32 (crc_step c).
Proof. intros Hc. unfold crc_step. cbn [Nat.iter nat_rect]. by repeat apply crc_bit_range. Qed.

Lemma crc_byte_range c x : word32 c -> byte_ok x -> word32 (crc_byte c x).
Proof. intros Hc Hx. apply crc_step_range, (lxor_range 32); [lia|done|by apply word32_byte]. Qed.

Lemma crc_bytes_range l : forall c, word32 c -> Forall byte_ok l -> word32 (crc_bytes c l).
Proof.
  induction l as [|x l IH]; intros c Hc Hl; [done|]. apply Forall_cons in Hl as [Hx Hl].
  apply IH; [by apply crc_byte_range|done].
Qed.

Lemma crc_bytes_app c l1 l2 : crc_bytes c (l1 ++ l2) = crc_bytes (crc_bytes c l1) l2.
Proof. apply fold_left_app. Qed.

(** The highest bit of the polynomial makes the step one to one. *)
Lemma crc_bit_zero c : word32 c -> crc_bit c = 0 -> c = 0.
Proof.
  intros Hc. unfold crc_bit. rewrite Z.shiftr_div_pow2 by lia. change (2 ^ 1) with 2.
  pose proof (Z.div_mod c 2 ltac:(lia)) as Hd. rewrite Zmod_odd in Hd. destruct (Z.odd c).
  - intros H. apply Z.lxor_eq in H. unfold word32 in *. lia.
  - lia.
Qed.

Lemma iter_crc_bit_zero n : forall c, word32 c -> Nat.iter n crc_bit c = 0 -> c = 0.
Proof.
  induction n as [|n IH]; intros c Hc; [done|]. rewrite Nat.iter_succ_r. intros H.
  apply crc_bit_zero; [done|]. apply IH; [by apply crc_bit_range|done].
Qed.

Lemma crc_step_inj a b : word32 a -> word32 b -> crc_step a = crc_step b -> a = b.
Proof.
  intros Ha Hb E. apply Z.lxor_eq, (iter_crc_bit_zero 8); [by apply (lxor_range 32)|].
  fold (crc_step (Z.lxor a b)). rewrite crc_step_lxor, E. apply Z.lxor_nilpotent.
Qed.

(** ** The table *)

Lemma crc_entry_iter k : forall c, crc_entry k c = Nat.iter k crc_bit c.
Proof.
  induction k as [|k IH]; intros c; [done|]. rewrite Nat.iter_succ_r. cbn [crc_entry]. rewrite IH. f_equal.
  unfold crc_bit. replace (Z.land c 1) with (c mod 2 ^ 1) by (rewrite <- Z.land_ones by lia; done).
  change (2 ^ 1) with 2. rewrite Zmod_odd. by destruct (Z.odd c).
Qed.

Lemma crc_tables_equal : make_crc_table = crc_table.
Proof. vm_compute. reflexivity. Qed.

Lemma crc_table_step x : byte_ok x -> aget crc_table x = Some (crc_step x).
Proof.
  intros Hx. rewrite <- crc_tables_equal. unfold make_crc_table, aget, byte_ok in *.
  rewrite (proj2 (Z.leb_le 0 x)) by lia. rewrite list_lookup_fmap, lookup_seqZ_lt by lia.
  cbn [fmap option_fmap option_map]. rewrite crc_entry_iter. do 2 f_equal. lia.
Qed.

(** A sum without carries. *)
Lemma add_lxor_byte x h : byte_ok x -> x + 256 * h = Z.lxor x (256 * h).
Proof.
  intros Hx. apply Z.add_nocarry_lxor, Z.bits_inj'. intros n Hn. rewrite Z.land_spec, Z.bits_0.
  change 256 with (2 ^ 8). destruct (Z.lt_ge_cases n 8).
  - rewrite (Z.mul_comm (2 ^ 8)), Z.mul_pow2_bits_low by lia. apply andb_false_r.
  - rewrite <- (wrap_small 8 x) by (unfold byte_ok in *; lia). unfold wrap. by rewrite Z.mod_pow2_bits_high by lia.
Qed.

Lemma DO_CRC_step c x : word32 c -> byte_ok x -> DO_CRC crc_table c x = Some (crc_byte c x).
Proof.
  intros Hc Hx. unfold DO_CRC. set (y := Z.lxor c x).
  assert (Z.land y 255 = y mod 256) as -> by (change 255 with (Z.ones 8); by rewrite Z.land_ones by lia).
  pose proof (Z.mod_pos_bound y 256 ltac:(lia)) as Hm. rewrite crc_table_step, mbind_Some by done. f_equal.
  assert (Z.shiftr c 8 = y / 256) as ->.
  { change 256 with (2 ^ 8). unfold y. rewrite <- Z.shiftr_div_pow2, Z.shiftr_lxor, (Z.shiftr_div_pow2 x) by lia.
    rewrite (Z.div_small x (2 ^ 8)) by (unfold byte_ok in *; lia). by rewrite Z.lxor_0_r. }
  unfold crc_byte. fold y. rewrite <- (crc_step_shiftl (y / 256)) at 1. rewrite <- crc_step_lxor. f_equal.
  rewrite <- add_lxor_byte by done. rewrite (Z.div_mod y 256) at 3 by lia. lia.
Qed.

(** The number whose little-endian bytes are [l]. *)
Fixpoint le_num (l : list Z) : Z :=
  match l with [] => 0 | x :: l => x + 256 * le_num l end.

(** The steps on bytes are steps on the whole number. *)
Lemma crc_bytes_num l : forall c, Forall byte_ok l -> crc_bytes c l = Nat.iter (length l) crc_step (Z.lxor c (le_num l)).
Proof.
  induction l as [|x l IH]; intros c Hl; [symmetry; apply Z.lxor_0_r|]. apply Forall_cons in Hl as [Hx Hl].
  cbn [length le_num]. rewrite Nat.iter_succ_r, add_lxor_byte, <- Z.lxor_assoc, crc_step_lxor, crc_step_shiftl by done.
  by apply IH.
Qed.

Lemma le_num_range l : Forall byte_ok l -> 0 <= le_num l < 256 ^ Z.of_nat (length l).
Proof.
  induction 1 as [|x l Hx Hl IH]; [done|]. cbn [length le_num]. unfold byte_ok in Hx.
  rewrite Nat2Z.inj_succ, Z.pow_succ_r by lia. lia.
Qed.

Lemma le_num_inj l : forall l', length l = length l' -> Forall byte_ok l -> Forall byte_ok l' -> le_num l = le_num l' -> l = l'.
Proof.
  induction l as [|x l IH]; intros [|x' l'] Hlen Hl Hl' E; try done.
  apply Forall_cons in Hl as [Hx Hl], Hl' as [Hx' Hl']. cbn [le_num length] in *. unfold byte_ok in *.
  assert (x = x' /\ le_num l = le_num l') as [-> E'] by lia. f_equal. apply IH; try done. lia.
Qed.

(** ** The loops *)

Lemma crc_bytes_cons c x l : crc_bytes c (x :: l) = crc_bytes (crc_byte c x) l.
Proof. done. Qed.

Lemma align_loop_spec buf : forall crc p len,
  word32 crc -> Forall byte_ok buf -> 0 < len <= Z.of_nat (length buf) ->
  exists k, (k <= Z.to_nat len)%nat /\
    align_loop crc_table crc p buf len = Some (crc_bytes crc (take k buf), drop k buf, len - Z.of_nat k).
Proof.
  induction buf as [|x buf IH]; intros crc p len Hc Hb Hlen; [simpl in *; lia|].
  apply Forall_cons in Hb as [Hx Hb]. cbn [align_loop]. rewrite DO_CRC_step, mbind_Some by done. cbv zeta.
  case_if.
  - destruct (IH (crc_byte crc x) (p + 1) (len - 1)) as (k & Hk & ->);
      [by apply crc_byte_range|done|simpl in *; lia|]. exists (S k). split; [lia|].
    cbn [take drop]. rewrite crc_bytes_cons. do 2 f_equal. lia.
  - exists 1%nat. split; [lia|]. by rewrite firstn_cons, skipn_cons, take_0, drop_0.
Qed.

Lemma word_loop_spec n : forall crc buf,
  word32 crc -> Forall byte_ok buf -> (4 * n <= length buf)%nat ->
  word_loop crc_table crc buf (Z.of_nat n) = Some (crc_bytes crc (take (4 * n) buf), drop (4 * n) buf).
Proof.
  induction n as [|n IH]; intros crc buf Hc Hb Hlen.
  { by destruct buf. }
  destruct buf as [|b0 [|b1 [|b2 [|b3 buf]]]]; try (simpl in *; lia).
  replace (4 * S n)%nat with (4 + 4 * n)%nat by lia.
  change (b0 :: b1 :: b2 :: b3 :: buf) with ([b0; b1; b2; b3] ++ buf) in Hb |- *.
  apply Forall_app in Hb as [Hw Hb]. rewrite take_app_add', drop_app_add' by done.
  rewrite crc_bytes_app, (crc_bytes_num [b0; b1; b2; b3]) by done. cbn [word_loop app]. rewrite (proj2 (Z.eqb_neq _ _)) by lia.
  replace (b0 + 2 ^ 8 * b1 + 2 ^ 16 * b2 + 2 ^ 24 * b3) with (le_num [b0; b1; b2; b3]) by (cbn [le_num]; lia).
  assert (word32 (Z.lxor crc (le_num [b0; b1; b2; b3]))) as H0.
  { apply (lxor_range 32); [lia|done|]. apply le_num_range in Hw. done. }
  assert (forall c, crc_byte c 0 = crc_step c) as Hz by (intros c; unfold crc_byte; by rewrite Z.lxor_0_r).
  cbv zeta. do 4 (rewrite DO_CRC_step, mbind_Some, Hz by (repeat apply crc_step_range; done || by vm_compute)).
  replace (Z.of_nat (S n) - 1) with (Z.of_nat n) by lia.
  rewrite IH by (repeat apply crc_step_range; done || (simpl in *; lia)).
  by cbn [length Nat.iter nat_rect].
Qed.

Lemma tail_loop_spec buf : forall crc len,
  word32 crc -> Forall byte_ok buf -> 0 < len <= Z.of_nat (length buf) ->
  tail_loop crc_table crc buf len = Some (crc_bytes crc (take (Z.to_nat len) buf)).
Proof.
  induction buf as [|x buf IH]; intros crc len Hc Hb Hlen; [simpl in *; lia|].
  apply Forall_cons in Hb as [Hx Hb]. cbn [tail_loop]. rewrite DO_CRC_step, mbind_Some by done. cbv zeta.
  replace (Z.to_nat len) with (S (Z.to_nat (len - 1))) by lia. rewrite firstn_cons, crc_bytes_cons.
  case_if; [apply IH; [by apply crc_byte_range|done|simpl in *; lia]|].
  by replace (len - 1) with 0 by lia.
Qed.

Lemma crc32_no_comp_spec crc addr buf len :
  word32 crc -> Forall byte_ok buf -> 0 <= len <= Z.of_nat (length buf) ->
  crc32_no_comp crc_table crc addr buf len = Some (crc_bytes crc (take (Z.to_nat len) buf)).
Proof.
  intros Hc Hb Hlen. unfold crc32_no_comp.
  assert (exists k, (k <= Z.to_nat len)%nat /\
    (if negb (Z.land addr 3 =? 0) && negb (len =? 0) then align_loop crc_table crc addr buf len else Some (crc, buf, len))
    = Some (crc_bytes crc (take k buf), drop k buf, len - Z.of_nat k)) as (k & Hk & ->).
  { case_if; [apply align_loop_spec; try done; lia|]. exists 0%nat. split; [lia|]. by rewrite Z.sub_0_r. }
  step_bind. cbv zeta. set (c1 := crc_bytes crc (take k buf)). set (m := len - Z.of_nat k).
  assert (Z.land m 3 = m mod 4) as -> by (change 3 with (Z.ones 2); by rewrite Z.land_ones by lia).
  rewrite Z.shiftr_div_pow2 by lia. change (2 ^ 2) with 4.
  pose proof (Z.div_mod m 4 ltac:(lia)) as Hd. pose proof (Z.mod_pos_bound m 4 ltac:(lia)) as Hm.
  assert (0 <= m / 4) as Hq by (apply Z.div_pos; lia). rewrite <- (Z2Nat.id (m / 4)) by done.
  assert (word32 c1) as Hc1 by (apply crc_bytes_range; [done|by apply Forall_take]).
  rewrite word_loop_spec by (done || (by apply Forall_drop) || (rewrite length_drop; lia)). step_bind.
  set (q := (4 * Z.to_nat (m / 4))%nat). unfold c1. rewrite drop_drop, <- crc_bytes_app, take_take_drop.
  case_if.
  - rewrite tail_loop_spec.
    + rewrite <- crc_bytes_app, take_take_drop. do 3 f_equal. lia.
    + apply crc_bytes_range; [done|by apply Forall_take].
    + by apply Forall_drop.
    + rewrite length_drop. lia.
  - do 3 f_equal. lia.
Qed.

Lemma crc32_spec crc addr buf len :
  word32 crc -> Forall byte_ok buf -> 0 <= len <= Z.of_nat (length buf) ->
  crc32 crc_table crc addr buf len = Some (crc_spec crc (take (Z.to_nat len) buf)).
Proof.
  intros Hc Hb Hlen. unfold crc32, crc_spec.
  assert (word32 (Z.lxor crc 0xffffffff)) as Hx by (apply (lxor_range 32); done).
  rewrite (wrap_small 32 (Z.lxor crc _)) by done. rewrite crc32_no_comp_spec, mbind_Some by done. f_equal.
  apply wrap_small. apply (lxor_range 32); [lia| |done]. apply crc_bytes_range; [done|by apply Forall_take].
Qed.

Lemma crc_spec_range c l : word32 c -> Forall byte_ok l -> word32 (crc_spec c l).
Proof.
  intros Hc Hl. apply (lxor_range 32); [lia| |done]. apply crc_bytes_range; [|done]. by apply (lxor_range 32).
Qed.

(** The checksum of a part can be continued with the rest. *)
Lemma crc_spec_app c l1 l2 : crc_spec c (l1 ++ l2) = crc_spec (crc_spec c l1) l2.
Proof. unfold crc_spec. rewrite crc_bytes_app. do 2 f_equal. by rewrite Z.lxor_assoc, Z.lxor_nilpotent, Z.lxor_0_r. Qed.

Lemma crc32_wd_loop_spec fuel : forall crc addr buf left chunk_sz,
  word32 crc -> Forall byte_ok buf -> 0 <= left <= Z.of_nat (length buf) -> left < 2 ^ 31 ->
  0 < chunk_sz < 2 ^ 32 -> (Z.to_nat left < fuel)%nat ->
  crc32_wd_loop crc_table fuel crc addr buf left chunk_sz = Some (crc_spec crc (take (Z.to_nat left) buf)).
Proof.
  induction fuel as [|fuel IH]; intros crc addr buf left sz Hc Hb Hl Hl31 Hsz Hf; [lia|]. cbn [crc32_wd_loop].
  case_if.
  2: { replace left with 0 by lia. rewrite take_0. unfold crc_spec. simpl.
       by rewrite Z.lxor_assoc, Z.lxor_nilpotent, Z.lxor_0_r. }
  rewrite (swrap_small 32 left) by lia. rewrite (wrap_small 32 left) by lia.
  set (chunk := if sz <? left then s32 sz else left).
  assert (0 < chunk <= left) as Hch.
  { unfold chunk. case_if; [rewrite swrap_small by lia; lia|lia]. }
  cbv zeta. rewrite wrap_small by lia. rewrite crc32_spec, mbind_Some by (done || lia).
  rewrite IH; [..|lia].
  - rewrite <- crc_spec_app, take_take_drop. do 3 f_equal. lia.
  - apply crc_spec_range; [done|by apply Forall_take].
  - by apply Forall_drop.
  - rewrite length_drop. lia.
  - lia.
  - done.
Qed.

Lemma lxor_cancel a b c : Z.lxor a c = Z.lxor b c -> a = b.
Proof.
  intros E. rewrite <- (Z.lxor_0_r a), <- (Z.lxor_0_r b), <- (Z.lxor_nilpotent c), <- !Z.lxor_assoc. by rewrite E.
Qed.

Lemma iter_crc_step_inj n : forall a b, word32 a -> word32 b -> Nat.iter n crc_step a = Nat.iter n crc_step b -> a = b.
Proof.
  induction n as [|n IH]; intros a b Ha Hb; [done|]. rewrite !Nat.iter_succ_r. intros E.
  apply IH in E; [|by apply crc_step_range..]. by apply crc_step_inj.
Qed.

(** The register before some bytes follows from the register after them. *)
Lemma crc_bytes_inj l : forall a b, word32 a -> word32 b -> Forall byte_ok l -> crc_bytes a l = crc_bytes b l -> a = b.
Proof.
  induction l as [|x l IH]; intros a b Ha Hb Hl; [done|]. apply Forall_cons in Hl as [Hx Hl].
  rewrite !crc_bytes_cons. intros E. apply IH in E; [|by apply crc_byte_range..|done].
  apply crc_step_inj in E; [by apply lxor_cancel in E|apply (lxor_range 32); [lia|done|by apply word32_byte]..].
Qed.

(** An error within four consecutive bytes changes the checksum. *)
Lemma crc_spec_burst c pre w1 w2 post :
  word32 c -> Forall byte_ok (pre ++ w1 ++ post) -> Forall byte_ok w2 ->
  length w1 = length w2 -> (length w1 <= 4)%nat -> w1 <> w2 ->
  crc_spec c (pre ++ w1 ++ post) <> crc_spec c (pre ++ w2 ++ post).
Proof.
  intros Hc Hb Hw2 Hlen H4 Hne E. apply Forall_app in Hb as [Hpre Hb]. apply Forall_app in Hb as [Hw1 Hpost].
  apply Hne. unfold crc_spec in E. apply lxor_cancel in E. rewrite !crc_bytes_app in E.
  set (c1 := crc_bytes (Z.lxor c 4294967295) pre) in E.
  assert (word32 c1) as Hc1 by (apply crc_bytes_range; [by apply (lxor_range 32)|done]).
  apply crc_bytes_inj in E; [|apply crc_bytes_range; done..|done].
  rewrite !crc_bytes_num, Hlen in E by done.
  assert (forall w, Forall byte_ok w -> (length w <= 4)%nat -> word32 (le_num w)) as Hr.
  { intros w Hw Hl4. apply le_num_range in Hw. unfold word32. change (2 ^ 32) with (256 ^ 4).
    assert (256 ^ Z.of_nat (length w) <= 256 ^ 4) by (apply Z.pow_le_mono_r; lia). lia. }
  apply iter_crc_step_inj in E; [|apply (lxor_range 32); [lia|done|apply Hr; done || lia]..].
  rewrite !(Z.lxor_comm c1) in E. apply lxor_cancel in E. by apply le_num_inj.
Qed.

(** ** Claims *)

(** C20: reading by words after aligning the pointer and looking bytes up in the
    table computes the CRC-32 of the buffer, bit by bit division, for every
    alignment and every length within the buffer. *)
Theorem crc32_correct crc addr buf len :
  word32 crc -> Forall byte_ok buf -> 0 <= len <= Z.of_nat (length buf) ->
  crc32 crc_table crc addr buf len = Some (crc_spec crc (take (Z.to_nat len) buf)).
Proof. apply crc32_spec. Qed.

(** Witness: nine bytes from an odd address. *)
Lemma crc32_correct_witness :
  crc32 crc_table 0 7 (str "123456789") 9 = Some (crc_spec 0 (take (Z.to_nat 9) (str "123456789"))).
Proof. apply crc32_correct; [by vm_compute|repeat constructor; simpl; lia|by vm_compute]. Defined.

(** The check value of CRC-32. *)
Example crc32_check : crc32 crc_table 0 7 (str "123456789") 9 = Some 0xcbf43926.
Proof. vm_compute. reflexivity. Qed.

(** Splitting the buffer in chunks for the watchdog ends and does not change
    the checksum, for every size of the chunks. *)
Theorem crc32_wd_correct crc addr buf len chunk_sz :
  word32 crc -> Forall byte_ok buf -> 0 <= len <= Z.of_nat (length buf) -> len < 2 ^ 31 -> 0 < chunk_sz < 2 ^ 32 ->
  crc32_wd crc_table crc addr buf len chunk_sz = crc32 crc_table crc addr buf len.
Proof. intros. unfold crc32_wd. rewrite crc32_wd_loop_spec, crc32_spec by (done || lia). done. Qed.

(** Witness: chunks of four bytes. *)
Lemma crc32_wd_correct_witness :
  crc32_wd crc_table 0 3 (str "123456789") 9 4 = crc32 crc_table 0 3 (str "123456789") 9.
Proof. apply crc32_wd_correct; [by vm_compute|repeat constructor; simpl; lia|simpl; lia|lia|lia]. Defined.

(** An error within four consecutive bytes changes the checksum. *)
Theorem crc32_detects_burst crc addr pre w1 w2 post :
  word32 crc -> Forall byte_ok (pre ++ w1 ++ post) -> Forall byte_ok w2 ->
  length w1 = length w2 -> (length w1 <= 4)%nat -> w1 <> w2 ->
  let len := Z.of_nat (length (pre ++ w1 ++ post)) in
  crc32 crc_table crc addr (pre ++ w1 ++ post) len <> crc32 crc_table crc addr (pre ++ w2 ++ post) len.
Proof.
  intros Hc Hb Hw2 Hlen H4 Hne len.
  assert (length (pre ++ w2 ++ post) = length (pre ++ w1 ++ post)) as Hl by (rewrite !length_app; lia).
  assert (Forall byte_ok (pre ++ w2 ++ post)) as Hb2 by (rewrite !Forall_app in *; naive_solver).
  rewrite !crc32_spec by (done || lia). unfold len. rewrite Nat2Z.id.
  rewrite firstn_all, <- Hl, firstn_all. intros [= E]. by apply crc_spec_burst in E.
Qed.

(** Witness: two bytes swapped. *)
Lemma crc32_detects_burst_witness :
  let len := Z.of_nat (length (str "ab" ++ [1; 2] ++ str "cd")) in
  crc32 crc_table 0 5 (str "ab" ++ [1; 2] ++ str "cd") len <> crc32 crc_table 0 5 (str "ab" ++ [2; 1] ++ str "cd") len.
Proof.
  apply (crc32_detects_burst 0 5 (str "ab") [1; 2] [2; 1] (str "cd"));
    [by vm_compute|repeat constructor; simpl; lia|repeat constructor; simpl; lia|done|simpl; lia|done].
Defined.
