(* ===== verification/Hash.v ===== *)
(** * Hash algorithms by name ([common/hash.c], [lib/rsa/rsa-checksum.c])

    The table of algorithms, the interface that hashes one block and the one that
    is fed piece by piece.  Data that is hashed is the list of the bytes from an
    address on; a function is [None] when it reads behind the data, writes behind
    an output buffer, or is handed a NULL context. *)

From S2P Require Import Prelude StringLib Strto Blocks Sha1 Sha256 Crc32.
Local Open Scope Z_scope.

Definition SHA1_SUM_LEN : Z := 20.
Definition CHUNKSZ_SHA1 : Z := 64 * 1024.
Definition CHUNKSZ_CRC32 : Z := 64 * 1024.

(** What the [void *ctx] of a progressive hash points to. *)
Inductive hash_ctx :=
  | Ctx_sha1 (ctx : sha1_context)
  | Ctx_sha256 (ctx : sha256_context)
  | Ctx_crc32 (crc : Z).

(** The first [size] bytes at an address. *)
Definition bytes_at (data : list Z) (size : Z) : option (list Z) :=
  if size <=? Z.of_nat (length data) then Some (take (Z.to_nat size) data) else None.

(** [heap] is what [malloc] returns: the old bytes of the block, or NULL, which
    is not checked. *)
Definition hash_init_sha1 (heap : option (list Z)) : option hash_ctx := buf ← heap; Some (Ctx_sha1 (sha1_starts buf)).
Definition hash_init_sha256 (heap : option (list Z)) : option hash_ctx := buf ← heap; Some (Ctx_sha256 (sha256_starts buf)).
Definition hash_init_crc32 (heap : option (list Z)) : option hash_ctx := _ ← heap; Some (Ctx_crc32 0).

Definition hash_update_sha1 (ctx : hash_ctx) (addr : Z) (buf : list Z) (size : Z) : option hash_ctx :=
  match ctx with Ctx_sha1 c => d ← bytes_at buf size; Some (Ctx_sha1 (sha1_update c d)) | _ => None end.
Definition hash_update_sha256 (ctx : hash_ctx) (addr : Z) (buf : list Z) (size : Z) : option hash_ctx :=
  match ctx with Ctx_sha256 c => d ← bytes_at buf size; Some (Ctx_sha256 (sha256_update c d)) | _ => None end.
Definition hash_update_crc32 (ctx : hash_ctx) (addr : Z) (buf : list Z) (size : Z) : option hash_ctx :=
  match ctx with Ctx_crc32 c => c ← crc32 crc_table c addr buf size; Some (Ctx_crc32 c) | _ => None end.

(** The return value and the output buffer. *)
Definition hash_finish_sha1 (digest_size : Z) (ctx : hash_ctx) (dest_buf : list Z) (size : Z) : option (Z * list Z) :=
  match ctx with
  | Ctx_sha1 c => if size <? digest_size then Some (-1, dest_buf) else d ← store_bytes dest_buf 0 (sha1_finish c); Some (0, d)
  | _ => None
  end.
Definition hash_finish_sha256 (digest_size : Z) (ctx : hash_ctx) (dest_buf : list Z) (size : Z) : option (Z * list Z) :=
  match ctx with
  | Ctx_sha256 c => if size <? digest_size then Some (-1, dest_buf) else d ← store_bytes dest_buf 0 (sha256_finish c); Some (0, d)
  | _ => None
  end.
(** The number is stored as it is in memory, little endian. *)
Definition hash_finish_crc32 (digest_size : Z) (ctx : hash_ctx) (dest_buf : list Z) (size : Z) : option (Z * list Z) :=
  match ctx with
  | Ctx_crc32 c => if size <? digest_size then Some (-1, dest_buf) else d ← store_bytes dest_buf 0 (word_bytes 4 c); Some (0, d)
  | _ => None
  end.

(** [hash_func_ws stack addr input ilen output chunk_sz]: [stack] is the buffer of
    a context on the stack. *)
Record hash_algo := mk_hash_algo {
  algo_name : list Z;
  digest_size : Z;
  chunk_size : Z;
  hash_func_ws : list Z -> Z -> list Z -> Z -> list Z -> Z -> option (list Z);
  hash_init : option (list Z) -> option hash_ctx;
  hash_update : hash_ctx -> Z -> list Z -> Z -> option hash_ctx;
  hash_finish : Z -> hash_ctx -> list Z -> Z -> option (Z * list Z)
}.

Definition sha1_func (stack : list Z) (addr : Z) (input : list Z) (ilen : Z) (output : list Z) (chunk_sz : Z) : option (list Z) :=
  d ← bytes_at input ilen; s ← sha1_csum_wd stack d (Z.to_nat chunk_sz); store_bytes output 0 s.
Definition sha256_func (stack : list Z) (addr : Z) (input : list Z) (ilen : Z) (output : list Z) (chunk_sz : Z) : option (list Z) :=
  d ← bytes_at input ilen; s ← sha256_csum_wd stack d (Z.to_nat chunk_sz); store_bytes output 0 s.
Definition crc32_func (stack : list Z) (addr : Z) (input : list Z) (ilen : Z) (output : list Z) (chunk_sz : Z) : option (list Z) :=
  s ← crc32_wd_buf crc_table addr input ilen chunk_sz; store_bytes output 0 s.

(** The software versions of all algorithms. *)
Definition hash_algos : list hash_algo :=
  [mk_hash_algo (str "sha1") SHA1_SUM_LEN CHUNKSZ_SHA1 sha1_func hash_init_sha1 hash_update_sha1 hash_finish_sha1;
   mk_hash_algo (str "sha256") SHA256_SUM_LEN CHUNKSZ_SHA256 sha256_func hash_init_sha256 hash_update_sha256 hash_finish_sha256;
   mk_hash_algo (str "crc32") 4 CHUNKSZ_CRC32 crc32_func hash_init_crc32 hash_update_crc32 hash_finish_crc32].

Fixpoint lookup_loop (algos : list hash_algo) (name : list Z) : Z + hash_algo :=
  match algos with
  | [] => inl (- EPROTONOSUPPORT)
  | a :: algos => if strcmp name (algo_name a) =? 0 then inr a else lookup_loop algos name
  end.

Definition hash_lookup_algo (name : list Z) : Z + hash_algo := lookup_loop hash_algos name.

(** All algorithms of the table have a [hash_init]. *)
Definition hash_progressive_lookup_algo (name : list Z) : Z + hash_algo := lookup_loop hash_algos name.

(** [simple_strtoul] of the array [chr], which need not end with a NUL: the digits
    must end within the array. *)
Definition strtoul_array (chr : list Z) (base : Z) : option Z :=
  let '(v, rest) := simple_strtoul (cstr chr) base in
  if (length (cstr chr) <? length chr)%nat || negb (bool_decide (rest = [])) then Some v else None.

(** The loop of [hash_parse_string] from [i] on: [chr] is the array of three bytes,
    of which the third is never written.  [s] is the string from [&str[i * 2]] on;
    behind its NUL there is nothing to read. *)
Fixpoint parse_loop (n : nat) (i : Z) (chr : list Z) (s : option (list Z)) (result : list Z) : option (list Z) :=
  match n with
  | O => Some result
  | S n =>
      s ← s;
      chr ← strncpy chr 0 s 2;
      v ← strtoul_array chr 16;
      result ← aset result i (u8 v);
      parse_loop n (i + 1) chr (if (length s <? 2)%nat then None else Some (drop 2 s)) result
  end.

(** The return value and [result]; [chr] is what the stack holds. *)
Definition hash_parse_string (chr : list Z) (name s result : list Z) : option (Z * list Z) :=
  match hash_lookup_algo name with
  | inl ret => Some (ret, result)
  | inr algo => r ← parse_loop (Z.to_nat (digest_size algo)) 0 chr (Some s) result; Some (0, r)
  end.

(** The return value, the output, and [*output_size] ([None] for NULL). *)
Definition hash_block (stack name : list Z) (addr : Z) (data : list Z) (len : Z) (output : list Z) (output_size : option Z)
    : option (Z * list Z * option Z) :=
  match hash_lookup_algo name with
  | inl ret => Some (ret, output, output_size)
  | inr algo =>
      if match output_size with Some n => n <? digest_size algo | None => false end then Some (- ENOSPC, output, output_size)
      else
        output ← hash_func_ws algo stack addr data len output (chunk_size algo);
        Some (0, output, (fun _ => digest_size algo) <$> output_size)
  end.

(** ** Regions ([lib/rsa/rsa-checksum.c]) *)

Record image_region := mk_region { region_addr : Z; region_data : list Z; region_size : Z }.

(** [for (i = 0; i < region_count - 1; i++)], where [n] updates are left: the
    context and the region behind the loop. *)
Fixpoint update_loop (algo : hash_algo) (ctx : hash_ctx) (n : Z) (region : list image_region) : option (hash_ctx * image_region) :=
  match region with
  | [] => None
  | r :: region =>
      if n <=? 0 then Some (ctx, r)
      else
        ctx ← hash_update algo ctx (region_addr r) (region_data r) (u32 (region_size r));
        update_loop algo ctx (n - 1) region
  end.

(** [i] is compared as an unsigned number.  No update function fails. *)
Definition hash_calculate (heap : option (list Z)) (name : list Z) (region : list image_region) (checksum : list Z) : option (Z * list Z) :=
  match hash_progressive_lookup_algo name with
  | inl ret => Some (ret, checksum)
  | inr algo =>
      ctx ← hash_init algo heap;
      '(ctx, r) ← update_loop algo ctx (u32 (Z.of_nat (length region) - 1)) region;
      ctx ← hash_update algo ctx (region_addr r) (region_data r) (u32 (region_size r));
      hash_finish algo (digest_size algo) ctx checksum (digest_size algo)
  end.

(** ** The digests *)

Inductive kind := Sha1_kind | Sha256_kind | Crc32_kind.

Definition algo (k : kind) : hash_algo :=
  match k with
  | Sha1_kind => mk_hash_algo (str "sha1") SHA1_SUM_LEN CHUNKSZ_SHA1 sha1_func hash_init_sha1 hash_update_sha1 hash_finish_sha1
  | Sha256_kind =>
      mk_hash_algo (str "sha256") SHA256_SUM_LEN CHUNKSZ_SHA256 sha256_func hash_init_sha256 hash_update_sha256 hash_finish_sha256
  | Crc32_kind => mk_hash_algo (str "crc32") 4 CHUNKSZ_CRC32 crc32_func hash_init_crc32 hash_update_crc32 hash_finish_crc32
  end.

Definition kind_of (name : list Z) : option kind :=
  if decide (name = str "sha1") then Some Sha1_kind else if decide (name = str "sha256") then Some Sha256_kind
  else if decide (name = str "crc32") then Some Crc32_kind else None.

(** The digest of a message: of a block, and by the progressive functions. *)
Definition digest (k : kind) (m : list Z) : list Z :=
  match k with
  | Sha1_kind => fips_sha1 m
  | Sha256_kind => fips_sha256 m
  | Crc32_kind => rev (word_bytes 4 (crc_spec 0 m))
  end.
Definition progressive_digest (k : kind) (m : list Z) : list Z :=
  match k with Crc32_kind => rev (digest k m) | _ => digest k m end.

(** The message that a context of an algorithm has been fed. *)
Definition ctx_holds (k : kind) (ctx : hash_ctx) (m : list Z) : Prop :=
  match k, ctx with
  | Sha1_kind, Ctx_sha1 c => holds c m
  | Sha256_kind, Ctx_sha256 c => holds c m
  | Crc32_kind, Ctx_crc32 c => Forall byte_ok m /\ c = crc_spec 0 m
  | _, _ => False
  end.

Lemma lookup_kind name : cstring name ->
  hash_lookup_algo name = match kind_of name with Some k => inr (algo k) | None => inl (- EPROTONOSUPPORT) end.
Proof.
  intros Hn. unfold hash_lookup_algo, kind_of, hash_algos. cbn [lookup_loop algo_name].
  assert (forall t, cstring t -> (strcmp name t =? 0) = bool_decide (name = t)) as Hc.
  { intros t Ht. apply eq_bool_prop_intro. rewrite bool_decide_spec, <- (strcmp_0 name t Hn Ht). by rewrite <- Z.eqb_eq, Is_true_true. }
  rewrite !Hc by (repeat constructor). repeat case_bool_decide; repeat case_decide; done.
Qed.

Lemma length_hash k m : Z.of_nat (length (digest k m)) = digest_size (algo k).
Proof. destruct k; cbn [digest algo digest_size]; [by rewrite length_sha1|by rewrite length_sha256|by rewrite length_rev]. Qed.

Lemma length_progressive k m : length (progressive_digest k m) = length (digest k m).
Proof. destruct k; [done..|]. apply length_rev. Qed.

Lemma digest_bytes_ok k m : Forall byte_ok (digest k m).
Proof. destruct k; cbn [digest]; [apply sha1_bytes|apply sha256_bytes|apply Forall_rev, word_bytes_ok]. Qed.

Lemma init_ctx_holds k buf : length buf = 64%nat -> exists ctx, hash_init (algo k) (Some buf) = Some ctx /\ ctx_holds k ctx [].
Proof.
  intros Hb. destruct k; (eexists; split; [reflexivity|]); cbn [ctx_holds];
    [by apply starts_absorbed|by apply starts256_holds|done].
Qed.

Lemma bytes_at_take data size : 0 <= size <= Z.of_nat (length data) -> bytes_at data size = Some (take (Z.to_nat size) data).
Proof. intros Hs. unfold bytes_at. by rewrite (proj2 (Z.leb_le _ _)) by lia. Qed.

Lemma update_ctx_holds k ctx m addr data size : ctx_holds k ctx m -> Forall byte_ok data ->
  0 <= size <= Z.of_nat (length data) -> size < 2 ^ 32 -> Z.of_nat (length m) + size < 2 ^ 61 ->
  exists ctx', hash_update (algo k) ctx addr data size = Some ctx' /\ ctx_holds k ctx' (m ++ take (Z.to_nat size) data).
Proof.
  intros Hh Hb Hs Hs32 Hl.
  assert (Forall byte_ok (take (Z.to_nat size) data)) as Ht by (by apply Forall_take).
  assert (Z.of_nat (length (take (Z.to_nat size) data)) = size) as El by (rewrite length_take; lia).
  destruct k, ctx; try done; cbn [algo hash_update hash_update_sha1 hash_update_sha256 hash_update_crc32 ctx_holds] in *.
  - rewrite bytes_at_take, mbind_Some by done. eexists. split; [done|].
    exact (update_holds (C := sha1_context) _ m _ Hh Ht ltac:(lia) ltac:(lia)).
  - rewrite bytes_at_take, mbind_Some by done. eexists. split; [done|].
    exact (update_holds (C := sha256_context) _ m _ Hh Ht ltac:(lia) ltac:(lia)).
  - destruct Hh as [Hm ->]. rewrite crc32_spec, mbind_Some by (done || by apply crc_spec_range). eexists. split; [done|].
    split; [by apply Forall_app|]. symmetry. apply crc_spec_app.
Qed.

Lemma store_at_start buf d : (length d <= length buf)%nat -> store_bytes buf 0 d = Some (d ++ drop (length d) buf).
Proof.
  intros Hl. change (store_bytes buf 0 d) with (store_bytes buf (Z.of_nat 0) d). rewrite store_bytes_blit by lia.
  reflexivity.
Qed.

Lemma finish_ctx k ctx m dest : ctx_holds k ctx m -> Z.of_nat (length m) + 128 < 2 ^ 61 -> digest_size (algo k) <= Z.of_nat (length dest) ->
  hash_finish (algo k) (digest_size (algo k)) ctx dest (digest_size (algo k)) =
  Some (0, progressive_digest k m ++ drop (length (digest k m)) dest).
Proof.
  intros Hh Hl Hd. pose proof (length_hash k m) as Hk. rewrite <- length_progressive in *.
  assert (exists d, hash_finish (algo k) (digest_size (algo k)) ctx dest (digest_size (algo k)) = (s ← store_bytes dest 0 d; Some (0, s)) /\
    d = progressive_digest k m) as (d & -> & ->).
  { destruct k, ctx; try done; cbn in Hh; (eexists; split; [reflexivity|]); [by apply finish_absorbed|by apply finish256_fips|].
    destruct Hh as [_ ->]. cbn [progressive_digest digest]. by rewrite rev_involutive. }
  by rewrite store_at_start, mbind_Some by lia.
Qed.

(** *** Regions *)

Definition region_ok (r : image_region) : Prop :=
  Forall byte_ok (region_data r) /\ 0 <= region_size r <= Z.of_nat (length (region_data r)) /\ region_size r < 2 ^ 31.
Definition region_bytes (r : image_region) : list Z := take (Z.to_nat (region_size r)) (region_data r).
Definition region_message (rs : list image_region) : list Z := concat (region_bytes <$> rs).

Lemma region_message_cons r rs : region_message (r :: rs) = region_bytes r ++ region_message rs.
Proof. reflexivity. Qed.

Lemma length_region r : region_ok r -> Z.of_nat (length (region_bytes r)) = region_size r.
Proof. intros (_ & Hs & _). unfold region_bytes. rewrite length_take. lia. Qed.

Lemma update_region k ctx m r : ctx_holds k ctx m -> region_ok r -> Z.of_nat (length m + length (region_bytes r)) < 2 ^ 61 ->
  exists ctx', hash_update (algo k) ctx (region_addr r) (region_data r) (u32 (region_size r)) = Some ctx' /\
    ctx_holds k ctx' (m ++ region_bytes r).
Proof.
  intros Hh Hr Hl. pose proof (length_region r Hr) as El. destruct Hr as (Hb & Hs & H31).
  rewrite wrap_small by lia. apply update_ctx_holds; [done|done|done|lia|lia].
Qed.

Lemma update_loop_holds k rs : forall ctx m last, ctx_holds k ctx m -> Forall region_ok (rs ++ [last]) ->
  Z.of_nat (length m + length (region_message rs)) < 2 ^ 61 ->
  exists ctx', update_loop (algo k) ctx (Z.of_nat (length rs)) (rs ++ [last]) = Some (ctx', last) /\ ctx_holds k ctx' (m ++ region_message rs).
Proof.
  induction rs as [|r rs IH]; intros ctx m last Hh Hr Hl; cbn [app update_loop].
  - exists ctx. split; [done|]. unfold region_message. cbn. by rewrite app_nil_r.
  - apply Forall_cons in Hr as [Hr Hrs]. rewrite (proj2 (Z.leb_gt _ _)) by (simpl; lia).
    unfold region_message in Hl. cbn [fmap list_fmap concat] in Hl. rewrite length_app in Hl.
    destruct (update_region k ctx m r Hh Hr) as (ctx' & -> & Hh'); [lia|]. rewrite mbind_Some.
    replace (Z.of_nat (length (r :: rs)) - 1) with (Z.of_nat (length rs)) by (simpl; lia).
    destruct (IH ctx' (m ++ region_bytes r) last Hh' Hrs) as (c & -> & Hc); [rewrite length_app; unfold region_message; lia|].
    exists c. split; [done|]. unfold region_message in *. cbn [fmap list_fmap concat]. by rewrite app_assoc.
Qed.

Lemma hash_calculate_spec buf name rs checksum : length buf = 64%nat -> cstring name ->
  Forall region_ok rs -> rs <> [] -> Z.of_nat (length rs) < 2 ^ 31 -> Z.of_nat (length (region_message rs)) + 128 < 2 ^ 61 ->
  (forall k, kind_of name = Some k -> digest_size (algo k) <= Z.of_nat (length checksum)) ->
  hash_calculate (Some buf) name rs checksum =
  match kind_of name with
  | Some k => Some (0, progressive_digest k (region_message rs) ++ drop (Z.to_nat (digest_size (algo k))) checksum)
  | None => Some (- EPROTONOSUPPORT, checksum)
  end.
Proof.
  intros Hb Hn Hr Hne Hc Hl Hout. unfold hash_calculate, hash_progressive_lookup_algo.
  change (lookup_loop hash_algos name) with (hash_lookup_algo name). rewrite lookup_kind by done.
  destruct (kind_of name) as [k|]; [|done]. specialize (Hout k eq_refl).
  destruct (init_ctx_holds k buf Hb) as (ctx & -> & Hh). rewrite mbind_Some.
  destruct rs as [|last rs _] using rev_ind; [done|]. rewrite length_app in *. cbn [length] in *.
  replace (u32 (Z.of_nat (length rs + 1) - 1)) with (Z.of_nat (length rs)) by (rewrite wrap_small; lia).
  assert (region_message (rs ++ [last]) = region_message rs ++ region_bytes last) as Em.
  { unfold region_message. rewrite fmap_app, concat_app. cbn. by rewrite app_nil_r. }
  rewrite Em, length_app in *.
  destruct (update_loop_holds k rs ctx [] last Hh Hr) as (c & -> & Hc'); [simpl; lia|]. rewrite mbind_Some, app_nil_l in *.
  destruct (update_region k c (region_message rs) last Hc') as (c' & -> & Hc2); [apply Forall_app in Hr as [_ Hr]; by rewrite Forall_singleton in Hr|lia|].
  rewrite mbind_Some, (finish_ctx k c' _ checksum Hc2) by (rewrite ?length_app; lia). do 4 f_equal.
  pose proof (length_hash k (region_message rs ++ region_bytes last)). lia.
Qed.

(** *** One block *)

Lemma func_ws_digest k stack addr data len output : length stack = 64%nat -> Forall byte_ok data -> 0 <= len <= Z.of_nat (length data) ->
  len < 2 ^ 31 -> digest_size (algo k) <= Z.of_nat (length output) ->
  hash_func_ws (algo k) stack addr data len output (chunk_size (algo k)) =
  Some (digest k (take (Z.to_nat len) data) ++ drop (Z.to_nat (digest_size (algo k))) output).
Proof.
  intros Hst Hb Hl H31 Ho. set (m := take (Z.to_nat len) data). pose proof (length_hash k m) as Hk.
  assert (Forall byte_ok m) as Hm by (by apply Forall_take).
  assert (Z.of_nat (length m) < 2 ^ 32) as Hml by (unfold m; rewrite length_take; lia).
  rewrite <- Hk, Nat2Z.id, <- store_at_start by lia.
  destruct k; cbn [algo hash_func_ws chunk_size]; unfold sha1_func, sha256_func, crc32_func.
  - rewrite bytes_at_take, mbind_Some by done. fold m. destruct (sha1_csum_wd_correct stack m (Z.to_nat CHUNKSZ_SHA1)) as [-> ->]; [done..|unfold CHUNKSZ_SHA1; lia|unfold CHUNKSZ_SHA1; lia|]. by rewrite mbind_Some.
  - rewrite bytes_at_take, mbind_Some by done. fold m. rewrite sha256_csum_wd_fips; [by rewrite mbind_Some|done..|unfold CHUNKSZ_SHA256; lia|unfold CHUNKSZ_SHA256; lia].
  - unfold crc32_wd_buf, crc32_wd. rewrite crc32_wd_loop_spec; [|done|done|lia|lia|unfold CHUNKSZ_CRC32; lia|lia]. rewrite mbind_Some. fold m. rewrite mbind_Some. f_equal. cbn [digest].
    pose proof (crc_spec_range 0 m ltac:(done) Hm) as Hr. cbn [word_bytes rev app]. rewrite !Z.shiftr_shiftr by lia.
    assert (forall x, u8 x = Z.land x 255) as E8 by (intros x; unfold wrap; by rewrite <- (Z.land_ones x 8) by lia).
    rewrite !E8. repeat f_equal. change 255 with (Z.ones 8). rewrite Z.land_ones by lia. symmetry. apply Z.mod_small.
    rewrite Z.shiftr_div_pow2 by lia. unfold word32 in Hr. split; [apply Z.div_pos; lia|apply Z.div_lt_upper_bound; lia].
Qed.

(** *** Digests as text *)

Definition hex_digit (d : Z) : Z := if d <? 10 then 48 + d else 97 + (d - 10).

(** [sprintf("%02x")] of every byte. *)
Definition hex_text (bytes : list Z) : list Z := flat_map (fun b => [hex_digit (Z.shiftr b 4); hex_digit (Z.land b 15)]) bytes.

(** Two digits of a byte are read as that byte, when the byte behind them is not a
    digit. *)
Lemma strtoul_two b g : byte_ok b -> isxdigit g = false -> g <> 0 ->
  strtoul_array [hex_digit (Z.shiftr b 4); hex_digit (Z.land b 15); g] 16 = Some b.
Proof.
  intros Hb Hg H0. assert (forall b', 0 <= b' < 256 -> let d1 := hex_digit (Z.shiftr b' 4) in let d2 := hex_digit (Z.land b' 15) in
    isxdigit d1 = true /\ isxdigit d2 = true /\ digit_value d1 = b' / 16 /\ digit_value d2 = b' mod 16 /\ d1 <> 0 /\ d2 <> 0 /\
    tolower d2 <> 120) as Hd.
  { assert (forallb (fun n => let b' := Z.of_nat n in let d1 := hex_digit (Z.shiftr b' 4) in let d2 := hex_digit (Z.land b' 15) in
      isxdigit d1 && isxdigit d2 && (digit_value d1 =? b' / 16) && (digit_value d2 =? b' mod 16) && negb (d1 =? 0) && negb (d2 =? 0) &&
      negb (tolower d2 =? 120)) (seq 0 256) = true) as Hall by (vm_compute; reflexivity).
    intros b' Hb'. rewrite forallb_forall in Hall. specialize (Hall (Z.to_nat b')). rewrite in_seq, Z2Nat.id in Hall by lia.
    specialize (Hall ltac:(lia)). cbv zeta in Hall. bool_to_prop. split_and!; done. }
  destruct (Hd b Hb) as (X1 & X2 & V1 & V2 & N1 & N2 & T2). clear Hd. set (d1 := hex_digit (Z.shiftr b 4)) in *. set (d2 := hex_digit (Z.land b 15)) in *.
  pose proof (Z.div_mod b 16 ltac:(lia)). pose proof (Z.mod_pos_bound b 16 ltac:(lia)). unfold byte_ok in Hb.
  assert (0 <= b / 16 < 16) by (split; [apply Z.div_pos; lia|apply Z.div_lt_upper_bound; lia]).
  unfold strtoul_array. assert (cstr [d1; d2; g] = [d1; d2; g]) as ->.
  { cbn [cstr]. by rewrite (proj2 (Z.eqb_neq _ _) N1), (proj2 (Z.eqb_neq _ _) N2), (proj2 (Z.eqb_neq _ _) H0). }
  unfold simple_strtoul, _parse_integer_fixup_radix. change (at_off [d1; d2; g] 1) with [d2; g]. cbn [ch hd Z.eqb Pos.eqb].
  rewrite (proj2 (Z.eqb_neq (tolower d2) 120)), andb_false_r by done. cbn [strtoul_loop].
  rewrite X1, X2, Hg, V1, V2, !(proj2 (Z.ltb_lt _ 16)) by lia. cbn [andb].
  rewrite bool_decide_eq_false_2, orb_true_r by done. f_equal. unfold wrap. rewrite Z.mul_0_l, Z.mod_0_l, Z.add_0_l by lia.
  rewrite (Z.mod_small (b / 16)), (Z.mod_small (b / 16 * 16)), Z.mod_small; lia.
Qed.

(** The same when the array ends with a NUL. *)
Lemma strtoul_byte b g : byte_ok b -> isxdigit g = false ->
  strtoul_array [hex_digit (Z.shiftr b 4); hex_digit (Z.land b 15); g] 16 = Some b.
Proof.
  intros Hb Hg. destruct (decide (g = 0)) as [->|]; [|by apply strtoul_two].
  pose proof (strtoul_two b 32 Hb eq_refl ltac:(done)) as H.
  assert (forallb (fun n => bool_decide (strtoul_array [hex_digit (Z.shiftr (Z.of_nat n) 4); hex_digit (Z.land (Z.of_nat n) 15); 0] 16 =
    Some (Z.of_nat n))) (seq 0 256) = true) as Hall by (vm_compute; reflexivity).
  rewrite forallb_forall in Hall. specialize (Hall (Z.to_nat b)). unfold byte_ok in Hb. rewrite in_seq, Z2Nat.id in Hall by lia.
  specialize (Hall ltac:(lia)). by apply bool_decide_eq_true in Hall.
Qed.

Lemma parse_loop_hex bytes : forall chr0 chr1 g s pre post, Forall byte_ok bytes -> isxdigit g = false ->
  parse_loop (length bytes) (Z.of_nat (length pre)) [chr0; chr1; g] (Some (hex_text bytes ++ s)) (pre ++ post) =
  if (length bytes <=? length post)%nat then Some (pre ++ bytes ++ drop (length bytes) post) else None.
Proof.
  induction bytes as [|b bytes IH]; intros c0 c1 g s pre post Hb Hg; [done|]. apply Forall_cons in Hb as [Hb0 Hb].
  cbn [parse_loop length hex_text flat_map app]. rewrite mbind_Some.
  set (d1 := hex_digit (Z.shiftr b 4)). set (d2 := hex_digit (Z.land b 15)).
  assert (d1 <> 0 /\ d2 <> 0) as [N1 N2].
  { unfold d1, d2, hex_digit. unfold byte_ok in Hb0. pose proof (Z.shiftr_nonneg b 4). pose proof (Z.land_nonneg b 15).
    split; case_if; lia. }
  assert (strncpy [c0; c1; g] 0 (d1 :: d2 :: flat_map (fun b => [hex_digit (Z.shiftr b 4); hex_digit (Z.land b 15)]) bytes ++ s) 2 =
    Some [d1; d2; g]) as ->.
  { cbn [strncpy ch hd]. rewrite (proj2 (Z.eqb_neq _ _) N1). change (aset [c0; c1; g] 0 d1) with (Some [d1; c1; g]). rewrite mbind_Some.
    cbn [tl]. cbn [ch hd]. rewrite (proj2 (Z.eqb_neq _ _) N2). reflexivity. }
  rewrite mbind_Some. unfold d1, d2. rewrite strtoul_byte, mbind_Some by done. rewrite (wrap_small 8 b) by (unfold byte_ok in Hb0; lia).
  destruct post as [|x post].
  { unfold aset. rewrite app_nil_r, (proj2 (Z.ltb_ge _ _)), andb_false_r by lia. done. }
  rewrite aset_middle, mbind_Some by done. cbn [drop]. rewrite drop_0. change (flat_map _ bytes) with (hex_text bytes).
  specialize (IH (hex_digit (Z.shiftr b 4)) (hex_digit (Z.land b 15)) g s (pre ++ [b]) post Hb Hg). rewrite length_app, <- !app_assoc in IH.
  cbn [length app] in IH. rewrite Nat2Z.inj_add in IH. change (Z.of_nat 1) with 1 in IH. cbn [length Nat.ltb Nat.leb]. rewrite IH. reflexivity.
Qed.

(** ** The claims *)

(** A known algorithm hashes the regions as one message, whatever the block
    from the heap holds, and stores its digest at the start of the buffer; for an
    unknown name the buffer is left alone. *)
Theorem hash_calculate_correct buf name rs checksum : length buf = 64%nat -> cstring name ->
  Forall region_ok rs -> rs <> [] -> Z.of_nat (length rs) < 2 ^ 31 -> Z.of_nat (length (region_message rs)) + 128 < 2 ^ 61 ->
  (forall k, kind_of name = Some k -> digest_size (algo k) <= Z.of_nat (length checksum)) ->
  hash_calculate (Some buf) name rs checksum =
  match kind_of name with
  | Some k => Some (0, progressive_digest k (region_message rs) ++ drop (Z.to_nat (digest_size (algo k))) checksum)
  | None => Some (- EPROTONOSUPPORT, checksum)
  end.
Proof. apply hash_calculate_spec. Qed.

(** Witness: SHA-1 of two regions. *)
Lemma hash_calculate_correct_witness :
  hash_calculate (Some (replicate 64 1)) (str "sha1") [mk_region 0 [1; 2; 3] 2; mk_region 16 [4; 5] 2] (replicate 24 0) =
  Some (0, progressive_digest Sha1_kind (region_message [mk_region 0 [1; 2; 3] 2; mk_region 16 [4; 5] 2]) ++
    drop (Z.to_nat (digest_size (algo Sha1_kind))) (replicate 24 0)).
Proof.
  apply (hash_calculate_correct (replicate 64 1) (str "sha1") [mk_region 0 [1; 2; 3] 2; mk_region 16 [4; 5] 2] (replicate 24 0)).
  - reflexivity.
  - repeat constructor.
  - repeat constructor; simpl; try lia; by unfold byte_ok.
  - done.
  - simpl. lia.
  - simpl. lia.
  - intros k [= <-]. simpl. unfold SHA1_SUM_LEN. lia.
Defined.

(** [hash_block] gives the digest of the block. *)
Lemma hash_block_spec stack name addr data len output k : length stack = 64%nat -> cstring name ->
  Forall byte_ok data -> 0 <= len <= Z.of_nat (length data) -> len < 2 ^ 31 -> kind_of name = Some k ->
  digest_size (algo k) <= Z.of_nat (length output) ->
  hash_block stack name addr data len output None =
  Some (0, digest k (take (Z.to_nat len) data) ++ drop (Z.to_nat (digest_size (algo k))) output, None).
Proof.
  intros Hs Hn Hb Hl H31 Hk Ho. unfold hash_block. rewrite lookup_kind, Hk by done. by rewrite func_ws_digest, mbind_Some by done.
Qed.

(** The two interfaces disagree on CRC-32: for a block, the digest is stored with
    the most significant byte first, and by the progressive functions with the
    least significant byte first. *)
Example crc32_orders : exists d,
  hash_block (replicate 64 0) (str "crc32") 0 (str "123456789") 9 (replicate 4 0) None = Some (0, d, None) /\
  hash_calculate (Some (replicate 64 0)) (str "crc32") [mk_region 0 (str "123456789") 9] (replicate 4 0) = Some (0, rev d) /\
  rev d <> d.
Proof. eexists. split_and!; [vm_compute; reflexivity|vm_compute; reflexivity|vm_compute; done]. Qed.

(** The progressive interface is called with at least one region: with none, the
    loop would run 2^32 times. *)
Example hash_no_region : hash_calculate (Some (replicate 64 0)) (str "sha1") [] (replicate 20 0) = None.
Proof. vm_compute. reflexivity. Qed.

(** The result of [malloc] is not checked. *)
Example hash_init_null : hash_calculate None (str "sha1") [mk_region 0 [1] 1] (replicate 20 0) = None.
Proof. vm_compute. reflexivity. Qed.

(** [hash_parse_string] reads what is behind the two digits: with a digit there,
    it runs out of its array. *)
Example parse_string_overrun :
  hash_parse_string [0; 0; 55] (str "crc32") (str "cbf43926") (replicate 4 0) = None /\
  hash_parse_string [0; 0; 0] (str "crc32") (str "cbf43926") (replicate 4 0) = Some (0, [0xcb; 0xf4; 0x39; 0x26]).
Proof. split; vm_compute; reflexivity. Qed.

(** It does not check the length of the string either. *)
Example parse_string_short : hash_parse_string [0; 0; 0] (str "crc32") (str "cbf43") (replicate 4 0) = None.
Proof. vm_compute. reflexivity. Qed.
