(* ===== verification/AutobootKeyed.v ===== *)
(** * Keyed autoboot ([common/autoboot.c], [CONFIG_AUTOBOOT_KEYED])

    The other configuration of the countdown: booting is stopped by typing a
    string, given in clear or by its SHA-256.  The console and the clock are a
    script with one entry per pass of the polling loop. *)

From S2P Require Import Prelude StringLib Sha256 Hash.
Local Open Scope Z_scope.

(** ** The code *)

Definition MAX_DELAY_STOP_STR : nat := 32.

(** One pass: the key read, if [tstc] says there is one, and whether the end
    time is not yet over after the pass. *)
Record pass := mk_pass { key : option Z; in_time : bool }.

(** *** With a string in clear *)

Record delaykey := mk_delaykey { dk_str : option (list Z); dk_len : Z; dk_retry : bool }.

Definition delaykey_len (s : option (list Z)) : Z :=
  let len := match s with None => 0 | Some s => u32 (strlen s) end in
  if Z.of_nat MAX_DELAY_STOP_STR <? len then Z.of_nat MAX_DELAY_STOP_STR else len.

(** [for (i = 0; i < presskey_max - 1; i++) presskey[i] = presskey[i + 1];] from
    [i] on, with [bound] the unsigned [presskey_max - 1]; the array ends before
    the fuel does. *)
Fixpoint shift_loop (fuel : nat) (i bound : Z) (presskey : list Z) : option (Z * list Z) :=
  match fuel with
  | O => None
  | S fuel =>
      if i <? bound then
        c ← aget presskey (i + 1);
        presskey ← aset presskey i c;
        shift_loop fuel (i + 1) bound presskey
      else Some (i, presskey)
  end.

(** Taking a key into the buffer. *)
Definition take_key (presskey : list Z) (presskey_len presskey_max c : Z) : option (list Z * Z) :=
  if presskey_len <? presskey_max then
    presskey ← aset presskey presskey_len c;
    Some (presskey, presskey_len + 1)
  else
    '(i, presskey) ← shift_loop (S (length presskey)) 0 (u32 (presskey_max - 1)) presskey;
    presskey ← aset presskey i c;
    Some (presskey, presskey_len).

(** The test of one string against the end of the buffer. *)
Definition key_matches (presskey : list Z) (presskey_len : Z) (dk : delaykey) : bool :=
  match dk_str dk with
  | None => false
  | Some s =>
      (0 <? dk_len dk) && (dk_len dk <=? presskey_len) &&
      (memcmp (drop (Z.to_nat (presskey_len - dk_len dk)) presskey) s (Z.to_nat (dk_len dk)) =? 0)
  end.

(** The [do] loop: [abort], and whether [bootretry_dont_retry] was called.
    [None] is an access out of bounds or a script that is too short. *)
Fixpoint passwd_loop (script : list pass) (presskey : list Z) (presskey_len presskey_max : Z)
    (dks : list delaykey) : option (bool * bool) :=
  match script with
  | [] => None
  | p :: script =>
      '(presskey, presskey_len) ←
        match key p with
        | None => Some (presskey, presskey_len)
        | Some c => take_key presskey presskey_len presskey_max c
        end;
      let hits := List.filter (key_matches presskey presskey_len) dks in
      if match hits with [] => false | _ => true end
      then Some (true, existsb (fun dk => negb (dk_retry dk)) hits)
      else if in_time p then passwd_loop script presskey presskey_len presskey_max dks
      else Some (false, false)
  end.

(** [buf] is what the uninitialised [presskey] holds; the strings are those of
    [bootdelaykey] and [bootstopkey] or their defaults. *)
Definition passwd_abort (buf : list Z) (delay_str stop_str : option (list Z)) (script : list pass)
    : option (bool * bool) :=
  let dks := [mk_delaykey delay_str (delaykey_len delay_str) true;
              mk_delaykey stop_str (delaykey_len stop_str) false] in
  let presskey_max := foldl (fun m dk => if dk_len dk <? m then m else dk_len dk) 0 dks in
  passwd_loop script buf 0 presskey_max dks.

(** *** With a hash *)

Fixpoint slow_equals_loop (a b : list Z) (len : nat) (diff : Z) {struct len} : option Z :=
  match len with
  | O => Some diff
  | S len =>
      match a, b with
      | x :: a, y :: b => slow_equals_loop a b len (Z.lor diff (Z.lxor x y))
      | _, _ => None
      end
  end.

Definition slow_equals (a b : list Z) (len : nat) : option bool :=
  diff ← slow_equals_loop a b len 0; Some (diff =? 0).

(** [stack] is the buffer of the hash context; [sha] and [size] are variables of
    the function.  The return value of [hash_block] is not looked at. *)
Fixpoint passwd_sha_loop (stack : list Z) (script : list pass) (presskey : list Z) (presskey_len : Z) (sha : list Z) (size : Z)
    (sha_env : list Z) : option bool :=
  match script with
  | [] => None
  | p :: script =>
      match key p with
      | None => if in_time p then passwd_sha_loop stack script presskey presskey_len sha size sha_env else Some false
      | Some c =>
          if Z.of_nat MAX_DELAY_STOP_STR <=? presskey_len then Some false
          else
            presskey ← aset presskey presskey_len c;
            let presskey_len := presskey_len + 1 in
            '(_, sha, size') ← hash_block stack (str "sha256") 0 presskey presskey_len sha (Some size);
            eq ← slow_equals sha sha_env (Z.to_nat SHA256_SUM_LEN);
            if (eq : bool) then Some true
            else if in_time p then passwd_sha_loop stack script presskey presskey_len sha (default size size') sha_env else Some false
      end
  end.

(** [sha_env_str] is the variable [bootstopkeysha256], [config] the default.
    [chr], [sha_env], [sha] and [buf] are what the stack holds at first. *)
Definition passwd_abort_sha256 (stack chr sha_env sha buf : list Z) (config : list Z) (sha_env_str : option (list Z)) (script : list pass)
    : option bool :=
  '(ret, sha_env) ← hash_parse_string chr (str "sha256") (default config sha_env_str) sha_env;
  if negb (ret =? 0) then Some false else passwd_sha_loop stack script buf 0 sha (Z.of_nat (length sha)) sha_env.

(** ** The specification: the history of all keys *)

Definition ends_with (typed s : list Z) : bool := bool_decide (suffix s typed).

(** The part of a string that counts. *)
Definition stop_part (s : option (list Z)) : list Z := take MAX_DELAY_STOP_STR (default [] s).

Definition typed_hit (typed : list Z) (s : list Z) : bool := negb (bool_decide (s = [])) && ends_with typed s.

Fixpoint typed_abort (script : list pass) (typed delay_part stop : list Z) : option (bool * bool) :=
  match script with
  | [] => None
  | p :: script =>
      let typed := typed ++ match key p with None => [] | Some c => [c] end in
      if typed_hit typed delay_part || typed_hit typed stop then Some (true, typed_hit typed stop)
      else if in_time p then typed_abort script typed delay_part stop
      else Some (false, false)
  end.

Fixpoint typed_sha (hash_block : list Z -> list Z) (script : list pass) (typed sha_env : list Z) : option bool :=
  match script with
  | [] => None
  | p :: script =>
      match key p with
      | None => if in_time p then typed_sha hash_block script typed sha_env else Some false
      | Some c =>
          if (MAX_DELAY_STOP_STR <=? length typed)%nat then Some false
          else if bool_decide (hash_block (typed ++ [c]) = sha_env) then Some true
          else if in_time p then typed_sha hash_block script (typed ++ [c]) sha_env
          else Some false
      end
  end.

(** ** The sliding window *)

Lemma take_S_insert {A} (l : list A) i x : (i < length l)%nat -> take (S i) (<[i := x]> l) = take i l ++ [x].
Proof.
  intros Hi. rewrite (take_S_r _ i x) by (by apply list_lookup_insert_eq). by rewrite take_insert_ge.
Qed.

Lemma shift_loop_spec fuel : forall (i bound : nat) pk,
  (i <= bound)%nat -> (bound < length pk)%nat -> (bound - i < fuel)%nat ->
  shift_loop fuel (Z.of_nat i) (Z.of_nat bound) pk =
  Some (Z.of_nat bound, take i pk ++ take (bound - i) (drop (S i) pk) ++ drop bound pk).
Proof.
  induction fuel as [|fuel IH]; intros i bound pk Hi Hb Hf; cbn [shift_loop]; [lia|].
  case_if.
  - replace (Z.of_nat i + 1) with (Z.of_nat (S i)) by lia. rewrite aget_lookup.
    destruct (lookup_lt_is_Some_2 pk (S i)) as [c Hc]; [lia|]. rewrite Hc. cbn [mbind option_bind].
    rewrite aset_nat by lia. cbn [mbind option_bind].
    rewrite IH by (rewrite ?length_insert; lia). do 2 f_equal.
    rewrite take_S_insert by lia. rewrite !drop_insert_lt by lia.
    replace (bound - i)%nat with (S (bound - S i)) by lia. rewrite (drop_S pk c (S i) Hc). cbn [take].
    by rewrite <- !app_assoc.
  - replace bound with i by lia. rewrite Nat.sub_diag, take_0, app_nil_l. by rewrite take_drop.
Qed.

(** The buffer holds the last keys of the history. *)
Record window (pk : list Z) (n m : nat) (typed : list Z) : Prop := {
  win_array : length pk = MAX_DELAY_STOP_STR;
  win_len : n = Nat.min (length typed) m;
  win_keys : take n pk = drop (length typed - n) typed
}.

Lemma take_key_window pk n m typed c :
  (0 < m <= MAX_DELAY_STOP_STR)%nat -> window pk n m typed ->
  exists pk' n', take_key pk (Z.of_nat n) (Z.of_nat m) c = Some (pk', Z.of_nat n') /\ window pk' n' m (typed ++ [c]).
Proof.
  intros Hm [Ha Hn Hk]. unfold MAX_DELAY_STOP_STR in *. unfold take_key. case_if.
  - rewrite aset_nat by lia. cbn [mbind option_bind]. exists (<[n := c]> pk), (S n).
    split; [do 2 f_equal; lia|]. split; [by rewrite length_insert|rewrite length_app; simpl; lia|].
    rewrite take_S_insert, Hk by lia. rewrite length_app. cbn [length].
    replace (length typed - n)%nat with 0%nat by lia.
    replace (length typed + 1 - S n)%nat with 0%nat by lia. done.
  - assert (n = m) as -> by lia. rewrite wrap_small by lia.
    change 0 with (Z.of_nat 0). replace (Z.of_nat m - 1) with (Z.of_nat (m - 1)) by lia.
    rewrite shift_loop_spec by lia. cbn [mbind option_bind]. rewrite Nat.sub_0_r, take_0, app_nil_l.
    assert (length (take (m - 1) (drop 1 pk)) = m - 1)%nat as Hl by (rewrite length_take, length_drop; lia).
    rewrite aset_nat by (rewrite length_app, length_drop; lia). cbn [mbind option_bind].
    eexists _, m. split; [done|]. split.
    + rewrite length_insert, length_app, length_drop. unfold MAX_DELAY_STOP_STR. lia.
    + rewrite length_app. simpl. lia.
    + replace m with (S (m - 1)) at 1 by lia.
      rewrite take_S_insert by (rewrite length_app, length_drop; lia).
      rewrite take_app_length' by done. rewrite length_app. cbn [length].
      rewrite drop_app_le by lia. f_equal.
      transitivity (drop 1 (take m pk)); [rewrite <- skipn_firstn_comm; f_equal; lia|].
      rewrite Hk, drop_drop. f_equal. lia.
Qed.

Lemma suffix_iff_drop {A} (s t : list A) : suffix s t <-> (length s <= length t)%nat /\ drop (length t - length s) t = s.
Proof.
  split.
  - intros [k ->]. rewrite length_app. split; [lia|]. rewrite drop_app_ge by lia.
    by replace (length k + length s - length s - length k)%nat with 0%nat by lia.
  - intros [_ <-]. apply suffix_drop.
Qed.

Lemma length_stop_part s : (length (stop_part s) <= MAX_DELAY_STOP_STR)%nat.
Proof. unfold stop_part. rewrite length_take. lia. Qed.

(** A string as the environment has it. *)
Definition key_ok (s : option (list Z)) : Prop :=
  cstring (default [] s) /\ Z.of_nat (length (default [] s)) < 2 ^ 32.

Lemma delaykey_len_part s : key_ok s -> delaykey_len s = Z.of_nat (length (stop_part s)).
Proof.
  intros [Hc Hl]. unfold delaykey_len, stop_part, MAX_DELAY_STOP_STR. rewrite length_take.
  destruct s as [s|]; [|done]. change (default [] (Some s)) with s in *.
  rewrite strlen_cstring, wrap_small by (done || lia). case_if; lia.
Qed.

Lemma window_suffix pk n m typed L :
  window pk n m typed -> (L <= n)%nat -> take L (drop (n - L) pk) = drop (length typed - L) typed.
Proof.
  intros [Ha Hn Hk] HL. rewrite firstn_skipn_comm. replace (n - L + L)%nat with n by lia.
  rewrite Hk, drop_drop. f_equal. lia.
Qed.

(** The test against the buffer is the test against the whole history. *)
Lemma key_matches_typed pk n m typed s r :
  window pk n m typed -> key_ok s -> (length (stop_part s) <= m)%nat -> (m <= MAX_DELAY_STOP_STR)%nat ->
  key_matches pk (Z.of_nat n) (mk_delaykey s (delaykey_len s) r) = typed_hit typed (stop_part s).
Proof.
  intros Hw Hs Hlm Hm. pose proof Hw as [Ha Hn Hk]. unfold key_matches, typed_hit, ends_with. cbn [dk_str dk_len].
  rewrite delaykey_len_part by done. unfold MAX_DELAY_STOP_STR in *. set (p := stop_part s) in *.
  destruct s as [s|]; [|done]. assert (p = take (length p) s) as Hp.
  { subst p. unfold stop_part, MAX_DELAY_STOP_STR. change (default [] (Some s)) with s. rewrite length_take. symmetry.
    destruct (decide (32 <= length s)%nat); [by rewrite Nat.min_l|].
    rewrite Nat.min_r by lia. by rewrite !take_ge by lia. }
  destruct (Z.ltb_spec 0 (Z.of_nat (length p))) as [Hp0|Hp0].
  2: { rewrite (bool_decide_true (p = [])); [done|]. apply nil_length_inv. lia. }
  rewrite (bool_decide_false (p = [])) by (intros ->; simpl in Hp0; lia). cbn [negb andb].
  apply eq_true_iff_eq. rewrite andb_true_iff, Z.leb_le, Z.eqb_eq, bool_decide_eq_true, suffix_iff_drop.
  split.
  - intros [Hle Hm0]. split; [lia|]. rewrite Nat2Z.id in Hm0.
    replace (Z.to_nat (Z.of_nat n - Z.of_nat (length p))) with (n - length p)%nat in Hm0 by lia.
    apply memcmp_0 in Hm0; [|rewrite length_drop; lia|].
    + rewrite <- (window_suffix pk n m typed) by (done || lia). by rewrite Hm0, <- Hp.
    + rewrite Hp, length_take. lia.
  - intros [Hle Hd]. split; [lia|]. rewrite Nat2Z.id.
    replace (Z.to_nat (Z.of_nat n - Z.of_nat (length p))) with (n - length p)%nat by lia.
    apply memcmp_0; [rewrite length_drop; lia|rewrite Hp, length_take; lia|].
    rewrite (window_suffix pk n m typed) by (done || lia). by rewrite Hd, <- Hp.
Qed.

Section Keyed.
Context (delay_str stop_str : option (list Z)) (Hd : key_ok delay_str) (Hs : key_ok stop_str).
Let dks := [mk_delaykey delay_str (delaykey_len delay_str) true; mk_delaykey stop_str (delaykey_len stop_str) false].
Let m := Nat.max (length (stop_part delay_str)) (length (stop_part stop_str)).

Lemma passwd_loop_typed script : forall pk n typed,
  window pk n m typed -> (0 < m)%nat \/ Forall (fun p => key p = None) script ->
  passwd_loop script pk (Z.of_nat n) (Z.of_nat m) dks = typed_abort script typed (stop_part delay_str) (stop_part stop_str).
Proof.
  pose proof (length_stop_part delay_str). pose proof (length_stop_part stop_str).
  assert (m <= MAX_DELAY_STOP_STR)%nat as Hm by (subst m; lia).
  induction script as [|p script IH]; intros pk n typed Hw Hkeys; cbn [passwd_loop typed_abort]; [done|].
  assert (exists pk' n', match key p with None => Some (pk, Z.of_nat n) | Some c => take_key pk (Z.of_nat n) (Z.of_nat m) c end
      = Some (pk', Z.of_nat n') /\ window pk' n' m (typed ++ match key p with None => [] | Some c => [c] end))
    as (pk' & n' & -> & Hw').
  { destruct (key p) as [c|] eqn:Ek; [|rewrite app_nil_r; by eexists _, _].
    apply take_key_window; [|done]. destruct Hkeys as [|Hkeys]; [lia|]. inversion Hkeys; congruence. }
  cbn [mbind option_bind]. subst dks. cbn [List.filter].
  rewrite !(key_matches_typed pk' n' m (typed ++ match key p with None => [] | Some c => [c] end)) by (done || (subst m; lia)).
  destruct (typed_hit _ (stop_part delay_str)), (typed_hit _ (stop_part stop_str)); cbn; try done.
  destruct (in_time p); [|done]. apply IH; [done|]. destruct Hkeys as [|Hkeys]; [by left|right]. by inversion Hkeys.
Qed.
End Keyed.

(** *** The hash *)

Lemma slow_equals_loop_spec len : forall a b diff,
  length a = len -> length b = len ->
  exists d, slow_equals_loop a b len diff = Some d /\ (d = 0 <-> diff = 0 /\ a = b).
Proof.
  induction len as [|len IH]; intros a b diff Ha Hb; cbn [slow_equals_loop].
  - exists diff. apply nil_length_inv in Ha as ->, Hb as ->. split; [done|]. tauto.
  - destruct a as [|x a], b as [|y b]; try done. injection Ha as Ha. injection Hb as Hb.
    destruct (IH a b (Z.lor diff (Z.lxor x y)) Ha Hb) as (d & -> & Hd). exists d. split; [done|].
    rewrite Hd, Z.lor_eq_0_iff, Z.lxor_eq_0_iff. split.
    + by intros [[-> ->] ->].
    + by intros [-> [= -> ->]].
Qed.

Lemma slow_equals_spec a b : length a = 32%nat -> length b = 32%nat -> slow_equals a b 32 = Some (bool_decide (a = b)).
Proof.
  intros Ha Hb. unfold slow_equals. destruct (slow_equals_loop_spec 32 a b 0 Ha Hb) as (d & -> & Hd).
  cbn [mbind option_bind]. f_equal. case_bool_decide as E.
  - apply Z.eqb_eq. tauto.
  - apply Z.eqb_neq. tauto.
Qed.

(** The hash of the keys: [hash_block] with room for the digest. *)
Lemma hash_block_keys stack pk n sha : length stack = 64%nat -> Forall byte_ok pk -> 0 <= n <= Z.of_nat (length pk) -> n < 2 ^ 31 ->
  length sha = 32%nat ->
  hash_block stack (str "sha256") 0 pk n sha (Some 32) = Some (0, fips_sha256 (take (Z.to_nat n) pk), Some 32).
Proof.
  intros Hst Hb Hn H31 Hs. unfold hash_block. rewrite lookup_kind by (repeat constructor; done).
  change (kind_of (str "sha256")) with (Some Sha256_kind). cbv iota. change (32 <? digest_size (algo Sha256_kind)) with false. cbv iota.
  rewrite func_ws_digest by (done || (rewrite Hs; done)). rewrite mbind_Some. cbn [digest fmap option_fmap option_map].
  do 3 f_equal. rewrite drop_ge by (rewrite Hs; done). apply app_nil_r.
Qed.

Definition keys_bytes (script : list pass) : Prop := Forall (fun p => default 0 (key p) < 256 /\ 0 <= default 0 (key p)) script.

Lemma passwd_sha_typed stack sha_env script : forall pk typed sha,
  length stack = 64%nat -> length sha_env = 32%nat -> length sha = 32%nat -> keys_bytes script -> Forall byte_ok pk ->
  length pk = MAX_DELAY_STOP_STR -> (length typed <= MAX_DELAY_STOP_STR)%nat -> take (length typed) pk = typed ->
  passwd_sha_loop stack script pk (Z.of_nat (length typed)) sha 32 sha_env = typed_sha fips_sha256 script typed sha_env.
Proof.
  unfold MAX_DELAY_STOP_STR. induction script as [|p script IH]; intros pk typed sha Hst He Hsh Hks Hb Hpk Hl Ht;
    cbn [passwd_sha_loop typed_sha]; [done|]. apply Forall_cons in Hks as [Hk Hks].
  destruct (key p) as [c|]; [|destruct (in_time p); [by apply IH|done]]. change (c < 256 /\ 0 <= c) in Hk.
  unfold MAX_DELAY_STOP_STR. destruct (Nat.leb_spec 32 (length typed)) as [H32|H32].
  { by rewrite (proj2 (Z.leb_le _ _)) by lia. }
  rewrite (proj2 (Z.leb_gt _ _)), aset_nat by lia. cbn [mbind option_bind].
  assert (take (S (length typed)) (<[length typed := c]> pk) = typed ++ [c]) as Hn by (rewrite take_S_insert, Ht by lia; done).
  assert (Forall byte_ok (<[length typed := c]> pk)) as Hb' by (apply Forall_insert; [done|unfold byte_ok; lia]).
  rewrite hash_block_keys by (done || (rewrite ?length_insert; lia)).
  replace (Z.to_nat (Z.of_nat (length typed) + 1)) with (S (length typed)) by lia. rewrite mbind_Some. cbv iota.
  change (Z.to_nat SHA256_SUM_LEN) with 32%nat.
  rewrite Hn, slow_equals_spec by (done || apply length_sha256). cbn [mbind option_bind default].
  case_bool_decide; [done|]. destruct (in_time p); [|done].
  replace (Z.of_nat (length typed) + 1) with (Z.of_nat (length (typed ++ [c]))) by (rewrite length_app; simpl; lia).
  apply IH; [done|done|apply length_sha256|done|done|by rewrite length_insert|rewrite length_app; simpl; lia|].
  rewrite length_app. cbn [length]. by rewrite Nat.add_1_r.
Qed.

(** ** The claims *)

(** Stopping autoboot with a string.  Whatever the key buffer holds at the
    start, and if one of the two strings is set and not empty, keyed autoboot
    aborts in exactly the pass in which all keys typed so far end with one of the
    two strings (with its first 32 characters, if it is longer), never accesses
    the buffer out of bounds, and turns off the retry exactly if the stop string
    was typed. *)
Theorem passwd_abort_history buf delay_str stop_str script :
  length buf = MAX_DELAY_STOP_STR -> key_ok delay_str -> key_ok stop_str ->
  stop_part delay_str <> [] \/ stop_part stop_str <> [] ->
  passwd_abort buf delay_str stop_str script = typed_abort script [] (stop_part delay_str) (stop_part stop_str).
Proof.
  intros Hb Hd Hs Hne. unfold passwd_abort. cbn [foldl dk_len].
  rewrite !(delaykey_len_part delay_str), !(delaykey_len_part stop_str) by done.
  rewrite <- (passwd_loop_typed delay_str stop_str Hd Hs script buf 0 []).
  - rewrite !(delaykey_len_part delay_str), !(delaykey_len_part stop_str) by done.
    f_equal. rewrite (proj2 (Z.ltb_ge (Z.of_nat (length (stop_part delay_str))) 0)) by lia. case_if; lia.
  - split; [done|done|]. by rewrite take_0.
  - left. destruct Hne as [H|H]; [destruct (stop_part delay_str)|destruct (stop_part stop_str)]; simpl; done || lia.
Qed.

(** Witness: two strings and some keys. *)
Lemma passwd_abort_history_witness :
  passwd_abort (replicate 32 0) (Some (str "ab")) (Some (str "cde"))
    [mk_pass (Some 120) true; mk_pass None true; mk_pass (Some 97) true; mk_pass (Some 99) true;
     mk_pass (Some 100) true; mk_pass (Some 101) true] =
  typed_abort [mk_pass (Some 120) true; mk_pass None true; mk_pass (Some 97) true; mk_pass (Some 99) true;
     mk_pass (Some 100) true; mk_pass (Some 101) true] [] (stop_part (Some (str "ab"))) (stop_part (Some (str "cde"))).
Proof.
  apply (passwd_abort_history (replicate 32 0) (Some (str "ab")) (Some (str "cde"))).
  - reflexivity.
  - split; [repeat constructor; simpl; lia|reflexivity].
  - split; [repeat constructor; simpl; lia|reflexivity].
  - left. discriminate.
Defined.



(** Without any string [presskey_max - 1] wraps around, and the first key
    makes the shifting loop run off the end of the buffer. *)
Example passwd_abort_no_string_overflow :
  passwd_abort (replicate 32 0) None None [mk_pass None true; mk_pass None false] = Some (false, false) /\
  passwd_abort (replicate 32 0) None None [mk_pass (Some 97) true; mk_pass None false] = None.
Proof. split; vm_compute; reflexivity. Qed.
