(* ===== verification/Rsa.v ===== *)
(** * RSA signatures ([lib/rsa/rsa-mod-exp.c], [lib/rsa/rsa-verify.c])

    Modular exponentiation by Montgomery multiplication on arrays of 32-bit words,
    and the check of a PKCS #1 v1.5 signature with it.

    An array of words is a list, the least significant word first; byte arrays
    are lists of bytes.  A function is [None] when it leaves an array.  Device
    trees are arguments: the record [fdt] has what the calls of libfdt return. *)

From S2P Require Import Prelude StringLib Hash.
Local Open Scope Z_scope.

Definition RSA_DEFAULT_PUBEXP : Z := 65537.
Definition RSA_MIN_KEY_BITS : Z := 2048.
Definition RSA_MAX_KEY_BITS : Z := 4096.
Definition RSA_MAX_SIG_BITS : Z := 4096.

Record rsa_public_key := mk_key {
  key_words : nat;
  n0inv : Z;
  modulus : list Z;
  rr : list Z;
  exponent : Z
}.

(** ** Arithmetic on words *)

Fixpoint subtract_loop (len : nat) (num modulus : list Z) (acc : Z) : option (list Z) :=
  match len, num, modulus with
  | O, _, _ => Some num
  | S len, x :: num, m :: modulus =>
      let acc := s64 (acc + u64 (x - m)) in
      r ← subtract_loop len num modulus (Z.shiftr acc 32);
      Some (u32 acc :: r)
  | _, _, _ => None
  end.

Definition subtract_modulus (key : rsa_public_key) (num : list Z) : option (list Z) :=
  subtract_loop (key_words key) num (modulus key) 0.

(** [i]: the number of words that are left, from the most significant one on. *)
Fixpoint greater_equal_loop (i : nat) (num modulus : list Z) : option bool :=
  match i with
  | O => Some true
  | S i =>
      x ← num !! i; m ← modulus !! i;
      if x <? m then Some false else if m <? x then Some true else greater_equal_loop i num modulus
  end.

Definition greater_equal_modulus (key : rsa_public_key) (num : list Z) : option bool :=
  greater_equal_loop (key_words key) num (modulus key).

(** The words [result[i - 1]] of the loop, and [acc_a] and [acc_b] behind it. *)
Fixpoint mul_add_loop (len : nat) (result : list Z) (a : Z) (b : list Z) (d0 : Z) (modulus : list Z) (acc_a acc_b : Z)
    : option (list Z * Z * Z) :=
  match len, result, b, modulus with
  | O, _, _, _ => Some ([], acc_a, acc_b)
  | S len, r :: result, y :: b, m :: modulus =>
      let acc_a := u64 (u64 (Z.shiftr acc_a 32 + u64 (a * y)) + r) in
      let acc_b := u64 (u64 (Z.shiftr acc_b 32 + u64 (d0 * m)) + u32 acc_a) in
      '(out, acc_a, acc_b') ← mul_add_loop len result a b d0 modulus acc_a acc_b;
      Some (u32 acc_b :: out, acc_a, acc_b')
  | _, _, _, _ => None
  end.

Definition montgomery_mul_add_step (key : rsa_public_key) (result : list Z) (a : Z) (b : list Z) : option (list Z) :=
  match result, b, modulus key with
  | r0 :: result, b0 :: b, m0 :: ms =>
      let acc_a := u64 (u64 (a * b0) + r0) in
      let d0 := u32 (u32 acc_a * n0inv key) in
      let acc_b := u64 (u64 (d0 * m0) + u32 acc_a) in
      '(out, acc_a, acc_b) ← mul_add_loop (key_words key - 1) result a b d0 ms acc_a acc_b;
      let acc_a := u64 (Z.shiftr acc_a 32 + Z.shiftr acc_b 32) in
      let result := out ++ [u32 acc_a] in
      if negb (Z.shiftr acc_a 32 =? 0) then subtract_modulus key result else Some result
  | _, _, _ => None
  end.

(** [for (i = 0; i < key->len; ++i) montgomery_mul_add_step(key, result, a[i], b)] *)
Fixpoint mul_loop (key : rsa_public_key) (len : nat) (result a b : list Z) : option (list Z) :=
  match len, a with
  | O, _ => Some result
  | S len, x :: a => result ← montgomery_mul_add_step key result x b; mul_loop key len result a b
  | S _, [] => None
  end.

Definition montgomery_mul (key : rsa_public_key) (a b : list Z) : option (list Z) :=
  mul_loop key (key_words key) (replicate (key_words key) 0) a b.

(** ** The exponent *)

(** [for (exponent_bits = 1; exponent_bits < max_bits + 1; ++exponent_bits)] *)
Fixpoint exponent_bits_loop (fuel : nat) (exponent exponent_bits : Z) : option Z :=
  match fuel with
  | O => None
  | S fuel =>
      let exponent := Z.shiftr exponent 1 in
      if exponent =? 0 then Some exponent_bits else exponent_bits_loop fuel exponent (exponent_bits + 1)
  end.

(** The number of bits, or [None] for [-EINVAL]. *)
Definition num_public_exponent_bits (key : rsa_public_key) : option Z :=
  if exponent key =? 0 then Some 0 else exponent_bits_loop 64 (exponent key) 1.

(** The 64-bit value is returned as an [int]. *)
Definition is_public_exponent_bit_set (key : rsa_public_key) (pos : Z) : Z :=
  s32 (Z.land (exponent key) (u64 (Z.shiftl 1 pos))).

(** ** Exponentiation *)

Definition be32 (a b c d : Z) : Z := Z.lor (Z.shiftl a 24) (Z.lor (Z.shiftl b 16) (Z.lor (Z.shiftl c 8) d)).
Definition be32_bytes (w : Z) : list Z := [u8 (Z.shiftr w 24); u8 (Z.shiftr w 16); u8 (Z.shiftr w 8); u8 w].

(** The first [len] words of a big-endian array, as it is in memory. *)
Fixpoint be_words (len : nat) (bytes : list Z) : option (list Z) :=
  match len, bytes with
  | O, _ => Some []
  | S len, a :: b :: c :: d :: bytes => ws ← be_words len bytes; Some (be32 a b c d :: ws)
  | S _, _ => None
  end.

(** A big-endian array of [len] words, turned around. *)
Definition rsa_convert_big_endian (bytes : list Z) (len : nat) : option (list Z) :=
  ws ← be_words len bytes; Some (rev ws).

(** [for (j = k - 2; j > 0; --j)] *)
Fixpoint pow_loop (key : rsa_public_key) (j : nat) (acc a_scaled : list Z) : option (list Z) :=
  match j with
  | O => Some acc
  | S j' =>
      tmp ← montgomery_mul key acc acc;
      acc ← if negb (is_public_exponent_bit_set key (Z.of_nat j) =? 0) then montgomery_mul key tmp a_scaled else Some tmp;
      pow_loop key j' acc a_scaled
  end.

(** The return value and [inout], as bytes. *)
Definition pow_mod (key : rsa_public_key) (inout : list Z) : option (Z * list Z) :=
  if RSA_MAX_KEY_BITS / 32 <? Z.of_nat (key_words key) then Some (- EINVAL, inout)
  else
    val ← rsa_convert_big_endian inout (key_words key);
    match num_public_exponent_bits key with
    | None => Some (- EINVAL, inout)
    | Some k =>
        if k <? 2 then Some (- EINVAL, inout)
        else if is_public_exponent_bit_set key 0 =? 0 then Some (- EINVAL, inout)
        else
          acc ← montgomery_mul key val (rr key);
          acc ← pow_loop key (Z.to_nat (k - 2)) acc acc;
          tmp ← montgomery_mul key acc acc;
          result ← montgomery_mul key tmp val;
          ge ← greater_equal_modulus key result;
          result ← if (ge : bool) then subtract_modulus key result else Some result;
          Some (0, flat_map be32_bytes (rev result) ++ drop (4 * key_words key) inout)
    end.

(** ** A key and a signature *)

(** The properties of a key; [None] is a property that is not there. *)
Record key_prop := mk_prop {
  prop_rr : option (list Z);
  prop_modulus : option (list Z);
  public_exponent : option (list Z);
  prop_n0inv : Z;
  num_bits : Z
}.

Definition fdt64_to_cpu (bytes : list Z) : option Z :=
  ws ← be_words 2 bytes;
  match ws with [hi; lo] => Some (Z.lor (Z.shiftl hi 32) lo) | _ => None end.

(** [memcpy] between two objects. *)
Definition memcpy_from (dst src : list Z) (n : Z) : option (list Z) :=
  if Z.of_nat (length src) <? n then None else store_bytes dst 0 (take (Z.to_nat n) src).

(** The return value and [out]. *)
Definition rsa_mod_exp_sw (sig : list Z) (sig_len : Z) (prop : option key_prop) (out : list Z) : option (Z * list Z) :=
  match prop with
  | None => Some (- EBADF, out)
  | Some prop =>
      let bits := u32 (num_bits prop) in
      e ← match public_exponent prop with None => Some RSA_DEFAULT_PUBEXP | Some b => fdt64_to_cpu b end;
      match prop_modulus prop, prop_rr prop with
      | Some mb, Some rb =>
          if bits =? 0 then Some (- EFAULT, out)
          else if (RSA_MAX_KEY_BITS <? bits) || (bits <? RSA_MIN_KEY_BITS) then Some (- EFAULT, out)
          else
            let len := Z.to_nat (bits / 32) in
            m ← rsa_convert_big_endian mb len;
            r ← rsa_convert_big_endian rb len;
            buf ← memcpy_from (replicate (4 * Z.to_nat (sig_len / 4)) 0) sig sig_len;
            '(ret, buf) ← pow_mod (mk_key len (prop_n0inv prop) m r e) buf;
            if negb (ret =? 0) then Some (ret, out)
            else out ← memcpy_from out buf sig_len; Some (0, out)
      | _, _ => Some (- EFAULT, out)
      end
  end.

(** ** Verification *)

Record checksum_algo := mk_algo {
  checksum_name : list Z;
  checksum_len : Z;
  der_len : Z;
  der_prefix : list Z;
  calculate : list Z -> list image_region -> list Z -> option (Z * list Z)
}.

(** [verify] is [rsa_verify] in all entries. *)
Record crypto_algo := mk_crypto { crypto_name : list Z; key_len : Z }.

(** [memcmp] of two objects, [n] a [size_t]. *)
Fixpoint memcmp_from (s t : list Z) (n : Z) : option Z :=
  if n <=? 0 then Some 0
  else
    match s, t with
    | x :: s, y :: t => if negb (x - y =? 0) then Some (x - y) else memcmp_from s t (n - 1)
    | _, _ => None
    end.

Definition rsa_verify_padding (msg : list Z) (pad_len : Z) (algo : checksum_algo) : option Z :=
  b0 ← aget msg 0;
  b1 ← aget msg 1;
  let ff_len := pad_len - der_len algo - 3 in
  b2 ← aget msg 2;
  c1 ← memcmp_from (drop 2 msg) (drop 3 msg) (u64 (ff_len - 1));
  b3 ← aget msg (2 + ff_len);
  c2 ← memcmp_from (drop (Z.to_nat (3 + ff_len)) msg) (der_prefix algo) (u64 (der_len algo));
  Some (Z.lor (Z.lor (Z.lor (Z.lor (Z.lor b0 (Z.lxor b1 1)) (Z.lxor b2 0xff)) c1) b3) c2).

(** [sig] and [hash] are the whole objects. *)
Definition rsa_verify_key (prop : option key_prop) (sig : option (list Z)) (sig_len : Z) (hash : option (list Z)) (key_len : Z)
    (algo : option checksum_algo) : option Z :=
  match prop, sig, hash, algo with
  | Some prop, Some sig, Some hash, Some algo =>
      if negb (sig_len =? u32 (Z.quot (num_bits prop) 8)) then Some (- EINVAL)
      else if RSA_MAX_SIG_BITS / 8 <? sig_len then Some (- EINVAL)
      else
        '(ret, buf) ← rsa_mod_exp_sw sig sig_len (Some prop) (replicate (Z.to_nat sig_len) 0);
        if negb (ret =? 0) then Some ret
        else
          let pad_len := s32 (key_len - checksum_len algo) in
          pad ← rsa_verify_padding buf pad_len algo;
          if negb (pad =? 0) then Some (- EINVAL)
          else
            c ← if pad_len <? 0 then None else memcmp_from (drop (Z.to_nat pad_len) buf) hash (u32 (sig_len - pad_len));
            Some (if negb (c =? 0) then - EACCES else 0)
  | _, _, _, _ => Some (- EIO)
  end.

(** What libfdt returns for a tree.  [fdt_next_nodes n]: the nodes that
    [fdt_next_node] gives behind the offset [n], with their depths.
    [fdt_subnodes n]: the subnodes that [fdt_for_each_subnode] visits, and the
    negative offset that ends the loop.  [fdt_find_regions nodes max]: an error, or
    the offsets and sizes of the regions. *)
Record fdt := mk_fdt {
  fdt_bytes : list Z;
  fdt_address : Z;
  fdtdec_get_int : Z -> list Z -> Z -> Z;
  fdt_getprop : Z -> list Z -> option (list Z);
  fdt_subnode_offset : Z -> list Z -> Z;
  fdt_get_name : Z -> list Z;
  fdt_next_nodes : Z -> list (Z * Z);
  fdt_subnodes : Z -> list Z * Z;
  fdt_find_regions : list (list Z) -> Z -> Z + list (Z * Z);
  fdt_totalsize : Z;
  fdt_off_dt_strings : Z
}.

(** [keyname] is the string that is printed for it. *)
Record image_sign_info := mk_sign_info {
  keyname : list Z;
  fit : fdt;
  checksum : checksum_algo;
  crypto : crypto_algo;
  fdt_blob : fdt;
  required_keynode : Z
}.

Definition rsa_verify_with_keynode (info : image_sign_info) (hash sig : list Z) (sig_len node : Z) : option Z :=
  let blob := fdt_blob info in
  if node <? 0 then Some (- EBADF)
  else
    let e := match fdt_getprop blob node (str "rsa,exponent") with
             | Some b => if Z.of_nat (length b) <? 8 then None else Some b
             | None => None
             end in
    let prop := mk_prop (fdt_getprop blob node (str "rsa,r-squared")) (fdt_getprop blob node (str "rsa,modulus")) e
                  (u32 (fdtdec_get_int blob node (str "rsa,n0-inverse") 0)) (fdtdec_get_int blob node (str "rsa,num-bits") 0) in
    if (num_bits prop =? 0) || negb (bool_decide (is_Some (prop_modulus prop))) then Some (- EFAULT)
    else rsa_verify_key (Some prop) (Some sig) sig_len (Some hash) (u32 (key_len (crypto info))) (Some (checksum info)).

(** The loop over the nodes: [ret] is the last result. *)
Fixpoint key_loop (info : image_sign_info) (hash sig : list Z) (sig_len node : Z) (nodes : list (Z * Z)) (ret : Z) : option Z :=
  match nodes with
  | [] => Some ret
  | (noffset, ndepth) :: nodes =>
      if (noffset <? 0) || (ndepth <=? 0) then Some ret
      else if (ndepth =? 1) && negb (noffset =? node) then
        ret ← rsa_verify_with_keynode info hash sig sig_len noffset;
        if ret =? 0 then Some 0 else key_loop info hash sig sig_len node nodes ret
      else key_loop info hash sig sig_len node nodes ret
  end.

(** [stack]: what [hash] holds at first. *)
Definition rsa_verify (info : image_sign_info) (stack : list Z) (region : list image_region) (sig : list Z) (sig_len : Z) : option Z :=
  if key_len (crypto info) <? checksum_len (checksum info) then Some (- EINVAL)
  else
    let sig_node := fdt_subnode_offset (fdt_blob info) 0 (str "signature") in
    if sig_node <? 0 then Some (- ENOENT)
    else
      '(ret, hash) ← calculate (checksum info) (checksum_name (checksum info)) region stack;
      if ret <? 0 then Some (- EINVAL)
      else
        required ← if negb (required_keynode info =? -1)
                   then rsa_verify_with_keynode info hash sig sig_len (required_keynode info) else Some (-1);
        if required =? 0 then Some 0
        else
          let name := take 99 (str "key-" ++ keyname info) in
          let node := fdt_subnode_offset (fdt_blob info) sig_node name in
          ret ← rsa_verify_with_keynode info hash sig sig_len node;
          if ret =? 0 then Some 0
          else key_loop info hash sig sig_len node (fdt_next_nodes (fit info) sig_node) ret.

(** ** Numbers *)

Definition word_ok (w : Z) : Prop := 0 <= w < 2 ^ 32.

(** The number of an array of words. *)
Fixpoint num (ws : list Z) : Z := match ws with [] => 0 | w :: ws => w + 2 ^ 32 * num ws end.

Definition B (n : nat) : Z := 2 ^ (32 * Z.of_nat n).

Lemma B_S n : B (S n) = 2 ^ 32 * B n.
Proof. unfold B. rewrite <- Z.pow_add_r by lia. f_equal. lia. Qed.

Lemma B_pos n : 0 < B n.
Proof. apply Z.pow_pos_nonneg; lia. Qed.

Lemma num_range ws : Forall word_ok ws -> 0 <= num ws < B (length ws).
Proof.
  induction 1 as [|w ws Hw Hws IH]; [done|]. cbn [num length]. rewrite B_S. unfold word_ok in Hw. nia.
Qed.

Lemma num_app ws ws' : num (ws ++ ws') = num ws + B (length ws) * num ws'.
Proof.
  induction ws as [|w ws IH]; [cbn [num app length]; change (B 0) with 1; lia|]. cbn [num app length]. rewrite IH, B_S. ring.
Qed.

Lemma num_zero n : num (replicate n 0) = 0.
Proof. induction n as [|n IH]; [done|]. cbn [replicate num]. lia. Qed.

Lemma u32_split x : x = u32 x + 2 ^ 32 * Z.shiftr x 32.
Proof. unfold wrap. rewrite Z.shiftr_div_pow2 by lia. pose proof (Z.div_mod x (2 ^ 32)). lia. Qed.

Lemma u32_ok x : word_ok (u32 x).
Proof. apply wrap_range. lia. Qed.

(** *** Subtraction *)

Lemma subtract_loop_spec ms : forall ns acc, Forall word_ok ns -> Forall word_ok ms -> length ns = length ms -> -1 <= acc <= 0 ->
  exists r carry, subtract_loop (length ms) ns ms acc = Some r /\ Forall word_ok r /\ length r = length ms /\
    -1 <= carry <= 0 /\ num ns - num ms + acc = num r + B (length ms) * carry.
Proof.
  induction ms as [|m ms IH]; intros ns acc Hn Hm Hl Ha.
  - destruct ns; [|done]. exists [], acc. change (B (length (@nil Z))) with 1. cbn. split_and!; try done; lia.
  - destruct ns as [|x ns]; [done|]. injection Hl as Hl. apply Forall_cons in Hn as [Hx Hn], Hm as [Hm0 Hm].
    cbn [subtract_loop length num]. rewrite B_S.
    assert (s64 (acc + u64 (x - m)) = acc + (x - m)) as ->.
    { unfold word_ok, wrap, swrap in *. destruct (Z.leb_spec m x).
      - rewrite (Z.mod_small (x - m)) by lia. rewrite Z.mod_small; lia.
      - replace ((x - m) mod 2 ^ 64) with (x - m + 2 ^ 64) by (rewrite <- (Z.mod_add _ 1) by lia; rewrite Z.mod_small; lia).
        replace (acc + (x - m + 2 ^ 64) + 2 ^ (64 - 1)) with (acc + (x - m) + 2 ^ 63 + 1 * 2 ^ 64) by lia.
        rewrite Z.mod_add by lia. rewrite Z.mod_small; lia. }
    set (d := acc + (x - m)). pose proof (u32_split d) as Hd. pose proof (u32_ok d) as Hdo.
    assert (-1 <= Z.shiftr d 32 <= 0) as Hc by (unfold word_ok, d in *; lia).
    destruct (IH ns (Z.shiftr d 32) Hn Hm Hl Hc) as (r & carry & -> & Hr & Hlr & Hcr & Heq).
    exists (u32 d :: r), carry. split_and!; [done|by constructor|cbn; lia|lia|lia|]. cbn [num]. unfold d in *. nia.
Qed.

(** *** One step of the multiplication *)

Lemma shiftr_word acc : 0 <= acc < 2 ^ 64 -> word_ok (Z.shiftr acc 32).
Proof. intros H. pose proof (u32_split acc). pose proof (u32_ok acc). unfold word_ok in *. lia. Qed.

(** A word times a word and two more words fit in 64 bits. *)
Lemma mac_ok p q x s : word_ok p -> word_ok q -> word_ok x -> word_ok s ->
  u64 (u64 (p + u64 (q * x)) + s) = p + q * x + s /\ 0 <= p + q * x + s < 2 ^ 64.
Proof.
  unfold word_ok. intros Hp Hq Hx Hs. assert (0 <= q * x <= (2 ^ 32 - 1) * (2 ^ 32 - 1)) by nia.
  rewrite (wrap_small 64 (q * x)), (wrap_small 64 (p + q * x)), wrap_small by lia. lia.
Qed.

Lemma mac0_ok q x s : word_ok q -> word_ok x -> word_ok s -> u64 (u64 (q * x) + s) = q * x + s /\ 0 <= q * x + s < 2 ^ 64.
Proof.
  intros Hq Hx Hs. destruct (mac_ok 0 q x s) as [_ H]; [done..|]. unfold word_ok in *. assert (0 <= q * x <= (2 ^ 32 - 1) * (2 ^ 32 - 1)) by nia.
  rewrite (wrap_small 64 (q * x)), wrap_small by lia. lia.
Qed.

Lemma mul_add_loop_spec ms : forall rs bs a d0 acc_a acc_b,
  Forall word_ok rs -> Forall word_ok bs -> Forall word_ok ms -> length rs = length ms -> length bs = length ms ->
  word_ok a -> word_ok d0 -> 0 <= acc_a < 2 ^ 64 -> 0 <= acc_b < 2 ^ 64 ->
  exists out acc_a' acc_b', mul_add_loop (length ms) rs a bs d0 ms acc_a acc_b = Some (out, acc_a', acc_b') /\
    Forall word_ok out /\ length out = length ms /\ 0 <= acc_a' < 2 ^ 64 /\ 0 <= acc_b' < 2 ^ 64 /\
    num out + B (length ms) * (Z.shiftr acc_a' 32 + Z.shiftr acc_b' 32) =
    Z.shiftr acc_a 32 + Z.shiftr acc_b 32 + num rs + a * num bs + d0 * num ms.
Proof.
  induction ms as [|m ms IH]; intros rs bs a d0 acc_a acc_b Hr Hb Hm Hlr Hlb Ha Hd Hacca Haccb.
  - destruct rs, bs; try done. exists [], acc_a, acc_b. change (B (length (@nil Z))) with 1. cbn [num]. split_and!; try done; lia.
  - destruct rs as [|r rs]; [done|]. destruct bs as [|y bs]; [done|]. injection Hlr as Hlr. injection Hlb as Hlb.
    apply Forall_cons in Hr as [Hr0 Hr], Hb as [Hy Hb], Hm as [Hm0 Hm]. cbn [mul_add_loop length num]. rewrite B_S.
    destruct (mac_ok (Z.shiftr acc_a 32) a y r (shiftr_word _ Hacca) Ha Hy Hr0) as [-> Hra]. set (a1 := Z.shiftr acc_a 32 + a * y + r) in *.
    destruct (mac_ok (Z.shiftr acc_b 32) d0 m (u32 a1) (shiftr_word _ Haccb) Hd Hm0 (u32_ok a1)) as [-> Hrb].
    set (b1 := Z.shiftr acc_b 32 + d0 * m + u32 a1) in *.
    destruct (IH rs bs a d0 a1 b1 Hr Hb Hm Hlr Hlb Ha Hd Hra Hrb) as (out & a2 & b2 & -> & Ho & Hlo & Ha2 & Hb2 & Heq).
    rewrite mbind_Some. eexists (u32 b1 :: out), a2, b2. split_and!; [done|by constructor; [apply u32_ok|]|cbn; lia|lia|lia|lia|lia|].
    cbn [num]. pose proof (u32_split a1) as Ea. pose proof (u32_split b1) as Eb.
    transitivity (u32 b1 + 2 ^ 32 * (Z.shiftr a1 32 + Z.shiftr b1 32 + num rs + a * num bs + d0 * num ms)); [rewrite <- Heq; ring|].
    assert (b1 = Z.shiftr acc_b 32 + d0 * m + u32 a1) as Fb by done. assert (a1 = Z.shiftr acc_a 32 + a * y + r) as Fa by done.
    clearbody a1 b1. clear -Ea Eb Fa Fb. lia.
Qed.

(** *** Congruence *)

Definition eqm (m a b : Z) : Prop := a mod m = b mod m.

#[export] Instance eqm_equiv m : Equivalence (eqm m).
Proof. split; repeat intro; unfold eqm in *; congruence. Qed.

#[export] Instance eqm_add m : Proper (eqm m ==> eqm m ==> eqm m) Z.add.
Proof. intros a a' Ha b b' Hb. unfold eqm in *. by rewrite <- (Zplus_mod_idemp_l a), <- (Zplus_mod_idemp_r b), Ha, Hb, Zplus_mod_idemp_l, Zplus_mod_idemp_r. Qed.

#[export] Instance eqm_mul m : Proper (eqm m ==> eqm m ==> eqm m) Z.mul.
Proof. intros a a' Ha b b' Hb. unfold eqm in *. by rewrite <- (Zmult_mod_idemp_l a), <- (Zmult_mod_idemp_r b), Ha, Hb, Zmult_mod_idemp_l, Zmult_mod_idemp_r. Qed.

Lemma eqm_eq m a b : a = b -> eqm m a b.
Proof. by intros ->. Qed.

Lemma eqm_mult m a k : eqm m (a + k * m) a.
Proof. unfold eqm. destruct (decide (m = 0)) as [->|Hm]; [by rewrite Z.mul_0_r, Z.add_0_r|]. by apply Z.mod_add. Qed.

#[export] Instance eqm_pow m : Proper (eqm m ==> eq ==> eqm m) Z.pow.
Proof.
  intros a a' Ha n n' <-. destruct (Z.leb_spec 0 n) as [Hn|Hn]; [|by rewrite !Z.pow_neg_r].
  revert n Hn. apply natlike_ind; [done|]. intros n Hn IH. by rewrite !Z.pow_succ_r, IH, Ha by done.
Qed.

(** ** Montgomery multiplication *)

(** A key as it is computed for a modulus of full length. *)
Record key_ok (key : rsa_public_key) : Prop := {
  k_words : (0 < key_words key)%nat;
  k_modulus : length (modulus key) = key_words key /\ Forall word_ok (modulus key);
  k_rr : length (rr key) = key_words key /\ Forall word_ok (rr key);
  k_n0inv : word_ok (n0inv key) /\ (n0inv key * num (modulus key) + 1) mod 2 ^ 32 = 0;
  k_full : B (key_words key) <= 2 * num (modulus key);
  k_square : eqm (num (modulus key)) (num (rr key)) (B (key_words key) * B (key_words key))
}.

Section Montgomery.
Context (key : rsa_public_key) (Hkey : key_ok key).
Local Notation M := (num (modulus key)).
Local Notation n := (key_words key).

Definition array_ok (ws : list Z) : Prop := length ws = n /\ Forall word_ok ws.

Lemma array_range ws : array_ok ws -> 0 <= num ws < B n.
Proof. intros [<- H]. by apply num_range. Qed.

Lemma modulus_range : 0 < M < B n.
Proof. pose proof (array_range (modulus key) (k_modulus _ Hkey)). pose proof (k_full _ Hkey). pose proof (B_pos n). lia. Qed.

Lemma subtract_carry r c : array_ok r -> num r + B n * c < B n + M -> 1 <= c ->
  exists r', subtract_modulus key r = Some r' /\ array_ok r' /\ num r' = num r + B n * c - M.
Proof.
  intros [Hl Hr] Hlt Hc. destruct (k_modulus _ Hkey) as [Hlm Hm]. pose proof modulus_range as HM.
  unfold subtract_modulus. rewrite <- Hlm.
  destruct (subtract_loop_spec (modulus key) r 0 Hr Hm ltac:(lia) ltac:(lia)) as (r' & carry & -> & Hr' & Hl' & Hcr & Heq).
  exists r'. split; [done|]. split; [split; [lia|done]|]. rewrite Hlm in *. pose proof (array_range r (conj Hl Hr)).
  pose proof (array_range r' (conj (eq_trans Hl' eq_refl) Hr')). assert (c = 1) as -> by nia. assert (carry = -1) as -> by nia. lia.
Qed.

(** The low word of the sum vanishes. *)
Lemma low_word_zero x m0 ms : modulus key = m0 :: ms ->
  u32 (u32 (u32 x * n0inv key) * m0 + u32 x) = 0.
Proof.
  intros Hm. destruct (k_n0inv _ Hkey) as [_ Hn]. rewrite Hm in Hn. cbn [num] in Hn. unfold wrap.
  rewrite <- Zplus_mod_idemp_l, Zmult_mod_idemp_l, Zplus_mod_idemp_l.
  replace ((x mod 2 ^ 32 * n0inv key) * m0 + x mod 2 ^ 32) with
    (x mod 2 ^ 32 * (n0inv key * (m0 + 2 ^ 32 * num ms) + 1) + (- (x mod 2 ^ 32) * n0inv key * num ms) * 2 ^ 32) by ring.
  rewrite Z.mod_add by lia. rewrite <- Zmult_mod_idemp_r, Hn, Z.mul_0_r. done.
Qed.

Lemma mul_add_step_spec result a b : array_ok result -> word_ok a -> array_ok b ->
  exists r, montgomery_mul_add_step key result a b = Some r /\ array_ok r /\ eqm M (2 ^ 32 * num r) (num result + a * num b).
Proof.
  intros Hres Ha Hb. pose proof (array_range _ Hres) as Rr. pose proof (array_range _ Hb) as Rb. pose proof modulus_range as RM.
  pose proof (k_words _ Hkey) as Hw. destruct Hres as [Hlr Hr], Hb as [Hlb Hb], (k_modulus _ Hkey) as [Hlm Hm].
  unfold montgomery_mul_add_step. destruct result as [|r0 rs]; [simpl in *; lia|]. destruct b as [|b0 bs]; [simpl in *; lia|].
  destruct (modulus key) as [|m0 ms] eqn:EM; [simpl in *; lia|].
  pose proof Hr as [Hr0 Hrs]%Forall_cons. pose proof Hb as [Hb0 Hbs]%Forall_cons. pose proof Hm as [Hm0 Hms]%Forall_cons.
  destruct (mac0_ok a b0 r0 Ha Hb0 Hr0) as [-> R1]. set (aa := a * b0 + r0) in *.
  set (d0 := u32 (u32 aa * n0inv key)). pose proof (u32_ok (u32 aa * n0inv key)) as Hd. fold d0 in Hd.
  destruct (mac0_ok d0 m0 (u32 aa) Hd Hm0 (u32_ok aa)) as [-> R2].
  pose proof (low_word_zero aa m0 ms EM) as Hz. fold d0 in Hz. set (bb := d0 * m0 + u32 aa) in *.
  replace (n - 1)%nat with (length ms) by (simpl in Hlm; lia). cbn [length] in Hlr, Hlb, Hlm.
  destruct (mul_add_loop_spec ms rs bs a d0 aa bb Hrs Hbs Hms ltac:(lia) ltac:(lia) Ha Hd R1 R2)
    as (out & a2 & b2 & -> & Ho & Hlo & Ra2 & Rb2 & Heq). rewrite mbind_Some.
  pose proof (shiftr_word _ Ra2) as S2. pose proof (shiftr_word _ Rb2) as S3. rewrite (wrap_small 64) by (unfold word_ok in *; lia).
  set (t := Z.shiftr a2 32 + Z.shiftr b2 32) in *.
  assert (array_ok (out ++ [u32 t])) as Harr.
  { split; [rewrite length_app; simpl; lia|]. apply Forall_app. split; [done|]. constructor; [apply u32_ok|constructor]. }
  (* the value with its carry *)
  assert (2 ^ 32 * (num (out ++ [u32 t]) + B n * Z.shiftr t 32) = num (r0 :: rs) + a * num (b0 :: bs) + d0 * num (m0 :: ms)) as HU.
  { rewrite num_app. cbn [num]. rewrite Hlo. replace n with (S (length ms)) by lia. rewrite B_S.
    pose proof (u32_split t) as Et. pose proof (u32_split aa) as Ea. pose proof (u32_split bb) as Eb. rewrite Hz in Eb.
    assert (aa = a * b0 + r0) as Fa by done. assert (bb = d0 * m0 + u32 aa) as Fb by done.
    transitivity (2 ^ 32 * (num out + B (length ms) * (u32 t + 2 ^ 32 * Z.shiftr t 32))); [ring|]. rewrite <- Et, Heq. clearbody aa bb t d0. clear -Ea Eb Fa Fb. lia. }
  assert (num (out ++ [u32 t]) + B n * Z.shiftr t 32 < B n + num (m0 :: ms)) as Hlt.
  { clear -HU Rr Rb RM Ha Hd. unfold word_ok in *. nia. }
  assert (0 <= Z.shiftr t 32) as Ht0 by (apply Z.shiftr_nonneg; unfold word_ok in *; lia).
  destruct (Z.eqb_spec (Z.shiftr t 32) 0) as [E|E]; cbn [negb].
  - exists (out ++ [u32 t]). split; [done|]. split; [done|]. rewrite E in HU. rewrite Z.mul_0_r, Z.add_0_r in HU. rewrite HU.
    apply eqm_mult.
  - rewrite <- EM in *. destruct (subtract_carry _ (Z.shiftr t 32) Harr Hlt ltac:(lia)) as (r' & -> & Hr' & Hv).
    exists r'. split; [done|]. split; [done|]. rewrite Hv.
    replace (2 ^ 32 * (num (out ++ [u32 t]) + B n * Z.shiftr t 32 - M)) with (num (r0 :: rs) + a * num (b0 :: bs) + (d0 - 2 ^ 32) * M)
      by (rewrite Z.mul_sub_distr_l, HU; ring). apply eqm_mult.
Qed.

Lemma mul_loop_spec a : forall result b, array_ok result -> Forall word_ok a -> array_ok b ->
  exists r, mul_loop key (length a) result a b = Some r /\ array_ok r /\ eqm M (B (length a) * num r) (num result + num a * num b).
Proof.
  induction a as [|x a IH]; intros result b Hr Ha Hb; cbn [length mul_loop num].
  - exists result. split; [done|]. split; [done|]. change (B 0) with 1. by rewrite Z.mul_1_l, Z.mul_0_l, Z.add_0_r.
  - apply Forall_cons in Ha as [Hx Ha]. destruct (mul_add_step_spec result x b Hr Hx Hb) as (r1 & -> & Hr1 & E1). rewrite mbind_Some.
    destruct (IH r1 b Hr1 Ha Hb) as (r & -> & Hr' & E). exists r. split; [done|]. split; [done|].
    rewrite B_S, <- Z.mul_assoc, E, Z.mul_add_distr_l, E1. apply eqm_eq. ring.
Qed.

Lemma montgomery_mul_spec a b : array_ok a -> array_ok b ->
  exists r, montgomery_mul key a b = Some r /\ array_ok r /\ eqm M (B n * num r) (num a * num b).
Proof.
  intros [Hla Ha] Hb. unfold montgomery_mul. rewrite <- Hla.
  destruct (mul_loop_spec a (replicate (length a) 0) b) as (r & -> & Hr & E); [|done|done|].
  - split; [by rewrite length_replicate|]. apply Forall_replicate. done.
  - exists r. by rewrite num_zero, Z.add_0_l in E.
Qed.

(** A power of two can be cancelled. *)
Lemma eqm_cancel x y : eqm M (B n * x) (B n * y) -> eqm M x y.
Proof.
  destruct (k_n0inv _ Hkey) as [_ Hn]. apply Z.mod_divide in Hn as [q Hq]; [|lia].
  assert (eqm M (2 ^ 32 * q) 1) as Hinv.
  { replace (2 ^ 32 * q) with (1 + n0inv key * M) by lia. apply eqm_mult. }
  generalize n. intros k. induction k as [|k IH]; [change (B 0) with 1; by rewrite !Z.mul_1_l|].
  rewrite B_S. intros H. apply IH. rewrite <- (Z.mul_1_l (B k * x)), <- (Z.mul_1_l (B k * y)), <- Hinv.
  replace (2 ^ 32 * q * (B k * x)) with (q * (2 ^ 32 * B k * x)) by ring. rewrite H. apply eqm_eq. ring.
Qed.

(** ** Exponentiation *)

(** The array holds the Montgomery form of [x]. *)
Definition rep (x : Z) (v : list Z) : Prop := array_ok v /\ eqm M (num v) (x * B n).

Lemma rep_mul x y u v : rep x u -> rep y v -> exists r, montgomery_mul key u v = Some r /\ rep (x * y) r.
Proof.
  intros [Hu Eu] [Hv Ev]. destruct (montgomery_mul_spec u v Hu Hv) as (r & -> & Hr & E). exists r. split; [done|]. split; [done|].
  apply eqm_cancel. rewrite E, Eu, Ev. apply eqm_eq. ring.
Qed.

Lemma rep_in v : array_ok v -> exists r, montgomery_mul key v (rr key) = Some r /\ rep (num v) r.
Proof.
  intros Hv. destruct (montgomery_mul_spec v (rr key) Hv (k_rr _ Hkey)) as (r & -> & Hr & E). exists r. split; [done|]. split; [done|].
  apply eqm_cancel. rewrite E, (k_square _ Hkey). apply eqm_eq. ring.
Qed.

Lemma rep_out x u v : rep x u -> array_ok v -> exists r, montgomery_mul key u v = Some r /\ array_ok r /\ eqm M (num r) (x * num v).
Proof.
  intros [Hu Eu] Hv. destruct (montgomery_mul_spec u v Hu Hv) as (r & -> & Hr & E). exists r. split; [done|]. split; [done|].
  apply eqm_cancel. rewrite E, Eu. apply eqm_eq. ring.
Qed.

Lemma bit_set_spec j : 0 <= j < 32 -> negb (is_public_exponent_bit_set key j =? 0) = Z.testbit (exponent key) j.
Proof.
  intros Hj. unfold is_public_exponent_bit_set. rewrite Z.shiftl_1_l.
  assert (0 < 2 ^ j <= 2 ^ 31) as Hp by (split; [apply Z.pow_pos_nonneg; lia|apply Z.pow_le_mono_r; lia]).
  rewrite (wrap_small 64) by lia. assert (Z.land (exponent key) (2 ^ j) = if Z.testbit (exponent key) j then 2 ^ j else 0) as ->.
  { apply Z.bits_inj'. intros i Hi. rewrite Z.land_spec, Z.pow2_bits_eqb by lia. destruct (Z.eqb_spec j i) as [<-|Hne].
    - destruct (Z.testbit (exponent key) j); [by rewrite Z.pow2_bits_true by lia|by rewrite Z.bits_0].
    - rewrite andb_false_r. destruct (Z.testbit (exponent key) j); [by rewrite Z.pow2_bits_false by lia|by rewrite Z.bits_0]. }
  destruct (Z.testbit (exponent key) j); [|done]. rewrite (proj2 (Z.eqb_neq _ _)); [done|]. unfold swrap.
  destruct (decide (j = 31)) as [->|]; [done|]. assert (2 ^ j <= 2 ^ 30) by (apply Z.pow_le_mono_r; lia). rewrite Z.mod_small by lia. lia.
Qed.

Lemma pow_loop_spec j : forall x acc a_scaled, Z.of_nat j < 32 -> 0 <= exponent key ->
  rep (x ^ Z.shiftr (exponent key) (Z.of_nat j + 1)) acc -> rep x a_scaled ->
  exists r, pow_loop key j acc a_scaled = Some r /\ rep (x ^ Z.shiftr (exponent key) 1) r.
Proof.
  induction j as [|j IH]; intros x acc a_scaled Hj He Hacc Ha; [by exists acc|]. cbn [pow_loop].
  destruct (rep_mul _ _ _ _ Hacc Hacc) as (tmp & -> & Ht). rewrite mbind_Some, bit_set_spec by lia.
  set (f := Z.shiftr (exponent key) (Z.of_nat (S j) + 1)) in *.
  assert (0 <= f) as Hf by (by apply Z.shiftr_nonneg).
  assert (Z.shiftr (exponent key) (Z.of_nat j + 1) = 2 * f + Z.b2z (Z.testbit (exponent key) (Z.of_nat (S j)))) as Hstep.
  { set (g := Z.shiftr (exponent key) (Z.of_nat j + 1)).
    assert (f = Z.div2 g) as -> by (unfold f, g; rewrite Z.div2_spec, Z.shiftr_shiftr by lia; f_equal; lia).
    assert (Z.testbit (exponent key) (Z.of_nat (S j)) = Z.odd g) as -> by (unfold g; rewrite <- Z.bit0_odd, Z.shiftr_spec by lia; f_equal; lia).
    apply Z.div2_odd. }
  rewrite <- Z.pow_add_r in Ht by done. replace (f + f) with (2 * f) in Ht by lia.
  destruct (Z.testbit (exponent key) (Z.of_nat (S j))); cbn [Z.b2z] in Hstep.
  - destruct (rep_mul _ _ _ _ Ht Ha) as (acc' & -> & Ha'). rewrite mbind_Some. apply (IH x acc' a_scaled); [lia|done| |done].
    rewrite Hstep, Z.pow_add_r, Z.pow_1_r by lia. done.
  - rewrite mbind_Some. apply (IH x tmp a_scaled); [lia|done| |done]. by rewrite Hstep, Z.add_0_r.
Qed.
End Montgomery.

Lemma exponent_bits_spec fuel : forall e b, 0 < e < 2 ^ Z.of_nat fuel -> exponent_bits_loop fuel e b = Some (b + Z.log2 e).
Proof.
  induction fuel as [|fuel IH]; intros e b He; [simpl in He; lia|]. cbn [exponent_bits_loop].
  rewrite Nat2Z.inj_succ, Z.pow_succ_r in He by lia. rewrite <- Z.div2_spec, Z.div2_div.
  pose proof (Z.div_mod e 2 ltac:(lia)) as Hd. pose proof (Z.mod_pos_bound e 2 ltac:(lia)) as Hm. case_if.
  - assert (e = 1) as -> by lia. change (Z.log2 1) with 0. f_equal. lia.
  - rewrite IH by lia. f_equal. rewrite <- Z.div2_div. destruct (Z.leb_spec 2 e) as [H2|H2]; [|lia].
    rewrite Z.div2_spec, Z.log2_shiftr by lia. pose proof (Z.log2_pos e). lia.
Qed.

(** *** The last reduction *)

Lemma take_S_num (ws : list Z) i x : ws !! i = Some x -> num (take (S i) ws) = num (take i ws) + B i * x.
Proof.
  intros H. rewrite (take_S_r _ _ _ H), num_app, length_take. apply lookup_lt_Some in H. rewrite Nat.min_l by lia. cbn [num]. lia.
Qed.

Lemma greater_equal_spec i : forall ns ms, Forall word_ok ns -> Forall word_ok ms -> (i <= length ns)%nat -> (i <= length ms)%nat ->
  greater_equal_loop i ns ms = Some (num (take i ms) <=? num (take i ns)).
Proof.
  induction i as [|i IH]; intros ns ms Hn Hm Hln Hlm; [done|]. cbn [greater_equal_loop].
  destruct (lookup_lt_is_Some_2 ns i) as [x Hx]; [lia|]. destruct (lookup_lt_is_Some_2 ms i) as [m Hm0]; [lia|].
  rewrite Hx, Hm0, !mbind_Some, (take_S_num ns i x Hx), (take_S_num ms i m Hm0).
  pose proof (num_range (take i ns) (Forall_take _ _ _ Hn)) as Rn. pose proof (num_range (take i ms) (Forall_take _ _ _ Hm)) as Rm.
  rewrite length_take, Nat.min_l in Rn, Rm by lia. pose proof (B_pos i).
  destruct (Z.ltb_spec x m); [symmetry; f_equal; apply Z.leb_gt; nia|].
  destruct (Z.ltb_spec m x); [symmetry; f_equal; apply Z.leb_le; nia|]. assert (x = m) as -> by lia. rewrite IH by (done || lia).
  f_equal. apply eq_bool_prop_intro. rewrite !Is_true_true, !Z.leb_le. lia.
Qed.

Lemma reduce_spec key r : key_ok key -> array_ok key r -> exists ge r', greater_equal_modulus key r = Some ge /\
  (if (ge : bool) then subtract_modulus key r else Some r) = Some r' /\ array_ok key r' /\ num r' = num r mod num (modulus key).
Proof.
  intros Hk Hr. pose proof (array_range key r Hr) as Rr. pose proof (modulus_range key Hk) as RM. pose proof (k_full _ Hk) as Hf.
  destruct (k_modulus _ Hk) as [Hlm Hm]. pose proof Hr as [Hl Hw]. unfold greater_equal_modulus.
  rewrite greater_equal_spec by (done || lia). rewrite !take_ge by lia. destruct (Z.leb_spec (num (modulus key)) (num r)) as [Hle|Hlt]; eexists.
  - unfold subtract_modulus. rewrite <- Hlm.
    destruct (subtract_loop_spec (modulus key) r 0 Hw Hm ltac:(lia) ltac:(lia)) as (r' & carry & -> & Hr' & Hl' & Hcr & Heq).
    exists r'. split; [done|]. split; [done|]. assert (array_ok key r') as Ha by (split; [lia|done]). split; [done|].
    pose proof (array_range key r' Ha) as Rr'. rewrite Hlm in Heq. assert (carry = 0) as -> by nia.
    rewrite <- (Z.mod_add (num r) (-1)) by lia. rewrite Z.mod_small; lia.
  - exists r. split_and!; try done. symmetry. apply Z.mod_small. lia.
Qed.

(** *** Bytes *)

(** The number of a big-endian array of bytes. *)
Definition be_num (bytes : list Z) : Z := foldl (fun x c => x * 256 + c) 0 bytes.

Lemma be_num_app l l' : be_num (l ++ l') = be_num l * 256 ^ Z.of_nat (length l') + be_num l'.
Proof.
  unfold be_num. rewrite foldl_app. generalize (foldl (fun x c => x * 256 + c) 0 l). induction l' as [|c l' IH] using rev_ind; intros x.
  - cbn. lia.
  - rewrite !foldl_app. cbn [foldl]. rewrite IH, length_app. cbn [length].
    rewrite Nat2Z.inj_add, Z.pow_add_r by lia. change (256 ^ Z.of_nat 1) with 256. lia.
Qed.

Lemma be32_num a b c d : byte_ok a -> byte_ok b -> byte_ok c -> byte_ok d -> be32 a b c d = be_num [a; b; c; d] /\ word_ok (be32 a b c d).
Proof.
  unfold byte_ok, word_ok, be32. intros Ha Hb Hc Hd.
  rewrite !Z.shiftl_mul_pow2 by lia. rewrite (lor_add c d 8), (lor_add b (c * 2 ^ 8 + d) 16), (lor_add a _ 24) by lia. cbn. lia.
Qed.

Lemma be32_bytes_num w : word_ok w -> be_num (be32_bytes w) = w /\ Forall byte_ok (be32_bytes w).
Proof.
  intros Hw. unfold word_ok in Hw. split.
  - unfold be32_bytes, be_num, wrap. cbn [foldl]. rewrite !Z.shiftr_div_pow2 by lia. Z.to_euclidean_division_equations. lia.
  - unfold be32_bytes. repeat constructor; apply (wrap_range 8); lia.
Qed.

Lemma be_words_spec len : forall bytes, Forall byte_ok bytes -> (4 * len <= length bytes)%nat ->
  exists ws, be_words len bytes = Some ws /\ length ws = len /\ Forall word_ok ws /\ num (rev ws) = be_num (take (4 * len) bytes).
Proof.
  induction len as [|len IH]; intros bytes Hb Hl; [by exists []|].
  destruct bytes as [|a [|b [|c [|d bytes]]]]; try (simpl in Hl; lia). cbn [be_words].
  do 4 (apply Forall_cons in Hb as [? Hb]). destruct (be32_num a b c d) as [E Hw]; [done..|].
  destruct (IH bytes Hb) as (ws & -> & Hlw & Hws & Hn); [simpl in Hl; lia|]. rewrite mbind_Some.
  exists (be32 a b c d :: ws). split_and!; [done|simpl; lia|by constructor|]. cbn [rev]. rewrite num_app. cbn [num].
  rewrite Hn, E, length_rev, Hlw. replace (4 * S len)%nat with (S (S (S (S (4 * len))))) by lia. rewrite !firstn_cons.
  change (a :: b :: c :: d :: take (4 * len) bytes) with ([a; b; c; d] ++ take (4 * len) bytes). rewrite be_num_app, length_take, Nat.min_l by (simpl in Hl; lia).
  replace (256 ^ Z.of_nat (4 * len)) with (B len); [lia|]. unfold B. change 256 with (2 ^ 8). rewrite <- Z.pow_mul_r by lia. f_equal. lia.
Qed.

Lemma be_bytes_spec ws : Forall word_ok ws -> let bytes := flat_map be32_bytes (rev ws) in
  be_num bytes = num ws /\ Forall byte_ok bytes /\ length bytes = (4 * length ws)%nat.
Proof.
  induction 1 as [|w ws Hw Hws IH]; [done|]. cbn [rev]. rewrite flat_map_app. cbn [flat_map]. rewrite app_nil_r. cbn zeta in *.
  destruct IH as (I1 & I2 & I3). destruct (be32_bytes_num w Hw) as [E1 E2]. rewrite be_num_app, length_app. split_and!.
  - rewrite I1, E1. cbn [num]. change (256 ^ Z.of_nat (length (be32_bytes w))) with (2 ^ 32). lia.
  - by apply Forall_app.
  - rewrite I3. simpl. lia.
Qed.

Lemma convert_spec bytes len : Forall byte_ok bytes -> (4 * len <= length bytes)%nat ->
  exists ws, rsa_convert_big_endian bytes len = Some ws /\ length ws = len /\ Forall word_ok ws /\ num ws = be_num (take (4 * len) bytes).
Proof.
  intros Hb Hl. unfold rsa_convert_big_endian. destruct (be_words_spec len bytes Hb Hl) as (ws & -> & H1 & H2 & H3). rewrite mbind_Some.
  exists (rev ws). split_and!; [done|by rewrite length_rev|by apply Forall_rev|done].
Qed.

(** *** [pow_mod] *)

Lemma pow_mod_spec key inout :
  key_ok key -> (key_words key <= 128)%nat -> 3 <= exponent key < 2 ^ 33 -> Z.odd (exponent key) = true ->
  Forall byte_ok inout -> length inout = (4 * key_words key)%nat ->
  exists out, pow_mod key inout = Some (0, out) /\ length out = length inout /\ Forall byte_ok out /\
    be_num out = be_num inout ^ exponent key mod num (modulus key).
Proof.
  intros Hk Hw He Hodd Hb Hl. unfold pow_mod. change (RSA_MAX_KEY_BITS / 32) with 128. rewrite (proj2 (Z.ltb_ge 128 _)) by lia.
  destruct (convert_spec inout (key_words key) Hb ltac:(lia)) as (val & -> & Hlv & Hv & Hx). rewrite mbind_Some, take_ge in * by lia.
  assert (array_ok key val) as Hval by done. unfold num_public_exponent_bits. rewrite (proj2 (Z.eqb_neq _ 0)) by lia.
  rewrite exponent_bits_spec by lia. assert (1 <= Z.log2 (exponent key) < 33) as Hlog.
  { split; [apply (Z.log2_le_mono 2); lia|]. apply Z.log2_lt_pow2; lia. }
  rewrite (proj2 (Z.ltb_ge _ 2)) by lia. pose proof (bit_set_spec key 0 ltac:(lia)) as H0. rewrite Z.bit0_odd, Hodd in H0.
  apply negb_true_iff in H0 as ->. destruct (rep_in key Hk val Hval) as (acc & -> & Hacc). rewrite mbind_Some.
  destruct (pow_loop_spec key Hk (Z.to_nat (1 + Z.log2 (exponent key) - 2)) (num val) acc acc) as (acc2 & -> & Hacc2); [lia|lia| |done|].
  { replace (Z.of_nat (Z.to_nat (1 + Z.log2 (exponent key) - 2)) + 1) with (Z.log2 (exponent key)) by lia.
    assert (Z.shiftr (exponent key) (Z.log2 (exponent key)) = 1) as ->; [|by rewrite Z.pow_1_r].
    rewrite Z.shiftr_div_pow2 by lia. destruct (Z.log2_spec (exponent key)) as [L1 L2]; [lia|]. rewrite Z.pow_succ_r in L2 by lia.
    symmetry. apply (Z.div_unique _ _ 1 (exponent key - 2 ^ Z.log2 (exponent key))); lia. }
  rewrite mbind_Some. destruct (rep_mul key Hk _ _ _ _ Hacc2 Hacc2) as (tmp & -> & Ht). rewrite mbind_Some.
  destruct (rep_out key Hk _ _ _ Ht Hval) as (r & -> & Hr & Er). rewrite mbind_Some.
  destruct (reduce_spec key r Hk Hr) as (ge & r' & -> & E & Hr' & Hn). rewrite mbind_Some, E, mbind_Some.
  destruct Hr' as [Hlr' Hwr']. destruct (be_bytes_spec r' Hwr') as (B1 & B2 & B3).
  eexists. split; [done|]. rewrite drop_ge, app_nil_r by lia. split_and!; [lia|done|]. rewrite B1, Hn, Er, <- Hx.
  assert (0 <= Z.shiftr (exponent key) 1) by (apply Z.shiftr_nonneg; lia).
  rewrite <- Z.pow_add_r by lia. rewrite <- (Z.pow_1_r (num val)) at 2. rewrite <- Z.pow_add_r by lia. do 2 f_equal.
  rewrite <- Z.div2_spec. pose proof (Z.div2_odd (exponent key)) as Ho. rewrite Hodd in Ho. cbn [Z.b2z] in Ho. lia.
Qed.

(** ** Keys of the device tree *)

(** The exponent of a key, as [rsa_mod_exp_sw] reads it. *)
Definition prop_exponent (prop : key_prop) : Z :=
  match public_exponent prop with None => RSA_DEFAULT_PUBEXP | Some b => be_num (take 8 b) end.

(** A key for the modulus [m], with the values that the signing tool stores. *)
Record prop_ok (prop : key_prop) (m : Z) : Prop := {
  p_bits : RSA_MIN_KEY_BITS <= num_bits prop <= RSA_MAX_KEY_BITS /\ num_bits prop mod 32 = 0;
  p_modulus : exists b, prop_modulus prop = Some b /\ Forall byte_ok b /\ Z.of_nat (length b) = num_bits prop / 8 /\ be_num b = m;
  p_rr : exists b, prop_rr prop = Some b /\ Forall byte_ok b /\ Z.of_nat (length b) = num_bits prop / 8 /\
    be_num b = (2 ^ num_bits prop) ^ 2 mod m;
  p_n0inv : word_ok (prop_n0inv prop) /\ (prop_n0inv prop * m + 1) mod 2 ^ 32 = 0;
  p_full : 2 ^ num_bits prop <= 2 * m;
  p_exponent : match public_exponent prop with Some b => Forall byte_ok b /\ (8 <= length b)%nat | None => True end;
  p_range : 3 <= prop_exponent prop < 2 ^ 33 /\ Z.odd (prop_exponent prop) = true
}.

Lemma fdt64_spec b : Forall byte_ok b -> (8 <= length b)%nat -> fdt64_to_cpu b = Some (be_num (take 8 b)).
Proof.
  intros Hb Hl. unfold fdt64_to_cpu. destruct (be_words_spec 2 b Hb ltac:(lia)) as (ws & -> & Hlw & Hw & Hn). rewrite mbind_Some.
  destruct ws as [|hi [|lo [|? ?]]]; try done. cbn [rev num app] in Hn. change (4 * 2)%nat with 8%nat in Hn. rewrite <- Hn.
  do 2 (apply Forall_cons in Hw as [? Hw]). unfold word_ok in *. rewrite Z.shiftl_mul_pow2, lor_add by lia. f_equal. lia.
Qed.

Lemma memcpy_from_spec dst src n : (n <= length src)%nat -> length dst = n -> memcpy_from dst src (Z.of_nat n) = Some (take n src).
Proof.
  intros Hs Hd. unfold memcpy_from. rewrite (proj2 (Z.ltb_ge _ _)), Nat2Z.id by lia. change 0 with (Z.of_nat 0).
  rewrite store_bytes_blit by (rewrite length_take; lia). unfold blit. rewrite take_0, app_nil_l, drop_ge, app_nil_r by (rewrite length_take; lia). done.
Qed.

Lemma rsa_mod_exp_spec prop m sig out (k : nat) :
  prop_ok prop m -> Z.of_nat k = num_bits prop / 8 -> (k <= length sig)%nat -> Forall byte_ok sig -> length out = k ->
  exists out', rsa_mod_exp_sw sig (Z.of_nat k) (Some prop) out = Some (0, out') /\ length out' = k /\ Forall byte_ok out' /\
    be_num out' = be_num (take k sig) ^ prop_exponent prop mod m.
Proof.
  intros Hp Hk Hls Hs Ho. destruct (p_bits _ _ Hp) as [Hbits H32]. unfold RSA_MIN_KEY_BITS, RSA_MAX_KEY_BITS in Hbits.
  destruct (p_modulus _ _ Hp) as (mb & Em & Bm & Lm & Nm). destruct (p_rr _ _ Hp) as (rb & Er & Br & Lr & Nr).
  apply Z.mod_divide in H32 as [q Hq]; [|lia].
  unfold rsa_mod_exp_sw. rewrite Em, Er, (wrap_small 32 (num_bits prop)) by lia.
  assert ((match public_exponent prop with None => Some RSA_DEFAULT_PUBEXP | Some b => fdt64_to_cpu b end) = Some (prop_exponent prop)) as ->.
  { pose proof (p_exponent _ _ Hp) as He. unfold prop_exponent. destruct (public_exponent prop) as [b|]; [|done]. destruct He. by apply fdt64_spec. }
  rewrite mbind_Some, (proj2 (Z.eqb_neq _ 0)) by lia. rewrite (proj2 (Z.ltb_ge RSA_MAX_KEY_BITS _)), (proj2 (Z.ltb_ge _ RSA_MIN_KEY_BITS)) by (unfold RSA_MAX_KEY_BITS, RSA_MIN_KEY_BITS; lia).
  cbn [orb]. rewrite Hq in *. rewrite Z.div_mul by lia.
  assert (q * 32 / 8 = 4 * q) as E8 by (replace (q * 32) with (4 * q * 8) by lia; by rewrite Z.div_mul by lia). rewrite E8 in *.
  set (n := Z.to_nat q). assert (Z.of_nat n = q) as En by (unfold n; lia).
  destruct (convert_spec mb n Bm ltac:(lia)) as (mw & -> & Lmw & Wm & Nmw). rewrite mbind_Some.
  destruct (convert_spec rb n Br ltac:(lia)) as (rw & -> & Lrw & Wr & Nrw). rewrite mbind_Some. rewrite take_ge in Nmw, Nrw by lia.
  assert (Z.of_nat k / 4 = q) as -> by (rewrite Hk, Z.mul_comm, Z.div_mul; lia). fold n.
  rewrite (memcpy_from_spec _ sig k) by (rewrite ?length_replicate; lia). rewrite mbind_Some.
  assert (B n = 2 ^ (q * 32)) as EB by (unfold B; f_equal; lia). assert (0 < 2 ^ (q * 32)) by (apply Z.pow_pos_nonneg; lia).
  set (key := mk_key n (prop_n0inv prop) mw rw (prop_exponent prop)).
  assert (key_ok key) as Hkey.
  { pose proof (p_full _ _ Hp) as Hf. rewrite Hq in Hf. split; cbn [key key_words modulus rr n0inv]; try done; try lia.
    - rewrite Nmw, Nm. apply Hp.
    - rewrite Nrw, Nr, Nmw, Nm, EB, Z.pow_2_r. unfold eqm. by rewrite Z.mod_mod by lia. }
  destruct (p_range _ _ Hp) as [Hr Hodd].
  destruct (pow_mod_spec key (take k sig)) as (o & -> & Lo & Bo & No); [done|cbn; lia|done|done|by apply Forall_take|rewrite length_take; cbn; lia|].
  rewrite mbind_Some. cbn [Z.eqb negb]. rewrite (memcpy_from_spec out o k) by (rewrite ?Lo, ?length_take; lia). rewrite mbind_Some.
  rewrite length_take in Lo. exists o. rewrite take_ge by lia. split_and!; [done|lia|done|]. rewrite No. cbn [key modulus exponent]. by rewrite Nmw, Nm.
Qed.

(** ** The padding *)

Lemma be_num_range l : Forall byte_ok l -> 0 <= be_num l < 256 ^ Z.of_nat (length l).
Proof.
  induction l as [|c l IH] using rev_ind; intros Hl; [done|]. apply Forall_app in Hl as [Hl Hc]. rewrite Forall_singleton in Hc.
  specialize (IH Hl). rewrite be_num_app, length_app, Nat2Z.inj_add, Z.pow_add_r by lia. change (256 ^ Z.of_nat (length [c])) with 256.
  change (be_num [c]) with c. change (256 ^ Z.of_nat 1) with 256. unfold byte_ok in Hc. lia.
Qed.

Lemma be_num_inj l : forall l', length l = length l' -> Forall byte_ok l -> Forall byte_ok l' -> be_num l = be_num l' -> l = l'.
Proof.
  induction l as [|c l IH] using rev_ind; intros l' Hlen Hl Hl' E; [by destruct l'|].
  destruct (exists_last (l := l')) as (l2 & c2 & ->); [intros ->; rewrite length_app in Hlen; simpl in Hlen; lia|].
  apply Forall_app in Hl as [Hl Hc], Hl' as [Hl' Hc']. rewrite Forall_singleton in Hc, Hc'. rewrite !length_app in Hlen. rewrite !be_num_app in E.
  change (256 ^ Z.of_nat (length [c])) with 256 in E. change (256 ^ Z.of_nat (length [c2])) with 256 in E.
  change (be_num [c]) with c in E. change (be_num [c2]) with c2 in E. unfold byte_ok in *. assert (c = c2 /\ be_num l = be_num l2) as [-> El] by lia.
  f_equal. apply IH; [simpl in Hlen; lia|done..].
Qed.

Lemma memcmp_from_spec s : forall t n, (n <= length s)%nat -> (n <= length t)%nat ->
  exists c, memcmp_from s t (Z.of_nat n) = Some c /\ (c = 0 <-> take n s = take n t).
Proof.
  induction s as [|x s IH]; intros t n Hs Ht.
  - destruct n; [by exists 0|simpl in Hs; lia].
  - destruct n as [|n]; [by exists 0|]. destruct t as [|y t]; [simpl in Ht; lia|]. cbn [memcmp_from].
    rewrite (proj2 (Z.leb_gt _ 0)) by lia. replace (Z.of_nat (S n) - 1) with (Z.of_nat n) by lia. rewrite !firstn_cons.
    destruct (Z.eqb_spec (x - y) 0) as [E|E]; cbn [negb].
    + assert (x = y) as -> by lia. destruct (IH t n) as (c & -> & Hc); [simpl in *; lia..|]. exists c. split; [done|]. rewrite Hc.
      split; [by intros ->|by intros [= ->]].
    + exists (x - y). split; [done|]. split; [done|]. intros [= -> _]. lia.
Qed.

(** Equal to itself moved by one: the same byte throughout. *)
Lemma shifted_same n : forall (x : Z) l, (n <= length l)%nat -> take n (x :: l) = take n l <-> take n l = replicate n x.
Proof.
  induction n as [|n IH]; intros x l Hl; [done|]. destruct l as [|y l]; [simpl in Hl; lia|]. rewrite !firstn_cons. cbn [replicate]. split.
  - intros [= -> H]. f_equal. apply IH; [simpl in *; lia|done].
  - intros [= -> H]. f_equal. by apply IH; [simpl in *; lia|].
Qed.

(** The first bytes of a message that is padded for a digest. *)
Definition pkcs1_head (algo : checksum_algo) (ff_len : nat) : list Z := [0; 1] ++ replicate ff_len 255 ++ [0] ++ der_prefix algo.

Record algo_ok (algo : checksum_algo) : Prop := {
  a_der : Z.of_nat (length (der_prefix algo)) = der_len algo;
  a_bytes : Forall byte_ok (der_prefix algo);
  a_sum : 0 <= checksum_len algo < 2 ^ 16;
  a_short : der_len algo < 2 ^ 16
}.

Lemma padding_spec msg algo (ff : nat) : algo_ok algo -> (0 < ff)%nat -> Z.of_nat ff < 2 ^ 16 -> (ff + 3 + length (der_prefix algo) <= length msg)%nat ->
  exists ret, rsa_verify_padding msg (Z.of_nat ff + der_len algo + 3) algo = Some ret /\
    (ret = 0 <-> take (ff + 3 + length (der_prefix algo)) msg = pkcs1_head algo ff).
Proof.
  intros Ha Hff Hff' Hl. pose proof (a_der _ Ha) as Hd. pose proof (a_short _ Ha) as Hd'. unfold rsa_verify_padding, pkcs1_head.
  destruct msg as [|b0 [|b1 [|b2 msg]]]; try (simpl in Hl; lia). cbn [length] in Hl.
  change (aget (b0 :: b1 :: b2 :: msg) 0) with (Some b0). change (aget (b0 :: b1 :: b2 :: msg) 1) with (Some b1).
  change (aget (b0 :: b1 :: b2 :: msg) 2) with (Some b2). rewrite !mbind_Some.
  replace (Z.of_nat ff + der_len algo + 3 - der_len algo - 3) with (Z.of_nat ff) by lia.
  destruct ff as [|f]; [lia|]. rewrite (wrap_small 64 (Z.of_nat (S f) - 1)), (wrap_small 64 (der_len algo)) by lia.
  replace (Z.of_nat (S f) - 1) with (Z.of_nat f) by lia.
  change (drop 2 (b0 :: b1 :: b2 :: msg)) with (b2 :: msg). change (drop 3 (b0 :: b1 :: b2 :: msg)) with msg.
  destruct (memcmp_from_spec (b2 :: msg) msg f) as (c1 & -> & H1); [simpl; lia|lia|]. rewrite mbind_Some.
  rewrite (shifted_same f b2 msg) in H1 by lia.
  replace (2 + Z.of_nat (S f)) with (Z.of_nat (3 + f)) by lia. rewrite aget_lookup. change ((b0 :: b1 :: b2 :: msg) !! (3 + f)%nat) with (msg !! f).
  destruct (lookup_lt_is_Some_2 msg f) as [b3 Hb3]; [lia|]. rewrite Hb3, mbind_Some.
  replace (Z.to_nat (3 + Z.of_nat (S f))) with (4 + f)%nat by lia. change (drop (4 + f) (b0 :: b1 :: b2 :: msg)) with (drop (S f) msg).
  rewrite <- Hd. destruct (memcmp_from_spec (drop (S f) msg) (der_prefix algo) (length (der_prefix algo))) as (c2 & -> & H2);
    [rewrite length_drop; lia|lia|]. rewrite mbind_Some. rewrite firstn_all in H2. eexists. split; [done|].
  rewrite !Z.lor_eq_0_iff, !Z.lxor_eq_0_iff.
  replace (S f + 3 + length (der_prefix algo))%nat with (S (S (S (f + (1 + length (der_prefix algo)))))) by lia. rewrite !firstn_cons.
  rewrite <- (take_drop_middle msg f b3 Hb3) at 1. rewrite take_app_ge by (rewrite length_take; lia). rewrite length_take, Nat.min_l by lia.
  replace (f + (1 + length (der_prefix algo)) - f)%nat with (S (length (der_prefix algo))) by lia. rewrite firstn_cons.
  cbn [app replicate]. split.
  - intros (((((-> & ->) & ->) & Hc1) & ->) & Hc2). apply H1 in Hc1. apply H2 in Hc2. by rewrite Hc1, Hc2.
  - intros [= -> -> -> H]. apply app_inj_1 in H as [Hf H]; [|by rewrite length_take, length_replicate, Nat.min_l by lia].
    injection H as -> H. split_and!; try done; [by apply H1|by apply H2].
Qed.

Lemma pkcs1_head_bytes algo ff : algo_ok algo -> Forall byte_ok (pkcs1_head algo ff).
Proof.
  intros Ha. unfold pkcs1_head. rewrite !Forall_app. split_and!; [by repeat constructor|by apply Forall_replicate|by repeat constructor|apply Ha].
Qed.

(** A signature is accepted if and only if it is the padded digest once it is
    raised to the power of the exponent modulo the modulus. *)
Lemma rsa_verify_key_spec prop m sig hash algo (k ff : nat) :
  prop_ok prop m -> algo_ok algo -> Z.of_nat k = num_bits prop / 8 ->
  length sig = k -> Forall byte_ok sig -> Forall byte_ok hash -> checksum_len algo <= Z.of_nat (length hash) ->
  (0 < ff)%nat -> Z.of_nat k = Z.of_nat ff + 3 + der_len algo + checksum_len algo ->
  exists ret, rsa_verify_key (Some prop) (Some sig) (Z.of_nat k) (Some hash) (Z.of_nat k) (Some algo) = Some ret /\
    (ret = 0 <-> be_num sig ^ prop_exponent prop mod m = be_num (pkcs1_head algo ff ++ take (Z.to_nat (checksum_len algo)) hash)).
Proof.
  intros Hp Ha Hk Hls Hs Hh Hhl Hff Hlen. destruct (p_bits _ _ Hp) as [Hbits _]. unfold RSA_MIN_KEY_BITS, RSA_MAX_KEY_BITS in Hbits.
  pose proof (a_sum _ Ha) as Hcs. pose proof (a_der _ Ha) as Hd. pose proof (Z.div_le_upper_bound (num_bits prop) 8 512 ltac:(lia) ltac:(lia)) as Hk512.
  unfold rsa_verify_key. rewrite Z.quot_div_nonneg, <- Hk, (wrap_small 32), Z.eqb_refl by lia. cbn [negb].
  change (RSA_MAX_SIG_BITS / 8) with 512. rewrite (proj2 (Z.ltb_ge 512 _)), Nat2Z.id by lia.
  destruct (rsa_mod_exp_spec prop m sig (replicate k 0) k Hp Hk ltac:(lia) Hs (length_replicate _ _)) as (buf & -> & Lb & Bb & Nb).
  rewrite mbind_Some. cbn [Z.eqb negb]. rewrite take_ge in Nb by lia. rewrite (swrap_small 32) by lia.
  replace (Z.of_nat k - checksum_len algo) with (Z.of_nat ff + der_len algo + 3) by lia.
  destruct (padding_spec buf algo ff Ha Hff ltac:(lia) ltac:(lia)) as (pad & -> & Hpad). rewrite mbind_Some.
  set (w := (ff + 3 + length (der_prefix algo))%nat) in *. set (c := Z.to_nat (checksum_len algo)).
  assert (be_num sig ^ prop_exponent prop mod m = be_num (pkcs1_head algo ff ++ take c hash) <->
    take w buf = pkcs1_head algo ff /\ take c (drop w buf) = take c hash) as Hiff.
  { rewrite <- Nb. assert (length (pkcs1_head algo ff) = w) as Lh by (unfold pkcs1_head, w; rewrite !length_app, length_replicate; simpl; lia).
    assert (take c (drop w buf) = drop w buf) as -> by (apply take_ge; rewrite length_drop; lia). split.
    - intros E. apply be_num_inj in E; [|rewrite length_app, Lh, length_take; lia|done|].
      + rewrite E. by rewrite take_app_length', drop_app_length' by done.
      + apply Forall_app. split; [by apply pkcs1_head_bytes|by apply Forall_take].
    - intros [E1 E2]. rewrite <- (take_drop w buf), E1, E2. done. }
  setoid_rewrite Hiff. destruct (Z.eqb_spec pad 0) as [E|E]; cbn [negb].
  - rewrite (proj2 (Z.ltb_ge _ 0)) by lia. replace (Z.to_nat (Z.of_nat ff + der_len algo + 3)) with w by lia.
    replace (u32 (Z.of_nat k - (Z.of_nat ff + der_len algo + 3))) with (Z.of_nat c) by (rewrite wrap_small; lia).
    destruct (memcmp_from_spec (drop w buf) hash c) as (cm & -> & Hc); [rewrite length_drop; lia|lia|]. rewrite mbind_Some.
    apply Hpad in E. destruct (Z.eqb_spec cm 0) as [Ec|Ec]; cbn [negb]; eexists; (split; [done|]).
    + split; [|done]. intros _. split; [done|]. by apply Hc.
    + split; [done|]. intros [_ H]. by apply Hc in H.
  - eexists. split; [done|]. split; [done|]. intros [H _]. by apply Hpad in H.
Qed.

(** ** Properties *)

(** C24: Montgomery exponentiation computes the power.  For a key of full length
    whose [n0inv] and [rr] belong to its modulus, and an odd exponent of at least
    two and at most 33 bits, the words are replaced by the big-endian form of
    their number to the power of the exponent modulo the modulus. *)
Theorem pow_mod_correct key inout :
  key_ok key -> (key_words key <= 128)%nat -> 3 <= exponent key < 2 ^ 33 -> Z.odd (exponent key) = true ->
  Forall byte_ok inout -> length inout = (4 * key_words key)%nat ->
  exists out, pow_mod key inout = Some (0, out) /\ length out = length inout /\ Forall byte_ok out /\
    be_num out = be_num inout ^ exponent key mod num (modulus key).
Proof. apply pow_mod_spec. Qed.

(** ** The keys that are tried *)

Definition node_prop (info : image_sign_info) (node : Z) : key_prop :=
  let blob := fdt_blob info in
  let e := match fdt_getprop blob node (str "rsa,exponent") with
           | Some b => if Z.of_nat (length b) <? 8 then None else Some b
           | None => None
           end in
  mk_prop (fdt_getprop blob node (str "rsa,r-squared")) (fdt_getprop blob node (str "rsa,modulus")) e
    (u32 (fdtdec_get_int blob node (str "rsa,n0-inverse") 0)) (fdtdec_get_int blob node (str "rsa,num-bits") 0).

(** There is a key at the node. *)
Definition has_key (info : image_sign_info) (node : Z) : bool :=
  (0 <=? node) && negb (num_bits (node_prop info node) =? 0) && bool_decide (is_Some (prop_modulus (node_prop info node))).

(** The nodes of the last loop. *)
Fixpoint loop_nodes (node : Z) (nodes : list (Z * Z)) : list Z :=
  match nodes with
  | [] => []
  | (noffset, ndepth) :: nodes =>
      if (noffset <? 0) || (ndepth <=? 0) then []
      else if (ndepth =? 1) && negb (noffset =? node) then noffset :: loop_nodes node nodes
      else loop_nodes node nodes
  end.

Definition hint_node (info : image_sign_info) (sig_node : Z) : Z :=
  fdt_subnode_offset (fdt_blob info) sig_node (take 99 (str "key-" ++ keyname info)).

Definition tried (info : image_sign_info) (sig_node : Z) : list Z :=
  (if required_keynode info =? -1 then [] else [required_keynode info]) ++ [hint_node info sig_node] ++
  loop_nodes (hint_node info sig_node) (fdt_next_nodes (fit info) sig_node).

(** The size of a signature with the key of a node. *)
Definition key_size (info : image_sign_info) (node : Z) : Z := u32 (Z.quot (num_bits (node_prop info node)) 8).

Section Verify.
Context (info : image_sign_info) (sig : list Z) (k ff : nat).
(** Every key in the tree belongs to a modulus and has the size that the algorithm
    says, if the signature has its size. *)
Context (modulus_of : Z -> Z).
Context (Hkeys : forall node, has_key info node = true -> key_size info node = Z.of_nat (length sig) ->
  length sig = k /\ prop_ok (node_prop info node) (modulus_of node) /\ num_bits (node_prop info node) / 8 = Z.of_nat k).
Context (Halgo : algo_ok (checksum info)) (Hklen : key_len (crypto info) = Z.of_nat k) (Hk32 : Z.of_nat k < 2 ^ 32) (Hsig : Forall byte_ok sig).
Context (Hff : (0 < ff)%nat) (Hk : Z.of_nat k = Z.of_nat ff + 3 + der_len (checksum info) + checksum_len (checksum info)).

(** The signature belongs to the key of the node and the digest. *)
Definition signed_by (node : Z) (digest : list Z) : Prop :=
  has_key info node = true /\ key_size info node = Z.of_nat (length sig) /\
  be_num sig ^ prop_exponent (node_prop info node) mod modulus_of node = be_num (pkcs1_head (checksum info) ff ++ digest).

Lemma with_keynode_spec digest rest node : Forall byte_ok (digest ++ rest) -> Z.of_nat (length digest) = checksum_len (checksum info) ->
  exists ret, rsa_verify_with_keynode info (digest ++ rest) sig (Z.of_nat (length sig)) node = Some ret /\ (ret = 0 <-> signed_by node digest).
Proof.
  intros Hb Hd. unfold rsa_verify_with_keynode. fold (node_prop info node). unfold signed_by.
  destruct (Z.ltb_spec node 0) as [Hn|Hn].
  { eexists. split; [done|]. split; [done|]. intros [H _]. unfold has_key in H. bool_to_prop. lia. }
  change (mk_prop _ _ _ _ _) with (node_prop info node).
  destruct ((num_bits (node_prop info node) =? 0) || negb (bool_decide (is_Some (prop_modulus (node_prop info node))))) eqn:E.
  { eexists. split; [done|]. split; [done|]. intros [H _]. unfold has_key in H.
    apply orb_true_iff in E as [E|E]; rewrite ?E in H; [by rewrite andb_false_r in H|]. apply negb_true_iff in E. by rewrite E, andb_false_r in H. }
  assert (has_key info node = true) as Hh.
  { unfold has_key. apply orb_false_iff in E as [-> E]. apply negb_false_iff in E as ->. by rewrite (proj2 (Z.leb_le 0 node)) by lia. }
  rewrite Hklen, (wrap_small 32 (Z.of_nat k)) by lia. destruct (decide (key_size info node = Z.of_nat (length sig))) as [Hks|Hks].
  2: { exists (- EINVAL). split; [|split; [done|tauto]]. unfold rsa_verify_key. fold (key_size info node).
       by rewrite (proj2 (Z.eqb_neq _ _)) by congruence. }
  destruct (Hkeys node Hh Hks) as (Hlen & Hp & Hkb). rewrite Hlen.
  destruct (rsa_verify_key_spec (node_prop info node) (modulus_of node) sig (digest ++ rest) (checksum info) k ff)
    as (ret & -> & Hret); try done; [rewrite length_app; lia|].
  exists ret. split; [done|]. rewrite Hret, take_app_length' by lia. rewrite Hlen in Hks; tauto.
Qed.

Lemma key_loop_spec digest rest node nodes : forall ret, Forall byte_ok (digest ++ rest) -> Z.of_nat (length digest) = checksum_len (checksum info) ->
  ret <> 0 -> exists ret', key_loop info (digest ++ rest) sig (Z.of_nat (length sig)) node nodes ret = Some ret' /\
    (ret' = 0 <-> exists n, n ∈ loop_nodes node nodes /\ signed_by n digest).
Proof.
  induction nodes as [|[noffset ndepth] nodes IH]; intros ret Hb Hd Hr; cbn [key_loop loop_nodes].
  - exists ret. split; [done|]. split; [done|]. by intros (n & ?%elem_of_nil & _).
  - case_if; [exists ret; split; [done|]; split; [done|]; by intros (n & ?%elem_of_nil & _)|].
    case_if; [|by apply IH]. destruct (with_keynode_spec digest rest noffset Hb Hd) as (r & -> & Hr'). rewrite mbind_Some.
    destruct (Z.eqb_spec r 0) as [E|E].
    + exists 0. split; [done|]. split; [|done]. intros _. exists noffset. split; [left|by apply Hr'].
    + destruct (IH r Hb Hd E) as (r2 & -> & Hloop). exists r2. split; [done|]. rewrite Hloop. split.
      * intros (n & Hn & Hs). exists n. split; [by right|done].
      * intros (n & [->|Hn]%elem_of_cons & Hs); [by apply Hr' in Hs|]. by exists n.
Qed.

(** A signature is accepted if and only if, raised to the exponent of one of the
    keys that are tried modulo its modulus, it is the PKCS #1 padding of the
    digest.  The keys that are tried are the required one, the one that the image
    names, and then all others. *)
Lemma rsa_verify_spec stack region digest rest :
  calculate (checksum info) (checksum_name (checksum info)) region stack = Some (0, digest ++ rest) -> Forall byte_ok (digest ++ rest) ->
  Z.of_nat (length digest) = checksum_len (checksum info) -> let sig_node := fdt_subnode_offset (fdt_blob info) 0 (str "signature") in 0 <= sig_node ->
  exists ret, rsa_verify info stack region sig (Z.of_nat (length sig)) = Some ret /\
    (ret = 0 <-> exists node, node ∈ tried info sig_node /\ signed_by node digest).
Proof.
  intros Hc Hb Hd sig_node Hn. pose proof (a_sum _ Halgo) as Hcs. unfold rsa_verify. fold sig_node.
  rewrite (proj2 (Z.ltb_ge (key_len (crypto info)) _)), (proj2 (Z.ltb_ge sig_node 0)) by (pose proof (a_der _ Halgo); lia).
  rewrite Hc, mbind_Some. cbn [Z.ltb Z.compare]. fold (hint_node info sig_node).
  assert (exists r, (if negb (required_keynode info =? -1) then rsa_verify_with_keynode info (digest ++ rest) sig (Z.of_nat (length sig)) (required_keynode info)
    else Some (-1)) = Some r /\ (r = 0 <-> exists node, node ∈ (if required_keynode info =? -1 then [] else [required_keynode info]) /\ signed_by node digest))
    as (r & -> & Hr).
  { destruct (required_keynode info =? -1); cbn [negb].
    - exists (-1). split; [done|]. split; [done|]. by intros (n & ?%elem_of_nil & _).
    - destruct (with_keynode_spec digest rest (required_keynode info) Hb Hd) as (r & -> & Hr). exists r. split; [done|]. rewrite Hr.
      split; [intros H; eexists; split; [by left|done]|by intros (n & ->%list_elem_of_singleton & H)]. }
  rewrite mbind_Some. unfold tried. destruct (Z.eqb_spec r 0) as [E|E].
  { exists 0. split; [done|]. split; [|done]. intros _. apply Hr in E as (n & Hn' & Hs). exists n. split; [|done]. apply elem_of_app. by left. }
  destruct (with_keynode_spec digest rest (hint_node info sig_node) Hb Hd) as (r1 & -> & Hr1). rewrite mbind_Some.
  destruct (Z.eqb_spec r1 0) as [E1|E1].
  { exists 0. split; [done|]. split; [|done]. intros _. exists (hint_node info sig_node). split; [|by apply Hr1]. rewrite !elem_of_app. right. left. by left. }
  destruct (key_loop_spec digest rest (hint_node info sig_node) (fdt_next_nodes (fit info) sig_node) r1 Hb Hd E1) as (r2 & -> & Hr2).
  exists r2. split; [done|]. rewrite Hr2. split.
  - intros (n & Hn' & Hs). exists n. split; [|done]. rewrite !elem_of_app. by do 2 right.
  - intros (n & Hin & Hs). rewrite !elem_of_app in Hin. destruct Hin as [Hin|[->%list_elem_of_singleton|Hin]]; [|by apply Hr1 in Hs|by exists n].
    exfalso. apply E, Hr. by exists n.
Qed.

(** Whatever the required key is, an image that is signed by the key that it
    names is accepted. *)
Theorem required_key_not_required stack region digest rest :
  calculate (checksum info) (checksum_name (checksum info)) region stack = Some (0, digest ++ rest) -> Forall byte_ok (digest ++ rest) ->
  Z.of_nat (length digest) = checksum_len (checksum info) -> let sig_node := fdt_subnode_offset (fdt_blob info) 0 (str "signature") in 0 <= sig_node ->
  signed_by (hint_node info sig_node) digest -> rsa_verify info stack region sig (Z.of_nat (length sig)) = Some 0.
Proof.
  intros Hc Hb Hd sig_node Hn Hs. destruct (rsa_verify_spec stack region digest rest Hc Hb Hd Hn) as (ret & -> & Hret).
  f_equal. apply Hret. exists (hint_node info sig_node). split; [|done]. unfold tried. rewrite !elem_of_app. right. left. by left.
Qed.
End Verify.

(** ** Witnesses and examples *)

(** A key of one word. *)
Definition small_key (e : Z) : rsa_public_key := mk_key 1 3959067455 [0xc0012341] [1651064753] e.

Lemma small_key_ok e : key_ok (small_key e).
Proof. split; cbn [small_key key_words modulus rr n0inv]; try done; try lia; (split; [done|]); try done; repeat constructor; done. Qed.

Lemma pow_mod_correct_witness : exists out, pow_mod (small_key 17) [1; 2; 3; 4] = Some (0, out) /\ length out = 4%nat /\ Forall byte_ok out /\
  be_num out = be_num [1; 2; 3; 4] ^ 17 mod 0xc0012341.
Proof. apply (pow_mod_correct (small_key 17) [1; 2; 3; 4]); [apply small_key_ok|cbn; lia|done|done|repeat constructor; done|done]. Defined.

(** The bit 33 of the exponent is lost: the result is that of another exponent. *)
Example exponent_bit_lost : pow_mod (small_key (2 ^ 34 + 2 ^ 33 + 1)) [1; 2; 3; 4] = pow_mod (small_key (2 ^ 34 + 1)) [1; 2; 3; 4].
Proof. vm_compute. reflexivity. Qed.
