(* ===== verification/ImageSig.v ===== *)
(** * Signatures of FIT images ([common/image-sig.c])

    Which algorithms a signature node names, what is hashed, and which signatures
    a configuration or an image must have.  A FIT image and the control tree with
    the keys are views [fdt] of [Rsa.v].  A function is [None] when it reads behind
    a property or writes behind an array. *)

From S2P Require Import Prelude StringLib Blocks Sha1 Sha256 Hash Rsa.
Local Open Scope Z_scope.

Definition IMAGE_MAX_HASHED_NODES : Z := 100.
Definition SHA1_DER_LEN : Z := 15.
Definition RSA2048_BYTES : Z := 2048 / 8.
Definition RSA4096_BYTES : Z := 4096 / 8.
Definition FIT_SIG_NODENAME : list Z := str "signature".
Definition FIT_ALGO_PROP : list Z := str "algo".
Definition FIT_VALUE_PROP : list Z := str "value".
Definition FDT_ERR_TRUNCATED : Z := 8.
Definition FDT_ERR_BADSTRUCTURE : Z := 11.

Definition sha1_der_prefix : list Z :=
  [0x30; 0x21; 0x30; 0x09; 0x06; 0x05; 0x2b; 0x0e; 0x03; 0x02; 0x1a; 0x05; 0x00; 0x04; 0x14].

Section Signatures.
(** [heap]: the block that [malloc] gives to a hash context.  [stack]: the bytes
    of [hash] in [rsa_verify] before the digest is stored. *)
Context (heap : option (list Z)) (stack : list Z) (CONFIG_FIT_SIGNATURE_MAX_SIZE : Z).

(** ** Algorithms *)

Definition checksum_algos : list checksum_algo :=
  [mk_algo (str "sha1") SHA1_SUM_LEN SHA1_DER_LEN sha1_der_prefix (hash_calculate heap);
   mk_algo (str "sha256") SHA256_SUM_LEN SHA256_DER_LEN sha256_der_prefix (hash_calculate heap)].

Definition crypto_algos : list crypto_algo := [mk_crypto (str "rsa2048") RSA2048_BYTES; mk_crypto (str "rsa4096") RSA4096_BYTES].

Definition image_get_checksum_algo (full_name : list Z) : option checksum_algo :=
  List.find (fun a =>
    let name := checksum_name a in
    (strncmp name full_name (Z.to_nat (strlen name)) =? 0) && (ch (at_off full_name (strlen name)) =? 44)) checksum_algos.

Definition image_get_crypto_algo (full_name : list Z) : option crypto_algo :=
  i ← strchr full_name 44;
  let name := at_off full_name (i + 1) in
  List.find (fun a => strcmp (crypto_name a) name =? 0) crypto_algos.

(** ** One signature *)

(** The string in a property; it must end within the property. *)
Definition prop_string (b : list Z) : option (list Z) := if bool_decide (0 ∈ b) then Some (cstr b) else None.

(** The return value, or the information for the verification.  [inl] is an
    error. *)
Definition fit_image_setup_verify (gd_fdt_blob fit : fdt) (noffset required_keynode : Z) : option (Z + image_sign_info) :=
  if CONFIG_FIT_SIGNATURE_MAX_SIZE <? fdt_totalsize fit then Some (inl 1)
  else
    match fdt_getprop fit noffset FIT_ALGO_PROP with
    | None => Some (inl (-1))
    | Some algo =>
        algo_name ← prop_string algo;
        keyname ← match fdt_getprop fit noffset (str "key-name-hint") with Some b => prop_string b | None => Some (str "<NULL>") end;
        match image_get_checksum_algo algo_name, image_get_crypto_algo algo_name with
        | Some checksum, Some crypto => Some (inr (mk_sign_info keyname fit checksum crypto gd_fdt_blob required_keynode))
        | _, _ => Some (inl (-1))
        end
    end.

(** [verify] of the algorithm. *)
Definition crypto_verify (info : image_sign_info) (region : list image_region) (fit_value : list Z) : option Z :=
  ret ← rsa_verify info (take (Z.to_nat (key_len (crypto info))) stack) region fit_value (Z.of_nat (length fit_value));
  Some (if negb (ret =? 0) then -1 else 0).

Definition fit_image_check_sig (gd_fdt_blob fit : fdt) (noffset data_addr : Z) (data : list Z) (size required_keynode : Z) : option Z :=
  setup ← fit_image_setup_verify gd_fdt_blob fit noffset required_keynode;
  match setup with
  | inl _ => Some (-1)
  | inr info =>
      match fdt_getprop fit noffset FIT_VALUE_PROP with
      | None => Some (-1)
      | Some fit_value => crypto_verify info [mk_region data_addr data (s32 size)] fit_value
      end
  end.

(** The first loop of [fit_config_check_sig]: the number of strings. *)
Definition count_strings (prop : list Z) : Z := Z.of_nat (length (List.filter (fun c => c =? 0) prop)).

(** The second loop: [prop] from [name] on, with room for [count] more names. *)
Fixpoint node_names (fuel : nat) (prop : list Z) (count : Z) : option (list (list Z)) :=
  match fuel with
  | O => None
  | S fuel =>
      match prop with
      | [] => Some []
      | _ =>
          if count <=? 0 then None
          else
            name ← prop_string prop;
            names ← node_names fuel (drop (S (length name)) prop) (count - 1);
            Some (name :: names)
      end
  end.

Definition fit_region_make_list (fit : fdt) (fdt_regions : list (Z * Z)) : list image_region :=
  (fun r => mk_region (fdt_address fit + r.1) (drop (Z.to_nat r.1) (fdt_bytes fit)) r.2) <$> fdt_regions.

(** The regions that a configuration's signature covers; [inl] is an error. *)
Definition config_regions (fit : fdt) (noffset : Z) : option (Z + list image_region) :=
  let prop := default [] (fdt_getprop fit noffset (str "hashed-nodes")) in
  let count := count_strings prop in
  if (count =? 0) || (IMAGE_MAX_HASHED_NODES <? count) then Some (inl (-1))
  else
    node_inc ← node_names (S (length prop)) prop count;
    let max_regions := 20 + count * 7 in
    match fdt_find_regions fit node_inc (max_regions - 1) with
    | inl _ => Some (inl (-1))
    | inr regions =>
        let count := Z.of_nat (length regions) in
        if (count =? 0) || (max_regions - 1 <=? count) then Some (inl (-1))
        else
          regions ← match fdt_getprop fit noffset (str "hashed-strings") with
                    | None => Some regions
                    | Some b => size ← be_words 2 b; Some (regions ++ [(fdt_off_dt_strings fit, s32 (nth 1 size 0))])
                    end;
          Some (inr (fit_region_make_list fit regions))
    end.

Definition fit_config_check_sig (gd_fdt_blob fit : fdt) (noffset required_keynode : Z) : option Z :=
  setup ← fit_image_setup_verify gd_fdt_blob fit noffset required_keynode;
  match setup with
  | inl _ => Some (-1)
  | inr info =>
      match fdt_getprop fit noffset FIT_VALUE_PROP with
      | None => Some (-1)
      | Some fit_value =>
          regions ← config_regions fit noffset;
          match regions with inl ret => Some ret | inr region => crypto_verify info region fit_value end
      end
  end.

(** ** Required signatures *)

(** The loop over the signature nodes: whether one is verified, and the offset at
    which it ends. *)
Fixpoint sig_loop (check : Z -> option Z) (fit : fdt) (nodes : list Z) (end_ : Z) : option (bool * Z) :=
  match nodes with
  | [] => Some (false, end_)
  | noffset :: nodes =>
      if strncmp (fdt_get_name fit noffset) FIT_SIG_NODENAME (Z.to_nat (strlen FIT_SIG_NODENAME)) =? 0 then
        ret ← check noffset;
        if negb (ret =? 0) then sig_loop check fit nodes end_ else Some (true, noffset)
      else sig_loop check fit nodes end_
  end.

Definition verify_sigs (check : Z -> option Z) (fit : fdt) (noffset : Z) : option Z :=
  '(verified, noffset) ← sig_loop check fit (fdt_subnodes fit noffset).1 (fdt_subnodes fit noffset).2;
  Some (if (noffset =? - FDT_ERR_TRUNCATED) || (noffset =? - FDT_ERR_BADSTRUCTURE) then -1
        else if (verified : bool) then 0 else - EPERM).

(** The key node that is required is not used. *)
Definition fit_image_verify_sig (gd_fdt_blob fit : fdt) (image_noffset data_addr : Z) (data : list Z) (size sig_offset : Z) : option Z :=
  verify_sigs (fun noffset => fit_image_check_sig gd_fdt_blob fit noffset data_addr data size (-1)) fit image_noffset.

Definition fit_config_verify_sig (gd_fdt_blob fit : fdt) (conf_noffset sig_offset : Z) : option Z :=
  verify_sigs (fun noffset => fit_config_check_sig gd_fdt_blob fit noffset sig_offset) fit conf_noffset.

(** The loop over the key nodes: the return value and the number of keys whose
    signature was verified. *)
Fixpoint required_loop (verify : Z -> option Z) (sig_blob : fdt) (kind : list Z) (nodes : list Z) (verify_count : Z) : option (Z * Z) :=
  match nodes with
  | [] => Some (0, verify_count)
  | noffset :: nodes =>
      required ← match fdt_getprop sig_blob noffset (str "required") with None => Some None | Some b => Some <$> prop_string b end;
      if match required with None => true | Some r => negb (strcmp r kind =? 0) end
      then required_loop verify sig_blob kind nodes verify_count
      else
        ret ← verify noffset;
        if negb (ret =? 0) then Some (ret, verify_count) else required_loop verify sig_blob kind nodes (verify_count + 1)
  end.

(** The return value and [*no_sigsp]. *)
Definition fit_image_verify_required_sigs (gd_fdt_blob fit : fdt) (image_noffset data_addr : Z) (data : list Z) (size : Z) (sig_blob : fdt)
    : option (Z * bool) :=
  let sig_node := fdt_subnode_offset sig_blob 0 FIT_SIG_NODENAME in
  if sig_node <? 0 then Some (0, true)
  else
    '(ret, n) ← required_loop (fit_image_verify_sig gd_fdt_blob fit image_noffset data_addr data size) sig_blob (str "image")
                  (fdt_subnodes sig_blob sig_node).1 0;
    Some (ret, negb (ret =? 0) || (n =? 0)).

Definition fit_config_verify_required_sigs (gd_fdt_blob fit : fdt) (conf_noffset : Z) (sig_blob : fdt) : option Z :=
  let sig_node := fdt_subnode_offset sig_blob 0 FIT_SIG_NODENAME in
  if sig_node <? 0 then Some 0
  else
    '(ret, _) ← required_loop (fit_config_verify_sig gd_fdt_blob fit conf_noffset) sig_blob (str "conf") (fdt_subnodes sig_blob sig_node).1 0;
    Some ret.

Definition fit_config_verify (gd_fdt_blob fit : fdt) (conf_noffset : Z) : option Z :=
  fit_config_verify_required_sigs gd_fdt_blob fit conf_noffset gd_fdt_blob.
End Signatures.

(** ** What is accepted *)

(** Libfdt's promise for an image: its properties are bytes, and the regions that
    it finds are within the image. *)
Record fit_ok (fit : fdt) : Prop := {
  f_bytes : Forall byte_ok (fdt_bytes fit) /\ Z.of_nat (length (fdt_bytes fit)) < 2 ^ 31;
  f_props : forall node name b, fdt_getprop fit node name = Some b -> Forall byte_ok b;
  f_regions : forall nodes n rs, fdt_find_regions fit nodes n = inr rs ->
    Z.of_nat (length rs) <= n /\ Forall (fun r => 0 <= r.1 /\ 0 <= r.2 /\ r.1 + r.2 <= Z.of_nat (length (fdt_bytes fit))) rs;
  f_subnodes : forall node, Forall (fun n => 0 <= n) (fdt_subnodes fit node).1
}.

(** A signature node whose strings end with a NUL and whose [hashed-strings] are
    within the image: none of this is checked by the code. *)
Record sig_node_ok (fit : fdt) (noffset : Z) : Prop := {
  s_algo : forall b, fdt_getprop fit noffset FIT_ALGO_PROP = Some b -> 0 ∈ b;
  s_hint : forall b, fdt_getprop fit noffset (str "key-name-hint") = Some b -> 0 ∈ b;
  s_nodes : forall b, fdt_getprop fit noffset (str "hashed-nodes") = Some b -> last b = Some 0;
  s_strings : forall b, fdt_getprop fit noffset (str "hashed-strings") = Some b ->
    exists w size, be_words 2 b = Some [w; size] /\ 0 <= fdt_off_dt_strings fit /\ 0 <= s32 size /\
      fdt_off_dt_strings fit + s32 size <= Z.of_nat (length (fdt_bytes fit))
}.

(** *** The strings of [hashed-nodes] *)

Lemma cstr_nul_split b : 0 ∈ b -> exists rest, b = cstr b ++ 0 :: rest.
Proof.
  induction b as [|c b IH]; [by intros ?%elem_of_nil|]. intros [<-|Hin]%elem_of_cons; cbn [cstr]; [by exists b|].
  case_if; [subst; by exists b|]. destruct (IH Hin) as [rest Er]. exists rest. cbn [app]. by rewrite <- Er.
Qed.

Lemma count_nul b rest : (forall c, c ∈ b -> c <> 0) -> count_strings (b ++ 0 :: rest) = 1 + count_strings rest.
Proof.
  intros Hb. unfold count_strings. rewrite List.filter_app, length_app. cbn [List.filter Z.eqb length].
  assert (List.filter (fun c => c =? 0) b = []) as ->; [|cbn [length]; lia].
  induction b as [|c b IH]; [done|]. cbn [List.filter]. rewrite (proj2 (Z.eqb_neq c 0)) by (apply Hb; by left).
  apply IH. intros x Hx. apply Hb. by right.
Qed.

Lemma cstr_nonzero b c : c ∈ cstr b -> c <> 0.
Proof. induction b as [|x b IH]; cbn [cstr]; [by intros ?%elem_of_nil|]. case_if; [by intros ?%elem_of_nil|]. intros [->|?]%elem_of_cons; auto. Qed.

Lemma node_names_ok fuel : forall b, (length b < fuel)%nat -> b = [] \/ last b = Some 0 ->
  exists names, node_names fuel b (count_strings b) = Some names.
Proof.
  induction fuel as [|fuel IH]; intros b Hf Hb; [lia|]. cbn [node_names]. destruct b as [|c b]; [by eexists|].
  destruct Hb as [|Hb]; [done|]. assert (0 ∈ c :: b) as Hin by (by apply last_Some_elem_of). set (l := c :: b) in *.
  destruct (cstr_nul_split l Hin) as [rest E].
  assert (count_strings l = 1 + count_strings rest) as Ec by (rewrite E; apply count_nul, cstr_nonzero).
  rewrite (proj2 (Z.leb_gt _ _)) by (rewrite Ec; unfold count_strings; lia).
  unfold prop_string. rewrite bool_decide_eq_true_2, mbind_Some by done.
  assert (drop (S (length (cstr l))) l = rest) as ->.
  { rewrite E at 2. rewrite (cons_middle 0), app_assoc. apply drop_app_length'. rewrite length_app. simpl. lia. }
  assert (length l = length (cstr l) + S (length rest))%nat as El by (rewrite E at 1; rewrite length_app; simpl; lia).
  destruct (IH rest) as [names Hn]; [lia| |].
  - destruct rest as [|x rest]; [by left|right]. rewrite E, last_app_cons, last_cons_cons in Hb. done.
  - replace (count_strings l - 1) with (count_strings rest) by lia. rewrite Hn. by eexists.
Qed.

(** *** The regions *)

Lemma region_list_ok fit rs : fit_ok fit ->
  Forall (fun r => 0 <= r.1 /\ 0 <= r.2 /\ r.1 + r.2 <= Z.of_nat (length (fdt_bytes fit))) rs ->
  Forall region_ok (fit_region_make_list fit rs) /\ Z.of_nat (length (region_message (fit_region_make_list fit rs))) <= 2 ^ 31 * Z.of_nat (length rs).
Proof.
  intros Hf Hr. destruct (f_bytes _ Hf) as [Hb Hl].
  assert (forall r, 0 <= r.1 /\ 0 <= r.2 /\ r.1 + r.2 <= Z.of_nat (length (fdt_bytes fit)) ->
    region_ok (mk_region (fdt_address fit + r.1) (drop (Z.to_nat r.1) (fdt_bytes fit)) r.2)) as Hone.
  { intros r (H1 & H2 & H3). unfold region_ok. cbn [region_data region_size]. rewrite length_drop. split_and!; [by apply Forall_drop|lia..]. }
  split; [by apply Forall_fmap; eapply Forall_impl|].
  induction Hr as [|r rs Hr0 Hr IH]; [done|]. pose proof (length_region _ (Hone r Hr0)) as El. cbn [region_size] in El.
  change (fit_region_make_list fit (r :: rs))
    with (mk_region (fdt_address fit + r.1) (drop (Z.to_nat r.1) (fdt_bytes fit)) r.2 :: fit_region_make_list fit rs).
  rewrite region_message_cons, length_app. cbn [length]. lia.
Qed.

Lemma config_regions_spec fit noffset : fit_ok fit -> sig_node_ok fit noffset ->
  exists r, config_regions fit noffset = Some r /\
    forall rs, r = inr rs -> Forall region_ok rs /\ rs <> [] /\ Z.of_nat (length rs) < 2 ^ 10 /\ Z.of_nat (length (region_message rs)) < 2 ^ 41.
Proof.
  intros Hf Hs. unfold config_regions. set (prop := default [] _). case_if; [by eexists; split|].
  destruct (node_names_ok (S (length prop)) prop) as [names ->]; [lia| |].
  { unfold prop. destruct (fdt_getprop fit noffset (str "hashed-nodes")) eqn:Ep; [right; by apply (s_nodes _ _ Hs)|by left]. }
  rewrite mbind_Some. set (m := 20 + count_strings prop * 7).
  assert (27 <= m <= 720) as Hm.
  { unfold m. unfold IMAGE_MAX_HASHED_NODES in *. assert (0 <= count_strings prop) by (unfold count_strings; lia). lia. }
  destruct (fdt_find_regions fit names (m - 1)) as [e|rs] eqn:Er; [by eexists; split|]. destruct (f_regions _ Hf _ _ _ Er) as [Hn Hr].
  case_if; [by eexists; split|].
  assert (exists rs', match fdt_getprop fit noffset (str "hashed-strings") with
    | None => Some rs
    | Some b => size ← be_words 2 b; Some (rs ++ [(fdt_off_dt_strings fit, s32 (nth 1 size 0))]) end = Some rs' /\
    Forall (fun r => 0 <= r.1 /\ 0 <= r.2 /\ r.1 + r.2 <= Z.of_nat (length (fdt_bytes fit))) rs' /\
    (0 < length rs')%nat /\ Z.of_nat (length rs') < 2 ^ 10) as (rs' & -> & Hr' & Hne & Hc).
  { destruct (fdt_getprop fit noffset (str "hashed-strings")) as [b|] eqn:Eb.
    - destruct (s_strings _ _ Hs b Eb) as (w & size & -> & Hw1 & Hw2 & Hw3). rewrite mbind_Some. eexists. split; [done|]. rewrite length_app.
      split_and!; [|simpl; lia|simpl; lia]. apply Forall_app. split; [done|]. apply Forall_singleton. cbn [fst snd nth]. lia.
    - exists rs. split_and!; [done|done|lia|lia]. }
  rewrite mbind_Some. eexists. split; [done|]. intros ? [= <-]. destruct (region_list_ok fit rs' Hf Hr') as [Hok Hlen].
  split_and!; [done| | |lia].
  - unfold fit_region_make_list. destruct rs'; [simpl in Hne; lia|done].
  - unfold fit_region_make_list. by rewrite length_fmap.
Qed.

(** *** Algorithms *)

Lemma checksum_algo_ok buf a : a ∈ checksum_algos (Some buf) -> algo_ok a /\ exists k, kind_of (checksum_name a) = Some k /\
  cstring (checksum_name a) /\ checksum_len a = digest_size (algo k) /\ calculate a = hash_calculate (Some buf) /\
  (forall m, Forall byte_ok (progressive_digest k m)) /\ 0 <= checksum_len a /\ 0 <= der_len a /\ checksum_len a + der_len a < 250.
Proof.
  unfold checksum_algos. intros [->|[->|?%elem_of_nil]%elem_of_cons]%elem_of_cons; [| |done]; cbn [checksum_name checksum_len der_len calculate];
    unfold SHA1_SUM_LEN, SHA1_DER_LEN, SHA256_SUM_LEN, SHA256_DER_LEN.
  - split; [split; cbn [der_prefix der_len checksum_len]; try done; repeat constructor; done|]. exists Sha1_kind.
    split_and!; try done; [repeat constructor; done|]. intros m. apply sha1_bytes.
  - split; [split; cbn [der_prefix der_len checksum_len]; try done; repeat constructor; done|]. exists Sha256_kind.
    split_and!; try done; [repeat constructor; done|]. intros m. apply sha256_bytes.
Qed.

Lemma crypto_algo_len a : a ∈ crypto_algos -> key_len a = 256 \/ key_len a = 512.
Proof. unfold crypto_algos. intros [->|[->|?%elem_of_nil]%elem_of_cons]%elem_of_cons; [by left|by right|done]. Qed.

Lemma setup_spec heap max blob fit noffset required : sig_node_ok fit noffset ->
  exists r, fit_image_setup_verify heap max blob fit noffset required = Some r /\
    forall info, r = inr info -> checksum info ∈ checksum_algos heap /\ crypto info ∈ crypto_algos /\ fdt_blob info = blob /\
      Rsa.fit info = fit /\ required_keynode info = required.
Proof.
  intros Hs. unfold fit_image_setup_verify. case_if; [by eexists; split|].
  destruct (fdt_getprop fit noffset FIT_ALGO_PROP) as [b|] eqn:Ea; [|by eexists; split].
  unfold prop_string. rewrite bool_decide_eq_true_2, mbind_Some by (by apply (s_algo _ _ Hs)).
  assert (exists kn, match fdt_getprop fit noffset (str "key-name-hint") with
    | Some b => if bool_decide (0 ∈ b) then Some (cstr b) else None | None => Some (str "<NULL>") end = Some kn) as [kn ->].
  { destruct (fdt_getprop fit noffset (str "key-name-hint")) as [h|] eqn:Eh; [|by eexists].
    rewrite bool_decide_eq_true_2 by (by apply (s_hint _ _ Hs)). by eexists. }
  rewrite mbind_Some. destruct (image_get_checksum_algo heap (cstr b)) as [a|] eqn:E1; [|by eexists; split].
  destruct (image_get_crypto_algo (cstr b)) as [c|] eqn:E2; [|by eexists; split].
  eexists. split; [done|]. intros info [= <-]. cbn [checksum crypto fdt_blob Rsa.fit required_keynode]. split_and!; try done.
  - apply find_some in E1 as [Hin _]. by rewrite list_elem_of_In.
  - unfold image_get_crypto_algo in E2. destruct (strchr (cstr b) 44); [|done]. rewrite mbind_Some in E2.
    apply find_some in E2 as [Hin _]. by rewrite list_elem_of_In.
Qed.

(** *** Signatures *)

Section Accept.
Context (buf stack : list Z) (max : Z) (blob : fdt) (modulus_of : Z -> Z).
Context (Hbuf : length buf = 64%nat) (Hstack : (512 <= length stack)%nat) (Hsbytes : Forall byte_ok stack).

Definition ff_len (info : image_sign_info) : nat :=
  Z.to_nat (key_len (crypto info) - 3 - der_len (checksum info) - checksum_len (checksum info)).

Definition info_digest (info : image_sign_info) (m : list Z) : list Z :=
  match kind_of (checksum_name (checksum info)) with Some k => progressive_digest k m | None => [] end.

(** The keys in the control tree are complete, and are as long as the algorithm
    that a signature names. *)
Definition keys_ok (info : image_sign_info) (sig : list Z) : Prop :=
  forall node, has_key info node = true -> key_size info node = Z.of_nat (length sig) ->
    Z.of_nat (length sig) = key_len (crypto info) /\ prop_ok (node_prop info node) (modulus_of node) /\
    num_bits (node_prop info node) / 8 = key_len (crypto info).

(** Somebody who has the key of the node has signed the regions. *)
Definition signed (info : image_sign_info) (sig : list Z) (rs : list image_region) (node : Z) : Prop :=
  signed_by info sig (ff_len info) modulus_of node (info_digest info (region_message rs)).

Definition sig_root (info : image_sign_info) : Z := fdt_subnode_offset (fdt_blob info) 0 FIT_SIG_NODENAME.

Lemma crypto_verify_spec info sig rs : checksum info ∈ checksum_algos (Some buf) -> crypto info ∈ crypto_algos -> keys_ok info sig ->
  Forall byte_ok sig -> 0 <= sig_root info ->
  Forall region_ok rs -> rs <> [] -> Z.of_nat (length rs) < 2 ^ 10 -> Z.of_nat (length (region_message rs)) < 2 ^ 41 ->
  exists ret, crypto_verify stack info rs sig = Some ret /\
    (ret = 0 <-> exists node, node ∈ tried info (sig_root info) /\ signed info sig rs node).
Proof.
  intros Ha Hc Hk Hsig Hroot Hr Hne Hn Hl.
  destruct (checksum_algo_ok buf _ Ha) as (Haok & k & Hkind & Hcs & Hlen & Hcalc & Hdb & H1 & H2 & H3).
  pose proof (crypto_algo_len _ Hc) as Hkl. unfold crypto_verify.
  set (n := key_len (crypto info)) in *. set (st := take (Z.to_nat n) stack).
  assert (length st = Z.to_nat n) as Hst by (unfold st; rewrite length_take; lia).
  destruct (rsa_verify_spec info sig (Z.to_nat n) (ff_len info) modulus_of) with (stack := st) (region := rs)
    (digest := info_digest info (region_message rs)) (rest := drop (Z.to_nat (digest_size (algo k))) st) as (ret & -> & Hret).
  - intros node Hh Hs. destruct (Hk node Hh Hs) as (Hl1 & Hp & Hb). split_and!; [lia|done|]. fold n in Hb. rewrite Hb. lia.
  - done.
  - fold n. lia.
  - lia.
  - done.
  - unfold ff_len. fold n. lia.
  - unfold ff_len. fold n. lia.
  - rewrite Hcalc. unfold info_digest. rewrite hash_calculate_spec; [by rewrite Hkind|done|done|done|done|lia|lia|].
    rewrite Hkind. intros k' [= <-]. rewrite <- Hlen. lia.
  - unfold info_digest. rewrite Hkind. apply Forall_app. split; [apply Hdb|]. by apply Forall_drop, Forall_take.
  - unfold info_digest. rewrite Hkind, length_progressive, length_hash. done.
  - done.
  - rewrite mbind_Some. eexists. split; [done|]. fold (sig_root info) in Hret. unfold signed. rewrite <- Hret.
    destruct (Z.eqb_spec ret 0) as [->|Hne0]; cbn [negb]; [done|]. split; [done|intros; lia].
Qed.

(** The regions of a configuration are signed by one of the keys that are tried
    for the node. *)
Definition config_signed (fit : fdt) (noffset required : Z) : Prop :=
  exists info sig rs, fit_image_setup_verify (Some buf) max blob fit noffset required = Some (inr info) /\
    fdt_getprop fit noffset FIT_VALUE_PROP = Some sig /\ config_regions fit noffset = Some (inr rs) /\
    exists node, node ∈ tried info (sig_root info) /\ signed info sig rs node.

Lemma config_check_spec fit noffset required : fit_ok fit -> sig_node_ok fit noffset ->
  0 <= fdt_subnode_offset blob 0 FIT_SIG_NODENAME ->
  (forall info sig, fit_image_setup_verify (Some buf) max blob fit noffset required = Some (inr info) ->
     fdt_getprop fit noffset FIT_VALUE_PROP = Some sig -> keys_ok info sig) ->
  exists ret, fit_config_check_sig (Some buf) stack max blob fit noffset required = Some ret /\
    (ret = 0 <-> config_signed fit noffset required).
Proof.
  intros Hf Hs Hroot Hkeys. unfold fit_config_check_sig, config_signed.
  destruct (setup_spec (Some buf) max blob fit noffset required Hs) as (r & Esetup & Hinfo). rewrite Esetup, mbind_Some.
  destruct r as [e|info]; [exists (-1); split; [done|]; split; [done|]; by intros (? & ? & ? & [=] & _)|].
  destruct (Hinfo info eq_refl) as (Ha & Hc & Hb & _ & _).
  destruct (fdt_getprop fit noffset FIT_VALUE_PROP) as [sig|] eqn:Ev; [|exists (-1); split; [done|]; split; [done|]; by intros (? & ? & ? & _ & [=] & _)].
  destruct (config_regions_spec fit noffset Hf Hs) as (rr & Er & Hrs). rewrite Er, mbind_Some. destruct rr as [e|rs].
  - assert (e = -1) as ->.
    { revert Er. unfold config_regions. case_if; [by intros [= <-]|]. destruct (node_names _ _ _); [|done]. rewrite mbind_Some.
      destruct (fdt_find_regions _ _ _); [by intros [= <-]|]. case_if; [by intros [= <-]|]. destruct (match fdt_getprop fit noffset (str "hashed-strings") with
        None => _ | Some _ => _ end); [|done]. by rewrite mbind_Some. }
    exists (-1). split; [done|]. split; [done|]. by intros (? & ? & ? & _ & _ & [=] & _).
  - destruct (Hrs rs eq_refl) as (H1 & H2 & H3 & H4).
    destruct (crypto_verify_spec info sig rs Ha Hc) as (ret & -> & Hret); try done.
    + by apply Hkeys.
    + by apply (f_props _ Hf noffset FIT_VALUE_PROP).
    + unfold sig_root. by rewrite Hb.
    + exists ret. split; [done|]. rewrite Hret. split; [by intros H; exists info, sig, rs|].
      intros (info' & sig' & rs' & [= <-] & [= <-] & [= <-] & H). done.
Qed.
(** The key that the image names is tried whatever key is required. *)
Theorem required_key_ignored fit noffset info sig rs required required' : sig_node_ok fit noffset ->
  fit_image_setup_verify (Some buf) max blob fit noffset required = Some (inr info) ->
  fdt_getprop fit noffset FIT_VALUE_PROP = Some sig -> config_regions fit noffset = Some (inr rs) ->
  signed info sig rs (hint_node info (sig_root info)) -> config_signed fit noffset required'.
Proof.
  intros Hs Hi Hv Hr Hsig. exists (mk_sign_info (keyname info) fit (checksum info) (crypto info) blob required'), sig, rs.
  assert (fit_image_setup_verify (Some buf) max blob fit noffset required' =
    Some (inr (mk_sign_info (keyname info) fit (checksum info) (crypto info) blob required')) /\ fdt_blob info = blob) as [-> Hb].
  { revert Hi. unfold fit_image_setup_verify. case_if; [done|]. destruct (fdt_getprop fit noffset FIT_ALGO_PROP); [|done].
    destruct (prop_string _); [|done]. rewrite !mbind_Some. destruct (match fdt_getprop fit noffset (str "key-name-hint") with
      Some _ => _ | None => _ end); [|done]. rewrite !mbind_Some. destruct (image_get_checksum_algo _ _); [|done].
    destruct (image_get_crypto_algo _); [|done].
    by intros [= <-]. }
  split_and!; [done..|]. exists (hint_node info (sig_root info)). revert Hsig. subst blob. unfold tried, sig_root, hint_node, signed, signed_by.
  cbn [fdt_blob keyname required_keynode]. intros Hsig. split; [|done]. rewrite !elem_of_app. right. left. by left.
Qed.
End Accept.

(** *** Loops *)

Definition is_sig (fit : fdt) (n : Z) : bool :=
  strncmp (fdt_get_name fit n) FIT_SIG_NODENAME (Z.to_nat (strlen FIT_SIG_NODENAME)) =? 0.

Lemma sig_loop_spec check (ok : Z -> Prop) fit nodes end_ : Forall (fun n => 0 <= n) nodes ->
  (forall n, n ∈ nodes -> is_sig fit n = true -> exists r, check n = Some r /\ (r = 0 <-> ok n)) ->
  exists v e, sig_loop check fit nodes end_ = Some (v, e) /\ (v = true -> 0 <= e) /\
    (v = true <-> exists n, n ∈ nodes /\ is_sig fit n = true /\ ok n).
Proof.
  induction nodes as [|n nodes IH]; intros Hnn Hc; cbn [sig_loop].
  { eexists _, _. split; [done|]. split; [done|]. split; [done|]. by intros (? & ?%elem_of_nil & _). }
  apply Forall_cons in Hnn as [Hn Hnn].
  destruct IH as (v & e & Hloop & Hpos & Hv); [done|intros m Hm; apply Hc; by right|].
  assert (forall b, b = is_sig fit n -> (b = true -> ~ ok n) -> (v = true <-> exists m, m ∈ n :: nodes /\ is_sig fit m = true /\ ok m)) as Hskip.
  { intros b -> Hno. rewrite Hv. split; [intros (m & Hm & H); exists m; split; [by right|done]|].
    intros (m & [->|Hm]%elem_of_cons & Hs & H); [by destruct (Hno Hs)|by exists m]. }
  fold (is_sig fit n). destruct (is_sig fit n) eqn:Es.
  - destruct (Hc n ltac:(by left) Es) as (r & -> & Hr). rewrite mbind_Some. destruct (Z.eqb_spec r 0) as [E|E]; cbn [negb].
    + eexists _, _. split; [done|]. split; [done|]. split; [|done]. intros _. exists n. split; [by left|]. split; [done|by apply Hr].
    + rewrite Hloop. exists v, e. split; [done|]. split; [done|]. apply (Hskip true eq_refl). intros _ H. by apply E, Hr.
  - rewrite Hloop. exists v, e. split; [done|]. split; [done|]. by apply (Hskip false eq_refl).
Qed.

Lemma verify_sigs_spec check (ok : Z -> Prop) fit noffset : fit_ok fit ->
  (forall n, n ∈ (fdt_subnodes fit noffset).1 -> is_sig fit n = true -> exists r, check n = Some r /\ (r = 0 <-> ok n)) ->
  exists r, verify_sigs check fit noffset = Some r /\ (r = 0 <-> exists n, n ∈ (fdt_subnodes fit noffset).1 /\ is_sig fit n = true /\ ok n).
Proof.
  intros Hf Hc. unfold verify_sigs.
  destruct (sig_loop_spec check ok fit (fdt_subnodes fit noffset).1 (fdt_subnodes fit noffset).2 (f_subnodes _ Hf noffset) Hc)
    as (v & e & -> & Hpos & Hv). rewrite mbind_Some. eexists. split; [done|]. rewrite <- Hv. destruct v.
  - specialize (Hpos eq_refl). unfold FDT_ERR_TRUNCATED, FDT_ERR_BADSTRUCTURE.
    rewrite (proj2 (Z.eqb_neq e (- (8)))), (proj2 (Z.eqb_neq e (- (11)))) by lia. done.
  - case_match; split; done.
Qed.

(** The nodes of keys that are required for a kind. *)
Definition requires (sig_blob : fdt) (kind : list Z) (n : Z) : bool :=
  match fdt_getprop sig_blob n (str "required") with Some b => strcmp (cstr b) kind =? 0 | None => false end.

Lemma required_loop_spec verify (ok : Z -> Prop) sig_blob kind nodes : forall c,
  (forall n b, n ∈ nodes -> fdt_getprop sig_blob n (str "required") = Some b -> 0 ∈ b) ->
  (forall n, n ∈ nodes -> requires sig_blob kind n = true -> exists r, verify n = Some r /\ (r = 0 <-> ok n)) ->
  exists r c', required_loop verify sig_blob kind nodes c = Some (r, c') /\
    (r = 0 <-> forall n, n ∈ nodes -> requires sig_blob kind n = true -> ok n).
Proof.
  induction nodes as [|n nodes IH]; intros c Hstr Hv; cbn [required_loop].
  { eexists _, _. split; [done|]. split; [|done]. by intros _ ? ?%elem_of_nil. }
  assert (forall b, requires sig_blob kind n = b -> (b = true -> ok n) -> forall c, exists r c', required_loop verify sig_blob kind nodes c = Some (r, c') /\
    (r = 0 <-> forall m, m ∈ n :: nodes -> requires sig_blob kind m = true -> ok m)) as Hnext.
  { intros b Eb Hok c'. destruct (IH c') as (r & c2 & -> & Hr); [intros m b' Hm; apply Hstr; by right|intros m Hm; apply Hv; by right|].
    exists r, c2. split; [done|]. rewrite Hr. split; [|intros H m Hm; apply H; by right].
    intros H m [->|Hm]%elem_of_cons Hreq; [apply Hok; congruence|by apply H]. }
  assert (exists rq, (match fdt_getprop sig_blob n (str "required") with None => Some None | Some b => Some <$> prop_string b end = Some rq) /\
    (match rq with None => true | Some r => negb (strcmp r kind =? 0) end = negb (requires sig_blob kind n))) as (rq & -> & Hrq).
  { unfold requires. destruct (fdt_getprop sig_blob n (str "required")) as [b|] eqn:Eb; [|by eexists].
    unfold prop_string. rewrite bool_decide_eq_true_2 by (apply (Hstr n b); [by left|done]). by eexists. }
  rewrite mbind_Some, Hrq. destruct (requires sig_blob kind n) eqn:Er; cbn [negb].
  - destruct (Hv n ltac:(by left) Er) as (r & -> & Hr). rewrite mbind_Some. destruct (Z.eqb_spec r 0) as [E|E]; cbn [negb].
    + apply (Hnext true eq_refl). intros _. by apply Hr.
    + exists r, c. split; [done|]. split; [done|]. intros H. apply Hr, H; [by left|done].
  - by apply (Hnext false eq_refl).
Qed.

(** ** The claims *)

Section Claims.
Context (buf stack : list Z) (max : Z) (blob fit : fdt) (modulus_of : Z -> Z) (conf_noffset : Z).

(** The conditions on the trees: see [fit_ok], [sig_node_ok] and [keys_ok]. *)
Record trees_ok : Prop := {
  t_buf : length buf = 64%nat;
  t_stack : (512 <= length stack)%nat /\ Forall byte_ok stack;
  t_fit : fit_ok fit;
  t_required : forall n b, fdt_getprop blob n (str "required") = Some b -> 0 ∈ b;
  t_sigs : forall n, n ∈ (fdt_subnodes fit conf_noffset).1 -> is_sig fit n = true -> sig_node_ok fit n;
  t_keys : forall n key info sig, n ∈ (fdt_subnodes fit conf_noffset).1 ->
    fit_image_setup_verify (Some buf) max blob fit n key = Some (inr info) ->
    fdt_getprop fit n FIT_VALUE_PROP = Some sig -> keys_ok modulus_of info sig
}.

(** The nodes of keys that a configuration needs. *)
Definition required_keys : list Z :=
  let root := fdt_subnode_offset blob 0 FIT_SIG_NODENAME in
  if root <? 0 then [] else List.filter (requires blob (str "conf")) (fdt_subnodes blob root).1.

End Claims.

(** ** A witness *)

(** [x] in [k] bytes, the most significant one first. *)
Fixpoint be_enc (k : nat) (x : Z) : list Z := match k with O => [] | S k => be_enc k (Z.shiftr x 8) ++ [Z.land x 255] end.

Lemma be_enc_spec k : forall x, Forall byte_ok (be_enc k x) /\ length (be_enc k x) = k /\ (0 <= x < 256 ^ Z.of_nat k -> be_num (be_enc k x) = x).
Proof.
  induction k as [|k IH]; intros x; [split_and!; [constructor|done|]; cbn; lia|]. destruct (IH (Z.shiftr x 8)) as (H1 & H2 & H3). cbn [be_enc].
  assert (Z.land x 255 = x mod 2 ^ 8) as El by (by rewrite <- Z.land_ones by lia).
  rewrite El. pose proof (Z.mod_pos_bound x (2 ^ 8) ltac:(lia)) as Hm. split_and!.
  - apply Forall_app. split; [done|]. constructor; [done|constructor].
  - rewrite length_app, H2. simpl. lia.
  - intros Hx. rewrite be_num_app. change (256 ^ Z.of_nat (length [x mod 2 ^ 8])) with 256. change (be_num [x mod 2 ^ 8]) with (x mod 2 ^ 8).
    rewrite Nat2Z.inj_succ, Z.pow_succ_r in Hx by lia. rewrite Z.shiftr_div_pow2 in * by lia. change (2 ^ 8) with 256 in *.
    pose proof (Z.div_mod x 256 ltac:(lia)). rewrite H3; [lia|]. split; [apply Z.div_pos; lia|apply Z.div_lt_upper_bound; lia].
Qed.

(** The modulus 2^2047 + 1: an odd number of 2048 bits. *)
Definition test_half : Z := 2 ^ 2047.
Definition test_prop : key_prop := mk_prop (Some (be_enc 256 4)) (Some (be_enc 256 (test_half + 1))) (Some (be_enc 8 3)) (2 ^ 32 - 1) 2048.

Lemma test_half_facts : exists y, test_half = y * 2 ^ 32 /\ 2 ^ 2048 = 2 * test_half /\ 256 ^ Z.of_nat 256 = 2 ^ 2048 /\ 3 < y.
Proof.
  unfold test_half. exists (2 ^ 2015). split_and!.
  - by rewrite <- Z.pow_add_r by lia.
  - by rewrite <- Z.pow_succ_r by lia.
  - change 256 with (2 ^ 8) at 1. by rewrite <- Z.pow_mul_r by lia.
  - apply (Z.lt_le_trans _ (2 ^ 2)); [lia|]. apply Z.pow_le_mono_r; lia.
Qed.

Lemma test_rr x n : n = 2 * x -> 3 < x -> n ^ 2 mod (x + 1) = 4.
Proof. intros -> Hx. symmetry. apply (Z.mod_unique _ _ (4 * (x - 1))); [left; lia|]. ring. Qed.

Lemma test_n0inv x y : x = y * 2 ^ 32 -> ((2 ^ 32 - 1) * (x + 1) + 1) mod 2 ^ 32 = 0.
Proof.
  intros ->. replace ((2 ^ 32 - 1) * (y * 2 ^ 32 + 1) + 1) with ((y * (2 ^ 32 - 1) + 1) * 2 ^ 32) by ring. by apply Z.mod_mul.
Qed.

Lemma test_prop_ok : prop_ok test_prop (test_half + 1).
Proof.
  destruct test_half_facts as (y & Hy & H2 & H256 & Hy3).
  assert (forall x, 0 <= x < 2 ^ 2048 -> exists b, Some (be_enc 256 x) = Some b /\ Forall byte_ok b /\
    Z.of_nat (length b) = num_bits test_prop / 8 /\ be_num b = x) as Henc.
  { intros x Hx. destruct (be_enc_spec 256 x) as (H1 & Hl & H3). exists (be_enc 256 x). split_and!; [done|done|by rewrite Hl|].
    apply H3. by rewrite H256. }
  split; cbn [test_prop num_bits prop_modulus prop_rr prop_n0inv public_exponent].
  - done.
  - apply (Henc (test_half + 1)). rewrite H2. lia.
  - rewrite (test_rr _ _ H2) by lia. apply (Henc 4). rewrite H2. lia.
  - split; [by vm_compute|]. by apply (test_n0inv _ y).
  - rewrite H2. lia.
  - split; [repeat constructor; done|]. vm_compute. lia.
  - split; [vm_compute; done|reflexivity].
Qed.

(** A control tree with one required key, at offset 7, and an image with the
    configuration 3 and its signature 5. *)
Definition test_blob : fdt := mk_fdt [] 0
  (fun node nm d => if node =? 7 then if bool_decide (nm = str "rsa,num-bits") then 2048 else 2 ^ 32 - 1 else d)
  (fun node nm => if node =? 7 then
     if bool_decide (nm = str "rsa,modulus") then prop_modulus test_prop
     else if bool_decide (nm = str "rsa,r-squared") then prop_rr test_prop
     else if bool_decide (nm = str "rsa,exponent") then public_exponent test_prop
     else if bool_decide (nm = str "required") then Some (str "conf" ++ [0]) else None
   else None)
  (fun node nm => if bool_decide (nm = str "signature") then 1 else if bool_decide (nm = str "key-dev") then 7 else -1)
  (fun _ => []) (fun _ => []) (fun n => (if n =? 1 then [7] else [], -1)) (fun _ _ => inl (-1)) 0 0.

Definition test_fit : fdt := mk_fdt [1; 2; 3; 4; 5; 6; 7; 8] 64
  (fun _ _ d => d)
  (fun node nm => if node =? 5 then
     if bool_decide (nm = str "algo") then Some (str "sha1,rsa2048" ++ [0])
     else if bool_decide (nm = str "value") then Some (be_enc 256 5)
     else if bool_decide (nm = str "key-name-hint") then Some (str "dev" ++ [0])
     else if bool_decide (nm = str "hashed-nodes") then Some (str "/" ++ [0]) else None
   else None)
  (fun _ _ => -1) (fun n => str "signature-1") (fun _ => []) (fun n => (if n =? 3 then [5] else [], -1))
  (fun _ n => if n <? 1 then inl (-1) else inr [(0, 4)]) 8 8.

Lemma test_node key info sig : fit_image_setup_verify (Some (replicate 64 0)) 1024 test_blob test_fit 5 key = Some (inr info) ->
  fdt_getprop test_fit 5 FIT_VALUE_PROP = Some sig -> keys_ok (fun _ => test_half + 1) info sig.
Proof.
  intros Hi Hs node Hh Hk.
  assert (exists c, info = mk_sign_info (str "dev") test_fit c (mk_crypto (str "rsa2048") RSA2048_BYTES) test_blob key) as [c ->].
  { revert Hi. unfold fit_image_setup_verify. change (1024 <? fdt_totalsize test_fit) with false.
    change (fdt_getprop test_fit 5 FIT_ALGO_PROP) with (Some (str "sha1,rsa2048" ++ [0])).
    change (fdt_getprop test_fit 5 (str "key-name-hint")) with (Some (str "dev" ++ [0])). cbv iota.
    change (prop_string (str "sha1,rsa2048" ++ [0])) with (Some (str "sha1,rsa2048")). change (prop_string (str "dev" ++ [0])) with (Some (str "dev")).
    rewrite !mbind_Some. change (image_get_crypto_algo (str "sha1,rsa2048")) with (Some (mk_crypto (str "rsa2048") RSA2048_BYTES)).
    destruct (image_get_checksum_algo _ _) as [c|]; [|done]. intros [= <-]. by exists c. }
  change (fdt_getprop test_fit 5 FIT_VALUE_PROP) with (Some (be_enc 256 5)) in Hs. assert (sig = be_enc 256 5) as -> by congruence.
  cbn [crypto key_len]. revert Hh Hk. unfold has_key, key_size, node_prop. cbn [fdt_blob test_blob fdt_getprop fdtdec_get_int].
  destruct (Z.eqb_spec node 7) as [->|Hne]; [|cbn [num_bits Z.eqb negb]; by rewrite andb_false_r].
  intros _ _. split; [|split; [exact test_prop_ok|done]]. destruct (be_enc_spec 256 5) as (_ & -> & _). done.
Qed.


(** ** Divergences *)

(** A property [hashed-nodes] that does not end with a NUL: the array of names is
    too small by one, and the last name is read behind the property. *)
Example hashed_nodes_overrun : node_names 4 (str "a" ++ [0] ++ str "b") (count_strings (str "a" ++ [0] ++ str "b")) = None.
Proof. vm_compute. reflexivity. Qed.

(** A length of the key that is not a multiple of 32: the signature does not fit
    in the buffer of whole words. *)
Example odd_key_length_overrun :
  rsa_verify_key (Some (mk_prop (Some (replicate 257 1)) (Some (replicate 257 1)) None 1 2056)) (Some (replicate 257 1)) 257
    (Some (replicate 20 0)) 257 (Some (mk_algo (str "sha1") 20 15 sha1_der_prefix (hash_calculate None))) = None.
Proof. vm_compute. reflexivity. Qed.

(** A key that is shorter than the algorithm says: the padding is looked for
    behind the end of the message. *)
Example short_key_overrun : rsa_verify_padding ([0; 1] ++ replicate 254 255) (512 - 20) (mk_algo (str "sha1") 20 15 sha1_der_prefix (hash_calculate None)) = None.
Proof. vm_compute. reflexivity. Qed.
