(* ===== verification/EnvStore.v ===== *)
(** * The stored environment ([env/common.c], [env/sf.c], [include/environment.h])

    The environment is kept in the SPI flash: a CRC-32, a byte of flags if there
    are two copies, and the text of all variables.  This file has the import and
    the export with the checksum, the choice between two copies, and loading and
    saving in both configurations, with one copy (that of the Firebox) and with
    two.

    The SPI flash driver is the class [SpiFlash]: its operations return 0 or an
    error, and its laws are those of NOR flash.  An operation that fails may leave
    anything in the range that it was given, which also covers a loss of power
    during it.  The functions return [None] for an access out of bounds. *)

From S2P Require Import Prelude StringLib Qsort Hashtable EnvText Crc32.
Local Open Scope Z_scope.


(** ** The interface of the flash driver *)

(** The bytes [off .. off + len) of the flash. *)
Definition area (f : list Z) (off len : Z) : list Z := take (Z.to_nat len) (drop (Z.to_nat off) f).

(** Two contents of the flash that agree outside of a range. *)
Definition same_outside (off len : Z) (f g : list Z) : Prop :=
  length f = length g /\ forall i : nat, ~ off <= Z.of_nat i < off + len -> f !! i = g !! i.

Class SpiFlash (F : Type) := {
  contents : F -> list Z;
  spi_flash_read : F -> Z -> Z -> Z * list Z * F;
  spi_flash_erase : F -> Z -> Z -> Z * F;
  spi_flash_write : F -> Z -> list Z -> Z * F
}.

(** A write can only clear bits. *)
Class SpiFlashOk (F : Type) `{SpiFlash F} := {
  flash_read_keeps f off len r bs f' :
    spi_flash_read f off len = (r, bs, f') -> contents f' = contents f /\ Z.of_nat (length bs) = Z.max 0 len;
  flash_read_data f off len bs f' :
    spi_flash_read f off len = (0, bs, f') -> 0 <= off -> off + len <= Z.of_nat (length (contents f)) ->
    bs = area (contents f) off len;
  flash_erase_outside f off len r f' :
    spi_flash_erase f off len = (r, f') -> same_outside off len (contents f) (contents f');
  flash_erase_data f off len f' i :
    spi_flash_erase f off len = (0, f') -> off <= Z.of_nat i < off + len -> (i < length (contents f))%nat ->
    contents f' !! i = Some 255;
  flash_write_outside f off bs r f' :
    spi_flash_write f off bs = (r, f') -> same_outside off (Z.of_nat (length bs)) (contents f) (contents f');
  flash_write_data f off bs f' i old :
    spi_flash_write f off bs = (0, f') -> off <= Z.of_nat i < off + Z.of_nat (length bs) ->
    contents f !! i = Some old ->
    contents f' !! i = (fun b => Z.land old b) <$> bs !! Z.to_nat (Z.of_nat i - off)
}.

(** ** Configuration and state *)

Class EnvConfig := {
  CONFIG_SYS_REDUNDAND_ENVIRONMENT : bool;
  CONFIG_ENV_SIZE : Z;
  CONFIG_ENV_SECT_SIZE : Z;
  CONFIG_ENV_OFFSET : Z;
  CONFIG_ENV_OFFSET_REDUND : Z;
  default_environment : list Z
}.

Definition ENV_INVALID : Z := 0.
Definition ENV_VALID : Z := 1.
Definition ENV_REDUND : Z := 2.

Definition ACTIVE_FLAG : Z := 1.
Definition OBSOLETE_FLAG : Z := 0.

Section Model.
Context {C F : Type} {hooks : EnvHooks C} {flash_ops : SpiFlash F} {config : EnvConfig}.
(** The address of the data, which decides how [crc32] reads them, the regular
    expressions of [hexport_r], which are not used without a pattern, and the
    result of looking for the flash. *)
Context (data_addr : Z) (slre_compile : list Z -> bool) (slre_match : list Z -> list Z -> bool) (probe : Z).

Definition ENV_HEADER_SIZE : Z := if CONFIG_SYS_REDUNDAND_ENVIRONMENT then 4 + 1 else 4.
Definition ENV_SIZE : Z := CONFIG_ENV_SIZE - ENV_HEADER_SIZE.

Record env_t := mk_env_t { crc : Z; env_t_flags : Z; env_data : list Z }.

(** The bytes of an [env_t], and the cast of bytes to an [env_t]. *)
Definition env_image (e : env_t) : list Z :=
  [Z.land (crc e) 255; Z.land (Z.shiftr (crc e) 8) 255; Z.land (Z.shiftr (crc e) 16) 255; Z.land (Z.shiftr (crc e) 24) 255]
  ++ (if CONFIG_SYS_REDUNDAND_ENVIRONMENT then [env_t_flags e] else []) ++ env_data e.

Definition env_cast (buf : list Z) : env_t :=
  mk_env_t (le_num (take 4 buf)) (if CONFIG_SYS_REDUNDAND_ENVIRONMENT then nth 4 buf 0 else 0)
    (take (Z.to_nat ENV_SIZE) (drop (Z.to_nat ENV_HEADER_SIZE) buf)).

(** The hash table, [gd->env_valid], the two flags of [gd->flags], the serial
    number [env_flags] and the flash. *)
Record store := mk_store {
  env_htab : hsearch_data C;
  env_valid : Z;
  env_ready : bool;
  env_default : bool;
  env_serial : Z;
  env_flash : F
}.

Definition with_htab (s : store) (h : hsearch_data C) : store :=
  mk_store h (env_valid s) (env_ready s) (env_default s) (env_serial s) (env_flash s).
Definition with_valid (s : store) (v : Z) : store :=
  mk_store (env_htab s) v (env_ready s) (env_default s) (env_serial s) (env_flash s).
Definition with_ready (s : store) : store :=
  mk_store (env_htab s) (env_valid s) true (env_default s) (env_serial s) (env_flash s).
Definition with_serial (s : store) (n : Z) : store :=
  mk_store (env_htab s) (env_valid s) (env_ready s) (env_default s) n (env_flash s).
Definition with_flash (s : store) (f : F) : store :=
  mk_store (env_htab s) (env_valid s) (env_ready s) (env_default s) (env_serial s) f.

(** ** Import and export *)

Definition set_default_env (flags : Z) (s : store) : option store :=
  if ENV_SIZE <? Z.of_nat (length default_environment) then Some s
  else
    '(_, _, h) ← himport_r (env_htab s) default_environment 0 flags false [];
    Some (mk_store h (env_valid s) true true (env_serial s) (env_flash s)).

Definition set_default_vars (vars : list (list Z)) (flags : Z) (s : store) : option (Z * store) :=
  '(r, _, h) ← himport_r (env_htab s) default_environment 0 (Z.lor flags H_NOCLEAR) false vars;
  Some (r, with_htab s h).

(** [crc32(0, ep->data, ENV_SIZE) == ep->crc] *)
Definition crc_ok (ep : env_t) : option bool :=
  c ← crc32 crc_table 0 data_addr (env_data ep) ENV_SIZE; Some (c =? crc ep).

Definition env_import (buf : list Z) (check : bool) (s : store) : option (Z * store) :=
  let ep := env_cast buf in
  ok ← if check then crc_ok ep else Some true;
  if negb ok then s ← set_default_env 0 s; Some (- EIO, s)
  else
    '(r, _, h) ← himport_r (env_htab s) (env_data ep) 0 0 false [];
    if negb (r =? 0) then Some (0, with_ready (with_htab s h))
    else s ← set_default_env 0 (with_htab s h); Some (- EIO, s).

Definition env_import_redund (buf1 : list Z) (buf1_read_fail : Z) (buf2 : list Z) (buf2_read_fail : Z) (s : store)
    : option (Z * store) :=
  let tmp_env1 := env_cast buf1 in
  let tmp_env2 := env_cast buf2 in
  let fail1 := negb (buf1_read_fail =? 0) in
  let fail2 := negb (buf2_read_fail =? 0) in
  if fail1 && fail2 then s ← set_default_env 0 s; Some (- EIO, s)
  else if negb fail1 && fail2 then env_import buf1 true (with_valid s ENV_VALID)
  else if fail1 && negb fail2 then env_import buf2 true (with_valid s ENV_REDUND)
  else
    crc1_ok ← crc_ok tmp_env1;
    crc2_ok ← crc_ok tmp_env2;
    if negb crc1_ok && negb crc2_ok then s ← set_default_env 0 s; Some (- EIO, s)
    else
      let valid :=
        if crc1_ok && negb crc2_ok then ENV_VALID
        else if negb crc1_ok && crc2_ok then ENV_REDUND
        else if (env_t_flags tmp_env1 =? 255) && (env_t_flags tmp_env2 =? 0) then ENV_REDUND
        else if (env_t_flags tmp_env2 =? 255) && (env_t_flags tmp_env1 =? 0) then ENV_VALID
        else if env_t_flags tmp_env2 <? env_t_flags tmp_env1 then ENV_VALID
        else if env_t_flags tmp_env1 <? env_t_flags tmp_env2 then ENV_REDUND
        else ENV_VALID in
      let buf := if valid =? ENV_VALID then buf1 else buf2 in
      env_import buf false (with_serial (with_valid s valid) (env_t_flags (env_cast buf))).

(** [env_out] is what the structure holds before. *)
Definition env_export (env_out : env_t) (s : store) : option (Z * env_t * store) :=
  '(len, res) ← hexport_r slre_compile slre_match (env_htab s) 0 0 (Some (env_data env_out)) ENV_SIZE [];
  let env_out := mk_env_t (crc env_out) (env_t_flags env_out) (default (env_data env_out) res) in
  if len <? 0 then Some (1, env_out, s)
  else
    c ← crc32 crc_table 0 data_addr (env_data env_out) ENV_SIZE;
    if CONFIG_SYS_REDUNDAND_ENVIRONMENT then
      let n := u8 (env_serial s + 1) in
      Some (0, mk_env_t c n (env_data env_out), with_serial s n)
    else Some (0, mk_env_t c (env_t_flags env_out) (env_data env_out), s).

(** ** The SPI flash *)

Definition setup_flash_device (s : store) : option (Z * store) :=
  if negb (probe =? 0) then s ← set_default_env 0 s; Some (probe, s) else Some (0, s).

(** A write followed by [if (ret) goto done]. *)
Definition write_then (f : F) (off : Z) (bs : list Z) (next : F -> Z * F) : Z * F :=
  let '(ret, f) := spi_flash_write f off bs in if negb (ret =? 0) then (ret, f) else next f.

Definition DIV_ROUND_UP (n d : Z) : Z := (n + d - 1) / d.
Definition sector : Z := DIV_ROUND_UP CONFIG_ENV_SIZE CONFIG_ENV_SECT_SIZE.

(** Erasing and writing an environment at [off], with the rest of the sector
    saved and written back: the part that both variants share. *)
Definition rewrite_sector (f : F) (off : Z) (saved : option (list Z)) (env_new : env_t) (next : F -> Z * F) : Z * F :=
  let '(ret, f) := spi_flash_erase f off (sector * CONFIG_ENV_SECT_SIZE) in
  if negb (ret =? 0) then (ret, f)
  else
    write_then f off (env_image env_new) (fun f =>
      match saved with
      | Some buf => write_then f (off + CONFIG_ENV_SIZE) buf next
      | None => next f
      end).

(** The read of the rest of the sector; [nomem] is the return value when there is
    no memory for it. *)
Definition save_rest (f : F) (off nomem : Z) : (Z * F) + (option (list Z) * F) :=
  if CONFIG_ENV_SIZE <? CONFIG_ENV_SECT_SIZE then
    let saved_size := CONFIG_ENV_SECT_SIZE - CONFIG_ENV_SIZE in
    if negb (hk_malloc saved_size) then inl (nomem, f)
    else
      let '(ret, buf, f) := spi_flash_read f (off + CONFIG_ENV_SIZE) saved_size in
      if negb (ret =? 0) then inl (ret, f) else inr (Some buf, f)
  else inr (None, f).

(** One copy.  [env_new] is what the local variable holds at first.  If there is
    no memory, [ret] still has the 0 of [setup_flash_device]. *)
Definition env_sf_save (env_new : env_t) (s : store) : option (Z * store) :=
  '(ret, s) ← setup_flash_device s;
  if negb (ret =? 0) then Some (ret, s)
  else
    match save_rest (env_flash s) CONFIG_ENV_OFFSET ret with
    | inl (ret, f) => Some (ret, with_flash s f)
    | inr (saved, f) =>
        '(ret, env_new, s) ← env_export env_new (with_flash s f);
        if negb (ret =? 0) then Some (ret, s)
        else
          let '(ret, f) := rewrite_sector (env_flash s) CONFIG_ENV_OFFSET saved env_new (fun f => (0, f)) in
          Some (ret, with_flash s f)
    end.

Definition env_sf_load (s : store) : option (Z * store) :=
  if negb (hk_malloc CONFIG_ENV_SIZE) then s ← set_default_env 0 s; Some (- EIO, s)
  else
    '(ret, s) ← setup_flash_device s;
    if negb (ret =? 0) then Some (ret, s)
    else
      let '(ret, buf, f) := spi_flash_read (env_flash s) CONFIG_ENV_OFFSET CONFIG_ENV_SIZE in
      let s := with_flash s f in
      if negb (ret =? 0) then s ← set_default_env 0 s; Some (ret, s)
      else
        '(ret, s) ← env_import buf true s;
        Some (ret, if ret =? 0 then with_valid s ENV_VALID else s).

(** Two copies. *)
Definition env_sf_save_redund (env_new : env_t) (s : store) : option (Z * store) :=
  '(ret, s) ← setup_flash_device s;
  if negb (ret =? 0) then Some (ret, s)
  else
    '(ret, env_new, s) ← env_export env_new s;
    if negb (ret =? 0) then Some (- EIO, s)
    else
      let env_new := mk_env_t (crc env_new) ACTIVE_FLAG (env_data env_new) in
      let '(env_new_offset, env_offset) :=
        if env_valid s =? ENV_VALID then (CONFIG_ENV_OFFSET_REDUND, CONFIG_ENV_OFFSET)
        else (CONFIG_ENV_OFFSET, CONFIG_ENV_OFFSET_REDUND) in
      match save_rest (env_flash s) env_new_offset (- ENOMEM) with
      | inl (ret, f) => Some (ret, with_flash s f)
      | inr (saved, f) =>
          let '(ret, f) := rewrite_sector f env_new_offset saved env_new (fun f =>
            spi_flash_write f (env_offset + 4) [OBSOLETE_FLAG]) in
          let s := with_flash s f in
          if negb (ret =? 0) then Some (ret, s)
          else Some (0, with_valid s (if env_valid s =? ENV_REDUND then ENV_VALID else ENV_REDUND))
      end.

Definition env_sf_load_redund (s : store) : option (Z * store) :=
  if negb (hk_malloc CONFIG_ENV_SIZE) then s ← set_default_env 0 s; Some (- EIO, s)
  else
    '(ret, s) ← setup_flash_device s;
    if negb (ret =? 0) then Some (ret, s)
    else
      let '(read1_fail, tmp_env1, f) := spi_flash_read (env_flash s) CONFIG_ENV_OFFSET CONFIG_ENV_SIZE in
      let '(read2_fail, tmp_env2, f) := spi_flash_read f CONFIG_ENV_OFFSET_REDUND CONFIG_ENV_SIZE in
      env_import_redund tmp_env1 read1_fail tmp_env2 read2_fail (with_flash s f).

(** [env_relocate] with the loader of [env/env.c] *)
Definition env_relocate (env_load : store -> option (Z * store)) (s : store) : option store :=
  if env_valid s =? ENV_INVALID then set_default_env 0 s
  else '(_, s) ← env_load s; Some s.
End Model.

(** ** Areas of the flash *)

Lemma area_lookup f off len (i : nat) :
  0 <= off -> (Z.of_nat i < len) -> area f off len !! i = f !! (Z.to_nat off + i)%nat.
Proof. intros Ho Hi. unfold area. rewrite lookup_take_lt by lia. apply lookup_drop. Qed.

Lemma area_length f off len :
  0 <= off -> 0 <= len -> off + len <= Z.of_nat (length f) -> length (area f off len) = Z.to_nat len.
Proof. intros. unfold area. rewrite length_take, length_drop. lia. Qed.

Lemma area_bytes f off len : Forall byte_ok f -> Forall byte_ok (area f off len).
Proof. intros Hf. by apply Forall_take, Forall_drop. Qed.

(** An area is known from its bytes. *)
Lemma area_eq f off bs :
  0 <= off -> (forall i : nat, (i < length bs)%nat -> f !! (Z.to_nat off + i)%nat = bs !! i) ->
  area f off (Z.of_nat (length bs)) = bs.
Proof.
  intros Ho Hf. apply list_eq. intros i. destruct (decide (i < length bs)%nat) as [Hi|Hi].
  - rewrite area_lookup by lia. by apply Hf.
  - rewrite (lookup_ge_None_2 bs) by lia. apply lookup_ge_None_2. unfold area. rewrite length_take. lia.
Qed.

Lemma same_outside_refl off len f : same_outside off len f f.
Proof. by split. Qed.

Lemma same_outside_trans off len f g h :
  same_outside off len f g -> same_outside off len g h -> same_outside off len f h.
Proof.
  intros [L1 H1] [L2 H2]. split; [by rewrite L1|]. intros i Hi. by rewrite H1, H2.
Qed.

Lemma same_outside_wider off len off' len' f g :
  same_outside off len f g -> off' <= off -> off + len <= off' + len' -> same_outside off' len' f g.
Proof. intros [L H] H1 H2. split; [done|]. intros i Hi. apply H. lia. Qed.

(** An area that is not touched. *)
Lemma same_outside_area off len f g o n :
  same_outside off len f g -> 0 <= o -> 0 <= n -> o + n <= Z.of_nat (length f) ->
  o + n <= off \/ off + len <= o -> area f o n = area g o n.
Proof.
  intros [L H] Ho Hn Hl Hd. apply list_eq. intros i. destruct (decide (Z.of_nat i < n)) as [Hi|Hi].
  - rewrite !area_lookup by lia. apply H. lia.
  - rewrite !lookup_ge_None_2; [done|unfold area; rewrite length_take; lia..].
Qed.

Lemma land_255 b : byte_ok b -> Z.land 255 b = b.
Proof.
  intros Hb. rewrite Z.land_comm. change 255 with (Z.ones 8). rewrite Z.land_ones by lia.
  apply Z.mod_small. unfold byte_ok in *. lia.
Qed.

Section Laws.
Context {F : Type} {flash_ops : SpiFlash F} {flash_ok : SpiFlashOk F}.

(** Writing to an erased range stores the bytes. *)
Lemma write_erased f off bs f' :
  spi_flash_write f off bs = (0, f') -> 0 <= off -> off + Z.of_nat (length bs) <= Z.of_nat (length (contents f)) ->
  Forall byte_ok bs ->
  (forall i : nat, off <= Z.of_nat i < off + Z.of_nat (length bs) -> contents f !! i = Some 255) ->
  forall i : nat, (i < length bs)%nat -> contents f' !! (Z.to_nat off + i)%nat = bs !! i.
Proof.
  intros Hw Ho Hl Hb He i Hi. destruct (lookup_lt_is_Some_2 bs i Hi) as [b Hbi].
  rewrite (flash_write_data f off bs f' _ 255 Hw) by (lia || (apply He; lia)).
  replace (Z.to_nat (Z.of_nat (Z.to_nat off + i) - off)) with i by lia. rewrite Hbi. cbn. f_equal.
  apply land_255. by apply (Forall_lookup_1 _ _ _ _ Hb Hbi).
Qed.
End Laws.

(** ** The structure in the flash *)

Lemma le_num_crc c : word32 c ->
  le_num [Z.land c 255; Z.land (Z.shiftr c 8) 255; Z.land (Z.shiftr c 16) 255; Z.land (Z.shiftr c 24) 255] = c.
Proof.
  intros Hc. unfold word32 in Hc. change 255 with (Z.ones 8). rewrite !Z.land_ones, !Z.shiftr_div_pow2 by lia.
  cbn [le_num]. change (2 ^ 8) with 256. change (2 ^ 16) with (256 * 256). change (2 ^ 24) with (256 * (256 * 256)).
  rewrite <- !Z.div_div by lia. pose proof (Z.div_mod c 256). pose proof (Z.div_mod (c / 256) 256).
  pose proof (Z.div_mod (c / 256 / 256) 256).
  assert (0 <= c / 256 / 256 / 256 < 256) as Ht.
  { rewrite !Z.div_div by lia. split; [apply Z.div_pos; lia|apply Z.div_lt_upper_bound; lia]. }
  rewrite (Z.mod_small (c / 256 / 256 / 256)) by done. lia.
Qed.

Section Image.
Context {config : EnvConfig}.

Lemma env_cast_image e :
  word32 (crc e) -> Z.of_nat (length (env_data e)) = ENV_SIZE ->
  env_cast (env_image e) = mk_env_t (crc e) (if CONFIG_SYS_REDUNDAND_ENVIRONMENT then env_t_flags e else 0) (env_data e).
Proof.
  intros Hc Hl. unfold env_cast, env_image.
  match goal with |- context [take 4 (?a ++ ?b)] => rewrite (take_app_length' a b 4) by done end.
  rewrite le_num_crc by done. unfold ENV_HEADER_SIZE in *.
  destruct CONFIG_SYS_REDUNDAND_ENVIRONMENT; f_equal; simpl; rewrite drop_0, <- Hl, Nat2Z.id; by apply firstn_all.
Qed.

Lemma env_image_length e : Z.of_nat (length (env_data e)) = ENV_SIZE -> Z.of_nat (length (env_image e)) = CONFIG_ENV_SIZE.
Proof.
  unfold env_image, ENV_SIZE, ENV_HEADER_SIZE. rewrite !length_app. intros H.
  destruct CONFIG_SYS_REDUNDAND_ENVIRONMENT; simpl in *; lia.
Qed.

Lemma env_image_bytes e :
  (CONFIG_SYS_REDUNDAND_ENVIRONMENT = true -> byte_ok (env_t_flags e)) -> Forall byte_ok (env_data e) -> Forall byte_ok (env_image e).
Proof.
  intros Hf Hd. unfold env_image. rewrite !Forall_app.
  split; [|split; [destruct CONFIG_SYS_REDUNDAND_ENVIRONMENT; [by apply Forall_singleton, Hf|constructor]|done]].
  assert (forall x, byte_ok (Z.land x 255)) as Hx.
  { intros x. change 255 with (Z.ones 8). rewrite Z.land_ones by lia. apply Z.mod_pos_bound. lia. }
  repeat (apply Forall_cons; split; [apply Hx|]). constructor.
Qed.

(** Both layouts that do not lose data: the environment is a part of a sector, or
    some whole sectors. *)
Definition layout_ok : Prop :=
  ENV_HEADER_SIZE < CONFIG_ENV_SIZE < 2 ^ 31 /\ 0 < CONFIG_ENV_SECT_SIZE /\
  (CONFIG_ENV_SIZE < CONFIG_ENV_SECT_SIZE \/ (CONFIG_ENV_SECT_SIZE | CONFIG_ENV_SIZE)).

Lemma sector_bytes : layout_ok -> sector * CONFIG_ENV_SECT_SIZE = Z.max CONFIG_ENV_SIZE CONFIG_ENV_SECT_SIZE.
Proof.
  unfold layout_ok, sector, DIV_ROUND_UP, ENV_HEADER_SIZE. intros (Hs & Hc & [Hl|[k Hk]]).
  - assert (0 < CONFIG_ENV_SIZE) by (destruct CONFIG_SYS_REDUNDAND_ENVIRONMENT; lia).
    rewrite <- (Z.div_unique _ CONFIG_ENV_SECT_SIZE 1 (CONFIG_ENV_SIZE - 1)) by lia. lia.
  - rewrite Hk in *. rewrite <- (Z.div_unique _ CONFIG_ENV_SECT_SIZE k (CONFIG_ENV_SECT_SIZE - 1)) by lia.
    assert (0 < k) by (destruct CONFIG_SYS_REDUNDAND_ENVIRONMENT; nia). nia.
Qed.
End Image.

(** ** Rewriting an environment *)

Section Rewrite.
Context {C F : Type} {hooks : EnvHooks C} {hooks_ok : EnvHooksOk C}.
Context {flash_ops : SpiFlash F} {flash_ok : SpiFlashOk F} {config : EnvConfig}.

(** The rest of the sector behind the environment at [off]. *)
Definition rest_of (f : F) (off : Z) : option (list Z) :=
  if CONFIG_ENV_SIZE <? CONFIG_ENV_SECT_SIZE
  then Some (area (contents f) (off + CONFIG_ENV_SIZE) (CONFIG_ENV_SECT_SIZE - CONFIG_ENV_SIZE)) else None.

Definition room_at (f : F) (off : Z) : Prop :=
  0 <= off /\ off + Z.max CONFIG_ENV_SIZE CONFIG_ENV_SECT_SIZE <= Z.of_nat (length (contents f)).

Lemma save_rest_spec f off nomem r f' :
  layout_ok -> room_at f off -> save_rest f off nomem = inr (r, f') ->
  contents f' = contents f /\ r = rest_of f off.
Proof.
  intros Hlay [Ho Hroom]. unfold save_rest, rest_of. case_if; [|by intros [= <- <-]].
  rewrite hk_malloc_ok. cbn [negb]. destruct (spi_flash_read _ _ _) as [[ret buf] f1] eqn:Er. case_if; [done|].
  intros [= <- <-]. subst. split; [by apply flash_read_keeps in Er as [? _]|]. f_equal.
  unfold layout_ok, ENV_HEADER_SIZE in Hlay.
  eapply flash_read_data; [exact Er|destruct CONFIG_SYS_REDUNDAND_ENVIRONMENT; lia|lia].
Qed.

Lemma save_rest_fails f off nomem r f' : save_rest f off nomem = inl (r, f') -> r <> 0.
Proof.
  unfold save_rest. case_if; [|done]. rewrite hk_malloc_ok. cbn [negb].
  destruct (spi_flash_read f _ _) as [[ret buf] f1]. case_if; [|done]. by intros [= <- <-].
Qed.

Lemma save_rest_keeps f off nomem : layout_ok -> room_at f off ->
  contents (match save_rest f off nomem with inl (_, f') => f' | inr (_, f') => f' end) = contents f.
Proof.
  intros Hlay Hroom. destruct (save_rest f off nomem) as [[r f']|[r f']] eqn:E.
  - unfold save_rest in E. destruct (_ <? _); [|done]. rewrite hk_malloc_ok in E. cbn [negb] in E.
    destruct (spi_flash_read _ _ _) as [[ret buf] f1] eqn:Er. destruct (negb (ret =? 0)); [|done].
    injection E as <- <-. by apply flash_read_keeps in Er as [? _].
  - by apply save_rest_spec in E as [? _].
Qed.

(** The sector is rewritten completely, and then only the environment has
    changed; or an operation failed, and the change is within the sectors. *)
Lemma rewrite_sector_spec f off e next r f' :
  layout_ok -> room_at f off -> Forall byte_ok (contents f) ->
  Z.of_nat (length (env_image e)) = CONFIG_ENV_SIZE -> Forall byte_ok (env_image e) ->
  rewrite_sector f off (rest_of f off) e next = (r, f') ->
  (exists f1, next f1 = (r, f') /\ area (contents f1) off CONFIG_ENV_SIZE = env_image e /\
     same_outside off CONFIG_ENV_SIZE (contents f) (contents f1)) \/
  (r <> 0 /\ same_outside off (Z.max CONFIG_ENV_SIZE CONFIG_ENV_SECT_SIZE) (contents f) (contents f')).
Proof.
  intros Hlay [Ho Hroom] Hb Hlen Himg. pose proof (sector_bytes Hlay) as Hsec.
  set (R := Z.max CONFIG_ENV_SIZE CONFIG_ENV_SECT_SIZE) in *. unfold rewrite_sector. rewrite Hsec.
  destruct (spi_flash_erase f off R) as [r1 f1] eqn:Ee. pose proof (flash_erase_outside _ _ _ _ _ Ee) as O1.
  case_if; [intros [= <- <-]; by right|]. subst r1.
  pose proof (fun i => flash_erase_data f off R f1 i Ee) as D1. unfold write_then at 1.
  destruct (spi_flash_write f1 off (env_image e)) as [r2 f2] eqn:Ew. pose proof (flash_write_outside _ _ _ _ _ Ew) as O2.
  rewrite Hlen in O2.
  assert (same_outside off R (contents f1) (contents f2)) as O2' by (eapply same_outside_wider; [exact O2|lia..]).
  case_if; [intros [= <- <-]; right; split; [done|by eapply same_outside_trans]|]. subst r2.
  destruct O1 as [L1 O1]. destruct O2 as [L2 O2].
  assert (area (contents f2) off CONFIG_ENV_SIZE = env_image e) as Ha.
  { rewrite <- Hlen. apply area_eq; [done|].
    apply (write_erased f1); [done|done|lia|done|]. intros i Hi. apply D1; lia. }
  unfold rest_of. case_if; last first.
  { intros Hn. left. exists f2. split; [done|]. split; [done|]. split; [congruence|]. intros i Hi.
    rewrite O1, O2 by lia. done. }
  unfold write_then. set (saved := area (contents f) (off + CONFIG_ENV_SIZE) (CONFIG_ENV_SECT_SIZE - CONFIG_ENV_SIZE)).
  assert (0 < CONFIG_ENV_SIZE) as Hpos by (unfold layout_ok, ENV_HEADER_SIZE in Hlay; destruct CONFIG_SYS_REDUNDAND_ENVIRONMENT; lia).
  assert (Z.of_nat (length saved) = CONFIG_ENV_SECT_SIZE - CONFIG_ENV_SIZE) as Hls by (unfold saved; rewrite area_length; lia).
  destruct (spi_flash_write f2 (off + CONFIG_ENV_SIZE) saved) as [r3 f3] eqn:Ew3.
  pose proof (flash_write_outside _ _ _ _ _ Ew3) as [L3 O3]. rewrite Hls in O3. case_if.
  { intros [= <- <-]. right. split; [done|]. split; [congruence|]. intros i Hi. rewrite O1, O2, O3 by lia. done. }
  subst r3. intros Hn. left. exists f3. split; [done|]. split.
  - rewrite <- Ha. symmetry. apply (same_outside_area (off + CONFIG_ENV_SIZE) (Z.of_nat (length saved)));
      [split; [done|]; rewrite Hls; apply O3|lia..].
  - split; [congruence|]. intros i Hi. destruct (decide (off + CONFIG_ENV_SIZE <= Z.of_nat i < off + CONFIG_ENV_SECT_SIZE)) as [Hin|Hout].
    + pose proof (write_erased f2 _ saved f3 Ew3) as Hwr.
      replace i with (Z.to_nat (off + CONFIG_ENV_SIZE) + (i - Z.to_nat (off + CONFIG_ENV_SIZE)))%nat by lia.
      rewrite Hwr; [|lia|lia|by apply area_bytes| |lia].
      * unfold saved. symmetry. apply area_lookup; lia.
      * intros j Hj. rewrite <- O2 by lia. apply D1; lia.
    + rewrite O1, O2, O3 by lia. done.
Qed.
End Rewrite.

(** ** Images and their contents *)

Section Contents.
Context {C F : Type} {hooks : EnvHooks C} {hooks_ok : EnvHooksOk C}.
Context {flash_ops : SpiFlash F} {flash_ok : SpiFlashOk F} {config : EnvConfig}.
Context (data_addr : Z) (slre_compile : list Z -> bool) (slre_match : list Z -> list Z -> bool).

Record valid_image (e : env_t) : Prop := {
  vi_crc : crc e = crc_spec 0 (env_data e);
  vi_len : Z.of_nat (length (env_data e)) = ENV_SIZE;
  vi_bytes : Forall byte_ok (env_data e)
}.

(** The text [d] is imported as the variables of [m]. *)
Definition holds (d : list Z) (m : gmap (list Z) (list Z)) : Prop :=
  forall h : hsearch_data C, exists h' vs, himport_r h d 0 0 false [] = Some (1, 0, h') /\ htab_ok h' vs m.

(** Variables that can be stored: the names and values can be written and read
    back, and the text fits. *)
Record storable (m : gmap (list Z) (list Z)) : Prop := {
  st_some : m <> ∅;
  st_text : forall k d, m !! k = Some d -> importable 0 (k, d) /\ ascii k /\ counted 0 (k, d);
  st_fits : total_len 0 (map_to_list m) < ENV_SIZE;
  st_room : Z.of_nat (map_size m) <= import_room (Z.to_nat ENV_SIZE)
}.

Lemma ENV_SIZE_pos : layout_ok -> 0 < ENV_SIZE < 2 ^ 31.
Proof. unfold layout_ok, ENV_SIZE, ENV_HEADER_SIZE. destruct CONFIG_SYS_REDUNDAND_ENVIRONMENT; lia. Qed.

Lemma vi_word32 e : valid_image e -> word32 (crc e).
Proof. intros [-> _ Hb]. apply crc_spec_range; [done|done]. Qed.

(** The check of the CRC on an image. *)
Lemma crc_ok_spec e :
  layout_ok -> Z.of_nat (length (env_data e)) = ENV_SIZE -> Forall byte_ok (env_data e) ->
  crc_ok data_addr e = Some (crc_spec 0 (env_data e) =? crc e).
Proof.
  intros Hlay Hl Hb. pose proof (ENV_SIZE_pos Hlay). unfold crc_ok. rewrite crc32_spec by (done || lia).
  rewrite mbind_Some. by rewrite <- Hl, Nat2Z.id, firstn_all.
Qed.

Lemma env_export_spec (env_new : env_t) (s : store) vs m :
  layout_ok -> permissive (C := C) 0 -> htab_ok (env_htab s) vs m -> storable m ->
  Z.of_nat (length (env_data env_new)) = ENV_SIZE ->
  exists e s1, env_export (F := F) data_addr slre_compile slre_match env_new s = Some (0, e, s1) /\
    valid_image e /\ holds (env_data e) m /\
    (CONFIG_SYS_REDUNDAND_ENVIRONMENT = true -> byte_ok (env_t_flags e)) /\
    env_valid s1 = env_valid s /\ env_flash s1 = env_flash s.
Proof.
  intros Hlay Hperm Hok [Hm0 Htext Hfit Hroom] Hnew. pose proof (ENV_SIZE_pos Hlay) as Hpos.
  destruct (export_import slre_compile slre_match (env_htab s) vs m 0 0 (Some (env_data env_new)) (Z.to_nat ENV_SIZE))
    as (buf & Hex & Hl & Hb & Himp); [done|by left|done|done|done|done|lia|done|intros b [= <-]; lia|].
  rewrite Z2Nat.id in Hex by lia. unfold env_export. rewrite Hex. step_bind.
  rewrite (proj2 (Z.ltb_ge _ _)) by lia. cbv zeta. cbn [env_data]. change (default _ (Some buf)) with buf.
  rewrite crc32_spec by (done || lia). rewrite mbind_Some. rewrite firstn_all2 by lia.
  case_if; eexists _, _; (split; [done|]); cbn [env_t_flags env_data env_valid env_flash with_serial];
    (split; [split; cbn [crc env_data]; [done|lia|done]|]); (split; [done|]); (split; [|done]).
  - intros _. apply (wrap_range 8). lia.
  - done.
Qed.

(** The import of a valid image. *)
Lemma env_import_spec buf s m (check : bool) :
  layout_ok -> valid_image (env_cast buf) -> holds (env_data (env_cast buf)) m ->
  exists h vs, env_import (F := F) data_addr buf check s = Some (0, with_ready (with_htab s h)) /\ htab_ok h vs m.
Proof.
  intros Hlay Hv Hm. unfold env_import. cbv zeta.
  assert ((if check then crc_ok data_addr (env_cast buf) else Some true) = Some true) as ->.
  { destruct check; [|done]. destruct Hv. by rewrite crc_ok_spec, vi_crc0, Z.eqb_refl. }
  rewrite mbind_Some. cbn [negb]. destruct (Hm (env_htab s)) as (h & vs & E & Hok).
  rewrite E. step_bind. by exists h, vs.
Qed.

Lemma valid_image_cast e : valid_image e -> valid_image (env_cast (env_image e)).
Proof. intros Hv. rewrite env_cast_image by (apply vi_word32 || apply Hv; done). by destruct Hv. Qed.

Lemma env_image_data e : valid_image e -> env_data (env_cast (env_image e)) = env_data e.
Proof. intros Hv. by rewrite env_cast_image by (apply vi_word32 || apply Hv; done). Qed.

(** The flags are not covered by the checksum. *)
Lemma valid_image_flags e n : valid_image e -> valid_image (mk_env_t (crc e) n (env_data e)).
Proof. by intros []. Qed.

(** What is read from the flash is an image of the right size. *)
Lemma cast_area c off :
  layout_ok -> Forall byte_ok c -> 0 <= off -> off + CONFIG_ENV_SIZE <= Z.of_nat (length c) ->
  Z.of_nat (length (env_data (env_cast (area c off CONFIG_ENV_SIZE)))) = ENV_SIZE /\
  Forall byte_ok (env_data (env_cast (area c off CONFIG_ENV_SIZE))).
Proof.
  intros Hlay Hb Ho Hl. pose proof (ENV_SIZE_pos Hlay) as Hp. unfold env_cast. cbn [env_data]. split.
  - rewrite length_take, length_drop, area_length by (unfold ENV_SIZE, ENV_HEADER_SIZE in *; destruct CONFIG_SYS_REDUNDAND_ENVIRONMENT; lia).
    unfold ENV_SIZE, ENV_HEADER_SIZE in *. destruct CONFIG_SYS_REDUNDAND_ENVIRONMENT; lia.
  - apply Forall_take, Forall_drop, area_bytes, Hb.
Qed.
End Contents.

(** ** Claims *)

Section Single.
Context {C F : Type} {hooks : EnvHooks C} {hooks_ok : EnvHooksOk C}.
Context {flash_ops : SpiFlash F} {flash_ok : SpiFlashOk F} {config : EnvConfig}.
Context (data_addr : Z) (slre_compile : list Z -> bool) (slre_match : list Z -> list Z -> bool).

End Single.

Section Redundant.
Context {C F : Type} {hooks : EnvHooks C} {hooks_ok : EnvHooksOk C}.
Context {flash_ops : SpiFlash F} {flash_ok : SpiFlashOk F} {config : EnvConfig}.
Context (data_addr : Z) (slre_compile : list Z -> bool) (slre_match : list Z -> list Z -> bool).

(** *** The choice between two copies *)

Definition good (ep : env_t) : bool := crc_spec 0 (env_data ep) =? crc ep.

(** Which of two valid copies is taken. *)
Definition newer (flags1 flags2 : Z) : Z :=
  if (flags1 =? 255) && (flags2 =? 0) then ENV_REDUND
  else if (flags2 =? 255) && (flags1 =? 0) then ENV_VALID
  else if flags2 <? flags1 then ENV_VALID
  else if flags1 <? flags2 then ENV_REDUND
  else ENV_VALID.

Definition choose (ep1 ep2 : env_t) : option Z :=
  if good ep1 then Some (if good ep2 then newer (env_t_flags ep1) (env_t_flags ep2) else ENV_VALID)
  else if good ep2 then Some ENV_REDUND else None.

Lemma choose_result ep1 ep2 v :
  choose ep1 ep2 = Some v ->
  (v = ENV_VALID /\ good ep1 = true) \/ (v = ENV_REDUND /\ good ep2 = true).
Proof.
  unfold choose, newer. destruct (good ep1), (good ep2); try done; intros [= <-]; [|by left|by right].
  repeat case_match; by (left + right).
Qed.

Definition sized (ep : env_t) : Prop := Z.of_nat (length (env_data ep)) = ENV_SIZE /\ Forall byte_ok (env_data ep).

(** Both copies can be read: the chosen one is imported. *)
Lemma env_import_redund_spec buf1 buf2 (s : store) :
  layout_ok -> sized (env_cast buf1) -> sized (env_cast buf2) ->
  env_import_redund (C := C) (F := F) data_addr buf1 0 buf2 0 s =
  match choose (env_cast buf1) (env_cast buf2) with
  | None => s ← set_default_env 0 s; Some (- EIO, s)
  | Some v =>
      let buf := if v =? ENV_VALID then buf1 else buf2 in
      env_import data_addr buf false (with_serial (with_valid s v) (env_t_flags (env_cast buf)))
  end.
Proof.
  intros Hlay [L1 B1] [L2 B2]. unfold env_import_redund. cbv zeta. cbn [Z.eqb negb andb].
  rewrite !crc_ok_spec, !mbind_Some by done. unfold choose.
  fold (good (env_cast buf1)) (good (env_cast buf2)). unfold newer.
  by destruct (good (env_cast buf1)), (good (env_cast buf2)).
Qed.

(** *** The stored environment *)

Definition copy1 (c : list Z) : list Z := area c CONFIG_ENV_OFFSET CONFIG_ENV_SIZE.
Definition copy2 (c : list Z) : list Z := area c CONFIG_ENV_OFFSET_REDUND CONFIG_ENV_SIZE.
Definition copy (c : list Z) (v : Z) : list Z := if v =? ENV_VALID then copy1 c else copy2 c.

(** The flash holds the variables of [m], in the copy that [gd->env_valid] names. *)
Definition stored (s : store (C := C) (F := F)) (m : gmap (list Z) (list Z)) : Prop :=
  let c := contents (env_flash s) in
  choose (env_cast (copy1 c)) (env_cast (copy2 c)) = Some (env_valid s) /\
  holds (C := C) (env_data (env_cast (copy c (env_valid s)))) m.

(** Room for both copies, in different sectors. *)
Definition two_rooms (f : F) : Prop :=
  room_at f CONFIG_ENV_OFFSET /\ room_at f CONFIG_ENV_OFFSET_REDUND /\
  Z.max CONFIG_ENV_SIZE CONFIG_ENV_SECT_SIZE <= Z.abs (CONFIG_ENV_OFFSET - CONFIG_ENV_OFFSET_REDUND) /\
  Forall byte_ok (contents f).

Lemma copies_sized f : layout_ok -> two_rooms f ->
  sized (env_cast (copy1 (contents f))) /\ sized (env_cast (copy2 (contents f))).
Proof. intros Hlay ([? ?] & [? ?] & _ & Hb). by split; apply cast_area; try done; lia. Qed.

Lemma good_valid ep : sized ep -> good ep = true -> valid_image ep.
Proof. intros [? ?] Hg. apply Z.eqb_eq in Hg. by split. Qed.

(** Loading gives what is stored. *)
Lemma load_stored c v m (s2 : store) b1 b2 f1 f2 :
  layout_ok -> two_rooms (env_flash s2) -> contents (env_flash s2) = c ->
  choose (env_cast (copy1 c)) (env_cast (copy2 c)) = Some v -> holds (C := C) (env_data (env_cast (copy c v))) m ->
  spi_flash_read (env_flash s2) CONFIG_ENV_OFFSET CONFIG_ENV_SIZE = (0, b1, f1) ->
  spi_flash_read f1 CONFIG_ENV_OFFSET_REDUND CONFIG_ENV_SIZE = (0, b2, f2) ->
  exists s3 vs, env_sf_load_redund data_addr 0 s2 = Some (0, s3) /\ htab_ok (env_htab s3) vs m /\
    env_valid s3 = v /\ stored s3 m.
Proof.
  intros Hlay Hrooms Hc Hch Hm R1 R2. unfold env_sf_load_redund, setup_flash_device.
  rewrite hk_malloc_ok. cbn [negb Z.eqb mbind option_bind]. rewrite R1. cbv beta iota. rewrite R2. cbv beta iota.
  pose proof (copies_sized _ Hlay Hrooms) as [S1 S2]. destruct Hrooms as ([O1 L1] & [O2 L2] & _ & Hb).
  apply flash_read_keeps in R1 as K1. destruct K1 as [K1 _].
  apply flash_read_keeps in R2 as K2. destruct K2 as [K2 _].
  apply flash_read_data in R1; [|lia|lia]. apply flash_read_data in R2; [|lia|rewrite K1; lia]. rewrite K1 in R2.
  rewrite Hc in *. fold (copy1 c) in R1. fold (copy2 c) in R2. subst b1 b2.
  rewrite env_import_redund_spec, Hch by done. cbv zeta. fold (copy c v).
  assert (valid_image (env_cast (copy c v))) as Hv.
  { unfold copy. apply choose_result in Hch as [[-> ?]|[-> ?]]; cbn [Z.eqb]; by apply good_valid. }
  destruct (env_import_spec (F := F) data_addr (copy c v)
    (with_serial (with_valid (with_flash s2 f2) v) (env_t_flags (env_cast (copy c v)))) m false Hlay Hv Hm)
    as (h & vs & -> & Hok).
  eexists _, vs. split_and!; [done|done|done|]. unfold stored. cbn. by rewrite K2, K1.
Qed.

(** *** Saving *)

Definition other (v : Z) : Z := if v =? ENV_VALID then ENV_REDUND else ENV_VALID.
Definition copy_off (v : Z) : Z := if v =? ENV_VALID then CONFIG_ENV_OFFSET else CONFIG_ENV_OFFSET_REDUND.

Lemma copy_area c v : copy c v = area c (copy_off v) CONFIG_ENV_SIZE.
Proof. unfold copy, copy_off. by case_if. Qed.

(** A copy that is valid is taken, unless the other one is valid as well. *)
Lemma choose_valid c v :
  v = ENV_VALID \/ v = ENV_REDUND -> good (env_cast (copy c v)) = true ->
  exists v', choose (env_cast (copy1 c)) (env_cast (copy2 c)) = Some v' /\
    (v' = v \/ v' = other v /\ good (env_cast (copy c (other v))) = true).
Proof.
  intros Hv. unfold copy, choose, other, newer.
  destruct Hv as [-> | ->];
    repeat progress (change (ENV_VALID =? ENV_VALID) with true; change (ENV_REDUND =? ENV_VALID) with false; cbv iota);
    intros ->; destruct (good _) eqn:E; eauto; repeat case_match; eauto.
Qed.

Lemma two_rooms_at f v : two_rooms f -> room_at f (copy_off v).
Proof. intros (? & ? & _). unfold copy_off. by case_if. Qed.

Lemma two_rooms_apart f v : two_rooms f ->
  Z.max CONFIG_ENV_SIZE CONFIG_ENV_SECT_SIZE <= Z.abs (copy_off v - copy_off (other v)).
Proof. intros (_ & _ & H & _). unfold copy_off, other. destruct (v =? ENV_VALID); cbn; lia. Qed.

(** Changing the byte of the flags changes nothing else of a copy. *)
Lemma flag_write_copy c c' v :
  CONFIG_SYS_REDUNDAND_ENVIRONMENT = true -> layout_ok -> 0 <= copy_off v ->
  same_outside (copy_off v + 4) 1 c c' ->
  crc (env_cast (copy c' v)) = crc (env_cast (copy c v)) /\
  env_data (env_cast (copy c' v)) = env_data (env_cast (copy c v)).
Proof.
  intros Hred Hlay Ho [Hl Hs]. rewrite !copy_area. pose proof (ENV_SIZE_pos Hlay) as Hp.
  unfold ENV_SIZE, ENV_HEADER_SIZE in Hp. rewrite Hred in Hp.
  assert (forall j : nat, j <> 4%nat ->
    area c' (copy_off v) CONFIG_ENV_SIZE !! j = area c (copy_off v) CONFIG_ENV_SIZE !! j) as Hj.
  { intros j Hj. destruct (decide (Z.of_nat j < CONFIG_ENV_SIZE)).
    - rewrite !area_lookup by lia. symmetry. apply Hs. lia.
    - rewrite !lookup_ge_None_2; [done|unfold area; rewrite length_take; lia..]. }
  unfold env_cast, ENV_HEADER_SIZE. rewrite Hred. cbn [crc env_data]. split.
  - f_equal. apply list_eq. intros j. destruct (decide (j < 4)%nat).
    + rewrite !lookup_take_lt by done. apply Hj. lia.
    + by rewrite !lookup_take_ge by lia.
  - f_equal. apply list_eq. intros j. rewrite !lookup_drop. apply Hj. lia.
Qed.

Lemma flags_of_copy c v :
  CONFIG_SYS_REDUNDAND_ENVIRONMENT = true -> layout_ok -> 0 <= copy_off v ->
  env_t_flags (env_cast (copy c v)) = default 0 (c !! Z.to_nat (copy_off v + 4)).
Proof.
  intros Hred Hlay Ho. pose proof (ENV_SIZE_pos Hlay) as Hp. unfold ENV_SIZE, ENV_HEADER_SIZE in Hp. rewrite Hred in Hp.
  rewrite copy_area. unfold env_cast. rewrite Hred. cbn [env_t_flags].
  rewrite nth_lookup, area_lookup by lia. do 2 f_equal. lia.
Qed.

(** What a failed save may leave in the copy that it writes: the old contents,
    contents with a bad checksum, or the complete new text. *)
Definition torn (c c' : list Z) (v : Z) (d : list Z) : Prop :=
  copy c' v = copy c v \/ good (env_cast (copy c' v)) = false \/ env_data (env_cast (copy c' v)) = d.

(** What the save does to the flash, in terms of the two copies: nothing, or the
    copy in use stays as it is, or the new copy is complete and only the flags of
    the old one may have changed. *)
Lemma save_redund_cases env_new (s s' : store (C := C) (F := F)) vs m ret :
  CONFIG_SYS_REDUNDAND_ENVIRONMENT = true -> layout_ok -> permissive (C := C) 0 -> two_rooms (env_flash s) ->
  env_valid s = ENV_VALID \/ env_valid s = ENV_REDUND ->
  htab_ok (env_htab s) vs m -> storable m -> Z.of_nat (length (env_data env_new)) = ENV_SIZE ->
  env_sf_save_redund data_addr slre_compile slre_match 0 env_new s = Some (ret, s') ->
  let c := contents (env_flash s) in let c' := contents (env_flash s') in
  exists e s1, env_export data_addr slre_compile slre_match env_new s = Some (0, e, s1) /\
    valid_image e /\ holds (C := C) (env_data e) m /\
    ((ret <> 0 /\ copy c' (env_valid s) = copy c (env_valid s)) \/
     (copy c' (other (env_valid s)) = env_image (mk_env_t (crc e) ACTIVE_FLAG (env_data e)) /\
      crc (env_cast (copy c' (env_valid s))) = crc (env_cast (copy c (env_valid s))) /\
      env_data (env_cast (copy c' (env_valid s))) = env_data (env_cast (copy c (env_valid s))) /\
      (ret = 0 -> env_t_flags (env_cast (copy c' (env_valid s))) = OBSOLETE_FLAG))).
Proof.
  intros Hred Hlay Hperm Hrooms Hv Hok Hst Hnew Hsave c c'.
  destruct (env_export_spec data_addr slre_compile slre_match env_new s vs m Hlay Hperm Hok Hst Hnew)
    as (e & s1 & Hex & Hvi & Hm & _ & Hval & Hf). exists e, s1. split_and!; [done..|].
  unfold env_sf_save_redund, setup_flash_device in Hsave. cbn [negb Z.eqb mbind option_bind] in Hsave.
  rewrite Hex in Hsave. cbn [negb Z.eqb mbind option_bind] in Hsave. rewrite Hval, Hf in Hsave.
  set (v := env_valid s) in *.
  assert ((if v =? ENV_VALID then (CONFIG_ENV_OFFSET_REDUND, CONFIG_ENV_OFFSET) else (CONFIG_ENV_OFFSET, CONFIG_ENV_OFFSET_REDUND))
    = (copy_off (other v), copy_off v)) as Eoff.
  { unfold copy_off, other. by destruct (v =? ENV_VALID). }
  rewrite Eoff in Hsave. pose proof (two_rooms_at _ (other v) Hrooms) as Hr. pose proof (two_rooms_at _ v Hrooms) as Hrv.
  pose proof (two_rooms_apart _ v Hrooms) as Hap.
  set (en := mk_env_t (crc e) ACTIVE_FLAG (env_data e)) in *.
  assert (valid_image en) as Hven by (by apply valid_image_flags).
  pose proof (save_rest_keeps (env_flash s) (copy_off (other v)) (- ENOMEM) Hlay Hr) as Hkeep.
  destruct (save_rest _ _ _) as [[r f1]|[saved f1]] eqn:Er.
  { injection Hsave as <- <-. left. unfold c', c. cbn [env_flash with_flash]. rewrite Hkeep.
    split; [by apply save_rest_fails in Er|done]. }
  apply save_rest_spec in Er as [_ ->]; [|done..].
  replace (rest_of (env_flash s) (copy_off (other v))) with (rest_of f1 (copy_off (other v))) in Hsave
    by (unfold rest_of; by rewrite Hkeep).
  destruct (rewrite_sector _ _ _ _ _) as [r f2] eqn:Erw.
  assert (ret = r /\ c' = contents f2) as [-> Hc'].
  { unfold c'. destruct (r =? 0) eqn:E0; cbn [negb] in Hsave; injection Hsave as <- <-; [|done].
    apply Z.eqb_eq in E0. done. }
  destruct Hr as [Hr1 Hr2]. destruct Hrv as [Hrv1 Hrv2]. pose proof (ENV_SIZE_pos Hlay) as Hp.
  assert (5 < CONFIG_ENV_SIZE) as Hp5 by (unfold ENV_SIZE, ENV_HEADER_SIZE in Hp; rewrite Hred in Hp; lia).
  apply rewrite_sector_spec in Erw;
    [|done|split; [done|by rewrite Hkeep]|rewrite Hkeep; apply Hrooms|apply env_image_length, Hven|
     by apply env_image_bytes; [|apply Hven]].
  rewrite Hkeep, <- Hc' in Erw. fold c in Erw, Hr2, Hrv2. destruct Erw as [(f3 & Hfl & Ha & Ho)|[Hne Ho]].
  2: { left. split; [done|]. rewrite !copy_area. symmetry. eapply same_outside_area; [exact Ho|lia..]. }
  right. pose proof (flash_write_outside _ _ _ _ _ Hfl) as Ow. cbn [length] in Ow. rewrite <- Hc' in Ow.
  pose proof Ho as [Hl3 _].
  assert (copy (contents f3) v = copy c v) as Hcv.
  { rewrite !copy_area. symmetry. eapply same_outside_area; [exact Ho|lia..]. }
  pose proof (flag_write_copy _ _ v Hred Hlay Hrv1 Ow) as [W1 W2]. rewrite Hcv in W1, W2. split_and!; [|done|done|].
  - rewrite copy_area, <- Ha. symmetry. eapply same_outside_area; [exact Ow|lia..].
  - intros ->. rewrite flags_of_copy by done.
    destruct (lookup_lt_is_Some_2 (contents f3) (Z.to_nat (copy_off v + 4))) as [old Hold]; [lia|].
    rewrite Hc', (flash_write_data f3 _ _ f2 _ old Hfl) by (cbn [length]; lia || done).
    replace (Z.to_nat (Z.of_nat (Z.to_nat (copy_off v + 4)) - (copy_off v + 4))) with 0%nat by lia.
    cbn. by rewrite Z.land_0_r.
Qed.

Lemma good_image e : valid_image e -> good (env_cast (env_image e)) = true.
Proof. intros Hv. apply valid_image_cast in Hv as [Hc _ _]. unfold good. rewrite <- Hc. apply Z.eqb_refl. Qed.

Lemma stored_valid (s : store) m : stored s m -> env_valid s = ENV_VALID \/ env_valid s = ENV_REDUND.
Proof. intros [Hc _]. apply choose_result in Hc. tauto. Qed.

Lemma stored_good (s : store) m : stored s m -> good (env_cast (copy (contents (env_flash s)) (env_valid s))) = true.
Proof. intros [Hc _]. unfold copy. by apply choose_result in Hc as [[-> ?]|[-> ?]]. Qed.

(** The copy that is taken after a save, and its contents. *)
Lemma save_redund_picks env_new (s s' : store (C := C) (F := F)) vs m m_old ret :
  CONFIG_SYS_REDUNDAND_ENVIRONMENT = true -> layout_ok -> permissive (C := C) 0 -> two_rooms (env_flash s) ->
  stored s m_old -> htab_ok (env_htab s) vs m -> storable m -> Z.of_nat (length (env_data env_new)) = ENV_SIZE ->
  env_sf_save_redund data_addr slre_compile slre_match 0 env_new s = Some (ret, s') ->
  let c := contents (env_flash s) in let c' := contents (env_flash s') in
  (forall e s1, env_export data_addr slre_compile slre_match env_new s = Some (0, e, s1) ->
     torn c c' (other (env_valid s)) (env_data e)) ->
  exists v m', choose (env_cast (copy1 c')) (env_cast (copy2 c')) = Some v /\
    holds (C := C) (env_data (env_cast (copy c' v))) m' /\ (m' = m_old \/ m' = m) /\ (ret = 0 -> m' = m).
Proof.
  intros Hred Hlay Hperm Hrooms Hsto Hok Hst Hnew Hsave c c' Htorn.
  pose proof (stored_valid _ _ Hsto) as Hv. pose proof (stored_good _ _ Hsto) as Hg. destruct Hsto as [Hch Hold].
  destruct (save_redund_cases env_new s s' vs m ret) as (e & s1 & Hex & Hvi & Hm & Hcase); [done..|].
  specialize (Htorn e s1 Hex). fold c c' in Hcase, Hch, Hold, Hg. set (v := env_valid s) in *.
  destruct Hcase as [[Hne Hcur]|(Hcopy & Hcrc & Hdata & Hflag)].
  - destruct (choose_valid c' v Hv) as (v' & Hc' & [->|[-> Hgo]]); [by rewrite Hcur| |].
    { exists v, m_old. rewrite Hcur. split_and!; [done|done|by left|done]. }
    destruct Htorn as [Hsame|[Hbad|Hdone]]; [|congruence|].
    + assert (choose (env_cast (copy1 c')) (env_cast (copy2 c')) = Some v) as Hcv.
      { rewrite <- Hch. unfold copy, other in Hsame, Hcur. destruct Hv as [E|E]; rewrite E in Hsame, Hcur; cbn in Hsame, Hcur; by rewrite Hsame, Hcur. }
      exists v, m_old. rewrite Hcur. split_and!; [done|done|by left|done].
    + exists (other v), m. rewrite Hdone. split_and!; [done|done|by right|done].
  - set (en := mk_env_t (crc e) ACTIVE_FLAG (env_data e)) in *. assert (valid_image en) as Hven by (by apply valid_image_flags).
    assert (good (env_cast (copy c' v)) = true) as Hg' by (unfold good; by rewrite Hcrc, Hdata).
    assert (holds (C := C) (env_data (env_cast (copy c' (other v)))) m) as Hmn by (by rewrite Hcopy, env_image_data).
    destruct (choose_valid c' v Hv Hg') as (v' & Hc' & [->|[-> Hgo]]).
    + exists v, m_old. rewrite Hdata. split_and!; [done|done|by left|]. intros H0. specialize (Hflag H0).
      assert (env_t_flags (env_cast (copy c' (other v))) = ACTIVE_FLAG) as Hfn.
      { rewrite Hcopy, env_cast_image, Hred by (apply vi_word32 || apply Hven; done). done. }
      assert (good (env_cast (copy c' (other v))) = true) as Hgn by (by rewrite Hcopy, good_image).
      exfalso. unfold choose, copy, other in *.
      destruct Hv as [E|E]; rewrite E in Hc', Hg', Hflag, Hfn, Hgn; cbn in Hc', Hg', Hflag, Hfn, Hgn;
        rewrite Hg', Hgn, Hflag, Hfn in Hc'; done.
    + exists (other v), m. split_and!; [done|done|by right|done].
Qed.

End Redundant.

Section Corruption.
Context {C F : Type} {hooks : EnvHooks C} {config : EnvConfig}.
Context (data_addr : Z).

(** C17: if up to four consecutive bytes of a stored environment are damaged,
    [env_import] notices it by the checksum, loads the default environment
    instead, and returns [-EIO]. *)
Theorem damaged_environment_rejected e pre w1 w2 post (s : store (C := C) (F := F)) :
  layout_ok -> valid_image e -> env_data e = pre ++ w1 ++ post ->
  length w1 = length w2 -> (length w1 <= 4)%nat -> w1 <> w2 -> Forall byte_ok w2 ->
  env_import data_addr (env_image (mk_env_t (crc e) (env_t_flags e) (pre ++ w2 ++ post))) true s =
  (s' ← set_default_env 0 s; Some (- EIO, s')).
Proof.
  intros Hlay Hv Hd Hl H4 Hne Hw2. pose proof Hv as [Hc Hlen Hb]. rewrite Hd in *. pose proof (vi_word32 _ Hv) as Hw.
  set (bad := mk_env_t _ _ _).
  assert (Z.of_nat (length (env_data bad)) = ENV_SIZE) as Hlb by (cbn [env_data bad]; rewrite !length_app in *; lia).
  assert (Forall byte_ok (env_data bad)) as Hbb by (cbn [env_data bad]; rewrite !Forall_app in *; naive_solver).
  unfold env_import. rewrite env_cast_image by done. cbv zeta. rewrite crc_ok_spec by done. rewrite mbind_Some.
  cbn [crc env_data]. rewrite (proj2 (Z.eqb_neq _ _)); [done|]. cbn [crc bad]. rewrite Hc. intros E. symmetry in E. revert E.
  apply crc_spec_burst; done.
Qed.
End Corruption.

(** *** Serial numbers *)

Section Serial.
Context {C F : Type} {hooks : EnvHooks C} {config : EnvConfig}.
Context (data_addr : Z).

(** Of two valid copies whose serial numbers follow each other, also from
    255 to 0, [env_import_redund] imports the later one, and continues its
    serial number. *)
Theorem later_serial_imported e1 e2 (s : store (C := C) (F := F)) :
  CONFIG_SYS_REDUNDAND_ENVIRONMENT = true -> layout_ok -> valid_image e1 -> valid_image e2 ->
  0 <= env_t_flags e1 < 256 -> 0 <= env_t_flags e2 < 256 ->
  (env_t_flags e2 = u8 (env_t_flags e1 + 1) ->
   env_import_redund data_addr (env_image e1) 0 (env_image e2) 0 s =
   env_import data_addr (env_image e2) false (with_serial (with_valid s ENV_REDUND) (env_t_flags e2))) /\
  (env_t_flags e1 = u8 (env_t_flags e2 + 1) ->
   env_import_redund data_addr (env_image e1) 0 (env_image e2) 0 s =
   env_import data_addr (env_image e1) false (with_serial (with_valid s ENV_VALID) (env_t_flags e1))).
Proof.
  intros Hred Hlay Hv1 Hv2 H1 H2.
  assert (forall e, valid_image e -> sized (env_cast (env_image e)) /\ good (env_cast (env_image e)) = true /\
    env_t_flags (env_cast (env_image e)) = env_t_flags e) as He.
  { intros e Hv. split; [by apply valid_image_cast in Hv as [_ ? ?]|]. split; [by apply good_image|].
    by rewrite env_cast_image, Hred by (apply vi_word32 || apply Hv; done). }
  destruct (He e1 Hv1) as (S1 & G1 & F1), (He e2 Hv2) as (S2 & G2 & F2).
  rewrite env_import_redund_spec by done. unfold choose. rewrite G1, G2. cbv zeta. rewrite F1, F2.
  assert (forall n, 0 <= n < 256 -> newer n (u8 (n + 1)) = ENV_REDUND /\ newer (u8 (n + 1)) n = ENV_VALID) as Hn.
  { intros n Hn.
    enough (bool_decide (newer n (u8 (n + 1)) = ENV_REDUND) && bool_decide (newer (u8 (n + 1)) n = ENV_VALID) = true) as Hb.
    { apply andb_true_iff in Hb as [?%bool_decide_eq_true ?%bool_decide_eq_true]. done. }
    revert n Hn. apply (byte_enum (fun n => bool_decide (newer n (u8 (n + 1)) = ENV_REDUND) && bool_decide (newer (u8 (n + 1)) n = ENV_VALID))).
    vm_compute. reflexivity. }
  split; intros E; rewrite E.
  - rewrite (proj1 (Hn _ H1)). change (ENV_REDUND =? ENV_VALID) with false. cbv iota. by rewrite F2, E.
  - rewrite (proj2 (Hn _ H2)). change (ENV_VALID =? ENV_VALID) with true. cbv iota. by rewrite F1, E.
Qed.
End Serial.

(** *** A lost error *)

(** C18: if there is no memory to save the rest of the sector, [env_sf_save]
    returns 0, although it has not written anything. *)
Theorem env_sf_save_nomem_success {C F} {hooks : EnvHooks C} {flash_ops : SpiFlash F} {config : EnvConfig}
    data_addr slre_compile slre_match env_new (s : store (C := C) (F := F)) :
  CONFIG_ENV_SIZE < CONFIG_ENV_SECT_SIZE -> hk_malloc (CONFIG_ENV_SECT_SIZE - CONFIG_ENV_SIZE) = false ->
  exists s', env_sf_save data_addr slre_compile slre_match 0 env_new s = Some (0, s') /\ env_flash s' = env_flash s.
Proof.
  intros Hlt Hm. unfold env_sf_save, setup_flash_device, save_rest. cbn [negb Z.eqb mbind option_bind].
  rewrite (proj2 (Z.ltb_lt _ _) Hlt), Hm. cbn [negb]. by eexists.
Qed.

(** ** A NOR flash, and the configuration of the Firebox *)

Definition in_range (off len : Z) (i : nat) : bool := (off <=? Z.of_nat i) && (Z.of_nat i <? off + len).

#[export] Instance nor_flash : SpiFlash (list Z) := {|
  contents := fun f => f;
  spi_flash_read := fun f off len =>
    if (0 <=? off) && (0 <=? len) && (off + len <=? Z.of_nat (length f)) then (0, area f off len, f)
    else (- EINVAL, replicate (Z.to_nat len) 0, f);
  spi_flash_erase := fun f off len => (0, imap (fun i b => if in_range off len i then 255 else b) f);
  spi_flash_write := fun f off bs =>
    (0, imap (fun i b => if in_range off (Z.of_nat (length bs)) i
                         then Z.land b (nth (Z.to_nat (Z.of_nat i - off)) bs 0) else b) f)
|}.

Lemma in_range_iff off len i : in_range off len i = true <-> off <= Z.of_nat i < off + len.
Proof. unfold in_range. rewrite andb_true_iff, Z.leb_le, Z.ltb_lt. done. Qed.

Lemma imap_outside (g : nat -> Z -> Z) off len f :
  same_outside off len f (imap (fun i b => if in_range off len i then g i b else b) f).
Proof.
  split; [by rewrite length_imap|]. intros i Hi. rewrite list_lookup_imap. destruct (f !! i); [|done]. cbn. f_equal.
  destruct (in_range off len i) eqn:E; [|done]. by apply in_range_iff in E.
Qed.

#[export] Instance nor_flash_ok : SpiFlashOk (list Z).
Proof.
  split; cbn.
  - intros f off len r bs f'. case_if; intros [= <- <- <-]; (split; [done|]); [rewrite area_length; lia|rewrite length_replicate; lia].
  - intros f off len bs f'. by case_if; intros [= <- <-].
  - intros f off len r f' [= <- <-]. apply (imap_outside (fun _ _ => 255)).
  - intros f off len f' i [= <-] Hi Hl. rewrite list_lookup_imap. apply lookup_lt_is_Some_2 in Hl as [b ->]. cbn.
    by rewrite (proj2 (in_range_iff _ _ _) Hi).
  - intros f off bs r f' [= <- <-]. apply (imap_outside (fun i b => Z.land b (nth (Z.to_nat (Z.of_nat i - off)) bs 0))).
  - intros f off bs f' i old [= <-] Hi Hold. rewrite list_lookup_imap, Hold. cbn.
    rewrite (proj2 (in_range_iff _ _ _) Hi).
    destruct (lookup_lt_is_Some_2 bs (Z.to_nat (Z.of_nat i - off))) as [b Hb]; [lia|]. rewrite Hb. cbn. do 2 f_equal.
    by apply nth_lookup_Some.
Qed.

(** The Firebox T40: one copy in the sector at 2 MiB. *)
Definition t40_config (default_env : list Z) : EnvConfig := {|
  CONFIG_SYS_REDUNDAND_ENVIRONMENT := false;
  CONFIG_ENV_SIZE := 0x2000;
  CONFIG_ENV_SECT_SIZE := 0x10000;
  CONFIG_ENV_OFFSET := 0x200000;
  CONFIG_ENV_OFFSET_REDUND := 0;
  default_environment := default_env
|}.

Lemma t40_layout_ok d : @layout_ok (t40_config d).
Proof. unfold layout_ok, ENV_HEADER_SIZE. cbn. lia. Qed.

(** ** Witnesses *)

(** An environment of 24 bytes in sectors of 32, and a table with A=B. *)
Definition small_config (redund : bool) : EnvConfig := {|
  CONFIG_SYS_REDUNDAND_ENVIRONMENT := redund;
  CONFIG_ENV_SIZE := 24;
  CONFIG_ENV_SECT_SIZE := 32;
  CONFIG_ENV_OFFSET := 0;
  CONFIG_ENV_OFFSET_REDUND := 32;
  default_environment := str "d=1" ++ [0; 0]
|}.

Definition var_table : hsearch_data unit :=
  match ('(_, h) ← @hcreate_r unit no_hooks 2 no_table; @run_hts unit no_hooks h [HEnter [65] [66] 0]) with
  | Some (_, h) => h
  | None => no_table
  end.

Lemma var_table_ok : exists vs, @htab_ok unit var_table vs one_var.
Proof.
  destruct (@hcreate_spec unit no_hooks no_hooks_ok 2 no_table 5) as (h1 & E1 & _ & Hok & _); [done|done|lia|].
  destruct (empty_table_ok 5) as (_ & _ & _ & Hnu); [lia|].
  destruct (@run_hts_refines unit no_hooks no_hooks_ok [HEnter [65] [66] 0] h1 _ ∅ Hok)
    as (rs & h2 & vs2 & m2 & E2 & Hs & Hok2); [repeat constructor; simpl; lia| |].
  { vm_compute in E1. injection E1 as <-. cbn [length List.filter is_enter size] in *. lia. }
  assert (h2 = var_table) as ->.
  { unfold var_table. rewrite E1, mbind_Some. cbv beta iota. by rewrite E2. }
  exists vs2. inversion Hs as [|? ? ? m1 ? ? ? H1 H2]; subst. inversion H2; subst.
  inversion H1; subst; [|]. { done. }
  exfalso. match goal with Hv : vetoed _ _ _ _ |- _ => by apply (no_hooks_permissive _ _ _ _ Hv) end.
Qed.

(** One of five slots is used. *)
Lemma var_table_room vs m : @htab_ok unit var_table vs m -> nused vs < size var_table.
Proof.
  intros Hok. destruct (h_view _ _ _ Hok) as (t & Ht & <-). vm_compute in Ht. injection Ht as <-. by vm_compute.
Qed.

Lemma one_var_storable redund : @storable (small_config redund) one_var.
Proof.
  split.
  - intros E. apply (f_equal (lookup [65])) in E. discriminate E.
  - apply one_var_entry. by left.
  - unfold one_var. rewrite map_to_list_singleton. by destruct redund.
  - by destruct redund.
Qed.

Lemma small_layout_ok redund : @layout_ok (small_config redund).
Proof. destruct redund; unfold layout_ok, ENV_HEADER_SIZE; cbn; lia. Qed.

Definition store0 (flash : list Z) : @store unit (list Z) := mk_store var_table ENV_VALID true false 0 flash.
Definition blank (redund : bool) : env_t := mk_env_t 0 0 (replicate (Z.to_nat (@ENV_SIZE (small_config redund))) 7).

Definition saved_state : @store unit (list Z) :=
  match env_sf_save (hooks := no_hooks) (config := small_config false) 4 (fun _ => true) (fun _ _ => true) 0 (blank false)
          (store0 (replicate 64 9)) with
  | Some (_, s) => s
  | None => store0 []
  end.


Lemma bytes_check l : forallb (fun b => (0 <=? b) && (b <? 256)) l = true -> Forall byte_ok l.
Proof.
  intros H. apply Forall_forall. intros b Hb%list_elem_of_In. rewrite forallb_forall in H. apply H in Hb.
  bool_to_prop. unfold byte_ok. lia.
Qed.

(** A flash with A=B in the first copy and nothing in the second. *)
Definition one_copy : env_t :=
  match env_export (F := list Z) (hooks := no_hooks) (config := small_config true) 5 (fun _ => true) (fun _ _ => true) (blank true)
          (store0 []) with
  | Some (_, e, _) => e
  | None => blank true
  end.

Definition flash_with_copy : list Z := @env_image (small_config true) one_copy ++ replicate 40 255.

Lemma one_copy_ok : @valid_image (small_config true) one_copy /\ @holds unit no_hooks (env_data one_copy) one_var.
Proof.
  destruct var_table_ok as [vs Hok].
  destruct (env_export_spec (F := list Z) (hooks := no_hooks) (hooks_ok := no_hooks_ok) (config := small_config true) 5
    (fun _ => true) (fun _ _ => true) (blank true) (store0 []) vs one_var) as (e & s1 & Hex & Hv & Hm & _);
    [apply small_layout_ok|apply no_hooks_permissive|exact Hok|apply one_var_storable|reflexivity|].
  assert (one_copy = e) as ->; [|done]. unfold one_copy. by rewrite Hex.
Qed.

Definition saved_redund : @store unit (list Z) :=
  match env_sf_save_redund (hooks := no_hooks) (config := small_config true) 5 (fun _ => true) (fun _ _ => true) 0 (blank true)
          (store0 flash_with_copy) with
  | Some (_, s) => s
  | None => store0 []
  end.

Lemma small_rooms (f : list Z) :
  length f = 64%nat -> forallb (fun b => (0 <=? b) && (b <? 256)) f = true -> two_rooms (config := small_config true) f.
Proof.
  intros Hl Hb. unfold two_rooms, room_at. change (contents f) with f. rewrite Hl. cbn.
  split_and!; try lia. by apply bytes_check.
Qed.


Lemma damaged_environment_rejected_witness :
  env_import (hooks := no_hooks) (config := small_config true) 5
    (@env_image (small_config true) (mk_env_t (crc one_copy) (env_t_flags one_copy) ([65; 61] ++ [67] ++ replicate 16 0)))
    true (store0 []) =
  (s' ← set_default_env (hooks := no_hooks) (config := small_config true) 0 (store0 []); Some (- EIO, s')).
Proof.
  destruct one_copy_ok as [Hv _].
  apply (damaged_environment_rejected (hooks := no_hooks) (config := small_config true) 5 one_copy [65; 61] [66] [67]
    (replicate 16 0) (store0 [])); [apply small_layout_ok|exact Hv|vm_compute; reflexivity|reflexivity|simpl; lia|done|].
  repeat constructor; lia.
Defined.

Lemma later_serial_imported_witness :
  let e1 := mk_env_t (crc one_copy) 255 (env_data one_copy) in let e2 := mk_env_t (crc one_copy) 0 (env_data one_copy) in
  let imp := env_import (F := list Z) (hooks := no_hooks) (config := small_config true) 5 in
  let imp2 := env_import_redund (F := list Z) (hooks := no_hooks) (config := small_config true) 5 in
  let img := @env_image (small_config true) in
  (env_t_flags e2 = u8 (env_t_flags e1 + 1) ->
   imp2 (img e1) 0 (img e2) 0 (store0 []) = imp (img e2) false (with_serial (with_valid (store0 []) ENV_REDUND) (env_t_flags e2))) /\
  (env_t_flags e1 = u8 (env_t_flags e2 + 1) ->
   imp2 (img e1) 0 (img e2) 0 (store0 []) = imp (img e1) false (with_serial (with_valid (store0 []) ENV_VALID) (env_t_flags e1))).
Proof.
  intros e1 e2 imp imp2 img. destruct one_copy_ok as [Hv _].
  apply (later_serial_imported (hooks := no_hooks) (config := small_config true) 5 e1 e2 (store0 []));
    [reflexivity|apply small_layout_ok|apply valid_image_flags, Hv|apply valid_image_flags, Hv|cbn [e1 env_t_flags]; lia|cbn [e2 env_t_flags]; lia].
Defined.

(** No memory for blocks of 8 bytes. *)
Definition poor_hooks : EnvHooks unit := {|
  hk_change_ok := None;
  hk_callback := fun _ _ _ _ _ t => (0, t);
  hk_init := fun _ e => e;
  hk_malloc := fun n => negb (n =? 8)
|}.

Lemma env_sf_save_nomem_success_witness :
  exists s', env_sf_save (hooks := poor_hooks) (config := small_config false) 4 (fun _ => true) (fun _ _ => true) 0 (blank false)
    (store0 (replicate 64 9)) = Some (0, s') /\ env_flash s' = env_flash (store0 (replicate 64 9)).
Proof.
  apply (env_sf_save_nomem_success (hooks := poor_hooks) (config := small_config false) 4); [by vm_compute|reflexivity].
Defined.
