(* ===== verification/EnvLoad.v ===== *)
(** * Locations of the environment ([env/env.c])

    A configuration has several places for the environment, in the order of
    their priority, and a driver for each.  The drivers work on a state of their
    own, which is a parameter; their functions are optional, as in the code, and
    may fail with [None] for undefined behaviour. *)

From S2P Require Import Prelude.
Local Open Scope Z_scope.

Definition ENODEV : Z := 19.
Definition ENVL_UNKNOWN : Z := 0.

Section Drivers.
Context {S : Type}.

Record env_driver := mk_driver {
  location : Z;
  load : option (S -> option (Z * S));
  save : option (S -> option (Z * S));
  init : option (S -> option (Z * S))
}.

(** The fields of [gd] that this code owns.  [env_addr_default] says that
    [gd->env_addr] points to the default environment, which [env_init] sets
    together with [gd->env_valid]. *)
Record gd_env := mk_gd {
  env_has_init : Z;
  env_load_prio : Z;
  env_addr_default : bool
}.

Context (drivers : list env_driver) (env_locations : list Z).

Fixpoint _env_driver_lookup (entries : list env_driver) (loc : Z) : option env_driver :=
  match entries with
  | [] => None
  | entry :: entries => if loc =? location entry then Some entry else _env_driver_lookup entries loc
  end.

Definition BIT (n : Z) : Z := Z.shiftl 1 n.

Definition env_has_inited (g : gd_env) (loc : Z) : bool := negb (Z.land (env_has_init g) (BIT loc) =? 0).

Definition env_set_inited (g : gd_env) (loc : Z) : gd_env :=
  mk_gd (Z.lor (env_has_init g) (BIT loc)) (env_load_prio g) (env_addr_default g).

Definition env_get_location (prio : Z) (g : gd_env) : Z * gd_env :=
  if Z.of_nat (length env_locations) <=? prio then (ENVL_UNKNOWN, g)
  else (default ENVL_UNKNOWN (aget env_locations prio), mk_gd (env_has_init g) prio (env_addr_default g)).

Definition env_driver_lookup (prio : Z) (g : gd_env) : option env_driver * gd_env :=
  let '(loc, g) := env_get_location prio g in
  if loc =? ENVL_UNKNOWN then (None, g) else (_env_driver_lookup drivers loc, g).

(** The loop of [env_load], from the priority [prio] on. *)
Fixpoint env_load_loop (fuel : nat) (prio : Z) (g : gd_env) (s : S) : option (Z * gd_env * S) :=
  match fuel with
  | O => None
  | Datatypes.S fuel =>
      let '(drv, g) := env_driver_lookup prio g in
      match drv with
      | None => let '(_, g) := env_get_location 0 g in Some (- ENODEV, g, s)
      | Some drv =>
          match load drv with
          | None => env_load_loop fuel (prio + 1) g s
          | Some f =>
              if negb (env_has_inited g (location drv)) then env_load_loop fuel (prio + 1) g s
              else
                '(ret, s) ← f s;
                if negb (ret =? 0) then env_load_loop fuel (prio + 1) g s else Some (0, g, s)
          end
      end
  end.

(** There is no driver behind the last location. *)
Definition env_load (g : gd_env) (s : S) : option (Z * gd_env * S) :=
  env_load_loop (Datatypes.S (length env_locations)) 0 g s.

Definition env_save (g : gd_env) (s : S) : option (Z * gd_env * S) :=
  let '(drv, g) := env_driver_lookup (env_load_prio g) g in
  match drv with
  | None => Some (- ENODEV, g, s)
  | Some drv =>
      match save drv with
      | None => Some (- ENODEV, g, s)
      | Some f =>
          if negb (env_has_inited g (location drv)) then Some (- ENODEV, g, s)
          else '(ret, s) ← f s; Some (if ret =? 0 then 0 else - ENODEV, g, s)
      end
  end.

(** The loop of [env_init]: [ret], and the priority at which it stopped. *)
Fixpoint env_init_loop (fuel : nat) (prio ret : Z) (g : gd_env) (s : S) : option (Z * Z * gd_env * S) :=
  match fuel with
  | O => None
  | Datatypes.S fuel =>
      let '(drv, g) := env_driver_lookup prio g in
      match drv with
      | None => Some (ret, prio, g, s)
      | Some drv =>
          match init drv with
          | None => env_init_loop fuel (prio + 1) ret (env_set_inited g (location drv)) s
          | Some f =>
              '(ret, s) ← f s;
              env_init_loop fuel (prio + 1) ret (if ret =? 0 then env_set_inited g (location drv) else g) s
          end
      end
  end.

Definition env_init (g : gd_env) (s : S) : option (Z * gd_env * S) :=
  '(ret, prio, g, s) ← env_init_loop (Datatypes.S (length env_locations)) 0 (- ENOENT) g s;
  if prio =? 0 then Some (- ENODEV, g, s)
  else if ret =? - ENOENT then Some (0, mk_gd (env_has_init g) (env_load_prio g) true, s)
  else Some (ret, g, s).

(** ** Specification *)

(** The driver at a priority. *)
Definition driver_at (p : nat) : option env_driver :=
  loc ← env_locations !! p; if loc =? ENVL_UNKNOWN then None else _env_driver_lookup drivers loc.

(** The drivers of the first [p] priorities were asked to load and did not. *)
Inductive tried (g : gd_env) : nat -> S -> S -> Prop :=
  | tried_none s : tried g 0 s s
  | tried_skipped p s s1 d : tried g p s s1 -> driver_at p = Some d ->
      load d = None \/ env_has_inited g (location d) = false -> tried g (Datatypes.S p) s s1
  | tried_failed p s s1 s2 d f r : tried g p s s1 -> driver_at p = Some d -> load d = Some f ->
      env_has_inited g (location d) = true -> f s1 = Some (r, s2) -> r <> 0 -> tried g (Datatypes.S p) s s2.

#[local] Hint Constructors tried : uboot.

Lemma driver_lookup_at p g :
  exists g', env_driver_lookup (Z.of_nat p) g = (driver_at p, g') /\ env_has_init g' = env_has_init g /\
    env_addr_default g' = env_addr_default g /\ (is_Some (driver_at p) -> env_load_prio g' = Z.of_nat p).
Proof.
  unfold env_driver_lookup, env_get_location, driver_at. rewrite aget_lookup. case_if.
  - rewrite lookup_ge_None_2 by lia. exists g. split_and!; try done. by intros [? ?].
  - destruct (lookup_lt_is_Some_2 env_locations p) as [loc Hloc]; [lia|]. rewrite Hloc. cbn [default mbind option_bind id].
    destruct (loc =? ENVL_UNKNOWN); by eexists.
Qed.

(** The results of [env_load]. *)
Definition load_result (g : gd_env) (s : S) (ret : Z) (g' : gd_env) (s' : S) : Prop :=
  env_has_init g' = env_has_init g /\
  ((ret = 0 /\ exists p d f s0, tried g p s s0 /\ driver_at p = Some d /\ load d = Some f /\
      env_has_inited g (location d) = true /\ f s0 = Some (0, s') /\ env_load_prio g' = Z.of_nat p) \/
   (ret = - ENODEV /\ (exists p, tried g p s s' /\ driver_at p = None) /\
      (env_locations <> [] -> env_load_prio g' = 0))).

Lemma load_loop_result s fuel : forall p g0 g s0,
  (forall d f s, d ∈ drivers -> load d = Some f -> is_Some (f s)) ->
  env_has_init g = env_has_init g0 -> tried g0 p s s0 -> (length env_locations < p + fuel)%nat -> (0 < fuel)%nat ->
  exists ret g' s', env_load_loop fuel (Z.of_nat p) g s0 = Some (ret, g', s') /\ load_result g0 s ret g' s'.
Proof.
  induction fuel as [|fuel IH]; intros p g0 g s0 Htot Hg Hp Hfuel Hf0; [lia|]. cbn [env_load_loop].
  destruct (driver_lookup_at p g) as (g1 & -> & Hi1 & _ & Hprio).
  assert (forall loc, env_has_inited g1 loc = env_has_inited g0 loc) as Hin by (intros loc; unfold env_has_inited; by rewrite Hi1, Hg).
  destruct (driver_at p) as [d|] eqn:Hd.
  2: { unfold env_get_location. case_if; eexists _, _, _; (split; [done|]); (split; [by cbn; rewrite Hi1|]); right;
         (split; [done|]); (split; [by exists p|]); [|done]. intros Hne. destruct env_locations; simpl in *; [done|lia]. }
  assert (p < length env_locations)%nat as Hlt.
  { unfold driver_at in Hd. destruct (env_locations !! p) eqn:E; [|done]. by eapply lookup_lt_Some. }
  assert (d ∈ drivers) as Hdin.
  { unfold driver_at in Hd. destruct (env_locations !! p) as [loc|]; [|done]. cbn in Hd. destruct (loc =? ENVL_UNKNOWN); [done|].
    clear -Hd. induction drivers as [|x l IHl]; [done|]. cbn in Hd. destruct (loc =? location x); [|right; by apply IHl].
    injection Hd as ->. left. }
  replace (Z.of_nat p + 1) with (Z.of_nat (Datatypes.S p)) by lia.
  destruct (load d) as [f|] eqn:Hl; [|apply IH; eauto with uboot; try lia; congruence].
  rewrite Hin. destruct (env_has_inited g0 (location d)) eqn:Hini; cbn [negb];
    [|apply IH; eauto with uboot; try lia; congruence].
  destruct (Htot d f s0 Hdin Hl) as [[r s1] Hr]. rewrite Hr. step_bind. case_if.
  - apply IH; eauto with uboot; try lia; congruence.
  - subst r. eexists _, _, _. split; [done|]. split; [congruence|]. left. split; [done|].
    exists p, d, f, s0. split_and!; try done. apply Hprio. by eexists.
Qed.

(** After a successful load, saving uses the same driver. *)
Lemma save_after_load p d g s :
  driver_at p = Some d -> env_load_prio g = Z.of_nat p -> env_has_inited g (location d) = true ->
  exists g', env_save g s =
    match save d with
    | None => Some (- ENODEV, g', s)
    | Some f => '(ret, s) ← f s; Some (if ret =? 0 then 0 else - ENODEV, g', s)
    end.
Proof.
  intros Hd Hp Hi. unfold env_save. rewrite Hp. destruct (driver_lookup_at p g) as (g1 & -> & Hi1 & _ & _). rewrite Hd.
  exists g1. replace (env_has_inited g1 (location d)) with true; [done|].
  unfold env_has_inited in *. by rewrite Hi1.
Qed.

(** [env_load] asks the drivers in the order of their priority, leaving out
    those that cannot load or were not initialised, and stops at the first that
    loads; [env_save] then uses the driver of that place.  If none loads, it
    returns [-ENODEV] and [env_save] will use the place of the highest priority. *)
Theorem env_load_first (g : gd_env) (s : S) :
  (forall d f s, d ∈ drivers -> load d = Some f -> is_Some (f s)) ->
  exists ret g' s', env_load g s = Some (ret, g', s') /\ load_result g s ret g' s' /\
    (ret = 0 -> exists p d, driver_at p = Some d /\ forall s2, exists g2, env_save g' s2 =
       match save d with
       | None => Some (- ENODEV, g2, s2)
       | Some f => '(r, s3) ← f s2; Some (if r =? 0 then 0 else - ENODEV, g2, s3)
       end).
Proof.
  intros Htot. unfold env_load. change 0 with (Z.of_nat 0) at 1.
  destruct (load_loop_result s (Datatypes.S (length env_locations)) 0 g g s) as (ret & g' & s' & -> & Hres);
    [done|done|constructor|lia|lia|]. exists ret, g', s'. split; [done|]. split; [done|]. intros ->.
  destruct Hres as [Hi [(_ & p & d & f & s0 & _ & Hd & _ & Hini & _ & Hp)|[[=] _]]].
  exists p, d. split; [done|]. intros s2. apply (save_after_load p); [done|done|].
  unfold env_has_inited in *. by rewrite Hi.
Qed.

End Drivers.

(** Witness: the first of two places cannot be read; the state counts the loads. *)
Definition example_drivers : list (env_driver (S := Z)) :=
  [mk_driver 5 (Some (fun s => Some (- ENODEV, s + 1))) None None;
   mk_driver 10 (Some (fun s => Some (0, s + 1))) (Some (fun s => Some (0, s + 100))) None].

Lemma env_load_first_witness :
  let g := mk_gd (Z.lor (BIT 5) (BIT 10)) 0 false in
  exists ret g' s', env_load example_drivers [5; 10] g 0 = Some (ret, g', s') /\
    load_result example_drivers [5; 10] g 0 ret g' s' /\
    (ret = 0 -> exists p d, driver_at example_drivers [5; 10] p = Some d /\ forall s2, exists g2,
       env_save example_drivers [5; 10] g' s2 =
       match save d with
       | None => Some (- ENODEV, g2, s2)
       | Some f => '(r, s3) ← f s2; Some (if r =? 0 then 0 else - ENODEV, g2, s3)
       end).
Proof.
  intros g. apply (env_load_first example_drivers [5; 10] g 0). intros d f s Hd Hf.
  apply list_elem_of_In in Hd as [<-|[<-|[]]]; injection Hf as <-; by eexists.
Defined.

Example env_load_example :
  let g := mk_gd (Z.lor (BIT 5) (BIT 10)) 0 false in
  (fun '(ret, g', s') => (ret, env_load_prio g', s')) <$> env_load example_drivers [5; 10] g 0 = Some (0, 1, 2).
Proof. vm_compute. reflexivity. Qed.
