(* ===== verification/EnvCmd.v ===== *)
(** * Reading and setting variables ([cmd/nvedit.c], [env/common.c])

    The interface of the environment to the rest of the program and to the
    command line.  Before the environment is imported into the hash table, a
    variable is looked up in its linear text in memory; afterwards in the table.

    An argument vector is the list of its strings; the pointer behind the last
    one is NULL.  A function is [None] when it reads memory out of bounds or
    through NULL.  Console output is left out, except that the functions which
    print variables return what they print. *)

From S2P Require Import Prelude StringLib Strto Qsort Hashtable EnvText Crc32 EnvStore.
Local Open Scope Z_scope.

Definition CMD_RET_USAGE : Z := -1.
Definition CMD_RET_FAILURE : Z := 1.
Definition MAX_ENV_SIZE : Z := Z.shiftl 1 20.
Definition ENV_BUF_SIZE : nat := 32.
Definition H_MATCH_BOTH : Z := Z.lor H_MATCH_KEY H_MATCH_DATA.

(** ** The linear environment *)

Section Linear.
(** The memory that [env_get_char] reads. *)
Context (mem : list Z) (env_size : Z).

(** [while ( *s1 == env_get_char(i2++)) if ( *s1++ == '=') return i2;]  When both
    are at a NUL, [s1] goes on behind the end of the name. *)
Fixpoint envmatch (s1 : list Z) (i2 : Z) : option Z :=
  b ← aget mem i2;
  match s1 with
  | c :: s1 => if c =? b then if c =? 61 then Some (i2 + 1) else envmatch s1 (i2 + 1) else Some (-1)
  | [] => if b =? 0 then None else if b =? 61 then Some (i2 + 1) else Some (-1)
  end.

(** [for (nxt = i; (c = env_get_char(nxt)) != '\0'; ++nxt)]: the end of the entry,
    or -1. *)
Fixpoint entry_end (fuel : nat) (nxt : Z) : option Z :=
  match fuel with
  | O => None
  | S fuel =>
      c ← aget mem nxt;
      if c =? 0 then Some nxt else if env_size <=? nxt then Some (-1) else entry_end fuel (nxt + 1)
  end.

(** Copies at most [len] bytes: the return value and the string in the buffer. *)
Fixpoint copy_out (len : nat) (val n : Z) (buf : list Z) : option (Z * list Z) :=
  match len with
  | O => Some (n, removelast buf)
  | S len => c ← aget mem val; if c =? 0 then Some (n, buf) else copy_out len (val + 1) (n + 1) (buf ++ [c])
  end.

Fixpoint get_f_loop (fuel : nat) (name : list Z) (i : Z) (len : nat) : option (Z * list Z) :=
  match fuel with
  | O => None
  | S fuel =>
      c ← aget mem i;
      if c =? 0 then Some (-1, [])
      else
        nxt ← entry_end (S (length mem)) i;
        if nxt <? 0 then Some (-1, [])
        else
          val ← envmatch name i;
          if val <? 0 then get_f_loop fuel name (nxt + 1) len else copy_out len val 0 []
  end.

Definition env_get_f (name : list Z) (len : nat) : option (Z * list Z) := get_f_loop (S (length mem)) name 0 len.
End Linear.

(** ** The environment *)

(** [do { *p-- = '0' + i % 10; i /= 10; } while (i > 0)] *)
Fixpoint itoa_loop (fuel : nat) (i : Z) (p : list Z) : list Z :=
  match fuel with
  | O => p
  | S fuel => let p := (48 + i mod 10) :: p in let i := i / 10 in if 0 <? i then itoa_loop fuel i p else p
  end.

(** A number of 64 bits has at most 20 digits. *)
Definition simple_itoa (i : Z) : list Z := itoa_loop 20 i [].

Section Commands.
Context {C F : Type} {hooks : EnvHooks C} {config : EnvConfig}.
Context (slre_compile : list Z -> bool) (slre_match : list Z -> list Z -> bool).

(** The stored state, the counter of changes, the text at [gd->env_addr], and
    the memory that import and export work on. *)
Record env_world := mk_world {
  st : store (C := C) (F := F);
  env_id : Z;
  env_addr : list Z;
  sysmem : list Z
}.

Definition with_st (w : env_world) (s : store) : env_world := mk_world s (env_id w) (env_addr w) (sysmem w).
Definition with_table (w : env_world) (h : hsearch_data C) : env_world := with_st w (with_htab (st w) h).
Definition with_mem (w : env_world) (m : list Z) : env_world := mk_world (st w) (env_id w) (env_addr w) m.
Definition next_id (w : env_world) : env_world := mk_world (st w) (s32 (env_id w + 1)) (env_addr w) (sysmem w).

(** What [env_get_char] reads. *)
Definition env_text (valid : Z) (addr : list Z) : list Z := if valid =? ENV_INVALID then default_environment else addr.

Definition env_get_early (text name : list Z) : option (option (list Z)) :=
  '(r, buf) ← env_get_f text CONFIG_ENV_SIZE name ENV_BUF_SIZE;
  Some (if 0 <? r then Some buf else None).

Definition env_get (w : env_world) (name : list Z) : option (option (list Z)) :=
  if env_ready (st w) then
    '(_, p, _, h) ← hsearch_r name None FIND (env_htab (st w)) 0;
    match p with
    | None => Some None
    | Some i => s ← get_slot h i; Some (data (entry s))
    end
  else env_get_early (env_text (env_valid (st w)) (env_addr w)) name.

(** [GD_FLG_ENV_READY] and [gd->env_valid] are cleared for the lookup. *)
Definition env_get_default (w : env_world) (name : list Z) : option (option (list Z)) :=
  env_get_early (env_text ENV_INVALID (env_addr w)) name.

Definition env_get_yesno (w : env_world) (var : list Z) : option Z :=
  s ← env_get w var;
  Some (match s with
        | None => -1
        | Some s => if existsb (Z.eqb (ch s)) (str "1yYtT") then 1 else 0
        end).

Definition env_get_ulong (w : env_world) (name : list Z) (base default_val : Z) : option Z :=
  s ← env_get w name;
  Some (match s with Some s => fst (simple_strtoul s base) | None => default_val end).

Definition env_get_hex (w : env_world) (varname : list Z) (default_val : Z) : option Z :=
  s ← env_get w varname;
  Some (match s with
        | None => default_val
        | Some s => let '(value, endp) := simple_strtoul s 16 in
                    if Nat.eqb (length endp) (length s) then default_val else value
        end).

(** ** Setting variables *)

(** The letters of an option: only [f] is known. *)
Fixpoint force_letters (arg : list Z) (env_flag : Z) : option Z :=
  match arg with
  | [] => Some env_flag
  | c :: arg => if c =? 102 then force_letters arg (Z.lor env_flag H_FORCE) else None
  end.

(** [while (argc > 1 && **(argv + 1) == '-')]: the flags and the remaining
    arguments behind [argv[0]], or [None] for a wrong option. *)
Fixpoint force_options (args : list (list Z)) (env_flag : Z) : option (Z * list (list Z)) :=
  match args with
  | arg :: rest =>
      if ch arg =? 45
      then match force_letters (tl arg) env_flag with Some fl => force_options rest fl | None => None end
      else Some (env_flag, args)
  | [] => Some (env_flag, [])
  end.

(** The arguments with a space behind each, the last space removed. *)
Definition join_values (values : list (list Z)) : list Z := removelast (flat_map (fun v => v ++ [32]) values).

Definition values_len (values : list (list Z)) : Z := foldl (fun n v => s32 (n + strlen v + 1)) 0 values.

(** [args] are the arguments behind [argv[0]]. *)
Definition _do_env_set (args : list (list Z)) (env_flag : Z) (w : env_world) : option (Z * env_world) :=
  match force_options args env_flag with
  | None => Some (CMD_RET_USAGE, w)
  | Some (env_flag, []) => None
  | Some (env_flag, name :: values) =>
      if bool_decide (is_Some (strchr name 61)) then Some (1, w)
      else
        let w := next_id w in
        match values with
        | [] =>
            '(rc, _, h) ← hdelete_r name (env_htab (st w)) env_flag;
            Some (if rc =? 0 then 1 else 0, with_table w h)
        | _ =>
            if negb (hk_malloc (values_len values)) then Some (1, w)
            else
              '(_, ep, _, h) ← hsearch_r name (Some (join_values values)) ENTER (env_htab (st w)) env_flag;
              Some (match ep with None => 1 | Some _ => 0 end, with_table w h)
        end
  end.

Definition env_set (varname : list Z) (varvalue : option (list Z)) (w : env_world) : option (Z * env_world) :=
  if negb (env_ready (st w)) then Some (1, w)
  else
    match varvalue with
    | None | Some [] => _do_env_set [varname] H_PROGRAMMATIC w
    | Some v => _do_env_set [varname; v] H_PROGRAMMATIC w
    end.

Definition env_set_ulong (varname : list Z) (value : Z) (w : env_world) : option (Z * env_world) :=
  env_set varname (Some (simple_itoa value)) w.

(** [sprintf(str, "%lx", value)] *)
Definition env_set_hex (varname : list Z) (value : Z) (w : env_world) : option (Z * env_world) :=
  env_set varname (Some (digits 16 16 value)) w.

Definition do_env_set (args : list (list Z)) (w : env_world) : option (Z * env_world) :=
  if Nat.eqb (length args) 0 then Some (CMD_RET_USAGE, w) else _do_env_set args H_INTERACTIVE w.

Fixpoint delete_names (names : list (list Z)) (env_flag ret : Z) (w : env_world) : option (Z * env_world) :=
  match names with
  | [] => Some (ret, w)
  | name :: names =>
      '(rc, _, h) ← hdelete_r name (env_htab (st w)) env_flag;
      delete_names names env_flag (if rc =? 0 then 1 else ret) (with_table w h)
  end.

Definition do_env_delete (args : list (list Z)) (w : env_world) : option (Z * env_world) :=
  match force_options args H_INTERACTIVE with
  | None => Some (CMD_RET_USAGE, w)
  | Some (env_flag, names) => delete_names names env_flag 0 (next_id w)
  end.

Definition do_env_exists (args : list (list Z)) (w : env_world) : option Z :=
  match args with
  | [] => Some CMD_RET_USAGE
  | name :: _ =>
      '(_, ep, _, _) ← hsearch_r name None FIND (env_htab (st w)) 0;
      Some (match ep with None => 1 | Some _ => 0 end)
  end.

(** The options of [env default]: [a] and [f]; [cmd_usage] returns 1. *)
Fixpoint default_letters (arg : list Z) (all : bool) (env_flag : Z) : option (bool * Z) :=
  match arg with
  | [] => Some (all, env_flag)
  | c :: arg =>
      if c =? 97 then default_letters arg true env_flag
      else if c =? 102 then default_letters arg all (Z.lor env_flag H_FORCE)
      else None
  end.

Fixpoint default_options (args : list (list Z)) (all : bool) (env_flag : Z) : option (bool * Z * list (list Z)) :=
  match args with
  | arg :: rest =>
      if ch arg =? 45
      then match default_letters (tl arg) all env_flag with Some (all, fl) => default_options rest all fl | None => None end
      else Some (all, env_flag, args)
  | [] => Some (all, env_flag, [])
  end.

Definition do_env_default (args : list (list Z)) (w : env_world) : option (Z * env_world) :=
  match default_options args false H_INTERACTIVE with
  | None => Some (1, w)
  | Some (all, env_flag, vars) =>
      if all && Nat.eqb (length vars) 0 then s ← set_default_env env_flag (st w); Some (0, with_st w s)
      else if negb all && negb (Nat.eqb (length vars) 0)
      then '(_, s) ← set_default_vars vars env_flag (st w); Some (0, with_st w s)
      else Some (1, w)
  end.

(** ** Printing *)

(** [puts] of a buffer: up to the NUL. *)
Definition puts (buf : list Z) : list Z := fst (scan (fun _ => false) buf).

(** The return value and what is printed. *)
Definition env_print (name : option (list Z)) (flag : Z) (w : env_world) : option (Z * list Z) :=
  match name with
  | Some name =>
      '(_, ep, _, h) ← hsearch_r name None FIND (env_htab (st w)) flag;
      match ep with
      | None => Some (0, [])
      | Some i =>
          s ← get_slot h i; k ← key (entry s); d ← data (entry s);
          let out := k ++ [61] ++ d ++ [10] in Some (Z.of_nat (length out), out)
      end
  | None =>
      '(len, res) ← hexport_r slre_compile slre_match (env_htab (st w)) 10 flag None 0 [];
      Some (if 0 <? len then (len, puts (default [] res)) else (0, []))
  end.

(** The number of names that are not defined. *)
Fixpoint print_names (names : list (list Z)) (flag rcode : Z) (w : env_world) : option (Z * list Z) :=
  match names with
  | [] => Some (rcode, [])
  | name :: names =>
      '(rc, out) ← env_print (Some name) flag w;
      '(rcode, out') ← print_names names flag (if rc =? 0 then rcode + 1 else rcode) w;
      Some (rcode, out ++ out')
  end.

Definition do_env_print (args : list (list Z)) (w : env_world) : option (Z * list Z) :=
  let '(args, env_flag) :=
    match args with
    | arg :: rest => if (ch arg =? 45) && (ch (tl arg) =? 97) then (rest, 0) else (args, H_HIDE_DOT)
    | [] => (args, H_HIDE_DOT)
    end in
  if Nat.eqb (length args) 0 then
    '(rcode, out) ← env_print None env_flag w; Some (if rcode =? 0 then 1 else 0, out)
  else print_names args 0 0 w.

(** The options of [env grep]: how and what to match, and whether the options end. *)
Fixpoint grep_letters (arg : list Z) (how what : Z) : option (Z * Z * bool) :=
  match arg with
  | [] => Some (how, what, false)
  | c :: arg =>
      if c =? 101 then grep_letters arg H_MATCH_REGEX what
      else if c =? 110 then grep_letters arg how H_MATCH_KEY
      else if c =? 118 then grep_letters arg how H_MATCH_DATA
      else if c =? 98 then grep_letters arg how H_MATCH_BOTH
      else if c =? 45 then Some (how, what, true)
      else None
  end.

(** At [--] the argument itself is still the first pattern. *)
Fixpoint grep_options (args : list (list Z)) (how what : Z) : option (Z * Z * list (list Z)) :=
  match args with
  | arg :: rest =>
      if ch arg =? 45 then
        match grep_letters (tl arg) how what with
        | None => None
        | Some (how, what, true) => Some (how, what, args)
        | Some (how, what, false) => grep_options rest how what
        end
      else Some (how, what, args)
  | [] => Some (how, what, [])
  end.

Definition do_env_grep (flag : Z) (args : list (list Z)) (w : env_world) : option (Z * list Z) :=
  if Nat.eqb (length args) 0 then Some (CMD_RET_USAGE, [])
  else
    match grep_options args H_MATCH_SUBSTR H_MATCH_BOTH with
    | None => Some (CMD_RET_USAGE, [])
    | Some (how, what, patterns) =>
        '(len, res) ← hexport_r slre_compile slre_match (env_htab (st w)) 10 (Z.lor (Z.lor flag what) how) None 0 patterns;
        Some (if len <? 2 then 1 else 0, if 0 <? len then puts (default [] res) else [])
    end.

(** ** Import and export of memory *)

Record transfer := mk_transfer {
  t_sep : Z; t_chk : bool; t_fmt : bool; t_del : bool; t_crlf : bool; t_size : Z
}.

(** A format option: [None] is the jump to [sep_err]. *)
Definition set_format (t : transfer) (sep : Z) (chk : bool) : option transfer :=
  if t_fmt t then None else Some (mk_transfer sep (chk || t_chk t) true (t_del t) (t_crlf t) (t_size t)).

(** The letters of an option: the return value of the command, or the options. *)
Fixpoint import_letters (arg : list Z) (t : transfer) : Z + transfer :=
  match arg with
  | [] => inr t
  | c :: arg =>
      if c =? 98 then match set_format t 0 false with Some t => import_letters arg t | None => inl 1 end
      else if c =? 99 then match set_format t 0 true with Some t => import_letters arg t | None => inl 1 end
      else if c =? 116 then match set_format t 10 false with Some t => import_letters arg t | None => inl 1 end
      else if c =? 114 then import_letters arg (mk_transfer (t_sep t) (t_chk t) (t_fmt t) (t_del t) true (t_size t))
      else if c =? 100 then import_letters arg (mk_transfer (t_sep t) (t_chk t) (t_fmt t) true (t_crlf t) (t_size t))
      else inl CMD_RET_USAGE
  end.

Fixpoint import_options (args : list (list Z)) (t : transfer) : Z + (transfer * list (list Z)) :=
  match args with
  | arg :: rest =>
      if ch arg =? 45
      then match import_letters (tl arg) t with inl r => inl r | inr t => import_options rest t end
      else inr (t, args)
  | [] => inr (t, [])
  end.

(** The bytes of the memory from [ptr] on. *)
Definition mem_area (mem : list Z) (ptr size : Z) : option (list Z) :=
  if (0 <=? ptr) && (0 <=? size) && (ptr + size <=? Z.of_nat (length mem)) then Some (area mem ptr size) else None.

(** [while (size < MAX_ENV_SIZE)]: looks for the separator in front of a NUL. *)
Fixpoint find_size (fuel : nat) (mem : list Z) (sep s size : Z) : option Z :=
  match fuel with
  | O => None
  | S fuel =>
      if size <? MAX_ENV_SIZE then
        c ← aget mem s;
        if c =? sep then c' ← aget mem (s + 1); if c' =? 0 then Some size else find_size fuel mem sep (s + 1) (size + 1)
        else find_size fuel mem sep (s + 1) (size + 1)
      else Some size
  end.

Definition do_env_import (args : list (list Z)) (w : env_world) : option (Z * env_world) :=
  match import_options args (mk_transfer 10 false false false false 0) with
  | inl r => Some (r, w)
  | inr (t, []) => Some (CMD_RET_USAGE, w)
  | inr (t, addr_arg :: rest) =>
      let sep := t_sep t in
      let crlf_is_lf := t_crlf t && (sep =? 10) in
      let ptr := fst (simple_strtoul addr_arg 16) in
      let size_arg := match rest with s :: _ => if strcmp s (str "-") =? 0 then None else Some s | [] => None end in
      let vars := tl rest in
      match size_arg with
      | None =>
          if t_chk t then Some (CMD_RET_FAILURE, w)
          else
            size ← find_size (S (length (sysmem w))) (sysmem w) sep ptr 0;
            env ← mem_area (sysmem w) ptr (size + 2);
            '(r, _, h) ← himport_r (env_htab (st w)) env sep (if t_del t then 0 else H_NOCLEAR) crlf_is_lf vars;
            Some (if r =? 0 then 1 else 0, with_st w (if r =? 0 then with_htab (st w) h else with_ready (with_htab (st w) h)))
      | Some size_arg =>
          let size := fst (simple_strtoul size_arg 16) in
          '(bad, ptr, size) ←
            if t_chk t then
              let size := u64 (size - ENV_HEADER_SIZE) in
              header ← mem_area (sysmem w) ptr 4;
              c ← crc32 crc_table 0 (ptr + ENV_HEADER_SIZE) (drop (Z.to_nat (ptr + ENV_HEADER_SIZE)) (sysmem w)) (u32 size);
              Some (negb (c =? le_num header), ptr + ENV_HEADER_SIZE, size)
            else Some (false, ptr, size);
          if bad : bool then Some (1, w)
          else
            env ← mem_area (sysmem w) ptr size;
            '(r, _, h) ← himport_r (env_htab (st w)) env sep (if t_del t then 0 else H_NOCLEAR) crlf_is_lf vars;
            Some (if r =? 0 then 1 else 0, with_st w (if r =? 0 then with_htab (st w) h else with_ready (with_htab (st w) h)))
      end
  end.

(** The letters of an option of [env export]; [s] takes the next argument. *)
Fixpoint export_letters (arg : list Z) (t : transfer) : Z + (transfer * bool) :=
  match arg with
  | [] => inr (t, false)
  | c :: arg =>
      if c =? 98 then match set_format t 0 false with Some t => export_letters arg t | None => inl 1 end
      else if c =? 99 then match set_format t 0 true with Some t => export_letters arg t | None => inl 1 end
      else if c =? 115 then inr (t, true)
      else if c =? 116 then match set_format t 10 false with Some t => export_letters arg t | None => inl 1 end
      else inl CMD_RET_USAGE
  end.

Fixpoint export_options (args : list (list Z)) (t : transfer) : Z + (transfer * list (list Z)) :=
  match args with
  | arg :: rest =>
      if ch arg =? 45 then
        match export_letters (tl arg) t with
        | inl r => inl r
        | inr (t, false) => export_options rest t
        | inr (t, true) =>
            match rest with
            | [] => inl 1
            | size :: rest =>
                export_options rest
                  (mk_transfer (t_sep t) (t_chk t) (t_fmt t) (t_del t) (t_crlf t) (fst (simple_strtoul size 16)))
            end
        end
      else inr (t, args)
  | [] => inr (t, [])
  end.

(** [hexport_r] into the memory at [ptr]: the return value and the memory. *)
Definition export_at (h : hsearch_data C) (sep : Z) (mem : list Z) (ptr size : Z) (vars : list (list Z))
    : option (Z * list Z) :=
  '(len, res) ← hexport_r slre_compile slre_match h sep (Z.lor H_MATCH_KEY H_MATCH_IDENT)
                  (Some (drop (Z.to_nat ptr) mem)) size vars;
  Some (len, take (Z.to_nat ptr) mem ++ default [] res).

(** [CONFIG_ENV_ADDR_REDUND] is not set. *)
Definition do_env_export (args : list (list Z)) (w : env_world) : option (Z * env_world) :=
  match export_options args (mk_transfer 10 false false false false 0) with
  | inl r => Some (r, w)
  | inr (t, []) => Some (CMD_RET_USAGE, w)
  | inr (t, addr_arg :: vars) =>
      let ptr := fst (simple_strtoul addr_arg 16) in
      let size := t_size t in
      mem ← if negb (size =? 0) then memset (sysmem w) ptr 0 (Z.to_nat size) else Some (sysmem w);
      if negb (t_sep t =? 0) then
        '(len, mem) ← export_at (env_htab (st w)) (t_sep t) mem ptr size vars;
        let w := with_mem w mem in
        if len <? 0 then Some (1, w)
        else '(_, w) ← env_set (str "filesize") (Some (toupper <$> digits 16 16 len)) w; Some (0, w)
      else
        let res := if t_chk t then ptr + ENV_HEADER_SIZE else ptr in
        '(len, mem) ← export_at (env_htab (st w)) 0 mem res ENV_SIZE vars;
        if len <? 0 then Some (1, with_mem w mem)
        else
          mem ← if t_chk t then
                  c ← crc32 crc_table 0 res (drop (Z.to_nat res) mem) ENV_SIZE;
                  store_bytes mem ptr [Z.land c 255; Z.land (Z.shiftr c 8) 255; Z.land (Z.shiftr c 16) 255; Z.land (Z.shiftr c 24) 255]
                else Some mem;
          '(_, w) ← env_set_hex (str "filesize") (u64 (len + ENV_HEADER_SIZE)) (with_mem w mem);
          Some (0, w)
  end.
End Commands.

(** ** The linear text *)

Lemma aget_at {A} (pre suf : list A) x i : i = Z.of_nat (length pre) -> aget (pre ++ x :: suf) i = Some x.
Proof. intros ->. by apply aget_middle. Qed.

(** A name: no NUL and no equals sign. *)
Definition name_ok (k : list Z) : Prop := Forall (fun c => 0 < c < 256 /\ c <> 61) k.

Lemma envmatch_entry name : forall pre k suf i,
  name_ok name -> name_ok k -> i = Z.of_nat (length pre) ->
  envmatch (pre ++ k ++ 61 :: suf) name i = Some (if decide (name = k) then i + Z.of_nat (length k) + 1 else -1).
Proof.
  induction name as [|c name IH]; intros pre k suf i Hn Hk Hi; destruct k as [|b k]; cbn [envmatch app].
  - rewrite aget_at by done. cbn. do 2 f_equal. lia.
  - apply Forall_cons in Hk as [[Hb Hb'] _]. rewrite aget_at, mbind_Some by done.
    rewrite (proj2 (Z.eqb_neq b 0)), (proj2 (Z.eqb_neq b 61)) by lia. done.
  - apply Forall_cons in Hn as [[Hc Hc'] _]. rewrite aget_at, mbind_Some by done.
    rewrite (proj2 (Z.eqb_neq c 61)) by lia. done.
  - apply Forall_cons in Hk as [[Hb Hb'] Hk], Hn as [[Hc Hc'] Hn]. rewrite aget_at, mbind_Some by done.
    destruct (Z.eqb_spec c b) as [->|Hne]; [|by rewrite decide_False by congruence].
    rewrite (proj2 (Z.eqb_neq b 61)) by lia.
    change (pre ++ b :: k ++ 61 :: suf) with (pre ++ [b] ++ k ++ 61 :: suf). rewrite app_assoc.
    rewrite IH by (done || rewrite length_app; simpl; lia). f_equal. cbn [length].
    destruct (decide (name = k)) as [->|Hne]; [rewrite decide_True by done; lia|by rewrite decide_False by congruence].
Qed.

Lemma entry_end_spec env_size e : forall pre suf fuel i,
  Forall (fun c => c <> 0) e -> i = Z.of_nat (length pre) -> (length e < fuel)%nat ->
  i + Z.of_nat (length e) <= env_size ->
  entry_end (pre ++ e ++ 0 :: suf) env_size fuel i = Some (i + Z.of_nat (length e)).
Proof.
  induction e as [|c e IH]; intros pre suf [|fuel] i He Hi Hf Hs; try (simpl in *; lia); cbn [entry_end app].
  - rewrite aget_at by done. cbn. f_equal. lia.
  - apply Forall_cons in He as [Hc He]. rewrite aget_at, mbind_Some by done. cbn [length] in *.
    rewrite (proj2 (Z.eqb_neq _ _) Hc), (proj2 (Z.leb_gt _ _)) by lia.
    change (pre ++ c :: e ++ 0 :: suf) with (pre ++ [c] ++ e ++ 0 :: suf). rewrite app_assoc.
    rewrite IH by (done || (rewrite length_app; simpl; lia) || lia). f_equal. lia.
Qed.

Lemma copy_out_spec d : forall pre suf len i n buf,
  Forall (fun c => c <> 0) d -> i = Z.of_nat (length pre) ->
  copy_out (pre ++ d ++ 0 :: suf) len i n buf =
  Some (if (length d <? len)%nat then (n + Z.of_nat (length d), buf ++ d) else (n + Z.of_nat len, removelast (buf ++ take len d))).
Proof.
  induction d as [|c d IH]; intros pre suf [|len] i n buf Hd Hi; cbn [copy_out app].
  - cbn. by rewrite app_nil_r, Z.add_0_r.
  - rewrite aget_at by done. cbn. by rewrite app_nil_r, Z.add_0_r.
  - cbn. by rewrite app_nil_r, Z.add_0_r.
  - apply Forall_cons in Hd as [Hc Hd]. rewrite aget_at, mbind_Some by done. rewrite (proj2 (Z.eqb_neq _ _) Hc).
    change (pre ++ c :: d ++ 0 :: suf) with (pre ++ [c] ++ d ++ 0 :: suf). rewrite app_assoc.
    rewrite IH by (done || (rewrite length_app; simpl; lia)). cbn [length]. f_equal.
    change (S (length d) <? S len)%nat with (length d <? len)%nat. rewrite firstn_cons.
    destruct (length d <? len)%nat; f_equal; rewrite <- ?app_assoc; try done; lia.
Qed.

(** An entry that can be stored in the linear text. *)
Definition entry_ok (ep : pair_t) : Prop :=
  name_ok (fst ep) /\ fst ep <> [] /\ Forall (fun c => c <> 0 /\ c <> 92) (snd ep).

Lemma escape_plain d : Forall (fun c => c <> 0 /\ c <> 92) d -> escape 0 d = d.
Proof.
  unfold escape. induction 1 as [|c d [Hc Hc'] Hd IH]; [done|]. cbn [flat_map]. rewrite IH.
  by rewrite (proj2 (Z.eqb_neq c 0)), (proj2 (Z.eqb_neq c 92)).
Qed.

Lemma get_f_text env_size name len : forall es pre suf fuel,
  name_ok name -> Forall entry_ok es -> (length es < fuel)%nat ->
  Z.of_nat (length pre) + Z.of_nat (length (export_text 0 es)) <= env_size ->
  get_f_loop (pre ++ export_text 0 es ++ 0 :: suf) env_size fuel name (Z.of_nat (length pre)) len =
  match (list_to_map es : gmap (list Z) (list Z)) !! name with
  | None => Some (-1, [])
  | Some d => Some (if (length d <? len)%nat then (Z.of_nat (length d), d) else (Z.of_nat len, removelast (take len d)))
  end.
Proof.
  induction es as [|[k d] es IH]; intros pre suf [|fuel] Hn Hes Hf Hs; try (simpl in *; lia); cbn [get_f_loop].
  { change (export_text 0 []) with (@nil Z). cbn [app]. rewrite aget_at by done. done. }
  apply Forall_cons in Hes as [(Hk & Hk0 & Hd) Hes]. cbn [fst snd] in *.
  rewrite export_text_cons in *. unfold entry_text in *. cbn [fst snd] in *. rewrite (escape_plain d Hd) in *.
  rewrite !length_app in Hs. cbn [length] in Hs, Hf.
  set (tail := export_text 0 es ++ 0 :: suf).
  replace (pre ++ ((k ++ [61] ++ d ++ [0]) ++ export_text 0 es) ++ 0 :: suf)
    with (pre ++ k ++ 61 :: (d ++ 0 :: tail)) by (unfold tail; by rewrite <- !app_assoc).
  assert (exists c k', k = c :: k' /\ c <> 0) as (c & k' & Ek & Hc0).
  { destruct k as [|c k']; [done|]. apply Forall_cons in Hk as [[? _] _]. exists c, k'. split; [done|lia]. }
  assert (aget (pre ++ k ++ 61 :: (d ++ 0 :: tail)) (Z.of_nat (length pre)) = Some c) as ->.
  { rewrite Ek. cbn [app]. by rewrite aget_at. }
  rewrite mbind_Some, (proj2 (Z.eqb_neq _ _) Hc0).
  assert (entry_end (pre ++ k ++ 61 :: (d ++ 0 :: tail)) env_size (S (length (pre ++ k ++ 61 :: (d ++ 0 :: tail))))
    (Z.of_nat (length pre)) = Some (Z.of_nat (length pre) + Z.of_nat (length (k ++ 61 :: d)))) as ->.
  { replace (pre ++ k ++ 61 :: (d ++ 0 :: tail)) with (pre ++ (k ++ 61 :: d) ++ 0 :: tail) by (by rewrite <- app_assoc).
    apply entry_end_spec; [|done|rewrite !length_app; simpl; lia|rewrite length_app; simpl; lia].
    apply Forall_app. split; [eapply Forall_impl; [exact Hk|]; simpl; lia|].
    constructor; [lia|]. eapply Forall_impl; [exact Hd|]. simpl. tauto. }
  rewrite mbind_Some, (proj2 (Z.ltb_ge _ _)) by lia. rewrite envmatch_entry, mbind_Some by done.
  rewrite list_to_map_cons. destruct (decide (name = k)) as [->|Hne].
  - rewrite lookup_insert_eq, (proj2 (Z.ltb_ge _ _)) by lia.
    replace (pre ++ k ++ 61 :: (d ++ 0 :: tail)) with ((pre ++ k ++ [61]) ++ d ++ 0 :: tail) by (by rewrite <- !app_assoc).
    rewrite copy_out_spec; [done| |rewrite !length_app; simpl; lia]. eapply Forall_impl; [exact Hd|]. simpl. tauto.
  - rewrite lookup_insert_ne by done. cbn [Z.ltb Z.compare].
    replace (pre ++ k ++ 61 :: (d ++ 0 :: tail)) with ((pre ++ k ++ [61] ++ d ++ [0]) ++ tail) by (by rewrite <- !app_assoc).
    replace (Z.of_nat (length pre) + Z.of_nat (length (k ++ 61 :: d)) + 1)
      with (Z.of_nat (length (pre ++ k ++ [61] ++ d ++ [0]))) by (rewrite !length_app; cbn [length]; lia).
    apply IH; [done|done|lia|]. rewrite !length_app. cbn [length]. lia.
Qed.

(** ** The table *)

Section Spec.
Context {C F : Type} {hooks : EnvHooks C} {hooks_ok : EnvHooksOk C} {config : EnvConfig}.

(** After the import, [env_get] is a lookup in the map. *)
Lemma env_get_map (w : env_world (C := C) (F := F)) vs m name :
  env_ready (st w) = true -> htab_ok (env_htab (st w)) vs m -> cstring name -> env_get w name = Some (m !! name).
Proof.
  intros Hr Hok Hn. unfold env_get. rewrite Hr.
  pose proof (hsearch_find (env_htab (st w)) vs m name None 0 Hok Hn) as Hf. destruct (m !! name) as [v|].
  - destruct Hf as (i & (u & Hu & _) & _ & ->). step_bind.
    destruct (get_slot_view _ _ _ _ (h_view _ _ _ Hok) Hu) as (s & -> & [= _ _ Hd]). step_bind. by rewrite Hd.
  - by rewrite Hf.
Qed.

(** Before the import, it is a lookup in the text, of the first 31 bytes. *)
Lemma env_get_early_text es suf name :
  name_ok name -> Forall entry_ok es -> Forall (fun e => snd e <> []) es ->
  Z.of_nat (length (export_text 0 es)) <= CONFIG_ENV_SIZE ->
  env_get_early (export_text 0 es ++ 0 :: suf) name =
  Some (take 31 <$> (list_to_map es : gmap (list Z) (list Z)) !! name).
Proof.
  intros Hn Hes Hne Hs. unfold env_get_early, env_get_f.
  pose proof (get_f_text CONFIG_ENV_SIZE name ENV_BUF_SIZE es [] suf (S (length (export_text 0 es ++ 0 :: suf))) Hn Hes) as H.
  cbn [app length] in H. change (Z.of_nat 0) with 0 in H. rewrite H.
  2: { rewrite length_app. enough (length es <= length (export_text 0 es))%nat by lia. clear.
       induction es as [|e es IH]; [done|]. rewrite export_text_cons, length_app. unfold entry_text. rewrite !length_app. simpl. lia. }
  2: lia. unfold ENV_BUF_SIZE. destruct (list_to_map es !! name) as [d|] eqn:E; [|done]. rewrite mbind_Some.
  assert (d <> []) as Hd.
  { apply elem_of_list_to_map_2 in E. rewrite Forall_forall in Hne. by apply (Hne (name, d)). }
  cbn [fmap option_fmap option_map]. destruct (length d <? 32)%nat eqn:El.
  - apply Nat.ltb_lt in El. cbv beta iota. rewrite (proj2 (Z.ltb_lt _ _)) by (destruct d; simpl; [done|lia]).
    by rewrite take_ge by lia.
  - apply Nat.ltb_ge in El. cbv beta iota. cbn [Z.of_nat Z.ltb Z.compare Pos.of_succ_nat]. do 2 f_equal.
    rewrite removelast_firstn_len, length_take, take_take. f_equal. lia.
Qed.

(** ** Setting a variable *)

(** The change of the map by [setenv name values]. *)
Definition set_map (m : gmap (list Z) (list Z)) (name : list Z) (values : list (list Z)) : gmap (list Z) (list Z) :=
  match values with [] => delete name m | _ => <[name := join_values values]> m end.

(** What can refuse it. *)
Definition set_refused (m : gmap (list Z) (list Z)) (name : list Z) (values : list (list Z)) (flag : Z) : Prop :=
  match values with
  | [] => m !! name = None \/ vetoed (C := C) name None env_op_delete flag
  | _ => vetoed (C := C) name (Some (join_values values)) (enter_op m name) flag
  end.

Lemma do_env_set_map (w : env_world (C := C) (F := F)) vs m args flag flag' name values :
  htab_ok (env_htab (st w)) vs m -> nused vs < size (env_htab (st w)) ->
  force_options args flag = Some (flag', name :: values) -> cstring name -> strchr name 61 = None ->
  exists ret w' vs' m', _do_env_set args flag w = Some (ret, w') /\
    htab_ok (env_htab (st w')) vs' m' /\ env_ready (st w') = env_ready (st w) /\
    ((ret = 0 /\ m' = set_map m name values) \/ (ret = 1 /\ m' = m /\ set_refused m name values flag')).
Proof.
  intros Hok Hroom Hopt Hn Heq. unfold _do_env_set. rewrite Hopt, Heq. rewrite bool_decide_eq_false_2 by (by intros [? ?]).
  cbv zeta. unfold set_map, set_refused. destruct values as [|v values].
  - change (env_htab (st (next_id w))) with (env_htab (st w)).
    destruct (hdelete_spec (env_htab (st w)) vs m name flag' Hok Hn) as (r & err & h & vs' & -> & _ & _ & Hcase). step_bind.
    destruct (m !! name) as [old|] eqn:Hm.
    + destruct Hcase as [(-> & Hok' & _)|(-> & Hok' & Hv)]; eexists _, _, vs', _; (split; [done|]); (split; [exact Hok'|]);
        (split; [done|]); [by left|right]. split_and!; [done|done|by right].
    + destruct Hcase as [-> Hok']. eexists _, _, vs', m. split_and!; [done|exact Hok'|done|]. right. split_and!; [done|done|by left].
  - rewrite hk_malloc_ok. cbn [negb]. change (env_htab (st (next_id w))) with (env_htab (st w)).
    destruct (hsearch_enter (env_htab (st w)) vs m name (join_values (v :: values)) flag' Hok Hn Hroom)
      as (r & p & err & h & vs' & -> & _ & _ & Hcase). step_bind.
    destruct Hcase as [([i ->] & _ & Hok' & _)|(-> & _ & Hok' & Hv)].
    + eexists _, _, vs', _. split_and!; [done|exact Hok'|done|by left].
    + eexists _, _, vs', m. split_and!; [done|exact Hok'|done|by right].
Qed.

(** [env_set] with a value: the map, the room that is left, and the memory. *)
Lemma env_set_map (w : env_world (C := C) (F := F)) vs m name v :
  env_ready (st w) = true -> htab_ok (env_htab (st w)) vs m -> nused vs < size (env_htab (st w)) ->
  cstring name -> strchr name 61 = None -> ch name <> 45 -> v <> [] ->
  exists ret w' vs' m', env_set name (Some v) w = Some (ret, w') /\
    htab_ok (env_htab (st w')) vs' m' /\ env_ready (st w') = true /\ sysmem w' = sysmem w /\
    nused vs' <= nused vs + 1 /\ size (env_htab (st w')) = size (env_htab (st w)) /\
    ((ret = 0 /\ m' = <[name := v]> m) \/ (ret = 1 /\ m' = m /\ vetoed (C := C) name (Some v) (enter_op m name) H_PROGRAMMATIC)).
Proof.
  intros Hr Hok Hroom Hn Heq Hdash Hv. unfold env_set. rewrite Hr. cbn [negb].
  assert (match v with [] => _do_env_set [name] H_PROGRAMMATIC w | _ => _do_env_set [name; v] H_PROGRAMMATIC w end =
    _do_env_set [name; v] H_PROGRAMMATIC w) as -> by (by destruct v).
  unfold _do_env_set. cbn [force_options]. rewrite (proj2 (Z.eqb_neq _ _) Hdash), Heq. rewrite bool_decide_eq_false_2 by (by intros [? ?]).
  cbv zeta. rewrite hk_malloc_ok. cbn [negb]. change (env_htab (st (next_id w))) with (env_htab (st w)).
  replace (join_values [v]) with v by (unfold join_values; cbn [flat_map]; by rewrite app_nil_r, removelast_last).
  destruct (hsearch_enter (env_htab (st w)) vs m name v H_PROGRAMMATIC Hok Hn Hroom) as (r & p & err & h & vs' & -> & Hnu & Hsz & Hcase).
  step_bind. destruct Hcase as [([i ->] & _ & Hok' & _)|(-> & _ & Hok' & Hveto)]; eexists _, _, vs', _;
    (split_and!; [done|exact Hok'|done|done|done|done|auto]).
Qed.
End Spec.

(** ** Numbers *)

Lemma itoa_digits fuel : forall i p, 0 <= i -> itoa_loop fuel i p = digits fuel 10 i ++ p.
Proof.
  induction fuel as [|fuel IH]; intros i p Hi; [done|]. cbn [itoa_loop digits]. cbv zeta.
  rewrite (proj2 (Z.ltb_lt (i mod 10) 10)) by (apply Z.mod_pos_bound; lia).
  pose proof (Z.div_mod i 10 ltac:(lia)) as Hd. pose proof (Z.mod_pos_bound i 10 ltac:(lia)) as Hm.
  destruct (Z.ltb_spec i 10) as [Hlt|Hge].
  - by rewrite (Z.div_small i 10) by lia.
  - rewrite (proj2 (Z.ltb_lt 0 (i / 10))) by lia. rewrite IH by lia. by rewrite <- app_assoc.
Qed.

Lemma itoa_strtoul v : 0 <= v < 2 ^ 64 -> fst (simple_strtoul (simple_itoa v) 10) = v /\ simple_itoa v <> [].
Proof.
  intros Hv. unfold simple_itoa. rewrite itoa_digits, app_nil_r by lia.
  destruct (digits_numeral 10 20 v) as [Hd Hn]; [lia|cbn; lia|lia|]. split.
  - rewrite <- (app_nil_r (digits 20 10 v)). unfold simple_strtoul, _parse_integer_fixup_radix. cbn [Z.eqb Pos.eqb andb].
    rewrite strtoul_loop_numeral; [cbn [fst]; rewrite Hn; by apply wrap_small|done|]. intros [Hx _]. done.
  - intros E. rewrite E in Hn. cbn in Hn. subst v. by vm_compute in E.
Qed.

(** ** Claims *)

Section Claims.
Context {C F : Type} {hooks : EnvHooks C} {hooks_ok : EnvHooksOk C} {config : EnvConfig}.
Context (slre_compile : list Z -> bool) (slre_match : list Z -> list Z -> bool).


(** Before and after the import, [env_get] gives the same.  Take the text
    that the table exports: before the import, with that text as the environment
    in memory, [env_get] gives the first 31 bytes (the size of its buffer) of what
    it gives from the table. *)
Theorem early_lookup_agrees (w w0 : env_world (C := C) (F := F)) vs m (n : nat) name :
  env_ready (st w) = true -> htab_ok (env_htab (st w)) vs m ->
  (forall k d, m !! k = Some d -> importable 0 (k, d) /\ ascii k /\ counted 0 (k, d)) ->
  total_len 0 (map_to_list m) < Z.of_nat n -> Z.of_nat n <= CONFIG_ENV_SIZE -> name_ok name ->
  env_ready (st w0) = false -> env_valid (st w0) <> ENV_INVALID ->
  exists buf, hexport_r slre_compile slre_match (env_htab (st w)) 0 0 None (Z.of_nat n) [] = Some (Z.of_nat n, Some buf) /\
    (env_addr w0 = buf ->
     exists v, env_get w name = Some v /\ env_get w0 name = Some (take 31 <$> v)).
Proof.
  intros Hr Hok Hm Hn Hsz Hname Hr0 Hv0.
  destruct (hexport_all slre_compile slre_match (env_htab (st w)) vs m 0 None n) as (es & Hes & Hall & Hlt & Hex); [done..|].
  eexists. split; [exact Hex|]. intros Hbuf. exists (m !! name). split.
  { eapply env_get_map; [done|exact Hok|]. eapply Forall_impl; [exact Hname|]. simpl. tauto. }
  unfold env_get, env_text. rewrite Hr0, (proj2 (Z.eqb_neq _ _) Hv0), Hbuf.
  assert (exists pad, n - length (export_text 0 es) = S pad)%nat as [pad ->] by (exists (n - length (export_text 0 es) - 1)%nat; lia).
  cbn [replicate].
  rewrite env_get_early_text; [|done| | |lia].
  - do 2 f_equal. rewrite <- (list_to_map_to_list m). f_equal. apply list_to_map_proper; [|done].
    rewrite Hes. apply NoDup_fst_map_to_list.
  - eapply Forall_impl; [exact Hall|]. intros [k d] [Him (Hk & Hd & Hbs)]. destruct Him as [H1 H2 H3 (c & k' & Ek & _) H5].
    cbn [fst snd] in *. split_and!; cbn [fst snd].
    + unfold name_ok, cstring in *. rewrite Forall_forall in *. intros x Hx. specialize (H1 x Hx). specialize (H3 x Hx). simpl in *. tauto.
    + by rewrite Ek.
    + unfold cstring in *. rewrite Forall_forall in *. intros x Hx. specialize (H2 x Hx). split; [simpl in *; lia|]. intros ->. by apply Hbs.
  - eapply Forall_impl; [exact Hall|]. intros [k d] [Him _]. apply Him.
Qed.

(** A number that is set with [env_set_ulong] is read back by
    [env_get_ulong]. *)
Theorem env_ulong_roundtrip (w w' : env_world (C := C) (F := F)) vs m name v d :
  env_ready (st w) = true -> htab_ok (env_htab (st w)) vs m -> nused vs < size (env_htab (st w)) ->
  cstring name -> strchr name 61 = None -> ch name <> 45 -> 0 <= v < 2 ^ 64 ->
  env_set_ulong name v w = Some (0, w') -> env_get_ulong w' name 10 d = Some v.
Proof.
  intros Hr Hok Hroom Hn Heq Hdash Hv Hset. destruct (itoa_strtoul v Hv) as [Hval Hne].
  destruct (env_set_map w vs m name (simple_itoa v) Hr Hok Hroom Hn Heq Hdash Hne) as (ret & w2 & vs2 & m2 & E & Hok2 & Hr2 & _ & _ & _ & Hcase).
  unfold env_set_ulong in Hset. rewrite Hset in E. injection E as <- <-. destruct Hcase as [[_ ->]|[? _]]; [|done].
  unfold env_get_ulong. rewrite (env_get_map w' vs2 (<[name := simple_itoa v]> m) name Hr2 Hok2 Hn), mbind_Some, lookup_insert_eq. by rewrite Hval.
Qed.
End Claims.

(** *** Divergences *)

(** [setenv -f] without a name: the number of arguments is checked before
    the options are removed, and then the name is NULL. *)
Theorem setenv_force_without_name {C F} {hooks : EnvHooks C} (w : env_world (C := C) (F := F)) :
  do_env_set [str "-f"] w = None.
Proof. reflexivity. Qed.

(** An entry without an equals sign in the linear environment, equal to the
    name that is looked for: the comparison runs behind the end of both. *)
Example envmatch_overrun : env_get_f (str "ab" ++ [0; 0]) 64 (str "ab") 32 = None.
Proof. vm_compute. reflexivity. Qed.

(** ** Witnesses *)

Definition example_world (ready : bool) (text : list Z) : @env_world unit (list Z) :=
  mk_world (mk_store var_table ENV_VALID ready false 0 []) 1 text (replicate 64 7).

(** Only 31 bytes of a default value can be seen. *)
Example env_get_default_truncates :
  let cfg := {| CONFIG_SYS_REDUNDAND_ENVIRONMENT := false; CONFIG_ENV_SIZE := 64; CONFIG_ENV_SECT_SIZE := 64;
                CONFIG_ENV_OFFSET := 0; CONFIG_ENV_OFFSET_REDUND := 0;
                default_environment := str "a=0123456789abcdef0123456789abcdef0123" ++ [0; 0] |} in
  env_get_default (config := cfg) (example_world true []) (str "a") = Some (Some (str "0123456789abcdef0123456789abcde")).
Proof. vm_compute. reflexivity. Qed.

(** [env export -b] ignores the size that was given: with 8 bytes at address 50
    of a memory of 64, it writes the full size of the environment. *)
Example export_binary_ignores_size :
  do_env_export (hooks := no_hooks) (config := small_config false) (fun _ => true) (fun _ _ => true)
    [str "-b"; str "-s"; str "8"; str "32"] (example_world true []) = None.
Proof. vm_compute. reflexivity. Qed.

(** [-c] in memory can be imported again. *)
Example export_import_memory :
  (('(_, w) ← do_env_export (hooks := no_hooks) (config := small_config false) (fun _ => true) (fun _ _ => true)
               [str "-c"; str "8"] (example_world true []);
    '(r, w) ← do_env_import (hooks := no_hooks) (config := small_config false) [str "-c"; str "-d"; str "8"; str "18"] w;
    v ← env_get (hooks := no_hooks) (config := small_config false) w [65]; Some (r, v)))
  = Some (0, Some [66]).
Proof. vm_compute. reflexivity. Qed.


Lemma early_lookup_agrees_witness :
  exists buf, hexport_r (hooks := no_hooks) (fun _ => true) (fun _ _ => true) var_table 0 0 None 24 [] = Some (24, Some buf) /\
    (env_addr (example_world false buf) = buf ->
     exists v, env_get (hooks := no_hooks) (config := small_config false) (example_world true []) [65] = Some v /\
       env_get (hooks := no_hooks) (config := small_config false) (example_world false buf) [65] = Some (take 31 <$> v)).
Proof.
  destruct var_table_ok as [vs Hok]. set (text := str "A=B" ++ replicate 21 0).
  destruct (early_lookup_agrees (hooks := no_hooks) (hooks_ok := no_hooks_ok) (config := small_config false)
    (fun _ => true) (fun _ _ => true) (example_world true []) (example_world false text) vs one_var 24 [65]) as (buf & Hex & H).
  - reflexivity.
  - exact Hok.
  - apply one_var_entry. by left.
  - unfold one_var. rewrite map_to_list_singleton. by vm_compute.
  - by vm_compute.
  - repeat constructor; lia.
  - reflexivity.
  - done.
  - assert (buf = text) as ->; [|by exists text].
    change (Z.of_nat 24) with 24 in Hex. vm_compute in Hex. by injection Hex as <-.
Defined.

Lemma env_ulong_roundtrip_witness :
  exists w', env_set_ulong (hooks := no_hooks) (str "x") 4711 (example_world true []) = Some (0, w') /\
    env_get_ulong (hooks := no_hooks) (config := small_config false) w' (str "x") 10 5 = Some 4711.
Proof.
  destruct var_table_ok as [vs Hok].
  eexists. split; [vm_compute; reflexivity|].
  eapply (env_ulong_roundtrip (hooks := no_hooks) (hooks_ok := no_hooks_ok) (config := small_config false)
    (example_world true []) _ vs one_var (str "x") 4711 5).
  - reflexivity.
  - exact Hok.
  - exact (var_table_room vs one_var Hok).
  - repeat constructor; simpl; lia.
  - reflexivity.
  - done.
  - lia.
  - vm_compute. reflexivity.
Defined.
