(* ===== verification/CliReadline.v ===== *)
(** * Reading a line ([common/cli_readline.c])

    The editor of the command line and its history, and the simple editor that is
    used before relocation.  The keys are a script: a call that needs more keys
    than the script has is waiting.  What the editor prints is left out.  A line
    is edited in a buffer of [CONFIG_SYS_CBSIZE + 1] bytes; [None] is an access
    out of bounds.

    Completion ([cmd_auto_complete]) is an argument, from the text in the buffer
    and the index of the cursor to what it appends, if it does; [Command.v]
    provides it. *)

From S2P Require Import Prelude StringLib.
Local Open Scope Z_scope.

Definition CONFIG_SYS_CBSIZE : Z := 512.
Definition HIST_MAX : Z := 20.
Definition HIST_SIZE : Z := CONFIG_SYS_CBSIZE.
Definition CREAD_HIST_CHAR : Z := 33.

(** ** History *)

Record history := mk_hist {
  hist_max : Z;
  hist_add_idx : Z;
  hist_cur : Z;
  hist_num : Z;
  hist_list : list (list Z)
}.

Definition hist_init : history := mk_hist 0 0 (-1) 0 (replicate (Z.to_nat HIST_MAX) []).

Definition cread_add_to_hist (h : history) (line : list Z) : option history :=
  if HIST_SIZE <? Z.of_nat (length line) then None
  else
    l ← aset (hist_list h) (hist_add_idx h) line;
    let add := if HIST_MAX <=? hist_add_idx h + 1 then 0 else hist_add_idx h + 1 in
    let max := if hist_max h <? add then add else hist_max h in
    Some (mk_hist max add (hist_cur h) (u32 (hist_num h + 1)) l).

Definition with_cur (h : history) (cur : Z) : history :=
  mk_hist (hist_max h) (hist_add_idx h) cur (hist_num h) (hist_list h).

(** The line, if there is one, and the history. *)
Definition hist_prev (h : history) : option (option (list Z) * history) :=
  if hist_cur h <? 0 then Some (None, h)
  else
    let cur := hist_cur h - 1 in
    let cur := if cur <? 0 then hist_max h else cur in
    if cur =? hist_add_idx h then Some (None, h)
    else l ← aget (hist_list h) cur; Some (Some l, with_cur h cur).

Definition hist_next (h : history) : option (option (list Z) * history) :=
  if hist_cur h <? 0 then Some (None, h)
  else if hist_cur h =? hist_add_idx h then Some (None, h)
  else
    let cur := hist_cur h + 1 in
    let cur := if hist_max h <? cur then 0 else cur in
    let h := with_cur h cur in
    if cur =? hist_add_idx h then Some (Some [], h)
    else l ← aget (hist_list h) cur; Some (Some l, h).

(** ** The buffer *)

Record line := mk_line { num : Z; eol_num : Z; buf : list Z }.

Definition cread_add_char (ichar : Z) (insert : bool) (l : line) (len : Z) : option line :=
  let at_end := insert || (num l =? eol_num l) in
  if at_end && (u64 (len - 1) <? eol_num l) then Some l
  else
    let eol := if at_end then eol_num l + 1 else eol_num l in
    if insert then
      let wlen := eol - num l in
      b ← if 1 <? wlen then memmove (buf l) (num l + 1) (num l) (Z.to_nat (wlen - 1)) else Some (buf l);
      b ← aset b (num l) ichar;
      Some (mk_line (num l + 1) eol b)
    else
      b ← aset (buf l) (num l) ichar;
      Some (mk_line (num l + 1) eol b).

Fixpoint cread_add_str (str : list Z) (insert : bool) (l : line) (len : Z) : option line :=
  match str with
  | [] => Some l
  | c :: str => l ← cread_add_char c insert l len; cread_add_str str insert l len
  end.

(** The same with the string in the buffer itself, from index [i] on. *)
Fixpoint cread_add_buf (strsize : nat) (i : Z) (l : line) (len : Z) : option line :=
  match strsize with
  | O => Some l
  | S strsize => c ← aget (buf l) i; l ← cread_add_char c true l len; cread_add_buf strsize (i + 1) l len
  end.

(** [BEGINNING_OF_LINE], [ERASE_TO_EOL] and [REFRESH_TO_EOL] *)
Definition BEGINNING_OF_LINE (l : line) : line := mk_line 0 (eol_num l) (buf l).
Definition ERASE_TO_EOL (l : line) : line := if num l <? eol_num l then mk_line (num l) (num l) (buf l) else l.
Definition REFRESH_TO_EOL (l : line) : line := if num l <? eol_num l then mk_line (eol_num l) (eol_num l) (buf l) else l.

(** ** Escape sequences *)

Inductive esc_act := ESC_REJECT | ESC_SAVE | ESC_CONVERTED.

Definition CTL_CH (c : Z) : Z := c - 97 + 1.

(** What is done with [ichar] after the bytes [esc_save], and the control
    character that it becomes. *)
Definition decode_esc (esc_save : list Z) (ichar : Z) : esc_act * Z :=
  match length esc_save with
  | 1%nat => if (ichar =? 91) || (ichar =? 79) then (ESC_SAVE, ichar) else (ESC_REJECT, ichar)
  | 2%nat =>
      if ichar =? 68 then (ESC_CONVERTED, CTL_CH 98)
      else if ichar =? 67 then (ESC_CONVERTED, CTL_CH 102)
      else if ichar =? 72 then (ESC_CONVERTED, CTL_CH 97)
      else if ichar =? 70 then (ESC_CONVERTED, CTL_CH 101)
      else if ichar =? 65 then (ESC_CONVERTED, CTL_CH 112)
      else if ichar =? 66 then (ESC_CONVERTED, CTL_CH 110)
      else if existsb (Z.eqb ichar) [49; 51; 52; 55; 56] then
        if nth 1 esc_save 0 =? 91 then (ESC_SAVE, ichar) else (ESC_REJECT, ichar)
      else (ESC_REJECT, ichar)
  | 3%nat =>
      if ichar =? 126 then
        let c := nth 2 esc_save 0 in
        if c =? 51 then (ESC_CONVERTED, CTL_CH 100)
        else if (c =? 49) || (c =? 55) then (ESC_CONVERTED, CTL_CH 97)
        else if (c =? 52) || (c =? 56) then (ESC_CONVERTED, CTL_CH 101)
        else (ESC_REJECT, ichar)
      else (ESC_REJECT, ichar)
  | _ => (ESC_REJECT, ichar)
  end.

(** ** The editor *)

Record cread := mk_cread { ln : line; insert : bool; esc_save : list Z; hist : history }.

(** After a key: goes on, or returns a value. *)
Inductive outcome := Cont (s : cread) | Stop (ret : Z) (s : cread).

(** [None] is an access out of bounds, [Some None] the return value 0, and
    [Some (Some extra)] the return value 1 with [extra] put at the end. *)
Definition completion := list Z -> Z -> option (option (list Z)).

Section Editor.
Context (auto_complete : completion) (len : Z).

Definition with_line (s : cread) (l : line) : cread := mk_cread l (insert s) (esc_save s) (hist s).
Definition with_esc (s : cread) (e : list Z) : cread := mk_cread (ln s) (insert s) e (hist s).

(** Up and down: the line of the history replaces the one in the buffer. *)
Definition recall (s : cread) (r : option (option (list Z) * history)) : option outcome :=
  '(hline, h) ← r;
  let s := mk_cread (ln s) (insert s) [] h in
  match hline with
  | None => Some (Cont s)
  | Some hline =>
      let l := ERASE_TO_EOL (BEGINNING_OF_LINE (ln s)) in
      b ← store_bytes (buf l) 0 (hline ++ [0]);
      Some (Cont (with_line s (REFRESH_TO_EOL (mk_line (num l) (strlen hline) b))))
  end.

Definition cread_command (ichar : Z) (s : cread) : option outcome :=
  let l := ln s in
  if ichar =? 0x1b then Some (Cont (with_esc s (if Nat.eqb (length (esc_save s)) 0 then [ichar] else [])))
  else if ichar =? CTL_CH 97 then Some (Cont (with_line s (BEGINNING_OF_LINE l)))
  else if ichar =? CTL_CH 99 then b ← aset (buf l) 0 0; Some (Stop (-1) (with_line s (mk_line (num l) (eol_num l) b)))
  else if ichar =? CTL_CH 102 then
    Some (Cont (if num l <? eol_num l then with_line s (mk_line (num l + 1) (eol_num l) (buf l)) else s))
  else if ichar =? CTL_CH 98 then
    Some (Cont (if negb (num l =? 0) then with_line s (mk_line (num l - 1) (eol_num l) (buf l)) else s))
  else if ichar =? CTL_CH 100 then
    if num l <? eol_num l then
      let wlen := eol_num l - num l - 1 in
      b ← if negb (wlen =? 0) then memmove (buf l) (num l) (num l + 1) (Z.to_nat wlen) else Some (buf l);
      Some (Cont (with_line s (mk_line (num l) (eol_num l - 1) b)))
    else Some (Cont s)
  else if ichar =? CTL_CH 107 then Some (Cont (with_line s (ERASE_TO_EOL l)))
  else if ichar =? CTL_CH 101 then Some (Cont (with_line s (REFRESH_TO_EOL l)))
  else if ichar =? CTL_CH 111 then Some (Cont (mk_cread l (negb (insert s)) (esc_save s) (hist s)))
  else if (ichar =? CTL_CH 120) || (ichar =? CTL_CH 117) then
    Some (Cont (with_line s (ERASE_TO_EOL (BEGINNING_OF_LINE l))))
  else if (ichar =? 255) || (ichar =? 127) || (ichar =? 8) then
    if negb (num l =? 0) then
      let wlen := eol_num l - num l in
      let n := num l - 1 in
      b ← memmove (buf l) n (n + 1) (Z.to_nat wlen);
      Some (Cont (with_line s (mk_line n (eol_num l - 1) b)))
    else Some (Cont s)
  else if ichar =? CTL_CH 112 then recall s (hist_prev (hist s))
  else if ichar =? CTL_CH 110 then recall s (hist_next (hist s))
  else if ichar =? 9 then
    if num l <? eol_num l then Some (Cont s)
    else
      b ← aset (buf l) (num l) 0;
      done ← auto_complete (cstr b) (num l);
      match done with
      | None => Some (Cont (with_line s (mk_line (num l) (eol_num l) b)))
      | Some extra =>
          b ← store_bytes b (num l) (extra ++ [0]);
          let col := Z.of_nat (length extra) in
          Some (Cont (with_line s (mk_line (num l + col) (eol_num l + col) b)))
      end
  else l ← cread_add_char ichar (insert s) l len; Some (Cont (with_line s l)).

(** [*len = eol_num; buf[eol_num] = '\0'; ...]: the end of [cread_line]. *)
Definition cread_finish (s : cread) : option outcome :=
  let l := ln s in
  b ← aset (buf l) (eol_num l) 0;
  h ← if negb (ch b =? 0) && negb (ch b =? CREAD_HIST_CHAR) then cread_add_to_hist (hist s) (cstr b) else Some (hist s);
  Some (Stop 0 (mk_cread (mk_line (num l) (eol_num l) b) (insert s) (esc_save s) (with_cur h (hist_add_idx h)))).

(** One round of the loop. *)
Definition cread_key (ichar : Z) (s : cread) : option outcome :=
  if (ichar =? 10) || (ichar =? 13) then cread_finish s
  else if negb (Nat.eqb (length (esc_save s)) 0) then
    match decode_esc (esc_save s) ichar with
    | (ESC_SAVE, c) => Some (Cont (with_esc s (esc_save s ++ [c])))
    | (ESC_REJECT, c) =>
        l ← cread_add_str (esc_save s ++ [c]) (insert s) (ln s) len;
        Some (Cont (with_esc (with_line s l) []))
    | (ESC_CONVERTED, c) => cread_command c (with_esc s [])
    end
  else cread_command ichar s.

Fixpoint cread_loop (keys : list Z) (s : cread) : option outcome :=
  match keys with
  | [] => Some (Cont s)
  | k :: keys => o ← cread_key k s; match o with Cont s => cread_loop keys s | Stop r s => Some (Stop r s) end
  end.

(** [times_out]: no key comes within [timeout].  The state when it waits for more
    keys, or what it returns. *)
Definition cread_line (keys : list Z) (buffer : list Z) (timeout : Z) (times_out : bool) (h : history) : option outcome :=
  let l := mk_line 0 0 buffer in
  let init_len := strlen (cstr buffer) in
  l ← if negb (init_len =? 0) then cread_add_buf (Z.to_nat init_len) 0 l len else Some l;
  let s := mk_cread l true [] h in
  if negb (timeout =? 0) && times_out then Some (Stop (-2) s) else cread_loop keys s.
End Editor.

(** ** The simple editor

    Used before relocation.  [p] and [n] are the cursor and the number of
    characters; completion works on [console_buffer], which is the buffer itself
    when [console] is [None]. *)

Record simple := mk_simple { p : Z; n : Z; p_buf : list Z; console : option (list Z) }.

Inductive simple_outcome := SCont (s : simple) | SStop (ret : Z) (s : simple).

Definition delete_char (s : simple) : option simple :=
  if n s =? 0 then Some s
  else _ ← aget (p_buf s) (p s - 1); Some (mk_simple (p s - 1) (n s - 1) (p_buf s) (console s)).

(** [while ((n > 0) && ( *p != ' '))] *)
Fixpoint delete_word (fuel : nat) (s : simple) : option simple :=
  match fuel with
  | O => None
  | S fuel =>
      if n s <=? 0 then Some s
      else c ← aget (p_buf s) (p s); if c =? 32 then Some s else s ← delete_char s; delete_word fuel s
  end.

Definition put_char (c : Z) (s : simple) : option simple :=
  b ← aset (p_buf s) (p s) c; Some (mk_simple (p s + 1) (n s + 1) b (console s)).

Section Simple.
Context (auto_complete : completion).

(** The state with [*p = '\0'], and that after completion if it was triggered. *)
Definition simple_complete (s : simple) : option (simple * option simple) :=
  b ← aset (p_buf s) (p s) 0;
  let s := mk_simple (p s) (n s) b (console s) in
  let text := default b (console s) in
  done ← auto_complete (cstr text) (n s);
  match done with
  | None => Some (s, None)
  | Some extra =>
      text' ← store_bytes text (strlen (cstr text)) (extra ++ [0]);
      let n' := n s + Z.of_nat (length extra) in
      Some (s, Some (match console s with
                     | None => mk_simple n' n' text' None
                     | Some _ => mk_simple n' n' b (Some text')
                     end))
  end.

Definition simple_key (c : Z) (s : simple) : option simple_outcome :=
  if (c =? 13) || (c =? 10) then
    b ← aset (p_buf s) (p s) 0; Some (SStop (p s) (mk_simple (p s) (n s) b (console s)))
  else if c =? 0 then Some (SCont s)
  else if c =? 3 then b ← aset (p_buf s) 0 0; Some (SStop (-1) (mk_simple (p s) (n s) b (console s)))
  else if c =? 0x15 then Some (SCont (mk_simple 0 0 (p_buf s) (console s)))
  else if c =? 0x17 then
    s ← delete_char s; s ← delete_word (S (Z.to_nat (n s))) s; Some (SCont s)
  else if (c =? 8) || (c =? 0x7f) then s ← delete_char s; Some (SCont s)
  else if n s <? CONFIG_SYS_CBSIZE - 2 then
    if c =? 9 then
      '(s, triggered) ← simple_complete s;
      match triggered with
      | Some s => Some (SCont s)
      | None => s ← put_char c s; Some (SCont s)
      end
    else s ← put_char c s; Some (SCont s)
  else Some (SCont s).

Fixpoint simple_loop (keys : list Z) (s : simple) : option simple_outcome :=
  match keys with
  | [] => Some (SCont s)
  | k :: keys => o ← simple_key k s; match o with SCont s => simple_loop keys s | SStop r s => Some (SStop r s) end
  end.
End Simple.

(** ** [cli_readline_into_buffer] and [cli_readline] *)

(** [gd->flags & GD_FLG_RELOC], and the static variables. *)
Record cli := mk_cli { relocated : bool; initted : bool; c_hist : history }.

(** A call returns, with the buffers, or waits for more keys. *)
Inductive rl_result := Returned (ret : Z) (buffer : list Z) (other : option (list Z)) (c : cli) | Waiting.

Definition cli_readline_into_buffer (auto_complete : completion) (keys buffer : list Z) (other : option (list Z))
  (timeout : Z) (times_out : bool) (c : cli) : option rl_result :=
  if relocated c then
    let h := if initted c then c_hist c else hist_init in
    o ← cread_line auto_complete CONFIG_SYS_CBSIZE keys buffer timeout times_out h;
    match o with
    | Cont _ => Some Waiting
    | Stop rc s => Some (Returned (if rc <? 0 then rc else eol_num (ln s)) (buf (ln s)) other (mk_cli true true (hist s)))
    end
  else
    o ← simple_loop auto_complete keys (mk_simple 0 0 buffer other);
    match o with
    | SCont _ => Some Waiting
    | SStop ret s => Some (Returned ret (p_buf s) (console s) c)
    end.

Definition cli_readline (auto_complete : completion) (keys console_buffer : list Z) (c : cli) : option rl_result :=
  b ← aset console_buffer 0 0;
  cli_readline_into_buffer auto_complete keys b None 0 false c.

(** ** The abstract editor

    A text with a cursor: the bytes before the cursor, the last one first, and
    the bytes after it. *)

Record ed := mk_ed { before : list Z; after : list Z; e_insert : bool; e_esc : list Z; e_hist : history }.

Definition e_text (e : ed) : list Z := rev (before e) ++ after e.

Inductive ed_outcome := ECont (e : ed) | EStop (ret : Z) (text : list Z) (h : history).

Section Abstract.
Context (auto_complete : completion) (len : Z).

Definition at_cursor (e : ed) (b a : list Z) : ed := mk_ed b a (e_insert e) (e_esc e) (e_hist e).

Definition ed_add (c : Z) (e : ed) : ed :=
  match e_insert e, after e with
  | false, _ :: a => at_cursor e (c :: before e) a
  | _, a => if Z.of_nat (length (e_text e)) <? len then at_cursor e (c :: before e) a else e
  end.

Definition ed_recall (e : ed) (r : option (option (list Z) * history)) : ed :=
  match r with
  | Some (Some hline, h) => mk_ed (rev hline) [] (e_insert e) [] h
  | Some (None, h) => mk_ed (before e) (after e) (e_insert e) [] h
  | None => e
  end.

Definition ed_command (c : Z) (e : ed) : option ed_outcome :=
  if c =? 0x1b then Some (ECont (mk_ed (before e) (after e) (e_insert e) [c] (e_hist e)))
  else if c =? CTL_CH 97 then Some (ECont (at_cursor e [] (e_text e)))
  else if c =? CTL_CH 99 then Some (EStop (-1) [] (e_hist e))
  else if c =? CTL_CH 102 then Some (ECont (match after e with x :: a => at_cursor e (x :: before e) a | [] => e end))
  else if c =? CTL_CH 98 then Some (ECont (match before e with x :: b => at_cursor e b (x :: after e) | [] => e end))
  else if c =? CTL_CH 100 then Some (ECont (at_cursor e (before e) (tl (after e))))
  else if c =? CTL_CH 107 then Some (ECont (at_cursor e (before e) []))
  else if c =? CTL_CH 101 then Some (ECont (at_cursor e (rev (e_text e)) []))
  else if c =? CTL_CH 111 then Some (ECont (mk_ed (before e) (after e) (negb (e_insert e)) (e_esc e) (e_hist e)))
  else if (c =? CTL_CH 120) || (c =? CTL_CH 117) then Some (ECont (at_cursor e [] []))
  else if (c =? 255) || (c =? 127) || (c =? 8) then Some (ECont (at_cursor e (tl (before e)) (after e)))
  else if c =? CTL_CH 112 then Some (ECont (ed_recall e (hist_prev (e_hist e))))
  else if c =? CTL_CH 110 then Some (ECont (ed_recall e (hist_next (e_hist e))))
  else if c =? 9 then
    match after e with
    | [] =>
        done ← auto_complete (e_text e) (Z.of_nat (length (e_text e)));
        Some (ECont (match done with Some extra => at_cursor e (rev extra ++ before e) [] | None => e end))
    | _ => Some (ECont e)
    end
  else Some (ECont (ed_add c e)).

(** A line that is not empty and does not start with [!] goes to the history. *)
Definition ed_finish (e : ed) : ed_outcome :=
  let t := e_text e in
  let h := if negb (ch t =? 0) && negb (ch t =? CREAD_HIST_CHAR)
           then default (e_hist e) (cread_add_to_hist (e_hist e) t) else e_hist e in
  EStop 0 t (with_cur h (hist_add_idx h)).

Definition ed_key (c : Z) (e : ed) : option ed_outcome :=
  if (c =? 10) || (c =? 13) then Some (ed_finish e)
  else
    match e_esc e with
    | [] => ed_command c e
    | esc =>
        let e0 := mk_ed (before e) (after e) (e_insert e) [] (e_hist e) in
        match decode_esc esc c with
        | (ESC_SAVE, c) => Some (ECont (mk_ed (before e) (after e) (e_insert e) (esc ++ [c]) (e_hist e)))
        | (ESC_REJECT, c) => Some (ECont (fold_left (fun e c => ed_add c e) (esc ++ [c]) e0))
        | (ESC_CONVERTED, c) => ed_command c e0
        end
    end.

Fixpoint ed_run (keys : list Z) (e : ed) : option ed_outcome :=
  match keys with
  | [] => Some (ECont e)
  | k :: keys => o ← ed_key k e; match o with ECont e => ed_run keys e | EStop r t h => Some (EStop r t h) end
  end.
End Abstract.

(** ** Refinement *)

Definition no_nul (t : list Z) : Prop := Forall (fun c => c <> 0) t.

(** What the editor needs of completion: the line still fits. *)
Class CompletionFits (len : Z) (auto_complete : completion) : Prop :=
  completion_fits : forall t extra, no_nul t -> auto_complete t (Z.of_nat (length t)) = Some (Some extra) ->
    Z.of_nat (length t) <= len -> Z.of_nat (length t) + Z.of_nat (length extra) <= len /\ no_nul extra.

Section Refine.
Context (auto_complete : completion) (len : Z) `{Hcomplete : !CompletionFits len auto_complete}.
Context (Hlen : 0 < len <= HIST_SIZE).

Record hist_wf (h : history) : Prop := {
  hw_len : length (hist_list h) = Z.to_nat HIST_MAX;
  hw_add : 0 <= hist_add_idx h < HIST_MAX;
  hw_max : 0 <= hist_max h < HIST_MAX;
  hw_cur : -1 <= hist_cur h < HIST_MAX;
  hw_lines : Forall (fun l => Z.of_nat (length l) <= len /\ no_nul l) (hist_list h)
}.

(** The buffer holds the text, the cursor is where it should be. *)
Record line_rel (l : line) (b a : list Z) : Prop := {
  lr_room : Z.of_nat (length (buf l)) = len + 1;
  lr_num : num l = Z.of_nat (length b);
  lr_eol : eol_num l = Z.of_nat (length (rev b ++ a));
  lr_fits : eol_num l <= len;
  lr_buf : exists rest, buf l = rev b ++ a ++ rest;
  lr_nul : no_nul (rev b ++ a)
}.

Record rel (s : cread) (e : ed) : Prop := {
  r_line : line_rel (ln s) (before e) (after e);
  r_insert : insert s = e_insert e;
  r_esc : esc_save s = e_esc e;
  r_esc_nul : no_nul (e_esc e);
  r_hist : hist s = e_hist e;
  r_wf : hist_wf (e_hist e)
}.

(** What the caller gets: the return value, the string in the buffer and its
    length, and the history. *)
Definition rel_out (o : outcome) (eo : ed_outcome) : Prop :=
  match o, eo with
  | Cont s, ECont e => rel s e
  | Stop r s, EStop r' t h =>
      r = r' /\ hist s = h /\ hist_wf h /\ cstr (buf (ln s)) = t /\ (r = 0 -> eol_num (ln s) = Z.of_nat (length t)) /\
      Z.of_nat (length (buf (ln s))) = len + 1
  | _, _ => False
  end.

Definition refines (o : option outcome) (eo : option ed_outcome) : Prop :=
  match o, eo with Some o, Some eo => rel_out o eo | None, None => True | _, _ => False end.

Lemma refines_Some (o : option outcome) eo : (exists o', o = Some o' /\ rel_out o' eo) -> refines o (Some eo).
Proof. by intros (o' & -> & H). Qed.

Lemma cstr_nul t rest : no_nul t -> cstr (t ++ 0 :: rest) = t.
Proof. induction 1 as [|c t Hc Ht IH]; [done|]. cbn [cstr app]. rewrite (proj2 (Z.eqb_neq _ _) Hc). by f_equal. Qed.

Lemma cstr_no_nul t : no_nul (cstr t).
Proof. induction t as [|c t IH]; [constructor|]. cbn [cstr]. case_if; [constructor|by constructor]. Qed.

Lemma no_nul_snoc t c : no_nul t -> c <> 0 -> no_nul (t ++ [c]).
Proof. intros Ht Hc. apply Forall_app. split; [done|]. by constructor. Qed.

(** The text is in front of at least one more byte. *)
Lemma line_split l b a : line_rel l b a ->
  exists x rest, buf l = rev b ++ a ++ x :: rest /\ Z.of_nat (length (rev b ++ a ++ rest)) = len.
Proof.
  intros [Hr _ He Hf [rest Hb] _]. rewrite Hb, !length_app in *. destruct rest as [|x rest].
  - simpl in *. lia.
  - exists x, rest. split; [done|]. rewrite !length_app. simpl in *. lia.
Qed.

(** A line is related to what its buffer starts with. *)
Lemma line_intro n eol bf b a rest :
  bf = rev b ++ a ++ rest -> Z.of_nat (length bf) = len + 1 -> n = Z.of_nat (length b) ->
  eol = Z.of_nat (length b) + Z.of_nat (length a) -> eol <= len -> no_nul (rev b) -> no_nul a ->
  line_rel (mk_line n eol bf) b a.
Proof.
  intros -> Hl -> -> Hf Hb Ha. split; cbn [num eol_num buf]; try done.
  - rewrite length_app, length_rev. lia.
  - by exists rest.
  - by apply Forall_app.
Qed.

Lemma line_nul l b a : line_rel l b a -> no_nul (rev b) /\ no_nul a.
Proof. intros H. apply Forall_app, H. Qed.

Lemma line_nums l b a : line_rel l b a ->
  num l = Z.of_nat (length b) /\ eol_num l = Z.of_nat (length b) + Z.of_nat (length a) /\ eol_num l <= len /\
  Z.of_nat (length (buf l)) = len + 1.
Proof. intros [Hr Hn He Hf _ _]. split_and!; try done. rewrite He, length_app, length_rev. lia. Qed.

(** *** Moving the text *)

Lemma blit_here pre mid rest bs d :
  d = length pre -> length bs = length mid -> blit (pre ++ mid ++ rest) d bs = pre ++ bs ++ rest.
Proof.
  intros -> Hl. unfold blit. rewrite take_app_length, Hl, <- length_app, (app_assoc pre mid rest), drop_app_length. done.
Qed.

Lemma slice_here pre mid rest d n : d = length pre -> n = length mid -> slice (pre ++ mid ++ rest) d n = mid.
Proof. intros -> ->. unfold slice. by rewrite drop_app_length, take_app_length. Qed.

Lemma store_here pre mid rest bs d :
  d = Z.of_nat (length pre) -> length bs = length mid -> store_bytes (pre ++ mid ++ rest) d bs = Some (pre ++ bs ++ rest).
Proof. intros -> Hl. rewrite store_bytes_blit by (rewrite !length_app; lia). by rewrite blit_here. Qed.

Lemma memmove_right pre a x rest d s n :
  s = Z.of_nat (length pre) -> d = s + 1 -> n = length a ->
  exists y, memmove (pre ++ a ++ x :: rest) d s n = Some (pre ++ y :: a ++ rest).
Proof.
  intros -> -> ->. replace (Z.of_nat (length pre) + 1) with (Z.of_nat (S (length pre))) by lia.
  rewrite memmove_blit by (rewrite !length_app; simpl; lia). rewrite slice_here by done.
  destruct (a ++ [x]) as [|y a'] eqn:E; [by destruct a|].
  replace (pre ++ a ++ x :: rest) with ((pre ++ [y]) ++ a' ++ rest)
    by (rewrite <- app_assoc; change ([y] ++ a' ++ rest) with ((y :: a') ++ rest); by rewrite <- E, <- app_assoc).
  exists y. f_equal. assert (length (a ++ [x]) = length (y :: a')) as Hl by (by rewrite E).
  rewrite length_app in Hl. simpl in Hl. rewrite blit_here by (rewrite ?length_app; simpl; lia). by rewrite <- app_assoc.
Qed.

Lemma memmove_left pre y a rest d s n :
  d = Z.of_nat (length pre) -> s = d + 1 -> n = length a ->
  exists z, memmove (pre ++ y :: a ++ rest) d s n = Some (pre ++ a ++ z :: rest).
Proof.
  intros -> -> ->. replace (Z.of_nat (length pre) + 1) with (Z.of_nat (S (length pre))) by lia.
  rewrite memmove_blit by (rewrite !length_app; simpl; rewrite length_app; lia).
  assert (slice (pre ++ y :: a ++ rest) (S (length pre)) (length a) = a) as ->.
  { change (y :: a ++ rest) with ([y] ++ a ++ rest). rewrite app_assoc. apply slice_here; rewrite ?length_app; simpl; lia. }
  destruct (exists_last (l := y :: a)) as (mid & z & E); [done|]. exists z. f_equal.
  assert (length (y :: a) = length (mid ++ [z])) as Hl by (by rewrite E). rewrite length_app in Hl. simpl in Hl.
  change (y :: a ++ rest) with ((y :: a) ++ rest). rewrite E, <- app_assoc, blit_here by (done || lia). done.
Qed.

(** *** Characters *)

Lemma add_char_rel c l e :
  line_rel l (before e) (after e) -> c <> 0 ->
  exists l', cread_add_char c (e_insert e) l len = Some l' /\
    line_rel l' (before (ed_add len c e)) (after (ed_add len c e)).
Proof.
  intros Hrel Hc. destruct (line_split _ _ _ Hrel) as (x & rest & Hbuf & Hl).
  destruct (line_nums _ _ _ Hrel) as (Hn & He & Hf & Hroom). destruct (line_nul _ _ _ Hrel) as [Nb Na].
  assert (no_nul (rev (c :: before e))) as Nb' by (by apply no_nul_snoc).
  assert (Z.of_nat (length (e_text e)) = eol_num l) as Ht by (unfold e_text; rewrite length_app, length_rev; lia).
  unfold cread_add_char, ed_add. rewrite Ht, (wrap_small 64 (len - 1)) by (unfold HIST_SIZE, CONFIG_SYS_CBSIZE in *; lia).
  replace (len - 1 <? eol_num l) with (negb (eol_num l <? len))
    by (destruct (Z.ltb_spec (eol_num l) len), (Z.ltb_spec (len - 1) (eol_num l)); done || lia).
  destruct e as [b a ins esc h]; cbn [before after e_insert] in *. rewrite !length_app, length_rev in Hl.
  assert (num l = Z.of_nat (length (rev b))) as Hn' by (by rewrite length_rev).
  destruct ins; cbn [orb andb].
  - destruct (Z.ltb_spec (eol_num l) len) as [Hlt|Hge]; cbn [negb andb]; [|by exists l].
    assert (exists y, (if 1 <? eol_num l + 1 - num l
      then memmove (buf l) (num l + 1) (num l) (Z.to_nat (eol_num l + 1 - num l - 1)) else Some (buf l)) =
      Some (rev b ++ y :: a ++ rest)) as (y & ->).
    { rewrite Hbuf. case_if; [apply memmove_right; lia|]. destruct a; [by exists x|simpl in *; lia]. }
    rewrite mbind_Some, aset_middle, mbind_Some by done. eexists. split; [done|].
    eapply (line_intro _ _ _ (c :: b) a rest); [cbn [rev]; by rewrite <- app_assoc|..|done|done]; try (cbn [length]; lia).
    rewrite length_app, length_rev. cbn [length]. rewrite length_app. lia.
  - destruct a as [|y a].
    + rewrite (proj2 (Z.eqb_eq _ _)) by (simpl in *; lia). cbn [andb].
      destruct (Z.ltb_spec (eol_num l) len) as [Hlt|Hge]; cbn [negb]; [|by exists l].
      rewrite Hbuf. cbn [app]. rewrite aset_middle, mbind_Some by done. eexists. split; [done|].
      eapply (line_intro _ _ _ (c :: b) [] rest); [cbn [rev app]; by rewrite <- app_assoc|..|done|done]; cbn [length] in *; try lia.
      rewrite length_app, length_rev. simpl. lia.
    + rewrite (proj2 (Z.eqb_neq _ _)) by (simpl in *; lia). cbn [andb]. rewrite Hbuf. cbn [app].
      rewrite aset_middle, mbind_Some by done. eexists. split; [done|]. apply Forall_cons in Na as [_ Na].
      eapply (line_intro _ _ _ (c :: b) a (x :: rest)); [cbn [rev]; by rewrite <- app_assoc|..|done|done]; cbn [length] in *; try lia.
      rewrite length_app, length_rev. cbn [length]. rewrite length_app. simpl. lia.
Qed.
(** *** The commands on a line *)

Lemma strlen_no_nul t : no_nul t -> strlen t = Z.of_nat (length t).
Proof. induction 1 as [|c t Hc _ IH]; [done|]. simpl. rewrite (proj2 (Z.eqb_neq c 0)) by done. lia. Qed.

Lemma home_rel l b a : line_rel l b a -> line_rel (BEGINNING_OF_LINE l) [] (rev b ++ a).
Proof.
  intros H. destruct (line_nums _ _ _ H) as (Hn & He & Hf & Hr). destruct (lr_buf _ _ _ H) as [rest Hb].
  eapply (line_intro _ _ _ [] _ rest); [by rewrite Hb, <- app_assoc|done|done|..]; try done; [|constructor|apply H].
  rewrite length_app, length_rev. simpl. lia.
Qed.

Lemma kill_rel l b a : line_rel l b a -> line_rel (ERASE_TO_EOL l) b [].
Proof.
  intros H. destruct (line_nums _ _ _ H) as (Hn & He & Hf & Hr). destruct (lr_buf _ _ _ H) as [rest Hb].
  destruct (line_nul _ _ _ H) as [Nb Na]. unfold ERASE_TO_EOL. case_if.
  - eapply (line_intro _ _ _ b [] (a ++ rest)); try done; [simpl; lia|lia|constructor].
  - destruct a; [done|simpl in *; lia].
Qed.

Lemma end_rel l b a : line_rel l b a -> line_rel (REFRESH_TO_EOL l) (rev (rev b ++ a)) [].
Proof.
  intros H. destruct (line_nums _ _ _ H) as (Hn & He & Hf & Hr). destruct (lr_buf _ _ _ H) as [rest Hb].
  unfold REFRESH_TO_EOL. case_if.
  - eapply (line_intro _ _ _ _ [] rest); rewrite ?rev_involutive; try done; [by rewrite Hb, <- app_assoc|..|apply H|constructor];
      rewrite length_rev, length_app, length_rev; simpl; lia.
  - destruct a; [by rewrite app_nil_r, rev_involutive|simpl in *; lia].
Qed.

Lemma right_rel l b x a : line_rel l b (x :: a) -> line_rel (mk_line (num l + 1) (eol_num l) (buf l)) (x :: b) a.
Proof.
  intros H. destruct (line_nums _ _ _ H) as (Hn & He & Hf & Hr). destruct (lr_buf _ _ _ H) as [rest Hb].
  destruct (line_nul _ _ _ H) as [Nb [Nx Na]%Forall_cons].
  eapply (line_intro _ _ _ (x :: b) a rest); try done; cbn [length] in *; try lia;
    cbn [rev]; [by rewrite Hb, <- app_assoc|by apply no_nul_snoc].
Qed.

Lemma left_rel l x b a : line_rel l (x :: b) a -> line_rel (mk_line (num l - 1) (eol_num l) (buf l)) b (x :: a).
Proof.
  intros H. destruct (line_nums _ _ _ H) as (Hn & He & Hf & Hr). destruct (lr_buf _ _ _ H) as [rest Hb].
  destruct (line_nul _ _ _ H) as [[Nb Nx]%Forall_app Na]. rewrite Forall_singleton in Nx.
  eapply (line_intro _ _ _ b (x :: a) rest); try done; cbn [length] in *; try lia; [|by constructor].
  rewrite Hb. cbn [rev]. by rewrite <- app_assoc.
Qed.

Lemma delete_rel l b x a : line_rel l b (x :: a) -> exists bf,
  memmove (buf l) (num l) (num l + 1) (length a) = Some bf /\ line_rel (mk_line (num l) (eol_num l - 1) bf) b a.
Proof.
  intros H. destruct (line_nums _ _ _ H) as (Hn & He & Hf & Hr). destruct (lr_buf _ _ _ H) as [rest Hb].
  destruct (line_nul _ _ _ H) as [Nb [Nx Na]%Forall_cons].
  destruct (memmove_left (rev b) x a rest (num l) (num l + 1) (length a)) as (z & Hm); [by rewrite length_rev|done..|].
  rewrite Hb in *. cbn [app]. rewrite Hm. eexists. split; [done|].
  eapply (line_intro _ _ _ b a (z :: rest)); try done; cbn [length] in *; try lia.
  rewrite !length_app in *. cbn [length app] in *. rewrite ?length_app in *. lia.
Qed.

Lemma replace_rel l t b a : line_rel l b a -> no_nul t -> Z.of_nat (length t) <= len -> exists bf,
  store_bytes (buf l) 0 (t ++ [0]) = Some bf /\ line_rel (REFRESH_TO_EOL (mk_line 0 (strlen t) bf)) (rev t) [].
Proof.
  intros H Nt Hl. destruct (line_nums _ _ _ H) as (_ & _ & _ & Hr).
  rewrite (strlen_no_nul t) by done. change 0 with (Z.of_nat 0) at 1.
  rewrite store_bytes_blit by (rewrite length_app; simpl; lia). eexists. split; [done|].
  rewrite <- (app_nil_l t) at 3. apply (end_rel _ [] t).
  eapply (line_intro _ _ _ [] t (0 :: drop (length (t ++ [0])) (buf l))); try done; [|..|constructor].
  - unfold blit. cbn [take app rev]. rewrite take_0. by rewrite <- app_assoc.
  - rewrite length_blit; [done|]. rewrite length_app. simpl. lia.
Qed.
(** *** The history *)

Lemma hist_cur_wf h cur : hist_wf h -> -1 <= cur < HIST_MAX -> hist_wf (with_cur h cur).
Proof. intros [] Hc. by split. Qed.

Lemma hist_get h i : hist_wf h -> 0 <= i < HIST_MAX ->
  exists l, aget (hist_list h) i = Some l /\ Z.of_nat (length l) <= len /\ no_nul l.
Proof.
  intros H Hi. unfold aget. rewrite (proj2 (Z.leb_le 0 i)) by lia.
  destruct (lookup_lt_is_Some_2 (hist_list h) (Z.to_nat i)) as [l Hl]; [rewrite (hw_len _ H); lia|].
  exists l. split; [done|]. exact (proj1 (Forall_lookup _ _) (hw_lines _ H) _ _ Hl).
Qed.

(** What going up or down gives. *)
Definition hist_ok (r : option (option (list Z) * history)) : Prop :=
  exists ol h', r = Some (ol, h') /\ hist_wf h' /\ forall l, ol = Some l -> Z.of_nat (length l) <= len /\ no_nul l.

Lemma hist_prev_ok h : hist_wf h -> hist_ok (hist_prev h).
Proof.
  intros H. pose proof (hw_cur _ H) as Hc. pose proof (hw_max _ H) as Hm. unfold hist_prev.
  case_if; [by eexists _, _|]. set (cur := if _ <? 0 then _ else _).
  assert (0 <= cur < HIST_MAX) as Hcur by (unfold cur; case_if; lia).
  case_if; [by eexists _, _|]. destruct (hist_get h cur H Hcur) as (l & -> & Hl).
  eexists _, _. split; [done|]. split; [apply hist_cur_wf; [done|lia]|]. by intros ? [= <-].
Qed.

Lemma hist_next_ok h : hist_wf h -> hist_ok (hist_next h).
Proof.
  intros H. pose proof (hw_cur _ H) as Hc. pose proof (hw_max _ H) as Hm. unfold hist_next.
  case_if; [by eexists _, _|]. case_if; [by eexists _, _|]. set (cur := if hist_max h <? _ then _ else _).
  assert (0 <= cur < HIST_MAX) as Hcur by (unfold cur; case_if; lia).
  assert (hist_wf (with_cur h cur)) as H' by (apply hist_cur_wf; [done|lia]).
  cbn [hist_add_idx with_cur hist_list]. case_if.
  - eexists _, _. split; [done|]. split; [done|]. intros ? [= <-]. split; [simpl; lia|constructor].
  - destruct (hist_get h cur H Hcur) as (l & -> & Hl). eexists _, _. split; [done|]. split; [done|]. by intros ? [= <-].
Qed.

Lemma add_hist_wf h t : hist_wf h -> no_nul t -> Z.of_nat (length t) <= len ->
  exists h', cread_add_to_hist h t = Some h' /\ hist_wf h'.
Proof.
  intros [H1 H2 H3 H4 H5] Nt Ht. unfold cread_add_to_hist.
  rewrite (proj2 (Z.ltb_ge HIST_SIZE (Z.of_nat (length t)))) by lia.
  unfold aset. rewrite (proj2 (Z.leb_le 0 _)), (proj2 (Z.ltb_lt (hist_add_idx h) _)) by (rewrite ?H1; lia).
  eexists. split; [done|]. split; cbn [hist_list hist_add_idx hist_max hist_cur].
  - by rewrite length_insert.
  - case_if; unfold HIST_MAX in *; lia.
  - repeat case_if; unfold HIST_MAX in *; lia.
  - done.
  - by apply Forall_insert.
Qed.

Lemma recall_rel s e r : rel s e -> hist_ok r ->
  exists o, recall s r = Some o /\ rel_out o (ECont (ed_recall e r)).
Proof.
  intros H (ol & h' & -> & Hwf & Hol). unfold recall. rewrite mbind_Some. cbn [ed_recall].
  destruct ol as [t|].
  - destruct (Hol t eq_refl) as [Ht Nt].
    destruct (replace_rel _ t [] [] (kill_rel _ _ _ (home_rel _ _ _ (r_line _ _ H))) Nt Ht) as (bf & Hs & Hr).
    cbn [ln]. rewrite Hs, mbind_Some. eexists. split; [done|].
    replace (num (ERASE_TO_EOL (BEGINNING_OF_LINE (ln s)))) with 0 by (unfold ERASE_TO_EOL, BEGINNING_OF_LINE; by case_if).
    split; try done; [apply H|constructor].
  - eexists. split; [done|]. split; try done; [apply H|apply H|constructor].
Qed.

(** *** Completion and the end of the line *)

Lemma complete_rel s e l : rel s e -> l = ln s -> after e = [] -> refines
  (b ← aset (buf l) (num l) 0;
   done ← auto_complete (cstr b) (num l);
   match done with
   | None => Some (Cont (with_line s (mk_line (num l) (eol_num l) b)))
   | Some extra =>
       b ← store_bytes b (num l) (extra ++ [0]);
       let col := Z.of_nat (length extra) in
       Some (Cont (with_line s (mk_line (num l + col) (eol_num l + col) b)))
   end)
  (done ← auto_complete (e_text e) (Z.of_nat (length (e_text e)));
   Some (ECont (match done with Some extra => at_cursor e (rev extra ++ before e) [] | None => e end))).
Proof.
  intros H -> Ha. pose proof (r_line _ _ H) as Hl. unfold e_text. rewrite Ha in *. rewrite app_nil_r.
  destruct (line_split _ _ _ Hl) as (x & rest & Hb & Hr). destruct (line_nums _ _ _ Hl) as (Hn & He & Hf & Hlen').
  destruct (line_nul _ _ _ Hl) as [Nb _]. cbn [app length] in *. rewrite length_app, length_rev in Hr.
  rewrite Hb, aset_middle, mbind_Some, cstr_nul by (rewrite ?length_rev; done).
  rewrite length_rev, <- Hn.
  destruct (auto_complete (rev (before e)) (num (ln s))) as [[extra|]|] eqn:E; [..|done]; rewrite !mbind_Some.
  - rewrite Hn, <- (length_rev (before e)) in E. destruct (completion_fits _ _ Nb E) as [Hx Nx]; rewrite length_rev in *; [lia|].
    rewrite <- (take_drop (length extra) rest). set (r1 := take _ _). set (r2 := drop _ _).
    assert (length r1 = length extra) as Hr1 by (unfold r1; rewrite length_take; lia).
    assert (length r1 + length r2 = length rest)%nat as Hr2 by (unfold r1, r2; rewrite length_take, length_drop; lia).
    change (0 :: r1 ++ r2) with ((0 :: r1) ++ r2). rewrite store_here, mbind_Some by (rewrite ?length_rev, ?length_app; simpl; lia).
    split; cbn [with_line ln insert esc_save hist at_cursor before after e_insert e_esc e_hist]; try apply H.
    eapply (line_intro _ _ _ (rev extra ++ before e) [] (0 :: r2));
      rewrite ?rev_app_distr, ?rev_involutive, ?length_app, ?length_rev; cbn [length]; try lia.
    + by rewrite <- !app_assoc.
    + by apply Forall_app.
    + constructor.
  - split; cbn [with_line ln insert esc_save hist]; try apply H. rewrite Ha.
    eapply (line_intro _ _ _ (before e) [] (0 :: rest)); try done; [|constructor].
    rewrite length_app, length_rev. simpl. lia.
Qed.

Lemma finish_rel s e : rel s e -> exists o, cread_finish s = Some o /\ rel_out o (ed_finish e).
Proof.
  intros H. pose proof (r_line _ _ H) as Hl. unfold cread_finish, ed_finish.
  destruct (line_split _ _ _ Hl) as (x & rest & Hb & Hr). pose proof (lr_eol _ _ _ Hl) as He. pose proof (lr_nul _ _ _ Hl) as Nt.
  pose proof (lr_fits _ _ _ Hl) as Hf.
  fold (e_text e) in *. rewrite Hb, app_assoc. fold (e_text e). rewrite aset_middle, mbind_Some, cstr_nul by done.
  assert (ch (e_text e ++ 0 :: rest) = ch (e_text e)) as -> by (by destruct (e_text e)).
  rewrite (r_hist _ _ H).
  assert (Z.of_nat (length (e_text e ++ 0 :: rest)) = len + 1) as Hlen'
    by (unfold e_text; rewrite !length_app in *; simpl; lia).
  destruct (negb (ch (e_text e) =? 0) && negb (ch (e_text e) =? CREAD_HIST_CHAR)) eqn:E.
  - destruct (add_hist_wf (e_hist e) (e_text e) (r_wf _ _ H) Nt ltac:(lia)) as (h' & -> & Hwf). rewrite mbind_Some.
    eexists. split; [done|]. cbn [rel_out ln hist buf eol_num default]. split_and!; try done; [|by apply cstr_nul].
    apply hist_cur_wf; [done|]. pose proof (hw_add _ Hwf). cbn. lia.
  - rewrite mbind_Some. eexists. split; [done|]. cbn [rel_out ln hist buf eol_num]. split_and!; try done; [|by apply cstr_nul].
    apply hist_cur_wf; [apply H|]. pose proof (hw_add _ (r_wf _ _ H)). lia.
Qed.
(** *** Keys *)

Lemma rel_line s e l b a : rel s e -> line_rel l b a -> rel (with_line s l) (at_cursor e b a).
Proof. intros [] Hl. by split. Qed.

Lemma rel_same s e : rel s e -> rel s (at_cursor e (before e) (after e)).
Proof. intros []. by split. Qed.

Lemma ctrl_d_rel s e l : rel s e -> l = ln s -> exists o,
  (if num l <? eol_num l then
     let wlen := eol_num l - num l - 1 in
     b ← if negb (wlen =? 0) then memmove (buf l) (num l) (num l + 1) (Z.to_nat wlen) else Some (buf l);
     Some (Cont (with_line s (mk_line (num l) (eol_num l - 1) b)))
   else Some (Cont s)) = Some o /\ rel_out o (ECont (at_cursor e (before e) (tl (after e)))).
Proof.
  intros H ->. pose proof (r_line _ _ H) as Hl. destruct (line_nums _ _ _ Hl) as (Hn & He & Hf & Hr).
  destruct (after e) as [|x a] eqn:Ea; cbn [length tl] in *.
  - rewrite (proj2 (Z.ltb_ge _ _)) by lia. exists (Cont s). split; [done|]. rewrite <- Ea. by apply rel_same.
  - rewrite (proj2 (Z.ltb_lt _ _)) by lia. destruct (delete_rel _ _ _ _ Hl) as (bf & Hm & Hl').
    replace (Z.to_nat (eol_num (ln s) - num (ln s) - 1)) with (length a) by lia.
    destruct (Z.eqb_spec (eol_num (ln s) - num (ln s) - 1) 0); cbn [negb].
    + destruct a; [|simpl in *; lia]. rewrite mbind_Some. eexists. split; [done|]. apply rel_line; [done|].
      pose proof (kill_rel _ _ _ Hl) as Hk. unfold ERASE_TO_EOL in Hk. rewrite (proj2 (Z.ltb_lt _ _)) in Hk by lia.
      by replace (eol_num (ln s) - 1) with (num (ln s)) by lia.
    + rewrite Hm, mbind_Some. eexists. split; [done|]. by apply rel_line.
Qed.

Lemma backspace_rel s e l : rel s e -> l = ln s -> exists o,
  (if negb (num l =? 0) then
     let wlen := eol_num l - num l in
     let n := num l - 1 in
     b ← memmove (buf l) n (n + 1) (Z.to_nat wlen);
     Some (Cont (with_line s (mk_line n (eol_num l - 1) b)))
   else Some (Cont s)) = Some o /\ rel_out o (ECont (at_cursor e (tl (before e)) (after e))).
Proof.
  intros H ->. pose proof (r_line _ _ H) as Hl. destruct (line_nums _ _ _ Hl) as (Hn & He & Hf & Hr).
  destruct (before e) as [|x b] eqn:Eb; cbn [length tl] in *.
  - rewrite (proj2 (Z.eqb_eq (num _) 0)) by lia. exists (Cont s). split; [done|]. rewrite <- Eb. by apply rel_same.
  - rewrite (proj2 (Z.eqb_neq (num _) 0)) by lia. cbn [negb].
    destruct (delete_rel _ _ _ _ (left_rel _ _ _ _ Hl)) as (bf & Hm & Hl'). cbn [num eol_num buf] in *.
    replace (Z.to_nat (eol_num (ln s) - num (ln s))) with (length (after e)) by lia.
    cbn zeta. rewrite Hm, mbind_Some. eexists. split; [done|]. by apply rel_line.
Qed.

Lemma ed_add_at c e : ed_add len c e = at_cursor e (before (ed_add len c e)) (after (ed_add len c e)).
Proof. destruct e as [b [|x a] [] esc h]; unfold ed_add; cbn [e_insert after]; try case_if; done. Qed.

Lemma command_rel c s e : rel s e -> esc_save s = [] -> c <> 0 ->
  refines (cread_command auto_complete len c s) (ed_command auto_complete len c e).
Proof.
  intros H Hesc Hc. pose proof (r_line _ _ H) as Hl. destruct (line_nums _ _ _ Hl) as (Hn & He & Hf & Hr).
  unfold cread_command, ed_command. case_if; [subst c; split; try apply H; cbn; [by rewrite Hesc|by repeat constructor]|].
  case_if; [by apply rel_line, home_rel|].
  case_if.
  { destruct (line_split _ _ _ Hl) as (x & rest & Hb & Hl').
    destruct (buf (ln s)) as [|y bf] eqn:Eb; [simpl in Hr; lia|]. rewrite (aset_middle [] bf y) by done. rewrite mbind_Some.
    cbn [rel_out with_line ln hist buf]. split_and!; try done; apply H. }
  case_if.
  { destruct (after e) as [|x a] eqn:Ea; rewrite ?Ea in *.
    - rewrite (proj2 (Z.ltb_ge _ _)) by (simpl in *; lia). done.
    - rewrite (proj2 (Z.ltb_lt _ _)) by (simpl in *; lia). by apply rel_line, right_rel. }
  case_if.
  { destruct (before e) as [|x b] eqn:Eb; rewrite ?Eb in *.
    - rewrite (proj2 (Z.eqb_eq (num _) 0)) by (simpl in *; lia). done.
    - rewrite (proj2 (Z.eqb_neq (num _) 0)) by (simpl in *; lia). by apply rel_line, left_rel. }
  case_if.
  { by apply refines_Some, ctrl_d_rel. }
  case_if; [by eapply rel_line, kill_rel|].
  case_if; [by apply rel_line, end_rel|].
  case_if; [destruct H; split; try done; cbn; by f_equal|].
  case_if; [by eapply rel_line, kill_rel, home_rel|].
  case_if.
  { by apply refines_Some, backspace_rel. }
  case_if; [by rewrite (r_hist _ _ H); apply refines_Some, recall_rel, hist_prev_ok, H|].
  case_if; [by rewrite (r_hist _ _ H); apply refines_Some, recall_rel, hist_next_ok, H|].
  case_if.
  { destruct (after e) as [|x a] eqn:Ea; rewrite ?Ea in *.
    - rewrite (proj2 (Z.ltb_ge _ _)) by (simpl in *; lia). by apply complete_rel.
    - rewrite (proj2 (Z.ltb_lt _ _)) by (simpl in *; lia). done. }
  rewrite (r_insert _ _ H). destruct (add_char_rel c (ln s) e Hl Hc) as (l' & -> & Hl'). rewrite mbind_Some.
  rewrite ed_add_at. by apply rel_line.
Qed.

Lemma add_str_rel str : forall s e, rel s e -> no_nul str -> exists l,
  cread_add_str str (insert s) (ln s) len = Some l /\
  rel (with_line s l) (fold_left (fun e c => ed_add len c e) str e).
Proof.
  induction str as [|c str IH]; intros s e H Hn; cbn [cread_add_str fold_left].
  - exists (ln s). split; [done|]. by destruct s.
  - apply Forall_cons in Hn as [Hc Hn]. rewrite (r_insert _ _ H).
    destruct (add_char_rel c (ln s) e (r_line _ _ H) Hc) as (l & -> & Hl). rewrite mbind_Some.
    pose proof (rel_line _ _ _ _ _ H Hl) as H'. rewrite <- ed_add_at in H'.
    destruct (IH _ _ H' Hn) as (l' & Hs & Hr). cbn [with_line insert ln] in Hs. rewrite <- (r_insert _ _ H).
    by exists l'.
Qed.

Lemma rel_esc s e esc : rel s e -> no_nul esc ->
  rel (with_esc s esc) (mk_ed (before e) (after e) (e_insert e) esc (e_hist e)).
Proof. intros [] Hn. by split. Qed.

Lemma decode_converted esc c c' : decode_esc esc c = (ESC_CONVERTED, c') -> c' <> 0.
Proof. unfold decode_esc. intros H. repeat (case_match; simplify_eq; try done). Qed.

Lemma decode_same esc c c' act : decode_esc esc c = (act, c') -> act <> ESC_CONVERTED -> c' = c.
Proof. unfold decode_esc. intros H Ha. repeat (case_match; simplify_eq; try done). Qed.

Lemma key_rel c s e : rel s e -> c <> 0 ->
  refines (cread_key auto_complete len c s) (ed_key auto_complete len c e).
Proof.
  intros H Hc. unfold cread_key, ed_key. case_if; [by apply refines_Some, finish_rel|].
  rewrite (r_esc _ _ H). pose proof (r_esc_nul _ _ H) as Nesc.
  destruct (e_esc e) as [|x esc] eqn:Ee; [apply command_rel; [done|by rewrite (r_esc _ _ H)|done]|].
  cbn [length Nat.eqb negb]. destruct (decode_esc (x :: esc) c) as [act c'] eqn:Ed. destruct act.
  - rewrite (decode_same _ _ _ _ Ed) by done.
    pose proof (no_nul_snoc _ _ Nesc Hc) as Na.
    destruct (add_str_rel ((x :: esc) ++ [c]) (with_esc s []) _ (rel_esc _ _ [] H ltac:(constructor)) Na) as (l & Hs & Hr).
    cbn [with_esc insert ln] in Hs. rewrite Hs, mbind_Some. exact Hr.
  - rewrite (decode_same _ _ _ _ Ed) by done. by apply rel_esc, no_nul_snoc.
  - apply command_rel; [apply rel_esc; [done|constructor]|done|by eapply decode_converted].
Qed.

Lemma loop_rel keys : forall s e, rel s e -> no_nul keys ->
  refines (cread_loop auto_complete len keys s) (ed_run auto_complete len keys e).
Proof.
  induction keys as [|k keys IH]; intros s e H Hn; cbn [cread_loop ed_run]; [done|].
  apply Forall_cons in Hn as [Hk Hn]. pose proof (key_rel k s e H Hk) as Ho.
  destruct (cread_key _ _ k s) as [[s'|r s']|], (ed_key auto_complete len k e) as [[e'|r' t h]|]; try done. by apply IH.
Qed.
(** *** The text that is in the buffer at first *)

Lemma cstr_split bf : exists rest, bf = cstr bf ++ rest /\ (rest = [] \/ ch rest = 0).
Proof.
  induction bf as [|c bf (rest & E & Hr)]; [by exists []; split; [|left]|]. cbn [cstr]. case_if.
  - subst c. exists (0 :: bf). split; [done|by right].
  - exists rest. split; [cbn [app]; by f_equal|done].
Qed.

Lemma add_buf_same t2 : forall t1 rest, Z.of_nat (length (t1 ++ t2)) <= len ->
  cread_add_buf (length t2) (Z.of_nat (length t1)) (mk_line (Z.of_nat (length t1)) (Z.of_nat (length t1)) (t1 ++ t2 ++ rest)) len =
  Some (mk_line (Z.of_nat (length (t1 ++ t2))) (Z.of_nat (length (t1 ++ t2))) (t1 ++ t2 ++ rest)).
Proof.
  induction t2 as [|c t2 IH]; intros t1 rest Hl; cbn [length cread_add_buf]; [by rewrite app_nil_r|].
  cbn [buf app]. rewrite aget_middle, mbind_Some by done. unfold cread_add_char. cbn [orb andb num eol_num buf].
  rewrite length_app in Hl. cbn [length] in Hl.
  rewrite (wrap_small 64 (len - 1)) by (unfold HIST_SIZE, CONFIG_SYS_CBSIZE in *; lia).
  rewrite (proj2 (Z.ltb_ge (len - 1) _)), (proj2 (Z.ltb_ge 1 _)) by lia.
  rewrite mbind_Some, aset_middle, !mbind_Some by done. specialize (IH (t1 ++ [c]) rest).
  rewrite !length_app in *. cbn [length] in *. rewrite <- !app_assoc in IH. cbn [app] in IH.
  replace (Z.of_nat (length t1) + 1) with (Z.of_nat (length t1 + 1)) by lia. rewrite IH by (simpl; lia).
  by replace (length t1 + 1 + length t2)%nat with (length t1 + S (length t2))%nat by lia.
Qed.

Lemma init_text t rest : Z.of_nat (length t) <= len ->
  (if negb (Z.of_nat (length t) =? 0) then cread_add_buf (Z.to_nat (Z.of_nat (length t))) 0 (mk_line 0 0 (t ++ rest)) len
   else Some (mk_line 0 0 (t ++ rest))) = Some (mk_line (Z.of_nat (length t)) (Z.of_nat (length t)) (t ++ rest)).
Proof.
  intros Ht. case_if; [rewrite Nat2Z.id; exact (add_buf_same t [] rest Ht)|by replace (Z.of_nat (length t)) with 0].
Qed.

(** The editor starts with the text of the buffer, the cursor at its end. *)
Lemma cread_line_rel keys buffer h timeout :
  Z.of_nat (length buffer) = len + 1 -> Z.of_nat (length (cstr buffer)) <= len -> hist_wf h -> no_nul keys ->
  refines (cread_line auto_complete len keys buffer timeout false h)
    (ed_run auto_complete len keys (mk_ed (rev (cstr buffer)) [] true [] h)).
Proof.
  intros Hb Ht Hh Hk. unfold cread_line. rewrite andb_false_r.
  pose proof (cstr_no_nul buffer) as Nt. rewrite strlen_no_nul by done. destruct (cstr_split buffer) as (rest & E & _).
  set (t := cstr buffer) in *.
  pose proof (init_text t rest Ht) as Hi. rewrite <- E in Hi. rewrite Hi, mbind_Some. apply loop_rel; [|done]. split; cbn; try done; [|constructor].
  eapply (line_intro _ _ _ _ [] rest); rewrite ?rev_involutive, ?length_rev; try done; [simpl; lia|constructor].
Qed.
End Refine.

(** *** The history over a session *)

(** Keys that are put into the line as they are. *)
Definition plain (c : Z) : bool := (32 <=? c) && (c <=? 126).

(** A line that the history takes. *)
Definition hist_entry (len : Z) (t : list Z) : Prop :=
  t <> [] /\ Forall (fun c => plain c = true) t /\ ch t <> CREAD_HIST_CHAR /\ Z.of_nat (length t) <= len.

Lemma plain_no_nul t : Forall (fun c => plain c = true) t -> no_nul t.
Proof. intros H. eapply Forall_impl; [exact H|]. unfold plain. cbn. intros c Hc. bool_to_prop. lia. Qed.

Lemma plain_key ac len c e : plain c = true -> e_esc e = [] -> ed_key ac len c e = Some (ECont (ed_add len c e)).
Proof.
  unfold plain. intros Hc He. bool_to_prop. unfold ed_key. rewrite He. unfold ed_command, CTL_CH.
  repeat (case_if; [lia|]). done.
Qed.

Lemma plain_run ac len keys t : forall b h, Forall (fun c => plain c = true) t ->
  Z.of_nat (length b + length t) <= len ->
  ed_run ac len (t ++ keys) (mk_ed b [] true [] h) = ed_run ac len keys (mk_ed (rev t ++ b) [] true [] h).
Proof.
  induction t as [|c t IH]; intros b h Ht Hl; [done|]. apply Forall_cons in Ht as [Hc Ht]. cbn [app ed_run length] in *.
  rewrite plain_key, mbind_Some by done. unfold ed_add at 1. cbn [e_insert after e_text before]. unfold e_text. cbn [before after].
  rewrite app_nil_r, length_rev, (proj2 (Z.ltb_lt _ _)) by lia. cbn [at_cursor e_insert e_esc e_hist].
  unfold at_cursor. cbn [e_insert e_esc e_hist]. rewrite IH by (simpl; lia || done). cbn [rev]. by rewrite <- app_assoc.
Qed.

Lemma typed_run ac len t h : Forall (fun c => plain c = true) t -> Z.of_nat (length t) <= len ->
  ed_run ac len (t ++ [13]) (mk_ed [] [] true [] h) = Some (ed_finish (mk_ed (rev t) [] true [] h)).
Proof. intros Ht Hl. rewrite plain_run by done. by rewrite app_nil_r. Qed.

(** The history after the lines [lines], the first one first. *)
Record hist_of (lines : list (list Z)) (h : history) : Prop := {
  ho_add : hist_add_idx h = Z.of_nat (length lines) `mod` 20;
  ho_max : hist_max h = Z.min (Z.of_nat (length lines)) 19;
  ho_cur : lines <> [] -> hist_cur h = hist_add_idx h;
  ho_lines : forall q l, lines !! q = Some l -> (length lines <= q + 20)%nat ->
    hist_list h !! Z.to_nat (Z.of_nat q `mod` 20) = Some l
}.

Lemma hist_init_of : hist_of [] hist_init.
Proof. by split. Qed.

Lemma mod20_succ n : 0 <= n -> (if 20 <=? n `mod` 20 + 1 then 0 else n `mod` 20 + 1) = (n + 1) `mod` 20.
Proof. intros Hn. case_if; Z.to_euclidean_division_equations; lia. Qed.

Lemma add_hist_of lines h h' t : hist_of lines h -> length (hist_list h) = 20%nat -> cread_add_to_hist h t = Some h' ->
  hist_of (lines ++ [t]) (with_cur h' (hist_add_idx h')).
Proof.
  intros [Ha Hm _ Hq] Hl. unfold cread_add_to_hist. case_if; [done|].
  assert (0 <= Z.of_nat (length lines) `mod` 20 < 20) as Hmod by (apply Z.mod_pos_bound; lia).
  unfold aset. rewrite Ha, Hl, (proj2 (Z.leb_le 0 _)), (proj2 (Z.ltb_lt _ (Z.of_nat 20))) by lia. cbn [andb]. rewrite mbind_Some.
  unfold HIST_MAX. rewrite mod20_succ by lia. intros [= <-].
  split; cbn [hist_add_idx hist_max hist_cur hist_list with_cur]; rewrite ?length_app; cbn [length].
  - f_equal. lia.
  - rewrite Hm. destruct (decide (Z.of_nat (length lines) < 19)).
    + rewrite (Z.mod_small (_ + 1)) by lia. case_if; lia.
    + assert (0 <= (Z.of_nat (length lines) + 1) `mod` 20 < 20) by (apply Z.mod_pos_bound; lia). case_if; lia.
  - done.
  - intros q l Hl' Hr. destruct (decide (q = length lines)) as [->|Hne].
    + rewrite list_lookup_middle in Hl' by done. simplify_eq. apply list_lookup_insert_eq. lia.
    + assert (q < length lines)%nat as Hlt by (apply lookup_lt_Some in Hl'; rewrite length_app in Hl'; simpl in Hl'; lia).
      rewrite lookup_app_l in Hl' by lia. rewrite list_lookup_insert_ne; [apply Hq; [done|lia]|].
      Z.to_euclidean_division_equations; lia.
Qed.

(** Going up once more. *)
Lemma up_step lines h j l :
  hist_of lines h -> lines !! (length lines - S j)%nat = Some l -> (j < length lines)%nat -> (j < 19)%nat ->
  hist_prev (with_cur h (Z.of_nat (length lines - j) `mod` 20)) =
  Some (Some l, with_cur h (Z.of_nat (length lines - S j) `mod` 20)).
Proof.
  intros [Ha Hm _ Hq] Hl Hj Hj'. unfold hist_prev. cbn [hist_cur hist_max hist_add_idx hist_list with_cur].
  assert (0 <= Z.of_nat (length lines - j) `mod` 20 < 20) as Hb by (apply Z.mod_pos_bound; lia).
  rewrite (proj2 (Z.ltb_ge _ 0)) by lia.
  assert ((if Z.of_nat (length lines - j) `mod` 20 - 1 <? 0 then hist_max h else Z.of_nat (length lines - j) `mod` 20 - 1) =
    Z.of_nat (length lines - S j) `mod` 20) as ->.
  { rewrite Hm. case_if; Z.to_euclidean_division_equations; lia. }
  rewrite Ha, (proj2 (Z.eqb_neq _ _)) by (Z.to_euclidean_division_equations; lia).
  unfold aget. rewrite (proj2 (Z.leb_le 0 _)) by (apply Z.mod_pos_bound; lia).
  rewrite (Hq _ _ Hl) by lia. done.
Qed.

Lemma up_key ac len e : e_esc e = [] ->
  ed_key ac len (CTL_CH 112) e = Some (ECont (ed_recall e (hist_prev (e_hist e)))).
Proof. intros He. unfold ed_key. rewrite He. done. Qed.

(** The text after [j] times up. *)
Lemma ups_run ac len lines h b : hist_of lines h -> lines <> [] -> forall j keys,
  (j <= length lines)%nat -> (j <= 19)%nat ->
  ed_run ac len (replicate j (CTL_CH 112) ++ keys) (mk_ed b [] true [] h) =
  ed_run ac len keys
    (mk_ed (match j with O => b | S _ => rev (lines !!! (length lines - j)%nat) end) [] true []
       (with_cur h (Z.of_nat (length lines - j) `mod` 20))).
Proof.
  intros Hof Hne j. induction j as [|j IH]; intros keys Hj Hj'.
  - rewrite Nat.sub_0_r, <- (ho_add _ _ Hof), <- (ho_cur _ _ Hof Hne). by destruct h.
  - rewrite replicate_S_end, <- app_assoc, IH by lia. cbn [app ed_run]. rewrite up_key, mbind_Some by done.
    destruct (lookup_lt_is_Some_2 lines (length lines - S j)) as [t Ht]; [lia|].
    cbn [e_hist]. rewrite (up_step _ _ _ _ Hof Ht) by lia. by rewrite (list_lookup_total_correct _ _ _ Ht).
Qed.

(** *** The whole call *)

Lemma hist_init_wf len : 0 <= len -> hist_wf len hist_init.
Proof. intros Hl. split; try done. apply Forall_replicate. split; [simpl; lia|constructor]. Qed.

Definition cli_hist (c : cli) : history := if initted c then c_hist c else hist_init.

(** What a call gives, and what the abstract editor does. *)
Definition call_refines (other : option (list Z)) (r : option rl_result) (eo : option ed_outcome) : Prop :=
  match r, eo with
  | Some (Returned ret b other' c), Some (EStop rc t h) =>
      ret = (if rc <? 0 then rc else Z.of_nat (length t)) /\ cstr b = t /\ length b = 513%nat /\ other' = other /\
      c = mk_cli true true h /\ hist_wf CONFIG_SYS_CBSIZE h
  | Some Waiting, Some (ECont _) => True
  | None, None => True
  | _, _ => False
  end.

Lemma ed_run_stop ac len keys : forall e rc t h, ed_run ac len keys e = Some (EStop rc t h) -> rc = 0 \/ rc = -1.
Proof.
  induction keys as [|k keys IH]; intros e rc t h H; [done|]. cbn [ed_run] in H.
  destruct (ed_key ac len k e) as [[e'|r u h']|] eqn:E; try done; [by eapply IH|]. cbn in H. simplify_eq.
  unfold ed_key, ed_command, ed_finish, mbind, option_bind in E. repeat (case_match; simplify_eq; try done; try (by left); try (by right)).
Qed.

(** The whole call, with any completion that fits. *)
Lemma readline_refines ac keys buffer other timeout c :
  CompletionFits CONFIG_SYS_CBSIZE ac -> relocated c = true -> length buffer = 513%nat ->
  Z.of_nat (length (cstr buffer)) <= CONFIG_SYS_CBSIZE -> hist_wf CONFIG_SYS_CBSIZE (cli_hist c) -> no_nul keys ->
  call_refines other (cli_readline_into_buffer ac keys buffer other timeout false c)
    (ed_run ac CONFIG_SYS_CBSIZE keys (mk_ed (rev (cstr buffer)) [] true [] (cli_hist c))).
Proof.
  intros Hac Hr Hb Ht Hh Hk. unfold cli_readline_into_buffer. rewrite Hr. fold (cli_hist c).
  pose proof (cread_line_rel ac CONFIG_SYS_CBSIZE ltac:(done) keys buffer (cli_hist c) timeout ltac:(by rewrite Hb) Ht Hh Hk) as H.
  destruct (cread_line _ _ _ _ _ _ _) as [[s|rc s]|], (ed_run _ _ _ _) as [[e|rc' t h]|] eqn:E; try done.
  destruct H as (-> & <- & Hwf & Hcs & Heol & Hl). rewrite mbind_Some. cbn [call_refines].
  split_and!; try done; [|unfold CONFIG_SYS_CBSIZE in Hl; lia].
  destruct (ed_run_stop _ _ _ _ _ _ _ E) as [->| ->]; [by apply Heol|done].
Qed.

(** The lines of a session, each one typed and entered. *)
Fixpoint session (ac : completion) (lines : list (list Z)) (console_buffer : list Z) (c : cli) : option (list Z * cli) :=
  match lines with
  | [] => Some (console_buffer, c)
  | t :: lines =>
      r ← cli_readline ac (t ++ [13]) console_buffer c;
      match r with Returned _ b _ c => session ac lines b c | Waiting => None end
  end.

Lemma entry_finish len t h : hist_entry len t -> ed_finish (mk_ed (rev t) [] true [] h) =
  let h := default h (cread_add_to_hist h t) in EStop 0 t (with_cur h (hist_add_idx h)).
Proof.
  intros (Hne & Hp & Hx & _). unfold ed_finish, e_text. cbn [before after e_hist]. rewrite rev_involutive, app_nil_r.
  destruct t as [|x t]; [done|]. apply Forall_cons in Hp as [Hp _]. cbn [ch hd] in *. unfold plain in Hp. bool_to_prop.
  by rewrite (proj2 (Z.eqb_neq x 0)), (proj2 (Z.eqb_neq x CREAD_HIST_CHAR)) by (lia || done).
Qed.

(** A buffer that starts with a NUL. *)
Lemma fresh_buffer buffer : length buffer = 513%nat ->
  exists b, aset buffer 0 0 = Some b /\ length b = 513%nat /\ cstr b = [].
Proof.
  intros Hb. destruct buffer as [|x buffer]; [done|]. exists (0 :: buffer). by rewrite (aset_middle [] buffer x).
Qed.

Lemma cli_readline_refines ac keys buffer c :
  CompletionFits CONFIG_SYS_CBSIZE ac -> relocated c = true -> length buffer = 513%nat ->
  hist_wf CONFIG_SYS_CBSIZE (cli_hist c) -> no_nul keys ->
  call_refines None (cli_readline ac keys buffer c)
    (ed_run ac CONFIG_SYS_CBSIZE keys (mk_ed [] [] true [] (cli_hist c))).
Proof.
  intros Hac Hr Hb Hh Hk. unfold cli_readline. destruct (fresh_buffer buffer Hb) as (b & -> & Hl & Hs). rewrite mbind_Some.
  pose proof (readline_refines ac keys b None 0 c Hac Hr Hl) as H. rewrite Hs in H. by apply H.
Qed.

(** A line that is typed and entered is returned, and is the last one of the
    history. *)
Lemma entered ac t buffer c lines :
  CompletionFits CONFIG_SYS_CBSIZE ac -> relocated c = true -> length buffer = 513%nat ->
  hist_wf CONFIG_SYS_CBSIZE (cli_hist c) -> hist_of lines (cli_hist c) -> hist_entry CONFIG_SYS_CBSIZE t ->
  exists b c', cli_readline ac (t ++ [13]) buffer c = Some (Returned (Z.of_nat (length t)) b None c') /\ cstr b = t /\
    length b = 513%nat /\ relocated c' = true /\ hist_wf CONFIG_SYS_CBSIZE (cli_hist c') /\ hist_of (lines ++ [t]) (cli_hist c').
Proof.
  intros Hac Hr Hb Hh Hof He. pose proof He as (_ & Hp & _ & Hl). pose proof (plain_no_nul _ Hp) as Nt.
  pose proof (cli_readline_refines ac (t ++ [13]) buffer c Hac Hr Hb Hh (no_nul_snoc _ 13 Nt ltac:(done))) as H.
  rewrite typed_run, (entry_finish _ _ _ He) in H by done.
  destruct (add_hist_wf CONFIG_SYS_CBSIZE ltac:(done) (cli_hist c) t Hh Nt Hl) as (h' & Ha & Hwf'). rewrite Ha in H. cbn zeta in H.
  destruct (cli_readline _ _ _ _) as [[ret b o c'|]|]; try done. destruct H as (-> & Hc & Hb' & -> & -> & Hwf).
  exists b, (mk_cli true true (with_cur h' (hist_add_idx h'))). split_and!; try done.
  apply (add_hist_of _ (cli_hist c)); [done|exact (hw_len _ _ Hh)|done].
Qed.

Lemma session_ok ac : CompletionFits CONFIG_SYS_CBSIZE ac -> forall lines prev buffer c,
  relocated c = true -> length buffer = 513%nat -> hist_wf CONFIG_SYS_CBSIZE (cli_hist c) -> hist_of prev (cli_hist c) ->
  Forall (hist_entry CONFIG_SYS_CBSIZE) lines ->
  exists b c', session ac lines buffer c = Some (b, c') /\ length b = 513%nat /\ relocated c' = true /\
    hist_wf CONFIG_SYS_CBSIZE (cli_hist c') /\ hist_of (prev ++ lines) (cli_hist c').
Proof.
  intros Hac lines. induction lines as [|t lines IH]; intros prev buffer c Hr Hb Hh Hof Hl.
  - exists buffer, c. by rewrite app_nil_r.
  - apply Forall_cons in Hl as [Ht Hl]. cbn [session].
    destruct (entered ac t buffer c prev Hac Hr Hb Hh Hof Ht) as (b & c' & -> & _ & Hb' & Hr' & Hh' & Hof'). rewrite mbind_Some.
    destruct (IH (prev ++ [t]) b c' Hr' Hb' Hh' Hof' Hl) as (b2 & c2 & H). exists b2, c2. by rewrite <- app_assoc in H.
Qed.

(** *** The simple editor *)

(** The text, the last character first. *)
Inductive text_outcome := TCont (t : list Z) | TStop (ret : Z) (t : list Z).

(** Up to the last space. *)
Fixpoint drop_word (t : list Z) : list Z :=
  match t with [] => [] | c :: t => if c =? 32 then t else drop_word t end.

Section SimpleRefine.
Context (auto_complete : completion) `{!CompletionFits (CONFIG_SYS_CBSIZE - 2) auto_complete}.

Definition text_add (c : Z) (t : list Z) : list Z := if Z.of_nat (length t) <? CONFIG_SYS_CBSIZE - 2 then c :: t else t.

Definition text_key (c : Z) (t : list Z) : option text_outcome :=
  if (c =? 13) || (c =? 10) then Some (TStop (Z.of_nat (length t)) (rev t))
  else if c =? 0 then Some (TCont t)
  else if c =? 3 then Some (TStop (-1) [])
  else if c =? 0x15 then Some (TCont [])
  else if c =? 0x17 then Some (TCont (drop_word t))
  else if (c =? 8) || (c =? 0x7f) then Some (TCont (tl t))
  else if (c =? 9) && (Z.of_nat (length t) <? CONFIG_SYS_CBSIZE - 2) then
    done ← auto_complete (rev t) (Z.of_nat (length t));
    Some (TCont (match done with Some extra => rev extra ++ t | None => c :: t end))
  else Some (TCont (text_add c t)).

Fixpoint text_run (keys : list Z) (t : list Z) : option text_outcome :=
  match keys with
  | [] => Some (TCont t)
  | k :: keys => o ← text_key k t; match o with TCont t => text_run keys t | TStop r t => Some (TStop r t) end
  end.

Record text_rel (s : simple) (t : list Z) : Prop := {
  tr_p : p s = Z.of_nat (length t);
  tr_n : n s = Z.of_nat (length t);
  tr_console : console s = None;
  tr_room : length (p_buf s) = 513%nat;
  tr_fits : Z.of_nat (length t) <= CONFIG_SYS_CBSIZE - 2;
  tr_buf : exists rest, p_buf s = rev t ++ rest;
  tr_nul : no_nul (rev t)
}.

Definition text_refines (o : option simple_outcome) (to : option text_outcome) : Prop :=
  match o, to with
  | Some (SCont s), Some (TCont t) => text_rel s t
  | Some (SStop r s), Some (TStop r' t) => r = r' /\ cstr (p_buf s) = t /\ length (p_buf s) = 513%nat /\ console s = None
  | None, None => True
  | _, _ => False
  end.
Lemma text_split s t : text_rel s t -> exists x rest, p_buf s = rev t ++ x :: rest /\ (length t + length rest = 512)%nat.
Proof.
  intros [_ _ _ Hr Hf [rest Hb] _]. rewrite Hb, length_app, length_rev in Hr. unfold CONFIG_SYS_CBSIZE in Hf.
  destruct rest as [|x rest]; simpl in *; [lia|]. exists x, rest. split; [done|lia].
Qed.

Lemma text_intro m bf t rest : bf = rev t ++ rest -> length bf = 513%nat -> m = Z.of_nat (length t) ->
  m <= CONFIG_SYS_CBSIZE - 2 -> no_nul (rev t) -> text_rel (mk_simple m m bf None) t.
Proof. intros -> Hl -> Hf Hn. split; try done. by exists rest. Qed.

Lemma delete_char_rel s t : text_rel s t -> exists s', delete_char s = Some s' /\ text_rel s' (tl t) /\
  (forall x, head t = Some x -> aget (p_buf s') (p s') = Some x).
Proof.
  intros H. unfold delete_char. destruct t as [|x t].
  - rewrite (tr_n _ _ H). by exists s.
  - destruct H as [Hp Hn Hc Hr Hf [rest Hb] Hz]. cbn [length tl rev] in *. rewrite <- app_assoc in Hb. cbn [app] in Hb.
    rewrite (proj2 (Z.eqb_neq (n s) 0)) by lia.
    assert (aget (p_buf s) (p s - 1) = Some x) as Hg by (rewrite Hb; apply aget_middle; rewrite length_rev; lia).
    rewrite Hg, mbind_Some. eexists. split; [done|]. split; [|by intros ? [= <-]].
    split; cbn [p n console p_buf]; try done; try lia; [by eexists|]. by apply Forall_app in Hz as [Hz _].
Qed.

Lemma delete_word_rel t : forall s x fuel,
  text_rel s t -> aget (p_buf s) (p s) = Some x -> (length t < fuel)%nat ->
  exists s', delete_word fuel s = Some s' /\ text_rel s' (if x =? 32 then t else drop_word t).
Proof.
  induction t as [|y t IH]; intros s x fuel H Hx Hf; (destruct fuel as [|fuel]; [simpl in *; lia|]); cbn [delete_word].
  - rewrite (tr_n _ _ H). exists s. split; [done|]. cbn [drop_word]. by case_if.
  - pose proof (tr_n _ _ H) as Hn. cbn [length] in *. rewrite (proj2 (Z.leb_gt (n s) 0)) by lia.
    rewrite Hx, mbind_Some. case_if; [by exists s|].
    destruct (delete_char_rel _ _ H) as (s1 & -> & H1 & Hy). rewrite mbind_Some.
    exact (IH s1 y fuel H1 (Hy _ eq_refl) ltac:(lia)).
Qed.

Lemma erase_word_rel s t : text_rel s t -> exists s',
  (s ← delete_char s; s ← delete_word (S (Z.to_nat (n s))) s; Some (SCont s)) = Some (SCont s') /\ text_rel s' (drop_word t).
Proof.
  intros H. destruct (delete_char_rel _ _ H) as (s1 & -> & H1 & Hy). rewrite mbind_Some. destruct t as [|x t].
  - cbn [delete_word]. rewrite (tr_n _ _ H1). by exists s1.
  - destruct (delete_word_rel _ s1 x (S (Z.to_nat (n s1))) H1 (Hy _ eq_refl)) as (s' & -> & H'); [rewrite (tr_n _ _ H1); lia|].
    by exists s'.
Qed.

Lemma put_char_rel c s t : text_rel s t -> c <> 0 -> Z.of_nat (length t) < CONFIG_SYS_CBSIZE - 2 ->
  exists s', put_char c s = Some s' /\ text_rel s' (c :: t).
Proof.
  intros H Hc Hl. destruct (text_split _ _ H) as (x & rest & Hb & Hr). destruct H as [Hp Hn Hcon Hroom _ _ Hz].
  unfold put_char. rewrite Hb, aset_middle, mbind_Some by (by rewrite length_rev). eexists. split; [done|].
  rewrite Hp, Hn, Hcon. apply (text_intro _ _ _ rest); cbn [length rev]; try lia.
  - by rewrite <- app_assoc.
  - rewrite length_app, length_rev. simpl. lia.
  - by apply no_nul_snoc.
Qed.

(** [*p = '\0'] puts the end of the string at the cursor. *)
Lemma nul_rel s t : text_rel s t -> exists b,
  aset (p_buf s) (p s) 0 = Some b /\ cstr b = rev t /\ length b = 513%nat /\ text_rel (mk_simple (p s) (n s) b (console s)) t.
Proof.
  intros H. destruct (text_split _ _ H) as (x & rest & Hb & Hr). destruct H as [Hp Hn Hcon Hroom Hf _ Hz].
  rewrite Hb, aset_middle by (by rewrite length_rev). eexists. split; [done|]. rewrite cstr_nul by done.
  assert (length (rev t ++ 0 :: rest) = 513%nat) by (rewrite length_app, length_rev; simpl; lia).
  split_and!; try done. rewrite Hp, Hn, Hcon. apply (text_intro _ _ _ (0 :: rest)); done || lia.
Qed.

Lemma simple_complete_rel c s t : text_rel s t -> c <> 0 -> Z.of_nat (length t) < CONFIG_SYS_CBSIZE - 2 -> text_refines
  ('(s, triggered) ← simple_complete auto_complete s;
   match triggered with
   | Some s => Some (SCont s)
   | None => s ← put_char c s; Some (SCont s)
   end)
  (done ← auto_complete (rev t) (Z.of_nat (length t));
   Some (TCont (match done with Some extra => rev extra ++ t | None => c :: t end))).
Proof.
  intros H Hc Hl. destruct (nul_rel _ _ H) as (b & Ha & Hcs & Hlb & H'). unfold simple_complete.
  rewrite Ha, mbind_Some. rewrite (tr_console _ _ H) in *. cbn [default console n]. change (default b None) with b. rewrite Hcs.
  rewrite (tr_n _ _ H).
  destruct (auto_complete (rev t) (Z.of_nat (length t))) as [[extra|]|] eqn:E; [..|done]; rewrite !mbind_Some.
  - rewrite <- (length_rev t) in E. destruct (completion_fits _ _ (tr_nul _ _ H) E) as [Hx Nx]; rewrite length_rev in *; [lia|].
    destruct (tr_buf _ _ H') as [rest Hb]. cbn [p_buf] in Hb. rewrite Hb, length_app, length_rev in Hlb. rewrite Hb.
    rewrite <- (take_drop (S (length extra)) rest). set (r1 := take _ _). set (r2 := drop _ _). unfold CONFIG_SYS_CBSIZE in *.
    assert (length r1 = S (length extra)) as Hr1 by (unfold r1; rewrite length_take; lia).
    assert (length r1 + length r2 = length rest)%nat as Hr2 by (unfold r1, r2; rewrite length_take, length_drop; lia).
    rewrite strlen_no_nul by apply H. rewrite store_here, mbind_Some by (rewrite ?length_app; simpl; lia || done).
    cbn [text_refines mbind option_bind].
    apply (text_intro _ _ _ (0 :: r2)); rewrite ?rev_app_distr, ?rev_involutive, ?length_app, ?length_rev; unfold CONFIG_SYS_CBSIZE; cbn [length]; try lia.
    + by rewrite <- !app_assoc.
    + apply Forall_app. split; [apply H|done].
  - rewrite (tr_n _ _ H) in H'. destruct (put_char_rel c _ t H' Hc Hl) as (s2 & -> & H2). done.
Qed.

Lemma simple_key_rel c s t : text_rel s t -> text_refines (simple_key auto_complete c s) (text_key c t).
Proof.
  intros H. unfold simple_key, text_key, text_add. rewrite (tr_n _ _ H).
  case_if. { destruct (nul_rel _ _ H) as (b & -> & Hc & Hl & _). rewrite mbind_Some. by rewrite (tr_p _ _ H), (tr_console _ _ H). }
  case_if; [done|]. case_if.
  { destruct (p_buf s) as [|x bf] eqn:Eb; [pose proof (tr_room _ _ H) as Hr; by rewrite Eb in Hr|].
    rewrite (aset_middle [] bf x) by done. rewrite mbind_Some. pose proof (tr_room _ _ H) as Hr. rewrite Eb in Hr. by rewrite (tr_console _ _ H). }
  case_if.
  { rewrite (tr_console _ _ H). apply (text_intro _ _ _ (p_buf s)); try done; [apply H|constructor]. }
  case_if. { destruct (erase_word_rel _ _ H) as (s' & Hs & H'). by rewrite Hs. }
  case_if. { destruct (delete_char_rel _ _ H) as (s' & -> & H' & _). done. }
  destruct (Z.ltb_spec (Z.of_nat (length t)) (CONFIG_SYS_CBSIZE - 2)) as [Hl|Hl].
  - rewrite andb_true_r. case_if; [by apply simple_complete_rel|].
    destruct (put_char_rel c s t H) as (s' & -> & H'); done.
  - by rewrite andb_false_r.
Qed.

Lemma simple_loop_rel keys : forall s t, text_rel s t -> text_refines (simple_loop auto_complete keys s) (text_run keys t).
Proof.
  induction keys as [|k keys IH]; intros s t H; [done|]. cbn [simple_loop text_run].
  pose proof (simple_key_rel k s t H) as Hk.
  destruct (simple_key auto_complete k s) as [[s'|r s']|], (text_key k t) as [[t'|r' t']|]; try done. by apply IH.
Qed.
End SimpleRefine.

(** ** Properties *)


(** Before relocation, whatever is typed, the simple editor behaves as a list
    of characters: backspace takes the last one, [^W] those up to the last space,
    [^U] all of them, and a line has at most [CONFIG_SYS_CBSIZE - 2]. *)
Theorem simple_readline_correct ac keys buffer c :
  CompletionFits (CONFIG_SYS_CBSIZE - 2) ac -> length buffer = 513%nat -> relocated c = false ->
  match cli_readline ac keys buffer c, text_run ac keys [] with
  | Some (Returned ret b None c'), Some (TStop ret' t) => ret = ret' /\ cstr b = t /\ c' = c
  | Some Waiting, Some (TCont _) => True
  | None, None => True
  | _, _ => False
  end.
Proof.
  intros Hac Hb Hr. unfold cli_readline, cli_readline_into_buffer.
  destruct (fresh_buffer buffer Hb) as (b & -> & Hl & _). rewrite mbind_Some, Hr.
  pose proof (simple_loop_rel ac keys (mk_simple 0 0 b None) []
    (text_intro 0 b [] b eq_refl Hl eq_refl ltac:(done) ltac:(constructor))) as H.
  destruct (simple_loop _ _ _) as [[s|r s]|], (text_run _ _ _) as [[t|r' t]|]; try done.
  destruct H as (-> & Hc & _ & Hcon). rewrite mbind_Some. by rewrite Hcon.
Qed.

(** ** Witnesses and examples *)

(** Completes [pri] to [print ]. *)
Definition complete_print : completion := fun t _ =>
  Some (if decide (t = str "pri") then Some (str "nt ") else None).

#[export] Instance complete_print_fits : CompletionFits 512 complete_print.
Proof.
  intros t extra _ H Hl. unfold complete_print in H. case_decide; simplify_eq. vm_compute in Hl |- *. split; [done|]. repeat constructor; done.
Qed.

#[export] Instance complete_print_fits_simple : CompletionFits 510 complete_print.
Proof.
  intros t extra _ H Hl. unfold complete_print in H. case_decide; simplify_eq. vm_compute in Hl |- *. split; [done|]. repeat constructor; done.
Qed.


Lemma simple_readline_correct_witness :
  match cli_readline complete_print (str "pri" ++ [9] ++ str "ab cd" ++ [23; 8; 13]) (replicate 513 0) (mk_cli false false hist_init),
        text_run complete_print (str "pri" ++ [9] ++ str "ab cd" ++ [23; 8; 13]) [] with
  | Some (Returned ret b None c'), Some (TStop ret' t) => ret = ret' /\ cstr b = t /\ c' = mk_cli false false hist_init
  | Some Waiting, Some (TCont _) => True
  | None, None => True
  | _, _ => False
  end.
Proof.
  apply (simple_readline_correct complete_print _ (replicate 513 0) (mk_cli false false hist_init)); try done.
  exact complete_print_fits_simple.
Defined.

(** The string in the buffer and the value that a call returns. *)
Definition returned (r : option rl_result) : option (Z * list Z) :=
  match r with Some (Returned ret b _ _) => Some (ret, cstr b) | _ => None end.

(** [pri], tab, [x], left twice, backspace: the [t] of [print] goes. *)
Example edited_line :
  returned (cli_readline complete_print (str "pri" ++ [9; 120; 2; 2; 8; 13]) (replicate 513 0) (mk_cli true false hist_init)) =
  Some (6, str "prin x").
Proof. vm_compute. reflexivity. Qed.

Example erased_word :
  returned (cli_readline complete_print (str "pri" ++ [9] ++ str "ab cd" ++ [23; 8; 13]) (replicate 513 0) (mk_cli false false hist_init)) =
  Some (7, str "print a").
Proof. vm_compute. reflexivity. Qed.

(** The editor takes [CONFIG_SYS_CBSIZE] characters and puts the NUL behind them:
    a buffer of [CONFIG_SYS_CBSIZE] bytes, as that of [do_env_edit], is too short
    by one. *)
Example editenv_buffer_overrun :
  cli_readline_into_buffer complete_print (replicate 512 97 ++ [13]) (replicate 512 0) None 0 false (mk_cli true false hist_init) = None.
Proof. vm_compute. reflexivity. Qed.

(** One character less fits. *)
Example editenv_buffer_fits :
  returned (cli_readline_into_buffer complete_print (replicate 511 97 ++ [13]) (replicate 512 0) None 0 false (mk_cli true false hist_init)) =
  Some (511, replicate 511 97).
Proof. vm_compute. reflexivity. Qed.

(** A NUL that is typed ends the line early: the value that is returned is the
    length of the whole line. *)
Example typed_nul :
  returned (cli_readline complete_print [97; 0; 98; 13] (replicate 513 0) (mk_cli true false hist_init)) = Some (3, str "a").
Proof. vm_compute. reflexivity. Qed.
