(* ===== verification/Command.v ===== *)
(** * Commands ([common/command.c], [env/common.c])

    The command table, running a command, completion and the list of commands.

    A command acts on a state of its own type; a function of the table that
    completes arguments gives the number that it returns and the strings of
    [cmdv] in front of the NULL.  A function is [None] when it reads or writes out
    of bounds.  Console output is left out, except for the list of commands. *)

From S2P Require Import Prelude StringLib Qsort Hashtable EnvText EnvCmd CliReadline.
From Stdlib Require Import Sorted.
Local Open Scope Z_scope.

Definition CONFIG_SYS_MAXARGS : nat := 64.
Definition CMD_RET_SUCCESS : Z := 0.
Definition CMD_FLAG_BOOTD : Z := 0x0002.
Definition CMDV_SIZE : Z := 20.

Definition dots : list Z := str "...".

(** ** The table *)

(** [do_bootd]: whether [cmd] is [do_bootd].  [cmd flag argv] *)
Record cmd_tbl_t (S : Type) := mk_cmd {
  name : list Z;
  maxargs : Z;
  repeatable : Z;
  cmd : Z -> list (list Z) -> S -> Z * S;
  do_bootd : bool;
  usage : option (list Z);
  complete : option (list (list Z) -> Z -> Z -> option (Z * list (list Z)))
}.
Arguments mk_cmd {S}.
Arguments name {S}.
Arguments maxargs {S}.
Arguments repeatable {S}.
Arguments cmd {S}.
Arguments do_bootd {S}.
Arguments usage {S}.
Arguments complete {S}.

(** The length of a command name up to the first dot. *)
Definition cmd_len (c : list Z) : Z := match strchr c 46 with None => strlen c | Some p => p end.

Section Table.
Context {S : Type}.
Implicit Types table : list (cmd_tbl_t S).

(** The loop of [find_cmd_tbl], with [cmdtp_temp] and [n_found]. *)
Fixpoint find_loop (c : list Z) (len : Z) table (temp : option (cmd_tbl_t S)) (n_found : Z) : option (cmd_tbl_t S) :=
  match table with
  | [] => if n_found =? 1 then temp else None
  | cmdtp :: table =>
      if strncmp c (name cmdtp) (Z.to_nat len) =? 0 then
        if len =? strlen (name cmdtp) then Some cmdtp
        else find_loop c len table (Some cmdtp) (n_found + 1)
      else find_loop c len table temp n_found
  end.

(** [cmd] may be NULL. *)
Definition find_cmd_tbl (c : option (list Z)) table : option (cmd_tbl_t S) :=
  c ← c; find_loop c (cmd_len c) table (head table) 0.

Definition find_cmd (c : list Z) table : option (cmd_tbl_t S) := find_cmd_tbl (Some c) table.

(** ** Running a command *)

Definition cmd_usage (cmdtp : cmd_tbl_t S) : Z := 1.

Definition cmd_call (cmdtp : cmd_tbl_t S) (flag : Z) (argv : list (list Z)) (s : S) : Z * S := cmd cmdtp flag argv s.

(** The return value, [*repeatable] and the state. *)
Definition cmd_process table (flag : Z) (argv : list (list Z)) (rep : Z) (s : S) : option (Z * Z * S) :=
  arg0 ← head argv;
  match find_cmd arg0 table with
  | None => Some (1, rep, s)
  | Some cmdtp =>
      let '(rc, flag) :=
        if maxargs cmdtp <? Z.of_nat (length argv) then (CMD_RET_USAGE, flag)
        else if do_bootd cmdtp then
          if negb (Z.land flag CMD_FLAG_BOOTD =? 0) then (CMD_RET_FAILURE, flag)
          else (CMD_RET_SUCCESS, Z.lor flag CMD_FLAG_BOOTD)
        else (CMD_RET_SUCCESS, flag) in
      let '(rc, rep, s) :=
        if rc =? 0 then
          let '(rc, s) := cmd_call cmdtp flag argv s in (rc, Z.land rep (repeatable cmdtp), s)
        else (rc, rep, s) in
      let rc := if rc =? CMD_RET_USAGE then cmd_usage cmdtp else rc in
      Some (rc, rep, s)
  end.

Definition cmd_process_error (err : Z) : Z :=
  if err =? CMD_RET_USAGE then CMD_RET_USAGE
  else if negb (err =? 0) then CMD_RET_FAILURE
  else CMD_RET_SUCCESS.

(** [-2] for [.s], [-1] for another letter. *)
Definition cmd_get_data_size (arg : list Z) (default_size : Z) : option Z :=
  let len := strlen arg in
  if 2 <? len then
    d ← aget arg (len - 2);
    if d =? 46 then
      c ← aget arg (len - 1);
      Some (if c =? 98 then 1 else if c =? 119 then 2 else if c =? 108 then 4
            else if c =? 113 then 8 else if c =? 115 then -2 else -1)
    else Some default_size
  else Some default_size.

(** ** The list of commands *)

(** One pass of the sort over the first [i + 1] commands, and the number of
    swaps.  [x] is [cmd_array[j]]. *)
Fixpoint bubble_pass (i : nat) (x : cmd_tbl_t S) (l : list (cmd_tbl_t S)) : list (cmd_tbl_t S) * nat :=
  match i, l with
  | Datatypes.S i, y :: l =>
      if 0 <? strcmp (name x) (name y) then let '(l, swaps) := bubble_pass i x l in (y :: l, Datatypes.S swaps)
      else let '(l, swaps) := bubble_pass i y l in (x :: l, swaps)
  | _, _ => (x :: l, O)
  end.

(** [for (i = cmd_items - 1; i > 0; --i)] *)
Fixpoint bubble_sort (i : nat) (l : list (cmd_tbl_t S)) : list (cmd_tbl_t S) :=
  match i, l with
  | Datatypes.S i', x :: l' =>
      let '(l, swaps) := bubble_pass i x l' in
      if Nat.eqb swaps 0 then l else bubble_sort i' l
  | _, _ => l
  end.

(** The commands that [help] prints until the user stops it: [ctrlc] tells when. *)
Fixpoint help_list (ctrlc : nat -> bool) (i : nat) (l : list (cmd_tbl_t S)) : Z * list (list Z * list Z) :=
  match l with
  | [] => (0, [])
  | c :: l =>
      if ctrlc i then (1, [])
      else
        let '(rc, out) := help_list ctrlc (Datatypes.S i) l in
        match usage c with None => (rc, out) | Some u => (rc, (name c, u) :: out) end
  end.

(** The loop over the arguments of [help]. *)
Fixpoint help_args table (args : list (list Z)) (rcode : Z) : Z :=
  match args with
  | [] => rcode
  | a :: args =>
      match find_cmd_tbl (Some a) table with
      | Some cmdtp => help_args table args (Z.lor rcode (cmd_usage cmdtp))
      | None => help_args table args 1
      end
  end.

Definition _do_help (ctrlc : nat -> bool) table (argv : list (list Z)) : Z * list (list Z * list Z) :=
  if Nat.eqb (length argv) 1 then help_list ctrlc 0 (bubble_sort (length table - 1) table)
  else (help_args table (tl argv) 0, []).

(** ** Completion *)

(** A word and the rest of the string.  The arguments are NUL-terminated in place. *)
Fixpoint word (s : list Z) : list Z * list Z :=
  match s with
  | c :: s' => if isblank c then ([], s) else let '(w, rest) := word s' in (c :: w, rest)
  | [] => ([], [])
  end.

(** [room] is [argvsz - 1 - argc]. *)
Fixpoint make_argv (room : nat) (s : list Z) : list (list Z) :=
  match room with
  | O => []
  | Datatypes.S room =>
      match skip_blank s with
      | [] => []
      | s => let '(w, rest) := word s in w :: match rest with [] => [] | _ :: rest => make_argv room rest end
      end
  end.

(** The strings that match, cut off with [...] when there are [maxv - 2]. *)
Fixpoint match_loop (matches : cmd_tbl_t S -> bool) (n_found maxv : Z) table : list (list Z) :=
  match table with
  | [] => []
  | c :: table =>
      if matches c then
        if maxv - 2 <=? n_found then [dots] else name c :: match_loop matches (n_found + 1) maxv table
      else match_loop matches n_found maxv table
  end.

Definition complete_cmdv table (argv : list (list Z)) (last_char maxv : Z) : option (Z * list (list Z)) :=
  if maxv <? 2 then Some (-2, [])
  else
    match argv with
    | [] => let l := match_loop (fun _ => true) 0 maxv table in Some (Z.of_nat (length l), l)
    | arg0 :: rest =>
        if negb (Nat.eqb (length rest) 0) || (last_char =? 0) || isblank last_char then
          match find_cmd arg0 table with
          | None => Some (0, [])
          | Some cmdtp =>
              match complete cmdtp with
              | None => Some (0, [])
              | Some f => f argv last_char maxv
              end
          end
        else
          let len := cmd_len arg0 in
          let matches c := negb (strlen (name c) <? len) && (memcmp arg0 (name c) (Z.to_nat len) =? 0) in
          let l := match_loop matches 0 maxv table in Some (Z.of_nat (length l), l)
    end.
End Table.

(** [for (i = 0; i < len; i++, t++, s++) if ( *t != *s) break;]: the new length.
    [t] is shorter than [len] bytes only behind its NUL, which differs. *)
Fixpoint prefix_len (len : nat) (s t : list Z) : nat :=
  match len with
  | O => O
  | S len => if ch t =? ch s then S (prefix_len len (tl s) (tl t)) else O
  end.

Definition find_common_prefix (argv : list (list Z)) : nat :=
  match argv with
  | [] => O
  | anchor :: argv => fold_left (fun len t => prefix_len len anchor t) argv (Z.to_nat (strlen anchor))
  end.

(** [s + k] as a string: [None] when it is behind the terminating NUL. *)
Definition suffix (s : list Z) (k : Z) : option (list Z) :=
  if k <=? Z.of_nat (length s) then Some (drop (Z.to_nat k) s) else None.

Section Complete.
Context {S : Type} (table : list (cmd_tbl_t S)) (prompt CONFIG_SYS_PROMPT : list Z).

(** What is appended: the string and the separator. *)
Definition completion_of (argv : list (list Z)) (i : Z) (cmdv : list (list Z)) : option (option (list Z)) :=
  if i =? 1 then
    arg ← aget argv (Z.of_nat (length argv) - 1);
    c ← head cmdv;
    s ← suffix c (strlen arg);
    Some (Some (s ++ [32]))
  else if 1 <? i then
    let j := Z.of_nat (find_common_prefix cmdv) in
    if negb (j =? 0) then
      arg ← aget argv (Z.of_nat (length argv) - 1);
      let j := j - strlen arg in
      if 0 <? j then c ← head cmdv; s ← suffix c (strlen arg); Some (Some (take (Z.to_nat j) s))
      else Some None
    else Some None
  else Some None.

Definition cmd_auto_complete : completion := fun buf n =>
  if negb (strcmp prompt CONFIG_SYS_PROMPT =? 0) then Some None
  else
    let cnt := strlen buf in
    last_char ← if 1 <=? cnt then aget buf (cnt - 1) else Some 0;
    if CONFIG_SYS_CBSIZE <? cnt then None
    else
      let argv := make_argv CONFIG_SYS_MAXARGS buf in
      '(i, cmdv) ← complete_cmdv table argv last_char CMDV_SIZE;
      if i =? 0 then
        if (1 <? Z.of_nat (length argv)) then Some None else Some (Some [])
      else
        s ← completion_of argv i cmdv;
        match s with
        | None => Some (Some [])
        | Some s => Some (Some (if CONFIG_SYS_CBSIZE - 2 <=? n + Z.of_nat (length s) then [] else s))
        end.
End Complete.

(** ** Completion of variables *)

Section Variables.
Context {C : Type}.
Implicit Types htab : hsearch_data C.

(** The names, and the last index: 0 when all were found. *)
Fixpoint env_complete_loop (fuel : nat) (var : list Z) (idx found maxv bufsz : Z) htab : option (Z * list (list Z)) :=
  match fuel with
  | O => None
  | Datatypes.S fuel =>
      '(idx, slot, _) ← hmatch_r var idx htab;
      if idx =? 0 then Some (0, [])
      else
        slot ← slot;
        s ← get_slot htab slot;
        k ← key (entry s);
        let vallen := strlen k + 1 in
        if (maxv - 2 <=? found) || (bufsz <? vallen) then Some (idx, [])
        else
          '(idx, l) ← env_complete_loop fuel var idx (found + 1) maxv (bufsz - vallen) htab;
          Some (idx, k :: l)
  end.

Definition env_complete (var : list Z) (maxv bufsz : Z) htab : option (Z * list (list Z)) :=
  '(idx, l) ← env_complete_loop (Datatypes.S (Datatypes.S (Z.to_nat (size htab)))) var 0 0 maxv bufsz htab;
  l ← qsort strcmp l;
  let l := if idx =? 0 then l else l ++ [dots] in
  Some (Z.of_nat (length l), l).

Definition var_complete htab (argv : list (list Z)) (last_char maxv : Z) : option (Z * list (list Z)) :=
  let space := (last_char =? 0) || isblank last_char in
  match argv with
  | [_] => if space then env_complete [] maxv 512 htab else Some (0, [])
  | [_; v] => if negb space then env_complete v maxv 512 htab else Some (0, [])
  | _ => Some (0, [])
  end.
End Variables.

(** ** Finding a command *)

(** A prefix test that evaluates. *)
Definition starts (k s : list Z) : bool := bool_decide (k = take (length k) s).

Lemma starts_prefix k s : starts k s = true <-> k `prefix_of` s.
Proof.
  unfold starts. rewrite bool_decide_eq_true. split.
  - intros ->. by exists (drop (length k) s); rewrite take_drop.
  - intros [r ->]. by rewrite take_app_length.
Qed.

Lemma strncmp_starts n : forall c s, cstring c -> cstring s -> (n <= length c)%nat ->
  (strncmp c s n =? 0) = starts (take n c) s.
Proof.
  induction n as [|n IH]; intros c s Hc Hs Hn; [done|]. destruct c as [|x c]; [simpl in *; lia|].
  apply Forall_cons in Hc as [Hx Hc]. cbn [strncmp ch hd tl]. change (take (S n) (x :: c)) with (x :: take n c).
  pose proof (ch_cstring s Hs) as Hy. pose proof (swrap8_0 x (ch s) ltac:(unfold byte_ok; lia) Hy) as Hw.
  rewrite (proj2 (Z.eqb_neq x 0)) by lia. rewrite orb_false_r.
  unfold starts. cbn [length]. destruct s as [|y s].
  - cbn [ch hd] in *. rewrite take_nil. rewrite (proj2 (Z.eqb_neq (swrap 8 (x - 0)) 0)) by (intros E; apply Hw in E; lia). cbn [negb orb].
    rewrite (proj2 (Z.eqb_neq _ 0)) by (intros E; apply Hw in E; lia). done.
  - cbn [ch hd tl] in *. apply Forall_cons in Hs as [_ Hs]. rewrite firstn_cons.
    destruct (Z.eqb_spec (swrap 8 (x - y)) 0) as [E|E]; cbn [negb orb].
    + apply Hw in E as ->. rewrite Z.sub_diag. transitivity (starts (take n c) s).
      * destruct n as [|n]; [done|]. cbn [Nat.eqb]. apply IH; [done..|simpl in *; lia].
      * unfold starts. apply bool_decide_ext. split; [intros <-|intros [= <-]]; done.
    + rewrite (proj2 (Z.eqb_neq _ 0)) by done. symmetry. apply bool_decide_eq_false. intros [= -> _]. by apply E, Hw.
Qed.

(** The name of a command up to the first dot. *)
Fixpoint stem (c : list Z) : list Z := match c with x :: c => if x =? 46 then [] else x :: stem c | [] => [] end.

Lemma cmd_len_stem c : cstring c -> cmd_len c = Z.of_nat (length (stem c)) /\ take (length (stem c)) c = stem c.
Proof.
  unfold cmd_len. intros Hc. assert (match strchr c 46 with Some p => p | None => strlen c end = Z.of_nat (length (stem c)) /\
    take (length (stem c)) c = stem c) as []; [|by destruct (strchr c 46)].
  induction Hc as [|x c Hx Hc [IH1 IH2]]; [done|]. cbn [strchr stem]. change (u8 46) with 46.
  destruct (Z.eqb_spec x 46) as [->|Hne]; [done|]. rewrite (proj2 (Z.eqb_neq x 0)) by lia. cbn [length]. rewrite firstn_cons, IH2.
  split; [|done]. cbn [strlen]. rewrite (proj2 (Z.eqb_neq x 0)) by lia. destruct (strchr c 46); cbn in *; lia.
Qed.

Lemma stem_cstring c : cstring c -> cstring (stem c).
Proof. induction 1 as [|x c Hx _ IH]; [constructor|]. cbn [stem]. case_if; [constructor|by constructor]. Qed.

Section Find.
Context {S : Type}.
Implicit Types table : list (cmd_tbl_t S).

Definition names_ok table : Prop := Forall (fun c => cstring (name c)) table.

Definition full_match (k : list Z) (x : cmd_tbl_t S) : bool := bool_decide (name x = k).

(** The command of that name, or else the only one whose name starts so. *)
Definition find_spec (k : list Z) table : option (cmd_tbl_t S) :=
  match List.find (full_match k) table with
  | Some x => Some x
  | None => match List.filter (fun x => starts k (name x)) table with [x] => Some x | _ => None end
  end.

Lemma find_loop_spec c table : forall temp n_found, cstring c -> names_ok table -> 0 <= n_found ->
  find_loop c (cmd_len c) table temp n_found =
  match List.find (full_match (stem c)) table with
  | Some x => Some x
  | None =>
      let l := List.filter (fun x => starts (stem c) (name x)) table in
      if n_found + Z.of_nat (length l) =? 1 then match l with x :: _ => Some x | [] => temp end else None
  end.
Proof.
  induction table as [|x table IH]; intros temp n_found Hc Ht Hn; cbn [find_loop List.find List.filter length].
  - by rewrite Z.add_0_r.
  - apply Forall_cons in Ht as [Hx Ht]. destruct (cmd_len_stem c Hc) as [Hl Hs]. pose proof (stem_cstring c Hc) as Hcs.
    assert (length (stem c) <= length c)%nat as Hle by (rewrite <- Hs, length_take; lia).
    rewrite Hl, Nat2Z.id, (strncmp_starts _ c (name x)), Hs by done. rewrite <- Hl. unfold full_match at 1.
    rewrite (strlen_cstring (name x)) by done.
    destruct (starts (stem c) (name x)) eqn:E.
    + apply starts_prefix in E as [r E]. destruct (Z.eqb_spec (cmd_len c) (Z.of_nat (length (name x)))) as [El|El].
      * rewrite bool_decide_eq_true_2; [done|]. rewrite E, length_app in El. destruct r; [by rewrite app_nil_r in E|simpl in El; lia].
      * rewrite bool_decide_eq_false_2 by (intros E'; rewrite E' in El; lia). rewrite IH by (done || lia).
        destruct (List.find _ table); [done|]. cbn zeta. cbn [length].
        replace (n_found + 1 + Z.of_nat (length (List.filter (λ x, starts (stem c) (name x)) table))) with
          (n_found + Z.of_nat (Datatypes.S (length (List.filter (λ x, starts (stem c) (name x)) table)))) by lia.
        destruct (Z.eqb_spec (n_found + Z.of_nat (Datatypes.S (length (List.filter (λ x, starts (stem c) (name x)) table)))) 1); [|done].
        destruct (List.filter _ table); [done|simpl in *; lia].
    + rewrite bool_decide_eq_false_2; [by apply IH|]. intros E'. rewrite E' in E. 
      by rewrite (proj2 (starts_prefix (stem c) (stem c))) in E.
Qed.

End Find.

(** ** Completing a command *)

(** The longest common prefix. *)
Definition is_lcp (p : list Z) (l : list (list Z)) : Prop :=
  (forall x, x ∈ l -> p `prefix_of` x) /\ forall q, (forall x, x ∈ l -> q `prefix_of` x) -> q `prefix_of` p.

Lemma prefix_len_spec len : forall s t, cstring s -> cstring t -> (len <= length s)%nat ->
  (prefix_len len s t <= len)%nat /\ take (prefix_len len s t) s `prefix_of` t /\
  forall q, q `prefix_of` take len s -> q `prefix_of` t -> (length q <= prefix_len len s t)%nat.
Proof.
  induction len as [|len IH]; intros s t Hs Ht Hl; cbn [prefix_len].
  - split; [done|]. rewrite take_0. split; [apply prefix_nil|]. intros q Hq _. by apply prefix_nil_inv in Hq as ->.
  - destruct s as [|x s]; [simpl in *; lia|]. apply Forall_cons in Hs as [Hx Hs]. rewrite firstn_cons. cbn [ch hd tl].
    destruct t as [|y t]; cbn [ch hd tl].
    { rewrite (proj2 (Z.eqb_neq 0 x)) by lia. split; [lia|]. rewrite take_0. split; [done|]. intros q _ Hq. by apply prefix_nil_inv in Hq as ->. }
    apply Forall_cons in Ht as [_ Ht]. destruct (Z.eqb_spec y x) as [->|Hne].
    + destruct (IH s t Hs Ht ltac:(simpl in *; lia)) as (H1 & H2 & H3). split; [lia|]. rewrite firstn_cons. split; [by apply prefix_cons|].
      intros [|z q] Hq Hq'; [simpl; lia|]. apply prefix_cons_inv_2 in Hq, Hq'. specialize (H3 q Hq Hq'). simpl. lia.
    + rewrite take_0. split; [lia|]. split; [apply prefix_nil|]. intros [|z q] Hq Hq'; [done|].
      apply prefix_cons_inv_1 in Hq, Hq'. congruence.
Qed.

Lemma take_prefix_mono (r m : nat) (l : list Z) : (r <= m)%nat -> take r l `prefix_of` take m l.
Proof. intros Hr. rewrite <- (Nat.min_l r m), <- take_take by done. apply prefix_take. Qed.

Lemma prefix_take_iff (q l : list Z) m : q `prefix_of` l -> (length q <= m)%nat -> q `prefix_of` take m l.
Proof. intros [r ->] Hq. rewrite take_app_ge by done. by eexists. Qed.

Lemma fold_prefix_spec anchor l : cstring anchor -> Forall cstring l -> forall len, (len <= length anchor)%nat ->
  let r := fold_left (fun len t => prefix_len len anchor t) l len in
  (r <= len)%nat /\ (forall x, x ∈ l -> take r anchor `prefix_of` x) /\
  forall q, q `prefix_of` take len anchor -> (forall x, x ∈ l -> q `prefix_of` x) -> (length q <= r)%nat.
Proof.
  intros Ha Hl. induction Hl as [|t l Ht Hl IH]; intros len Hlen; cbn [fold_left].
  - split; [done|]. split; [by intros ? ?%elem_of_nil|]. intros q Hq _. apply prefix_length in Hq. rewrite length_take in Hq. lia.
  - destruct (prefix_len_spec len anchor t Ha Ht Hlen) as (H1 & H2 & H3).
    destruct (IH (prefix_len len anchor t) ltac:(lia)) as (I1 & I2 & I3). split; [lia|]. split.
    + intros x [->|Hx]%elem_of_cons; [|by apply I2]. etransitivity; [by apply take_prefix_mono|exact H2].
    + intros q Hq Hx. apply I3; [|intros; apply Hx; by right].
      apply prefix_take_iff; [|apply H3; [done|apply Hx; left]]. etransitivity; [exact Hq|apply prefix_take].
Qed.

Lemma find_common_prefix_lcp x l : cstring x -> Forall cstring l ->
  is_lcp (take (find_common_prefix (x :: l)) x) (x :: l) /\ (find_common_prefix (x :: l) <= length x)%nat.
Proof.
  intros Hx Hl. cbn [find_common_prefix]. rewrite strlen_cstring, Nat2Z.id by done.
  destruct (fold_prefix_spec x l Hx Hl (length x) ltac:(done)) as (H1 & H2 & H3). split; [|done]. split.
  - intros y [->|Hy]%elem_of_cons; [apply prefix_take|by apply H2].
  - intros q Hq. assert (q `prefix_of` x) as Hqx by (apply Hq; left).
    apply prefix_take_iff; [done|]. apply H3; [|intros; apply Hq; by right]. by rewrite firstn_all.
Qed.

(** *** Words *)

Definition no_blank (w : list Z) : Prop := Forall (fun c => isblank c = false) w.

Lemma word_no_blank w : no_blank w -> word w = (w, []).
Proof. induction 1 as [|c w Hc _ IH]; [done|]. cbn [word]. by rewrite Hc, IH. Qed.

Lemma make_argv_word w room : no_blank w -> w <> [] -> make_argv (S room) w = [w].
Proof.
  intros Hw Hne. destruct w as [|c w]; [done|]. cbn [make_argv skip_blank].
  assert (isblank c = false) as -> by (by apply Forall_cons in Hw as [? _]). by rewrite word_no_blank.
Qed.

Section Matching.
Context {S : Type}.
Implicit Types table : list (cmd_tbl_t S).

Lemma match_loop_spec m maxv table : forall n_found,
  n_found + Z.of_nat (length (List.filter m table)) <= maxv - 2 ->
  match_loop m n_found maxv table = map name (List.filter m table).
Proof.
  induction table as [|c table IH]; intros n_found Hn; [done|]. cbn [match_loop List.filter] in *.
  destruct (m c); [|by apply IH]. cbn [length map] in *. rewrite (proj2 (Z.leb_gt _ _)) by lia.
  f_equal. apply IH. lia.
Qed.

Lemma match_loop_strings m maxv table : names_ok table -> forall n_found, Forall cstring (match_loop m n_found maxv table).
Proof.
  induction 1 as [|c table Hc Ht IH]; intros n_found; [constructor|]. cbn [match_loop]. repeat case_if; try apply IH.
  - repeat constructor; cbn; lia.
  - by constructor.
Qed.

(** The commands that are offered for a word without a dot. *)
Lemma matches_starts w (c : cmd_tbl_t S) : cstring w -> cstring (name c) ->
  negb (strlen (name c) <? Z.of_nat (length w)) && (memcmp w (name c) (length w) =? 0) = starts w (name c).
Proof.
  intros Hw Hc. rewrite strlen_cstring by done. destruct (Z.ltb_spec (Z.of_nat (length (name c))) (Z.of_nat (length w))) as [Hl|Hl]; cbn [negb andb].
  - symmetry. apply not_true_iff_false. intros [r E]%starts_prefix. rewrite E, length_app in Hl. lia.
  - unfold starts. pose proof (memcmp_0 (length w) w (name c) ltac:(done) ltac:(lia)) as H. rewrite firstn_all in H.
    destruct (Z.eqb_spec (memcmp w (name c) (length w)) 0) as [E|E].
    + symmetry. apply bool_decide_eq_true. by apply H.
    + symmetry. apply bool_decide_eq_false. intros E'. by apply E, H.
Qed.
Lemma stem_no_dot w : Forall (fun c => c <> 46) w -> stem w = w.
Proof. induction 1 as [|c w Hc _ IH]; [done|]. cbn [stem]. rewrite (proj2 (Z.eqb_neq c 46)) by done. by f_equal. Qed.

(** The names that start with the word. *)
Definition offered (w : list Z) table : list (list Z) := map name (List.filter (fun c => starts w (name c)) table).

Lemma offered_prefix w table x : x ∈ offered w table -> w `prefix_of` x.
Proof.
  intros Hx. apply list_elem_of_In, in_map_iff in Hx as (c & <- & Hc). apply filter_In in Hc as [_ Hc]. by apply starts_prefix.
Qed.

Lemma offered_cstring w table : names_ok table -> Forall cstring (offered w table).
Proof.
  intros Ht. apply Forall_forall. intros x Hx. apply list_elem_of_In, in_map_iff in Hx as (c & <- & Hc).
  apply filter_In in Hc as [Hc _]. apply list_elem_of_In in Hc. exact (proj1 (Forall_forall _ _) Ht _ Hc).
Qed.

Lemma complete_cmdv_word table w last_char :
  names_ok table -> cstring w -> Forall (fun c => c <> 46) w -> last_char <> 0 -> isblank last_char = false ->
  (length (offered w table) <= 18)%nat ->
  complete_cmdv table [w] last_char CMDV_SIZE = Some (Z.of_nat (length (offered w table)), offered w table).
Proof.
  intros Ht Hw Hd Hl Hb Hle. unfold complete_cmdv. cbn [length Nat.eqb negb orb Z.ltb Z.compare CMDV_SIZE Pos.compare Pos.compare_cont].
  rewrite (proj2 (Z.eqb_neq last_char 0)), Hb by done. cbn [orb].
  destruct (cmd_len_stem w Hw) as [-> _]. rewrite (stem_no_dot w), Nat2Z.id by done.
  assert (List.filter (fun c => negb (strlen (name c) <? Z.of_nat (length w)) && (memcmp w (name c) (length w) =? 0)) table =
    List.filter (fun c => starts w (name c)) table) as E.
  { clear -Ht Hw. induction Ht as [|c table Hc Ht IH]; [done|]. cbn [List.filter]. by rewrite IH, matches_starts. }
  unfold offered in *. rewrite length_map in Hle.
  rewrite match_loop_spec; rewrite E; [done|]. change (CMDV_SIZE - 2) with 18. lia.
Qed.

Lemma last_char_word w : cstring w -> no_blank w -> w <> [] ->
  exists c, aget w (strlen w - 1) = Some c /\ c <> 0 /\ isblank c = false.
Proof.
  intros Hw Hb Hne. rewrite strlen_cstring by done. destruct (exists_last Hne) as (w' & c & ->).
  exists c. apply Forall_app in Hw as [_ Hc], Hb as [_ Hc']. rewrite !Forall_singleton in *.
  rewrite length_app. split; [|split; [lia|done]]. apply aget_middle. simpl. lia.
Qed.

(** What is appended, when the names all start with the word. *)
Lemma completion_of_spec w found : w <> [] -> cstring w -> Forall cstring found -> (forall x, x ∈ found -> w `prefix_of` x) -> found <> [] ->
  exists p, completion_of [w] (Z.of_nat (length found)) found = Some (if bool_decide (p = w) then None else Some (drop (length w) p)) /\
    w `prefix_of` p /\ match found with [x] => p = x ++ [32] | _ => is_lcp p found end.
Proof.
  intros Hne Hw Hf Hp Hfn. unfold completion_of. destruct found as [|x [|y l]]; [done|..].
  - destruct (Hp x ltac:(left)) as [r ->]. exists ((w ++ r) ++ [32]).
    rewrite (aget_middle [] [] w), mbind_Some by done. cbn [Z.eqb Z.of_nat length Pos.of_succ_nat Pos.eqb head]. rewrite mbind_Some, strlen_cstring by done.
    unfold suffix. rewrite (proj2 (Z.leb_le _ _)), mbind_Some by (rewrite length_app; lia). rewrite Nat2Z.id, <- app_assoc, !drop_app_length.
    split; [|split; [by eexists|done]]. rewrite bool_decide_eq_false_2; [done|].
    intros E. apply (f_equal length) in E. rewrite !length_app in E. simpl in E. lia.
  - apply Forall_cons in Hf as [Hx Hf]. destruct (find_common_prefix_lcp x (y :: l) Hx Hf) as [[L1 L2] Hle].
    set (j := find_common_prefix (x :: y :: l)) in *. exists (take j x).
    assert (w `prefix_of` take j x) as Hwp by (by apply L2). split; [|done].
    pose proof (prefix_length _ _ Hwp) as Hwj. rewrite length_take, Nat.min_l in Hwj by done.
    assert (0 < length w)%nat as Hw0 by (destruct w; [done|simpl; lia]).
    rewrite (proj2 (Z.eqb_neq _ 1)), (proj2 (Z.ltb_lt 1 _)) by (simpl; lia).
    rewrite (proj2 (Z.eqb_neq (Z.of_nat j) 0)) by lia. cbn [negb]. rewrite (aget_middle [] [] w), mbind_Some by done.
    rewrite strlen_cstring by done. destruct Hwp as [r E]. case_if.
    + cbn [head]. rewrite mbind_Some. unfold suffix. rewrite (proj2 (Z.leb_le _ (Z.of_nat (length x)))), mbind_Some by lia.
      rewrite bool_decide_eq_false_2.
      * rewrite Nat2Z.id, skipn_firstn_comm. do 3 f_equal. lia.
      * intros E'. apply (f_equal length) in E'. rewrite length_take in E'. lia.
    + rewrite bool_decide_eq_true_2; [done|]. rewrite E. apply (f_equal length) in E. rewrite length_take, length_app in E.
      destruct r; [by rewrite app_nil_r|simpl in E; lia].
Qed.
End Matching.

(** ** What the editor needs of completion *)

(** The names, and what the functions of the table offer, are strings. *)
Class CommandsOk {S} (table : list (cmd_tbl_t S)) : Prop := {
  co_names : names_ok table;
  co_complete : forall c f argv last_char maxv i l, c ∈ table -> complete c = Some f ->
    f argv last_char maxv = Some (i, l) -> Forall no_nul l
}.

Lemma cstring_no_nul s : cstring s -> no_nul s.
Proof. intros H. eapply Forall_impl; [exact H|]. cbn. lia. Qed.

Section Fits.
Context {S : Type} (table : list (cmd_tbl_t S)) `{!CommandsOk table} (prompt CONFIG_SYS_PROMPT : list Z).

Lemma find_cmd_in c x : find_cmd c table = Some x -> x ∈ table.
Proof.
  unfold find_cmd, find_cmd_tbl. rewrite mbind_Some. intros H.
  assert (forall tbl temp n, find_loop c (cmd_len c) tbl temp n = Some x -> temp = Some x \/ x ∈ tbl) as Hloop.
  { clear H. induction tbl as [|y tbl IH]; intros temp n H; cbn [find_loop] in H.
    - case_match; [by left|done].
    - repeat case_match; simplify_eq; [right; left|..]; apply IH in H as [H|H]; simplify_eq; try (by left); right; (left || by right). }
  destruct (Hloop _ _ _ H) as [Hh|?]; [|done]. destruct table; [done|]. cbn in Hh. simplify_eq. left.
Qed.

Lemma complete_cmdv_strings argv last_char i l :
  complete_cmdv table argv last_char CMDV_SIZE = Some (i, l) -> Forall no_nul l.
Proof.
  intros H. assert (forall m n, Forall no_nul (match_loop m n CMDV_SIZE table)) as Hm.
  { intros m n. eapply Forall_impl; [apply match_loop_strings, co_names|]. apply cstring_no_nul. }
  unfold complete_cmdv in H. case_match; [done|]. destruct argv as [|arg0 rest]; [by simplify_eq|].
  case_match; [|by simplify_eq]. destruct (find_cmd arg0 table) as [c|] eqn:E; [|by simplify_eq].
  destruct (complete c) as [f|] eqn:Ec; [|by simplify_eq]. eapply co_complete; [by eapply find_cmd_in|done|done].
Qed.

Lemma completion_of_strings argv i l s : Forall no_nul l -> completion_of argv i l = Some (Some s) -> no_nul s.
Proof.
  intros Hl H. assert (forall c k r, head l = Some c -> suffix c k = Some r -> no_nul r) as Hs.
  { intros c k r Hc Hr. destruct l as [|x l]; [done|]. cbn in Hc. simplify_eq. apply Forall_cons in Hl as [Hc _]. unfold suffix in Hr.
    case_match; simplify_eq. by apply Forall_drop. }
  unfold completion_of, mbind, option_bind in H. repeat (case_match; simplify_eq); first
    [apply no_nul_snoc; [by eapply Hs|done] | apply Forall_take; by eapply Hs].
Qed.

#[export] Instance cmd_auto_complete_fits len : 510 <= len -> CompletionFits len (cmd_auto_complete table prompt CONFIG_SYS_PROMPT).
Proof.
  intros Hlen t extra Nt H Ht. unfold cmd_auto_complete in H. case_match; [done|].
  destruct (if 1 <=? strlen t then _ else _) as [lc|]; [|done]. rewrite mbind_Some in H. case_match; [done|].
  destruct (complete_cmdv _ _ _ _) as [[i l]|] eqn:El; [|done]. rewrite mbind_Some in H. apply complete_cmdv_strings in El.
  assert (no_nul []) by constructor.
  case_match; [case_match; simplify_eq; split; [simpl; lia|done]|]. destruct (completion_of _ _ _) as [[s|]|] eqn:Es; [..|done]; rewrite mbind_Some in H.
  - apply completion_of_strings in Es; [|done]. simplify_eq. unfold CONFIG_SYS_CBSIZE. case_match; (split; [simpl; lia|done]).
  - simplify_eq. split; [simpl; lia|done].
Qed.
End Fits.

(** *** Variables *)

Definition keys_ascii {C} (htab : hsearch_data C) : Prop :=
  forall i s k, get_slot htab i = Some s -> key (entry s) = Some k -> ascii k.

Lemma env_complete_loop_ascii {C} (htab : hsearch_data C) fuel : forall var idx found maxv bufsz r l,
  keys_ascii htab -> env_complete_loop fuel var idx found maxv bufsz htab = Some (r, l) -> Forall ascii l.
Proof.
  induction fuel as [|fuel IH]; intros var idx found maxv bufsz r l Hk H; [done|]. cbn [env_complete_loop] in H.
  destruct (hmatch_r var idx htab) as [[[idx' slot] ?]|]; [|done]. rewrite mbind_Some in H.
  case_match; [by simplify_eq|]. destruct slot as [slot|]; [|done]. rewrite mbind_Some in H.
  destruct (get_slot htab slot) as [s|] eqn:Es; [|done]. rewrite mbind_Some in H.
  destruct (key (entry s)) as [k|] eqn:Ek; [|done]. rewrite mbind_Some in H. case_match; [by simplify_eq|].
  destruct (env_complete_loop _ _ _ _ _ _ _) as [[r' l']|] eqn:El; [|done]. rewrite mbind_Some in H. simplify_eq.
  constructor; [by eapply Hk|by eapply IH].
Qed.

Lemma strcmp_total a b : ascii a -> ascii b -> 0 < strcmp a b -> strcmp b a <= 0.
Proof. intros Ha Hb. rewrite !strcmp_lexdiff by done. rewrite (lexdiff_opp a b). lia. Qed.

Lemma strcmp_trans a b c : ascii a -> ascii b -> ascii c -> strcmp a b <= 0 -> strcmp b c <= 0 -> strcmp a c <= 0.
Proof. intros Ha Hb Hc. rewrite !strcmp_lexdiff by done. by apply lexdiff_trans. Qed.

Lemma env_complete_strings {C} (htab : hsearch_data C) var maxv bufsz i l :
  keys_ascii htab -> env_complete var maxv bufsz htab = Some (i, l) -> Forall no_nul l.
Proof.
  intros Hk H. unfold env_complete in H.
  destruct (env_complete_loop _ _ _ _ _ _ _) as [[r l']|] eqn:El; [|done]. rewrite mbind_Some in H.
  apply env_complete_loop_ascii in El; [|done].
  destruct (qsort_sorts strcmp ascii strcmp_total strcmp_trans l' El) as (l2 & Hq & Hp & _). rewrite Hq, mbind_Some in H. simplify_eq.
  assert (Forall no_nul l2) as Hl2.
  { rewrite Hp. eapply Forall_impl; [exact El|]. intros x Hx. by apply cstring_no_nul, ascii_cstring. }
  case_if; [done|]. apply Forall_app. split; [done|]. repeat constructor; done.
Qed.

Lemma var_complete_strings {C} (htab : hsearch_data C) argv last_char maxv i l :
  keys_ascii htab -> var_complete htab argv last_char maxv = Some (i, l) -> Forall no_nul l.
Proof.
  intros Hk H. unfold var_complete in H.
  repeat (case_match; simplify_eq; try constructor); by eapply env_complete_strings.
Qed.

(** ** The sort of the list of commands *)

Section Sort.
Context {S : Type}.
Implicit Types (x y m : cmd_tbl_t S) (l a b : list (cmd_tbl_t S)).

Definition named_le x y : Prop := strcmp (name x) (name y) <= 0.
Definition ascii_names l : Prop := Forall (fun c => ascii (name c)) l.

Lemma named_le_trans x y m : ascii (name x) -> ascii (name y) -> ascii (name m) -> named_le x y -> named_le y m -> named_le x m.
Proof. apply strcmp_trans. Qed.

Lemma named_le_refl x : ascii (name x) -> named_le x x.
Proof. intros H. unfold named_le. by rewrite (proj2 (strcmp_0 _ _ (ascii_cstring _ H) (ascii_cstring _ H)) eq_refl). Qed.

Lemma last_ascii a m l : a ++ [m] ≡ₚ l -> ascii_names l -> ascii (name m).
Proof.
  intros Hp Hl. unfold ascii_names in Hl. rewrite <- Hp in Hl. apply Forall_app in Hl as [_ Hm]. by rewrite Forall_singleton in Hm.
Qed.

(** A pass takes a largest command to the end; without a swap the commands were
    in order. *)
Lemma bubble_pass_spec a : forall x b, ascii_names (x :: a) -> exists a' m swaps,
  bubble_pass (length a) x (a ++ b) = (a' ++ m :: b, swaps) /\ a' ++ [m] ≡ₚ x :: a /\
  Forall (fun y => named_le y m) (x :: a) /\
  (swaps = 0%nat -> a' ++ [m] = x :: a /\ StronglySorted named_le (x :: a)).
Proof.
  induction a as [|y a IH]; intros x b Hn; cbn [length app bubble_pass].
  - exists [], x, 0%nat. split_and!; [done|done|..].
    + apply Forall_cons in Hn as [Hx _]. by constructor; [apply named_le_refl|].
    + intros _. split; [done|]. by repeat constructor.
  - apply Forall_cons in Hn as [Hx Hn]. pose proof Hn as [Hy Ha]%Forall_cons. destruct (Z.ltb_spec 0 (strcmp (name x) (name y))) as [Hgt|Hle].
    + destruct (IH x b) as (a' & m & swaps & -> & Hp & Hm & _); [by constructor|].
      exists (y :: a'), m, (Datatypes.S swaps). split_and!; [done| | |done].
      * rewrite (Permutation_swap y x a), <- Hp. done.
      * apply Forall_cons in Hm as [Hxm Hm]. constructor; [done|]. constructor; [|done].
        pose proof (last_ascii _ _ _ Hp ltac:(by constructor)) as Hnm.
        apply (named_le_trans y x m); try done. by apply strcmp_total.
    + destruct (IH y b Hn) as (a' & m & swaps & -> & Hp & Hm & Hs).
      exists (x :: a'), m, swaps. split_and!; [done|by rewrite <- Hp|..].
      * constructor; [|done]. apply Forall_cons in Hm as [Hym Hm].
        pose proof (last_ascii _ _ _ Hp Hn) as Hnm.
        by apply (named_le_trans x y m).
      * intros H0. destruct (Hs H0) as [E Hss]. split; [by rewrite <- E|]. constructor; [done|].
        apply Forall_cons. split; [done|]. apply StronglySorted_inv in Hss as [_ Hya].
        apply Forall_forall. intros z Hz. apply (named_le_trans x y z); try done.
        -- exact (proj1 (Forall_forall _ _) Ha _ Hz).
        -- exact (proj1 (Forall_forall _ _) Hya _ Hz).
Qed.

Lemma sorted_concat a b : StronglySorted named_le a -> StronglySorted named_le b ->
  Forall (fun y => Forall (named_le y) b) a -> StronglySorted named_le (a ++ b).
Proof.
  induction 1 as [|x a Ha IH Hx]; intros Hb Hab; [done|]. apply Forall_cons in Hab as [Hxb Hab]. cbn [app].
  constructor; [by apply IH|]. by apply Forall_app.
Qed.

(** [a]: what is still to be sorted. *)
Lemma bubble_sort_spec i : forall a b, length a = Datatypes.S i -> ascii_names a -> StronglySorted named_le b ->
  Forall (fun y => Forall (named_le y) b) a ->
  bubble_sort i (a ++ b) ≡ₚ a ++ b /\ StronglySorted named_le (bubble_sort i (a ++ b)).
Proof.
  induction i as [|i IH]; intros a b Hl Hn Hb Hab.
  - destruct a as [|x [|? ?]]; try done. split; [done|]. apply sorted_concat; [by repeat constructor|done..].
  - destruct a as [|x a]; [done|]. injection Hl as Hl. destruct (bubble_pass_spec a x b Hn) as (a' & m & swaps & E & Hp & Hm & Hs).
    rewrite Hl in E. change (bubble_sort (Datatypes.S i) ((x :: a) ++ b)) with
      (let '(l, swaps) := bubble_pass (Datatypes.S i) x (a ++ b) in if Nat.eqb swaps 0 then l else bubble_sort i l).
    rewrite E. assert (a' ++ m :: b ≡ₚ (x :: a) ++ b) as Hpp by (rewrite <- Hp, <- app_assoc; done).
    destruct (Nat.eqb_spec swaps 0) as [H0|_].
    + destruct (Hs H0) as [E' Hss]. split; [done|]. change (m :: b) with ([m] ++ b). rewrite app_assoc, E'. by apply sorted_concat.
    + pose proof (Permutation_length Hp) as Hlp. rewrite length_app in Hlp. simpl in Hlp.
      assert (forall P, Forall P (x :: a) -> Forall P a' /\ P m) as Hfor.
      { intros P HP. rewrite <- Hp in HP. apply Forall_app in HP as [? HP]. by rewrite Forall_singleton in HP. }
      destruct (Hfor _ Hm) as [Hm' _], (Hfor _ Hab) as [Hab' Hmb], (Hfor _ Hn) as [Hn' _].
      destruct (IH a' (m :: b)) as [I1 I2]; [lia|done|by constructor| |split; [by rewrite I1|done]].
      apply Forall_forall. intros z Hz. constructor; [exact (proj1 (Forall_forall _ _) Hm' _ Hz)|exact (proj1 (Forall_forall _ _) Hab' _ Hz)].
Qed.
End Sort.

(** ** Properties *)

(** A command is found by its name up to the first dot: the first one of that
    name, or else the only one whose name starts so; an abbreviation that fits
    several is not found. *)
Theorem find_cmd_correct {S} (table : list (cmd_tbl_t S)) c :
  cstring c -> names_ok table -> find_cmd c table = find_spec (stem c) table.
Proof.
  intros Hc Ht. unfold find_cmd, find_cmd_tbl. rewrite mbind_Some, find_loop_spec by done. unfold find_spec.
  destruct (List.find _ table); [done|]. cbn zeta. rewrite Z.add_0_l.
  destruct (List.filter _ table) as [|x [|y l]]; done || (rewrite (proj2 (Z.eqb_neq _ 1)); [done|simpl; lia]).
Qed.

(** Completing a command: when at most 18 names of the table start with the
    word in front of the cursor, the editor appends the rest of the name and a
    space if there is one such command, and otherwise what their names have in
    common beyond the word, if the line has room for it. *)
Theorem completion_correct {S} (table : list (cmd_tbl_t S)) prompt w :
  names_ok table -> cstring prompt -> cstring w -> no_blank w -> Forall (fun c => c <> 46) w -> w <> [] ->
  Z.of_nat (length w) <= CONFIG_SYS_CBSIZE -> (length (offered w table) <= 18)%nat ->
  exists p, cmd_auto_complete table prompt prompt w (Z.of_nat (length w)) =
      Some (Some (if CONFIG_SYS_CBSIZE - 2 <=? Z.of_nat (length p) then [] else drop (length w) p)) /\
    match offered w table with [] => p = w | [x] => p = x ++ [32] | l => is_lcp p l end.
Proof.
  intros Ht Hpr Hw Hb Hd Hne Hlen Hle. unfold cmd_auto_complete.
  rewrite (proj2 (Z.eqb_eq _ 0)) by (by apply strcmp_0). cbn [negb].
  assert (0 < length w)%nat as Hw0 by (destruct w; [done|simpl; lia]).
  destruct (last_char_word w Hw Hb Hne) as (lc & Hlc & Hlc0 & Hlcb).
  rewrite (proj2 (Z.leb_le 1 _)), Hlc, mbind_Some by (rewrite strlen_cstring by done; lia).
  rewrite (proj2 (Z.ltb_ge CONFIG_SYS_CBSIZE _)) by (by rewrite strlen_cstring by done).
  unfold CONFIG_SYS_MAXARGS. rewrite make_argv_word by done. rewrite (complete_cmdv_word _ _ lc), mbind_Some by done.
  pose proof (offered_prefix w table) as Hop. pose proof (offered_cstring w table Ht) as Hoc.
  destruct (offered w table) as [|x l] eqn:E.
  - exists w. split; [|done]. rewrite drop_ge by done. by destruct (CONFIG_SYS_CBSIZE - 2 <=? Z.of_nat (length w)).
  - destruct (completion_of_spec w (x :: l)) as (p & Hc & [r Hp] & Hl); try done.
    rewrite (proj2 (Z.eqb_neq _ 0)) by (simpl; lia). rewrite Hc, mbind_Some. exists p. split; [|by destruct l].
    case_bool_decide as E'.
    + rewrite E', drop_ge by done. by destruct (CONFIG_SYS_CBSIZE - 2 <=? Z.of_nat (length w)).
    + subst p. by rewrite drop_app_length, length_app, Nat2Z.inj_add.
Qed.

(** [help] without arguments prints every command that has a help text once,
    in the order of their names, unless the user stops it. *)
Theorem help_sorted {S} (table : list (cmd_tbl_t S)) arg0 :
  ascii_names table -> table <> [] -> exists l, l ≡ₚ table /\ StronglySorted named_le l /\
    _do_help (fun _ => false) table [arg0] = (0, omap (fun c => u ← usage c; Some (name c, u)) l).
Proof.
  intros Hn Hne. exists (bubble_sort (length table - 1) table).
  destruct (bubble_sort_spec (length table - 1) table []) as [Hp Hs]; rewrite ?app_nil_r in *; try done.
  - destruct table; [done|simpl; lia].
  - constructor.
  - apply Forall_forall. intros. constructor.
  - split_and!; try done. unfold _do_help. cbn [length Nat.eqb]. generalize 0%nat at 1.
    induction (bubble_sort (length table - 1) table) as [|c l IH]; intros i; [done|]. cbn [help_list].
    assert (help_list (fun _ => false) (Datatypes.S i) l = (0, omap (fun c => u ← usage c; Some (name c, u)) l)) as ->.
    { clear. revert i. induction l as [|c l IH]; intros i; [done|]. cbn [help_list]. rewrite IH. cbn [omap list_omap].
      by destruct (usage c). }
    cbn [omap list_omap]. by destruct (usage c).
Qed.


(** ** Witnesses and examples *)

Definition run_nothing (flag : Z) (argv : list (list Z)) (s : unit) : Z * unit := (0, s).

Definition mk_test (nm : string) (comp : option (list (list Z) -> Z -> Z -> option (Z * list (list Z)))) : cmd_tbl_t unit :=
  mk_cmd (str nm) 3 1 run_nothing false (Some (str nm)) comp.

(** An environment with the variable [bootcmd] only. *)
Definition one_variable : option (hsearch_data unit) :=
  '(_, h) ← @hcreate_r unit no_hooks 8 no_table;
  '(_, h) ← @run_hts unit no_hooks h [HEnter (str "bootcmd") (str "boot") 0];
  Some h.

Definition complete_variable (argv : list (list Z)) (last_char maxv : Z) : option (Z * list (list Z)) :=
  h ← one_variable; var_complete h argv last_char maxv.

Definition test_table : list (cmd_tbl_t unit) :=
  [mk_test "run" (Some complete_variable); mk_test "md" None; mk_test "cp" None; mk_test "mdio" None;
   mk_test "printenv" (Some complete_variable)].

Definition test_complete : completion := cmd_auto_complete test_table (str "=> ") (str "=> ").

Lemma test_names : names_ok test_table.
Proof. repeat constructor; done. Qed.

Lemma complete_variable_strings argv last_char maxv i l : complete_variable argv last_char maxv = Some (i, l) -> Forall no_nul l.
Proof.
  unfold complete_variable. destruct one_variable as [h|] eqn:E; [|done]. rewrite mbind_Some. apply var_complete_strings.
  vm_compute in E. simplify_eq. intros j s k. unfold get_slot. cbn [table]. rewrite mbind_Some. unfold aget.
  case_match; [|done]. intros Hs Hk. destruct (Z.to_nat j) as [|m]; [by vm_compute in Hs; simplify_eq|].
  do 16 (destruct m as [|m]; [vm_compute in Hs; simplify_eq; cbn in Hk; simplify_eq; repeat constructor; done|]). done.
Qed.

#[export] Instance test_table_ok : CommandsOk test_table.
Proof.
  split; [exact test_names|]. intros c f argv last_char maxv i l Hc Hf Hl.
  assert (f = complete_variable) as ->; [|exact (complete_variable_strings _ _ _ _ _ Hl)].
  unfold test_table in Hc. rewrite !elem_of_cons in Hc.
  destruct Hc as [->|[->|[->|[->|[->|Hc]]]]]; cbn [complete mk_test] in Hf; [congruence|done|done|done|congruence|by apply elem_of_nil in Hc].
Qed.

Lemma find_cmd_correct_witness :
  find_cmd (str "md.b") test_table = find_spec (stem (str "md.b")) test_table /\ name <$> find_cmd (str "md.b") test_table = Some (str "md").
Proof. split; [|reflexivity]. apply (find_cmd_correct test_table (str "md.b")); [|exact test_names]. repeat constructor; done. Defined.

Lemma completion_correct_witness : exists p,
  cmd_auto_complete test_table (str "=> ") (str "=> ") (str "pri") 3 = Some (Some (if 510 <=? Z.of_nat (length p) then [] else drop 3 p)) /\
  p = str "printenv" ++ [32].
Proof.
  apply (completion_correct test_table (str "=> ") (str "pri")); try done; [exact test_names|..]; repeat constructor; done.
Defined.

Lemma help_sorted_witness : exists l, l ≡ₚ test_table /\ StronglySorted named_le l /\
  _do_help (fun _ => false) test_table [str "help"] = (0, omap (fun c => u ← usage c; Some (name c, u)) l).
Proof. apply (help_sorted test_table (str "help")); [repeat constructor; done|done]. Defined.


Example help_order : (fst <$> snd (_do_help (fun _ => false) test_table [str "help"])) = str <$> ["cp"; "md"; "mdio"; "printenv"; "run"]%string.
Proof. vm_compute. reflexivity. Qed.

Example ambiguous_command : find_cmd (str "m") test_table = None.
Proof. reflexivity. Qed.

Example completed_command : test_complete (str "p") 1 = Some (Some (str "rintenv ")).
Proof. vm_compute. reflexivity. Qed.

(** A command with a length modifier: its name without the modifier is the only
    match, and the string that is appended is taken from behind its end. *)
Example modifier_overrun : test_complete (str "cp.b") 4 = None.
Proof. vm_compute. reflexivity. Qed.

(** Behind a blank, the only variable is completed as if its name started with
    the word in front of the blank. *)
Example variable_cut : test_complete (str "run ") 4 = Some (Some (str "tcmd ")).
Proof. vm_compute. reflexivity. Qed.

(** A variable whose name is shorter than the command: out of bounds. *)
Example variable_overrun : test_complete (str "printenv ") 9 = None.
Proof. vm_compute. reflexivity. Qed.

(** The second word is completed as it should. *)
Example variable_completed : test_complete (str "run b") 5 = Some (Some (str "ootcmd ")).
Proof. vm_compute. reflexivity. Qed.
