(* ===== verification/EnvEdit.v ===== *)
(** * Variables that are typed in ([cmd/nvedit.c])

    [editenv] and [askenv]: the environment and the line editor together.  The
    keys are a script; a command that waits for more keys ends with [Asking].  A
    function is [None] when it leaves a buffer. *)

From S2P Require Import Prelude StringLib Strto Hashtable EnvText EnvStore EnvCmd CliReadline Command.
Local Open Scope Z_scope.

Inductive asked (W : Type) := Answered (ret : Z) (w : W) (console_buffer : list Z) (c : cli) | Asking.
Arguments Answered {W}.
Arguments Asking {W}.

Section Edit.
Context {C F S : Type} {hooks : EnvHooks C} {config : EnvConfig}.
Context (table : list (cmd_tbl_t S)) (CONFIG_SYS_PROMPT : list Z).

Definition ends (r : option (Z * env_world (C := C) (F := F))) (console_buffer : list Z) (c : cli) : option (asked env_world) :=
  '(ret, w) ← r; Some (Answered ret w console_buffer c).

(** [stack]: what [buffer] holds at first, [CONFIG_SYS_CBSIZE] bytes.  [args] are
    the arguments behind [argv[0]]. *)
Definition do_env_edit (args : list (list Z)) (keys stack console_buffer : list Z) (c : cli)
    (w : env_world (C := C) (F := F)) : option (asked env_world) :=
  match args with
  | [] => Some (Answered CMD_RET_USAGE w console_buffer c)
  | name :: _ =>
      if negb (env_ready (st w)) then Some (Answered 1 w console_buffer c)
      else
        init_val ← env_get w name;
        buffer ← match init_val with
                 | Some v => store_bytes stack 0 (take (Z.to_nat (CONFIG_SYS_CBSIZE - 1)) v ++ [0])
                 | None => aset stack 0 0
                 end;
        r ← cli_readline_into_buffer (cmd_auto_complete table (str "edit: ") CONFIG_SYS_PROMPT) keys buffer
              (Some console_buffer) 0 false c;
        match r with
        | Waiting => Some Asking
        | Returned ret buffer other c =>
            let console_buffer := default console_buffer other in
            if ret <? 0 then Some (Answered 1 w console_buffer c)
            else if ch buffer =? 0 then ends (_do_env_set [name] H_INTERACTIVE w) console_buffer c
            else ends (_do_env_set [name; cstr buffer] H_INTERACTIVE w) console_buffer c
        end
  end.

(** [for (i = 2, pos = 0; i < argc && pos+1 < sizeof(message); i++)] *)
Fixpoint message_loop (words : list (list Z)) (pos : Z) (message : list Z) : option (Z * list Z) :=
  match words with
  | [] => Some (pos, message)
  | word :: words =>
      if pos + 1 <? CONFIG_SYS_CBSIZE then
        '(pos, message) ← if negb (pos =? 0) then m ← aset message pos 32; Some (pos + 1, m) else Some (pos, message);
        message ← strncpy message pos word (Z.to_nat (CONFIG_SYS_CBSIZE - pos));
        message_loop words (pos + strlen word) message
      else Some (pos, message)
  end.

(** The prompt: [words] are [argv[2]] and so on. *)
Definition ask_message (name : list Z) (words : list (list Z)) (message : list Z) : option (list Z) :=
  match words with
  | [] => store_bytes message 0 (str "Please enter '" ++ name ++ str "': " ++ [0])
  | _ =>
      '(pos, message) ← message_loop words 0 message;
      if pos <? CONFIG_SYS_CBSIZE - 1 then
        message ← aset message pos 32; aset message (pos + 1) 0
      else aset message (CONFIG_SYS_CBSIZE - 1) 0
  end.

(** [stack]: what [message] holds at first.  The last argument is the size if it
    is a number. *)
Definition do_env_ask (args : list (list Z)) (keys stack console_buffer : list Z) (c : cli)
    (w : env_world (C := C) (F := F)) : option (asked env_world) :=
  match args with
  | [] => Some (Answered CMD_RET_USAGE w console_buffer c)
  | name :: words =>
      lst ← last args;
      let '(i, endptr) := simple_strtoul lst 10 in
      let '(size, words) := if negb (ch endptr =? 0) then (CONFIG_SYS_CBSIZE - 1, words) else (s32 i, removelast words) in
      message ← ask_message name words stack;
      let size := if CONFIG_SYS_CBSIZE <=? size then CONFIG_SYS_CBSIZE - 1 else size in
      if size <=? 0 then Some (Answered 1 w console_buffer c)
      else
        r ← cli_readline (cmd_auto_complete table (cstr message) CONFIG_SYS_PROMPT) keys console_buffer c;
        match r with
        | Waiting => Some Asking
        | Returned len b _ c =>
            b ← if size <? len then aset b size 0 else Some b;
            if negb (ch b =? 0) then ends (_do_env_set [name; cstr b] H_INTERACTIVE w) b c
            else ends (_do_env_set [name] H_INTERACTIVE w) b c
        end
  end.
End Edit.

(** ** Typing at the end of a line

    With any buffer that has room for the line and its NUL. *)

Section Typing.
Context (ac : completion) (len : Z) (Hlen : 0 < len < 2 ^ 32).

Lemma plain_command c s : plain c = true -> esc_save s = [] -> num (ln s) = eol_num (ln s) ->
  eol_num (ln s) < len -> insert s = true ->
  cread_key ac len c s =
  (b ← aset (buf (ln s)) (num (ln s)) c; Some (Cont (with_line s (mk_line (num (ln s) + 1) (num (ln s) + 1) b)))).
Proof.
  intros Hc He Hn Hl Hi. unfold plain in Hc. bool_to_prop. unfold cread_key. rewrite He. cbn [length Nat.eqb negb].
  case_if; [lia|]. unfold cread_command, CTL_CH. repeat (case_if; [lia|]). unfold cread_add_char. rewrite Hi. cbn [orb andb].
  rewrite (wrap_small 64 (len - 1)) by lia. rewrite (proj2 (Z.ltb_ge (len - 1) _)) by lia. rewrite Hn.
  rewrite (proj2 (Z.ltb_ge 1 _)) by lia. rewrite mbind_Some. by destruct (aset _ _ _).
Qed.

Lemma typed_loop t : forall text rest h, Forall (fun c => plain c = true) t -> (length t < length rest)%nat ->
  Z.of_nat (length text + length t) <= len -> forall keys,
  cread_loop ac len (t ++ keys) (mk_cread (mk_line (Z.of_nat (length text)) (Z.of_nat (length text)) (text ++ rest)) true [] h) =
  cread_loop ac len keys (mk_cread (mk_line (Z.of_nat (length (text ++ t))) (Z.of_nat (length (text ++ t))) (text ++ t ++ drop (length t) rest)) true [] h).
Proof.
  induction t as [|c t IH]; intros text rest h Ht Hr Hl keys; [by rewrite app_nil_r|].
  apply Forall_cons in Ht as [Hc Ht]. destruct rest as [|x rest]; [simpl in Hr; lia|]. cbn [length app cread_loop] in *.
  rewrite plain_command by (done || cbn; lia). cbn [ln num buf]. rewrite aset_middle, !mbind_Some by done.
  specialize (IH (text ++ [c]) rest h Ht ltac:(lia)). rewrite !length_app in *. cbn [length] in *.
  specialize (IH ltac:(lia) keys). rewrite <- !app_assoc in IH. cbn [app] in IH.
  unfold with_line. cbn [insert esc_save hist]. replace (Z.of_nat (length text) + 1) with (Z.of_nat (length text + 1)) by lia.
  rewrite IH. by replace (length text + 1 + length t)%nat with (length text + Datatypes.S (length t))%nat by lia.
Qed.

(** The initial text, the keys, and the line that is returned. *)
Lemma typed_line v t rest h : no_nul v -> Forall (fun c => plain c = true) t -> (length t < length rest)%nat -> ch rest = 0 ->
  Z.of_nat (length v + length t) <= len -> len <= HIST_SIZE -> hist_wf len h ->
  exists b h', cread_line ac len (t ++ [13]) (v ++ rest) 0 false h =
    Some (Stop 0 (mk_cread (mk_line (Z.of_nat (length (v ++ t))) (Z.of_nat (length (v ++ t))) b) true [] h')) /\ cstr b = v ++ t.
Proof.
  intros Nv Ht Hr H0 Hl Hh Hwf. unfold cread_line. destruct rest as [|x rest]; [simpl in *; lia|]. cbn [ch hd] in H0. subst x.
  rewrite (cstr_nul v rest) by done. rewrite strlen_no_nul, andb_false_l by done.
  rewrite init_text, mbind_Some by lia. rewrite typed_loop by done.
  destruct (drop (length t) (0 :: rest)) as [|y r] eqn:E; [apply (f_equal length) in E; rewrite length_drop in E; simpl in *; lia|].
  rewrite app_assoc. set (text := v ++ t) in *. assert (no_nul text) as Nt by (apply Forall_app; by split; [|apply plain_no_nul]).
  assert (Z.of_nat (length text) <= len) as Htl by (unfold text; rewrite length_app; lia).
  cbn [cread_loop]. unfold cread_key. cbn [Z.eqb Pos.eqb orb]. unfold cread_finish. cbn [ln buf eol_num insert esc_save hist num].
  rewrite aset_middle, mbind_Some, cstr_nul by done.
  assert (exists h', (if negb (ch (text ++ 0 :: r) =? 0) && negb (ch (text ++ 0 :: r) =? CREAD_HIST_CHAR)
    then cread_add_to_hist h text else Some h) = Some h') as [h' ->].
  { case_if; [|by eexists]. destruct (add_hist_wf len ltac:(lia) h text Hwf Nt Htl) as (h' & -> & _). by eexists. }
  rewrite !mbind_Some. eexists _, _. split; [done|]. by apply cstr_nul.
Qed.
End Typing.

(** ** Properties *)

Section Claims.
Context {C F S : Type} {hooks : EnvHooks C} {hooks_ok : EnvHooksOk C} {config : EnvConfig}.
Context (table : list (cmd_tbl_t S)) (CONFIG_SYS_PROMPT : list Z).

(** The buffer of [editenv] at first: the value and its NUL. *)
Lemma edit_buffer ov stack : length stack = 512%nat -> (length (default [] ov) <= 511)%nat ->
  exists rest, match ov with
    | Some v => store_bytes stack 0 (take (Z.to_nat (CONFIG_SYS_CBSIZE - 1)) v ++ [0])
    | None => aset stack 0 0
    end = Some (default [] ov ++ 0 :: rest) /\ (length (default [] ov) + length rest = 511)%nat.
Proof.
  intros Hs Hv. destruct ov as [w|]; cbn [default id from_option] in *.
  - rewrite take_ge by (unfold CONFIG_SYS_CBSIZE; cbn; lia). change 0 with (Z.of_nat 0) at 1.
    rewrite store_bytes_blit by (rewrite length_app; simpl; lia). unfold blit. rewrite take_0. cbn [app].
    exists (drop (0 + length (w ++ [0])) stack). split; [by rewrite <- app_assoc|]. rewrite length_drop, length_app. simpl. lia.
  - destruct stack as [|x stack]; [done|]. rewrite (aset_middle [] stack x) by done. exists stack. split; [done|]. simpl in *. lia.
Qed.

(** [editenv] after relocation: with the value [v] of the variable, or
    nothing, in the buffer, typing [t] and Enter sets the variable to [v ++ t],
    and leaves the others, when both fit in 511 bytes; only the permission check or
    a callback can refuse it, and then nothing is changed. *)
Theorem editenv_appends (w : env_world (C := C) (F := F)) vs m nm t stack console_buffer c :
  env_ready (st w) = true -> htab_ok (env_htab (st w)) vs m -> nused vs < size (env_htab (st w)) ->
  cstring nm -> strchr nm 61 = None -> ch nm <> 45 -> let v := default [] (m !! nm) in
  cstring v -> Forall (fun x => plain x = true) t -> v ++ t <> [] -> (length v + length t <= 511)%nat ->
  length stack = 512%nat -> relocated c = true -> hist_wf CONFIG_SYS_CBSIZE (cli_hist c) ->
  exists ret w' m' b c',
    do_env_edit table CONFIG_SYS_PROMPT [nm] (t ++ [13]) stack console_buffer c w = Some (Answered ret w' b c') /\
    ((ret = 0 /\ m' = <[nm := v ++ t]> m) \/ (ret = 1 /\ m' = m /\ set_refused (C := C) m nm [v ++ t] H_INTERACTIVE)) /\
    forall k, cstring k -> env_get w' k = Some (m' !! k).
Proof.
  intros Hr Hok Hroom Hn Heq Hdash v Hv Ht Hne Hl Hs Hrel Hh. unfold do_env_edit. rewrite Hr. cbn [negb].
  rewrite (env_get_map w vs m nm Hr Hok Hn), mbind_Some.
  destruct (edit_buffer (m !! nm) stack Hs ltac:(unfold v in Hl; lia)) as (rest & -> & Hrest). rewrite mbind_Some. fold v in Hrest |- *.
  set (ac := cmd_auto_complete _ _ _). unfold cli_readline_into_buffer. rewrite Hrel. fold (cli_hist c).
  destruct (typed_line ac CONFIG_SYS_CBSIZE ltac:(done) v t (0 :: rest) (cli_hist c)) as (b & h' & -> & Hb);
    [by apply cstring_no_nul|done|simpl; lia|done|unfold CONFIG_SYS_CBSIZE; lia|done|done|].
  rewrite !mbind_Some. cbn [ln eol_num buf Z.ltb Z.compare].
  rewrite (proj2 (Z.ltb_ge _ 0)) by lia. rewrite Hb.
  assert (ch b <> 0) as Hcb.
  { intros E. assert (cstr b = []) as E' by (destruct b; [done|]; cbn in E |- *; by rewrite E). congruence. }
  rewrite (proj2 (Z.eqb_neq _ 0) Hcb).
  destruct (do_env_set_map w vs m [nm; v ++ t] H_INTERACTIVE H_INTERACTIVE nm [v ++ t] Hok Hroom)
    as (ret & w' & vs' & m' & -> & Hok' & Hr' & Hcase); [|done|done|].
  { cbn [force_options]. by rewrite (proj2 (Z.eqb_neq _ _) Hdash). }
  unfold ends. rewrite mbind_Some. eexists ret, w', m', _, _. split; [done|]. split.
  - destruct Hcase as [[-> ->]|Hcase]; [left|by right]. split; [done|]. unfold set_map, join_values. cbn [flat_map].
    by rewrite app_nil_r, removelast_last.
  - intros k Hk. eapply env_get_map; [by rewrite Hr'|exact Hok'|done].
Qed.
End Claims.

(** ** Witnesses and examples *)

Definition test_cli : cli := mk_cli true false hist_init.

Lemma editenv_appends_witness : exists ret w' m' b c',
  do_env_edit (hooks := no_hooks) (config := small_config false) test_table (str "=> ") [[65]] (str "C" ++ [13]) (replicate 512 7)
    (replicate 513 0) test_cli (example_world true []) = Some (Answered ret w' b c') /\
  ((ret = 0 /\ m' = <[[65] := str "BC"]> one_var) \/
   (ret = 1 /\ m' = one_var /\ set_refused (hooks := no_hooks) (C := unit) one_var [65] [str "BC"] H_INTERACTIVE)) /\
  forall k, cstring k -> env_get (hooks := no_hooks) (config := small_config false) w' k = Some (m' !! k).
Proof.
  destruct var_table_ok as [vs Hok].
  apply (editenv_appends (hooks := no_hooks) (hooks_ok := no_hooks_ok) (config := small_config false) test_table (str "=> ")
    (example_world true []) vs one_var [65] (str "C") (replicate 512 7) (replicate 513 0) test_cli); try done.
  - exact (var_table_room vs one_var Hok).
  - repeat constructor; lia.
  - repeat constructor; done.
  - repeat constructor.
  - vm_compute. lia.
  - by apply hist_init_wf.
Defined.

Definition answer {W} (r : option (asked W)) : option Z := match r with Some (Answered ret _ _ _) => Some ret | _ => None end.

(** With 511 more characters behind the one of the value, the NUL is written
    behind the buffer. *)
Example editenv_overrun :
  do_env_edit (hooks := no_hooks) (config := small_config false) test_table (str "=> ") [[65]] (replicate 511 67 ++ [13]) (replicate 512 7)
    (replicate 513 0) test_cli (example_world true []) = None.
Proof. vm_compute. reflexivity. Qed.

(** [askenv] that is interrupted with [^C] deletes the variable. *)
Example askenv_interrupted :
  match do_env_ask (hooks := no_hooks) test_table (str "=> ") [[65]] [3] (replicate 512 7) (replicate 513 0) test_cli (example_world true []) with
  | Some (Answered ret w _ _) => Some (ret, env_get (hooks := no_hooks) (config := small_config false) w [65])
  | _ => None
  end = Some (0, Some None).
Proof. vm_compute. reflexivity. Qed.

(** What is typed is cut off at the size that is given. *)
Example askenv_size :
  match do_env_ask (hooks := no_hooks) test_table (str "=> ") [str "x"; str "Value"; str "3"] (str "12345" ++ [13]) (replicate 512 7)
          (replicate 513 0) test_cli (example_world true []) with
  | Some (Answered ret w _ _) => Some (ret, env_get (hooks := no_hooks) (config := small_config false) w (str "x"))
  | _ => None
  end = Some (0, Some (Some (str "123"))).
Proof. vm_compute. reflexivity. Qed.

(** A long name does not fit in the message. *)
Example askenv_message_overrun :
  do_env_ask (hooks := no_hooks) test_table (str "=> ") [replicate 496 97] [13] (replicate 512 7) (replicate 513 0) test_cli
    (example_world true []) = None.
Proof. vm_compute. reflexivity. Qed.
