(* ===== verification/Image.v ===== *)
(** * Legacy images ([common/image.c], [include/image.h])

    An image is a header of 64 bytes, with a checksum of the header and one of the
    data, in front of the data.  The file has the tables of names, the accessors
    of the header, the checks, the components of a multi-file image, the limits
    of the memory for booting and the move of a ramdisk.

    The memory is a list of bytes that starts at address 0; a pointer is an
    address.  A function is [None] when it reads or writes outside this memory.
    Console output and boot stages are left out, but what is read to print it is
    read. *)

From S2P Require Import Prelude StringLib Strto Blocks Crc32 Lmb.
Local Open Scope Z_scope.

(** The configuration.  [bi_dram_start] and [bi_dram_size]: the first bank of
    memory in the board information. *)
Class ImageConfig := {
  CONFIG_WATCHDOG : bool;
  CONFIG_LYNXKDI : bool;
  CONFIG_CMD_ELF : bool;
  CONFIG_INTEGRITY : bool;
  CONFIG_BOOTM_OPENRTOS : bool;
  CONFIG_SYS_SDRAM_BASE : Z;
  CONFIG_SYS_BOOTM_LEN : Z;
  bi_dram_start : Z;
  bi_dram_size : Z
}.

(** ** Names and numbers *)

Definition IH_OS_INVALID : Z := 0.
Definition IH_OS_NETBSD : Z := 2.
Definition IH_OS_LINUX : Z := 5.
Definition IH_OS_LYNXOS : Z := 13.
Definition IH_OS_VXWORKS : Z := 14.
Definition IH_OS_QNX : Z := 16.
Definition IH_OS_U_BOOT : Z := 17.
Definition IH_OS_RTEMS : Z := 18.
Definition IH_OS_INTEGRITY : Z := 21.
Definition IH_OS_OSE : Z := 22.
Definition IH_OS_PLAN9 : Z := 23.
Definition IH_OS_OPENRTOS : Z := 24.
Definition IH_OS_ARM_TRUSTED_FIRMWARE : Z := 25.
Definition IH_OS_TEE : Z := 26.
Definition IH_OS_COUNT : Z := 27.

Definition IH_ARCH_ARM : Z := 2.
Definition IH_ARCH_I386 : Z := 3.
Definition IH_ARCH_ARM64 : Z := 22.
Definition IH_ARCH_X86_64 : Z := 24.
Definition IH_ARCH_COUNT : Z := 27.
Definition IH_ARCH_DEFAULT : Z := IH_ARCH_ARM64.

Definition IH_TYPE_INVALID : Z := 0.
Definition IH_TYPE_STANDALONE : Z := 1.
Definition IH_TYPE_KERNEL : Z := 2.
Definition IH_TYPE_RAMDISK : Z := 3.
Definition IH_TYPE_MULTI : Z := 4.
Definition IH_TYPE_FIRMWARE : Z := 5.
Definition IH_TYPE_SCRIPT : Z := 6.
Definition IH_TYPE_FLATDT : Z := 8.
Definition IH_TYPE_KERNEL_NOLOAD : Z := 14.
Definition IH_TYPE_X86_SETUP : Z := 20.
Definition IH_TYPE_LOADABLE : Z := 22.
Definition IH_TYPE_FPGA : Z := 29.
Definition IH_TYPE_FIRMWARE_IVT : Z := 32.
Definition IH_TYPE_COUNT : Z := 36.

Definition IH_COMP_NONE : Z := 0.
Definition IH_COMP_GZIP : Z := 1.
Definition IH_COMP_BZIP2 : Z := 2.
Definition IH_COMP_LZMA : Z := 3.
Definition IH_COMP_LZO : Z := 4.
Definition IH_COMP_LZ4 : Z := 5.
Definition IH_COMP_COUNT : Z := 6.

Inductive ih_category := IH_ARCH | IH_COMP | IH_OS | IH_TYPE.

Record table_entry_t := mk_table_entry { te_id : Z; te_sname : list Z; te_lname : list Z }.

(** [{ id, sname, lname }] *)
Definition te (id : Z) (sname lname : string) : table_entry_t := mk_table_entry id (str sname) (str lname).

Definition uimage_arch : list table_entry_t :=
  [te 0 "invalid" "Invalid ARCH"; te 1 "alpha" "Alpha"; te IH_ARCH_ARM "arm" "ARM"; te IH_ARCH_I386 "x86" "Intel x86";
   te 4 "ia64" "IA64"; te 12 "m68k" "M68K"; te 14 "microblaze" "MicroBlaze"; te 5 "mips" "MIPS"; te 6 "mips64" "MIPS 64 Bit";
   te 15 "nios2" "NIOS II"; te 7 "powerpc" "PowerPC"; te 7 "ppc" "PowerPC"; te 8 "s390" "IBM S390"; te 9 "sh" "SuperH";
   te 10 "sparc" "SPARC"; te 11 "sparc64" "SPARC 64 Bit"; te 16 "blackfin" "Blackfin"; te 17 "avr32" "AVR32"; te 20 "nds32" "NDS32";
   te 21 "or1k" "OpenRISC 1000"; te 19 "sandbox" "Sandbox"; te IH_ARCH_ARM64 "arm64" "AArch64"; te 23 "arc" "ARC";
   te IH_ARCH_X86_64 "x86_64" "AMD x86_64"; te 25 "xtensa" "Xtensa"; te 26 "riscv" "RISC-V"; te (-1) "" ""].

Definition uimage_os `{ImageConfig} : list table_entry_t :=
  [te IH_OS_INVALID "invalid" "Invalid OS"; te IH_OS_ARM_TRUSTED_FIRMWARE "arm-trusted-firmware" "ARM Trusted Firmware";
   te IH_OS_LINUX "linux" "Linux"] ++
  (if CONFIG_LYNXKDI then [te IH_OS_LYNXOS "lynxos" "LynxOS"] else []) ++
  [te IH_OS_NETBSD "netbsd" "NetBSD"; te IH_OS_OSE "ose" "Enea OSE"; te IH_OS_PLAN9 "plan9" "Plan 9"; te IH_OS_RTEMS "rtems" "RTEMS";
   te IH_OS_TEE "tee" "Trusted Execution Environment"; te IH_OS_U_BOOT "u-boot" "U-Boot"; te IH_OS_VXWORKS "vxworks" "VxWorks"] ++
  (if CONFIG_CMD_ELF then [te IH_OS_QNX "qnx" "QNX"] else []) ++
  (if CONFIG_INTEGRITY then [te IH_OS_INTEGRITY "integrity" "INTEGRITY"] else []) ++
  (if CONFIG_BOOTM_OPENRTOS then [te IH_OS_OPENRTOS "openrtos" "OpenRTOS"] else []) ++
  [te (-1) "" ""].

Definition uimage_type : list table_entry_t :=
  [te 13 "aisimage" "Davinci AIS image"; te 7 "filesystem" "Filesystem Image"; te IH_TYPE_FIRMWARE "firmware" "Firmware";
   te IH_TYPE_FLATDT "flat_dt" "Flat Device Tree"; te 17 "gpimage" "TI Keystone SPL Image"; te IH_TYPE_KERNEL "kernel" "Kernel Image";
   te IH_TYPE_KERNEL_NOLOAD "kernel_noload" "Kernel Image (no loading done)"; te 9 "kwbimage" "Kirkwood Boot Image";
   te 10 "imximage" "Freescale i.MX Boot Image"; te IH_TYPE_INVALID "invalid" "Invalid Image"; te IH_TYPE_MULTI "multi" "Multi-File Image";
   te 12 "omapimage" "TI OMAP SPL With GP CH"; te 15 "pblimage" "Freescale PBL Boot Image"; te IH_TYPE_RAMDISK "ramdisk" "RAMDisk Image";
   te IH_TYPE_SCRIPT "script" "Script"; te 19 "socfpgaimage" "Altera SoCFPGA CV/AV preloader";
   te 35 "socfpgaimage_v1" "Altera SoCFPGA A10 preloader"; te IH_TYPE_STANDALONE "standalone" "Standalone Program";
   te 11 "ublimage" "Davinci UBL image"; te 16 "mxsimage" "Freescale MXS Boot Image"; te 18 "atmelimage" "ATMEL ROM-Boot Image";
   te IH_TYPE_X86_SETUP "x86_setup" "x86 setup.bin"; te 21 "lpc32xximage" "LPC32XX Boot Image"; te 23 "rkimage" "Rockchip Boot Image";
   te 24 "rksd" "Rockchip SD Boot Image"; te 25 "rkspi" "Rockchip SPI Boot Image"; te 30 "vybridimage" "Vybrid Boot Image";
   te 26 "zynqimage" "Xilinx Zynq Boot Image"; te 27 "zynqmpimage" "Xilinx ZynqMP Boot Image"; te 28 "zynqmpbif" "Xilinx ZynqMP Boot Image (bif)";
   te IH_TYPE_FPGA "fpga" "FPGA Image"; te 31 "tee" "Trusted Execution Environment Image";
   te IH_TYPE_FIRMWARE_IVT "firmware_ivt" "Firmware with HABv4 IVT"; te 33 "pmmc" "TI Power Management Micro-Controller Firmware";
   te 34 "stm32image" "STMicroelectronics STM32 Image"; te (-1) "" ""].

Definition uimage_comp : list table_entry_t :=
  [te IH_COMP_NONE "none" "uncompressed"; te IH_COMP_BZIP2 "bzip2" "bzip2 compressed"; te IH_COMP_GZIP "gzip" "gzip compressed";
   te IH_COMP_LZMA "lzma" "lzma compressed"; te IH_COMP_LZO "lzo" "lzo compressed"; te IH_COMP_LZ4 "lz4" "lz4 compressed"; te (-1) "" ""].

(** The bound of the comparison is larger than any string. *)
Definition strcasecmp (s1 s2 : list Z) : Z := strncasecmp s1 s2 (S (length s1)).

(** [for (; table->id >= 0; ++table)].  [None]: the table has no end. *)
Fixpoint get_table_entry (table : list table_entry_t) (id : Z) : option (option table_entry_t) :=
  match table with
  | [] => None
  | t :: table => if 0 <=? te_id t then if te_id t =? id then Some (Some t) else get_table_entry table id else Some None
  end.

Definition get_table_entry_name (table : list table_entry_t) (msg : list Z) (id : Z) : option (list Z) :=
  t ← get_table_entry table id; Some (match t with Some t => te_lname t | None => msg end).

Definition genimg_get_short_name (table : list table_entry_t) (val : Z) : option (list Z) :=
  t ← get_table_entry table val; Some (match t with Some t => te_sname t | None => str "unknown" end).

Fixpoint get_table_entry_id (table : list table_entry_t) (name : list Z) : option Z :=
  match table with
  | [] => None
  | t :: table =>
      if 0 <=? te_id t then if strcasecmp (te_sname t) name =? 0 then Some (te_id t) else get_table_entry_id table name
      else Some (-1)
  end.

Section Names.
Context `{ImageConfig}.

(** [table_info]: the description, the count and the table. *)
Definition table_info (category : ih_category) : list Z * Z * list table_entry_t :=
  match category with
  | IH_ARCH => (str "architecture", IH_ARCH_COUNT, uimage_arch)
  | IH_COMP => (str "compression", IH_COMP_COUNT, uimage_comp)
  | IH_OS => (str "operating system", IH_OS_COUNT, uimage_os)
  | IH_TYPE => (str "image type", IH_TYPE_COUNT, uimage_type)
  end.

(** The 30 bytes of [msg], of which [strncat] fills what is left. *)
Definition unknown_msg (msg : list Z) (category : ih_category) : option (list Z) :=
  msg ← strcpy msg 0 (str "Unknown "); msg ← strncat msg 0 (table_info category).1.1 (30 - 9); Some (cstr msg).

Definition genimg_get_cat_name (msg : list Z) (category : ih_category) (id : Z) : option (list Z) :=
  t ← get_table_entry (table_info category).2 (s32 id);
  match t with Some t => Some (te_lname t) | None => unknown_msg msg category end.

Definition genimg_get_cat_short_name (msg : list Z) (category : ih_category) (id : Z) : option (list Z) :=
  t ← get_table_entry (table_info category).2 (s32 id);
  match t with Some t => Some (te_sname t) | None => unknown_msg msg category end.

Definition genimg_get_cat_count (category : ih_category) : Z := (table_info category).1.2.
Definition genimg_get_cat_desc (category : ih_category) : list Z := (table_info category).1.1.

Definition genimg_get_os_name (os : Z) : option (list Z) := get_table_entry_name uimage_os (str "Unknown OS") os.
Definition genimg_get_arch_name (arch : Z) : option (list Z) := get_table_entry_name uimage_arch (str "Unknown Architecture") arch.
Definition genimg_get_type_name (type : Z) : option (list Z) := get_table_entry_name uimage_type (str "Unknown Image") type.
Definition genimg_get_comp_name (comp : Z) : option (list Z) := get_table_entry_name uimage_comp (str "Unknown Compression") comp.
Definition genimg_get_os_short_name (os : Z) : option (list Z) := genimg_get_short_name uimage_os os.
Definition genimg_get_arch_short_name (arch : Z) : option (list Z) := genimg_get_short_name uimage_arch arch.
Definition genimg_get_type_short_name (type : Z) : option (list Z) := genimg_get_short_name uimage_type type.
Definition genimg_get_comp_short_name (comp : Z) : option (list Z) := genimg_get_short_name uimage_comp comp.
Definition genimg_get_os_id (name : list Z) : option Z := get_table_entry_id uimage_os name.
Definition genimg_get_arch_id (name : list Z) : option Z := get_table_entry_id uimage_arch name.
Definition genimg_get_type_id (name : list Z) : option Z := get_table_entry_id uimage_type name.
Definition genimg_get_comp_id (name : list Z) : option Z := get_table_entry_id uimage_comp name.
End Names.

(** ** The header *)

Definition IH_MAGIC : Z := 0x27051956.
Definition IH_NMLEN : Z := 32.
Definition CHUNKSZ : Z := 64 * 1024.
Definition CHUNKSZ_CRC32 : Z := 64 * 1024.
Definition IMAGE_FORMAT_INVALID : Z := 0.
Definition IMAGE_FORMAT_LEGACY : Z := 1.
Definition IMAGE_FORMAT_FIT : Z := 2.

(** The [n] bytes of the memory from [a] on. *)
Definition peek (mem : list Z) (a n : Z) : option (list Z) :=
  if (0 <=? a) && (0 <=? n) && (a + n <=? Z.of_nat (length mem)) then Some (slice mem (Z.to_nat a) (Z.to_nat n)) else None.

(** [uimage_to_cpu] of the word at [a]. *)
Definition get_be32 (mem : list Z) (a : Z) : option Z := b ← peek mem a 4; Some (u32 (GET_UINT32_BE b 0)).

Definition image_get_header_size : Z := 64.

Section Header.
Context (mem : list Z) (hdr : Z).

Definition image_get_magic : option Z := get_be32 mem hdr.
Definition image_get_hcrc : option Z := get_be32 mem (hdr + 4).
Definition image_get_time : option Z := get_be32 mem (hdr + 8).
Definition image_get_size : option Z := get_be32 mem (hdr + 12).
Definition image_get_load : option Z := get_be32 mem (hdr + 16).
Definition image_get_ep : option Z := get_be32 mem (hdr + 20).
Definition image_get_dcrc : option Z := get_be32 mem (hdr + 24).
Definition image_get_os : option Z := aget mem (hdr + 28).
Definition image_get_arch : option Z := aget mem (hdr + 29).
Definition image_get_type : option Z := aget mem (hdr + 30).
Definition image_get_comp : option Z := aget mem (hdr + 31).
Definition image_get_name : option (list Z) := peek mem (hdr + 32) IH_NMLEN.

Definition image_get_data_size : option Z := image_get_size.
Definition image_get_data : Z := u64 (hdr + image_get_header_size).
Definition image_get_image_size : option Z := size ← image_get_size; Some (u32 (size + image_get_header_size)).
Definition image_get_image_end : option Z := size ← image_get_image_size; Some (u64 (hdr + size)).

Definition image_check_magic : option bool := m ← image_get_magic; Some (m =? IH_MAGIC).
Definition image_check_type (type : Z) : option bool := t ← image_get_type; Some (t =? type).
Definition image_check_arch (arch : Z) : option bool :=
  a ← image_get_arch; Some ((a =? arch) || ((a =? IH_ARCH_ARM) && (arch =? IH_ARCH_ARM64))).
Definition image_check_os (os : Z) : option bool := o ← image_get_os; Some (o =? os).
Definition image_check_target_arch : option bool := image_check_arch IH_ARCH_DEFAULT.
End Header.

(** The fields of a header that is not in the memory: the 64 bytes with a word,
    a byte or the name replaced. *)
Definition image_set_hdr_l (off : nat) (header : list Z) (val : Z) : list Z := blit header off (PUT_UINT32_BE val).
Definition image_set_hdr_b (off : nat) (header : list Z) (val : Z) : list Z := blit header off [u8 val].
Definition image_set_magic : list Z -> Z -> list Z := image_set_hdr_l 0.
Definition image_set_hcrc : list Z -> Z -> list Z := image_set_hdr_l 4.
Definition image_set_time : list Z -> Z -> list Z := image_set_hdr_l 8.
Definition image_set_size : list Z -> Z -> list Z := image_set_hdr_l 12.
Definition image_set_load : list Z -> Z -> list Z := image_set_hdr_l 16.
Definition image_set_ep : list Z -> Z -> list Z := image_set_hdr_l 20.
Definition image_set_dcrc : list Z -> Z -> list Z := image_set_hdr_l 24.
Definition image_set_os : list Z -> Z -> list Z := image_set_hdr_b 28.
Definition image_set_arch : list Z -> Z -> list Z := image_set_hdr_b 29.
Definition image_set_type : list Z -> Z -> list Z := image_set_hdr_b 30.
Definition image_set_comp : list Z -> Z -> list Z := image_set_hdr_b 31.
Definition image_set_name (header name : list Z) : option (list Z) := strncpy header 32 name (Z.to_nat IH_NMLEN).

(** ** Checks of an image *)

Section Legacy.
Context `{ImageConfig}.
Context (mem : list Z).

(** The copy of the header on the stack starts at a multiple of four; the
    checksum does not depend on this. *)
Definition image_check_hcrc (hdr : Z) : option bool :=
  header ← peek mem hdr image_get_header_size;
  hcrc ← crc32 crc_table 0 0 (image_set_hcrc header 0) image_get_header_size;
  h ← image_get_hcrc mem hdr;
  Some (hcrc =? h).

Definition image_check_dcrc (hdr : Z) : option bool :=
  let data := image_get_data hdr in
  len ← image_get_data_size mem hdr;
  dcrc ← (if CONFIG_WATCHDOG then crc32_wd else crc32_nowd) crc_table 0 data (drop (Z.to_nat data) mem) len CHUNKSZ_CRC32;
  d ← image_get_dcrc mem hdr;
  Some (dcrc =? d).

(** [for (i = 0; size[i]; ++i) count++] *)
Fixpoint multi_count_loop (fuel : nat) (size i count : Z) : option Z :=
  match fuel with
  | O => None
  | S fuel => s ← get_be32 mem (size + 4 * i); if s =? 0 then Some count else multi_count_loop fuel size (i + 1) (count + 1)
  end.

(** Every word takes four bytes of the memory. *)
Definition image_multi_count (hdr : Z) : option Z := multi_count_loop (S (length mem / 4)) (image_get_data hdr) 0 0.

(** [for (i = 0; i < idx; i++)], with [idx] below the number of components. *)
Fixpoint multi_offset_loop (fuel : nat) (size i idx offset : Z) : option Z :=
  match fuel with
  | O => None
  | S fuel =>
      if i <? idx then
        s ← get_be32 mem (size + 4 * i);
        multi_offset_loop fuel size (i + 1) idx (u64 (offset + Z.land (u32 (s + 3)) (u32 (Z.lnot 3))))
      else Some offset
  end.

(** The address and the length of the component. *)
Definition image_multi_getimg (hdr idx : Z) : option (Z * Z) :=
  count ← image_multi_count hdr;
  let size := image_get_data hdr in
  let img_data := u64 (image_get_data hdr + (count + 1) * 4) in
  if idx <? count then
    len ← get_be32 mem (size + 4 * idx);
    offset ← multi_offset_loop (S (Z.to_nat idx)) size 0 idx 0;
    Some (u64 (img_data + offset), len)
  else Some (0, 0).

(** [for (i = 0; i < count; i++) image_multi_getimg(hdr, i, &data, &len)] *)
Fixpoint contents_loop (hdr i : Z) (n : nat) : option (list (Z * Z)) :=
  match n with
  | O => Some []
  | S n => c ← image_multi_getimg hdr i; cs ← contents_loop hdr (i + 1) n; Some (c :: cs)
  end.

(** The components that are listed. *)
Definition image_print_contents (hdr : Z) : option (list (Z * Z)) :=
  _ ← image_get_name mem hdr; _ ← image_get_time mem hdr;
  os ← image_get_os mem hdr; _ ← genimg_get_os_name os;
  arch ← image_get_arch mem hdr; _ ← genimg_get_arch_name arch;
  type ← image_get_type mem hdr; _ ← genimg_get_type_name type;
  comp ← image_get_comp mem hdr; _ ← genimg_get_comp_name comp;
  _ ← image_get_data_size mem hdr; _ ← image_get_load mem hdr; _ ← image_get_ep mem hdr;
  multi ← image_check_type mem hdr IH_TYPE_MULTI; script ← image_check_type mem hdr IH_TYPE_SCRIPT;
  if multi || script then count ← image_multi_count hdr; contents_loop hdr 0 (Z.to_nat count) else Some [].

(** The address of the header, or NULL ([Some None]). *)
Definition image_get_ramdisk (rd_addr arch verify : Z) : option (option Z) :=
  magic ← image_check_magic mem rd_addr;
  if negb magic then Some None
  else
    hcrc ← image_check_hcrc rd_addr;
    if negb hcrc then Some None
    else
      _ ← image_print_contents rd_addr;
      dcrc ← if negb (verify =? 0) then image_check_dcrc rd_addr else Some true;
      if negb dcrc then Some None
      else
        os ← image_check_os mem rd_addr IH_OS_LINUX;
        a ← image_check_arch mem rd_addr arch;
        t ← image_check_type mem rd_addr IH_TYPE_RAMDISK;
        if negb os || negb a || negb t then Some None else Some (Some rd_addr).

(** [common/bootm.c] *)
Definition image_get_kernel (img_addr verify : Z) : option (option Z) :=
  magic ← image_check_magic mem img_addr;
  if negb magic then Some None
  else
    hcrc ← image_check_hcrc img_addr;
    if negb hcrc then Some None
    else
      _ ← image_print_contents img_addr;
      dcrc ← if negb (verify =? 0) then image_check_dcrc img_addr else Some true;
      if negb dcrc then Some None
      else
        a ← image_check_target_arch mem img_addr;
        if negb a then Some None else Some (Some img_addr).
End Legacy.

(** ** The format of an image *)

Definition FDT_MAGIC : Z := 0xd00dfeed.
Definition FDT_SW_MAGIC : Z := u32 (Z.lnot FDT_MAGIC).
Definition FDT_FIRST_SUPPORTED_VERSION : Z := 0x02.
Definition FDT_LAST_SUPPORTED_VERSION : Z := 0x11.
Definition FDT_ERR_BADSTATE : Z := 7.
Definition FDT_ERR_BADMAGIC : Z := 9.
Definition FDT_ERR_BADVERSION : Z := 10.

Definition fdt_check_header (mem : list Z) (fdt : Z) : option Z :=
  magic ← get_be32 mem fdt;
  if magic =? FDT_MAGIC then
    version ← get_be32 mem (fdt + 20);
    if version <? FDT_FIRST_SUPPORTED_VERSION then Some (- FDT_ERR_BADVERSION)
    else
      last ← get_be32 mem (fdt + 24);
      if FDT_LAST_SUPPORTED_VERSION <? last then Some (- FDT_ERR_BADVERSION) else Some 0
  else if magic =? FDT_SW_MAGIC then
    size ← get_be32 mem (fdt + 36);
    if size =? 0 then Some (- FDT_ERR_BADSTATE) else Some 0
  else Some (- FDT_ERR_BADMAGIC).

Definition genimg_get_format (mem : list Z) (img_addr : Z) : option Z :=
  magic ← image_check_magic mem img_addr;
  if magic : bool then Some IMAGE_FORMAT_LEGACY
  else
    r ← fdt_check_header mem img_addr;
    if r =? 0 then Some IMAGE_FORMAT_FIT else Some IMAGE_FORMAT_INVALID.

(** ** Memory for booting *)

Section Limits.
Context `{ImageConfig}.
Context (env_get : list Z -> option (option (list Z))).

Definition env_get_bootm_low : option Z :=
  s ← env_get (str "bootm_low");
  Some (match s with Some s => fst (simple_strtoul s 16) | None => CONFIG_SYS_SDRAM_BASE end).

Definition env_get_bootm_size : option Z :=
  s ← env_get (str "bootm_size");
  match s with
  | Some s => Some (fst (simple_strtoull s 16))
  | None =>
      s ← env_get (str "bootm_low");
      let tmp := match s with Some s => fst (simple_strtoull s 16) | None => bi_dram_start end in
      Some (u64 (bi_dram_size - (tmp - bi_dram_start)))
  end.

(** [CONFIG_SYS_BOOTMAPSZ] is not defined. *)
Definition env_get_bootm_mapsize : option Z :=
  s ← env_get (str "bootm_mapsize");
  match s with Some s => Some (fst (simple_strtoull s 16)) | None => env_get_bootm_size end.

(** [while (len > 0)]: every round moves at least one byte when [chunksz] is
    positive. *)
Fixpoint memmove_wd_loop (fuel : nat) (mem : list Z) (to from len chunksz : Z) : option (list Z) :=
  match fuel with
  | O => None
  | S fuel =>
      if 0 <? len then
        let tail := if chunksz <? len then chunksz else len in
        let '(to, from) := if from <? to then (to - tail, from - tail) else (to, from) in
        mem ← memmove mem to from (Z.to_nat tail);
        let '(to, from) := if to <? from then (to + tail, from + tail) else (to, from) in
        memmove_wd_loop fuel mem to from (len - tail) chunksz
      else Some mem
  end.

Definition memmove_wd (mem : list Z) (to from len chunksz : Z) : option (list Z) :=
  if to =? from then Some mem
  else if CONFIG_WATCHDOG then
    let '(to, from) := if from <? to then (to + len, from + len) else (to, from) in
    memmove_wd_loop (S (Z.to_nat len)) mem to from len chunksz
  else memmove mem to from (Z.to_nat len).

(** [initrd_high] and [initrd_copy_to_ram] *)
Definition ramdisk_hint : option (Z * bool) :=
  s ← env_get (str "initrd_high");
  match s with
  | Some s => let h := fst (simple_strtoul s 16) in Some (h, negb (h =? u64 (Z.lnot 0)))
  | None => m ← env_get_bootm_mapsize; l ← env_get_bootm_low; Some (u64 (m + l), true)
  end.

(** The return value, [*initrd_start], [*initrd_end], the blocks and the memory.
    [end_] is [*initrd_end] before the call. *)
Definition boot_ramdisk_high (lmb : lmb) (mem : list Z) (rd_data rd_len end_ : Z) : option (Z * Z * Z * Lmb.lmb * list Z) :=
  '(initrd_high, initrd_copy_to_ram) ← ramdisk_hint;
  if negb (rd_data =? 0) then
    if negb initrd_copy_to_ram then
      '(_, lmb) ← lmb_reserve lmb rd_data rd_len;
      Some (0, rd_data, u64 (rd_data + rd_len), lmb, mem)
    else
      '(start, lmb) ← if negb (initrd_high =? 0) then lmb_alloc_base lmb rd_len 0x1000 initrd_high else lmb_alloc lmb rd_len 0x1000;
      if start =? 0 then Some (-1, start, end_, lmb, mem)
      else
        mem ← memmove_wd mem start rd_data rd_len CHUNKSZ;
        Some (0, start, u64 (start + rd_len), lmb, mem)
  else Some (0, 0, 0, lmb, mem).
End Limits.

(** ** Reading the memory *)

Lemma peek_Some mem a n :
  0 <= a -> 0 <= n -> a + n <= Z.of_nat (length mem) -> peek mem a n = Some (slice mem (Z.to_nat a) (Z.to_nat n)).
Proof. intros. unfold peek. case_if; [done|lia]. Qed.

(** The bytes [b] are in the memory at the address [a]. *)
Definition at_addr (mem : list Z) (a : Z) (b : list Z) : Prop :=
  0 <= a /\ slice mem (Z.to_nat a) (length b) = b.

Lemma at_addr_bound mem a b : at_addr mem a b -> b <> [] -> a + Z.of_nat (length b) <= Z.of_nat (length mem).
Proof.
  intros [Ha Hs] Hb. apply (f_equal length) in Hs. unfold slice in Hs. rewrite length_take, length_drop in Hs.
  destruct b; [done|]. cbn [length] in *. lia.
Qed.

Lemma slice_app mem s n1 n2 : slice mem s (n1 + n2) = slice mem s n1 ++ slice mem (s + n1) n2.
Proof. unfold slice. rewrite <- drop_drop. symmetry. apply take_take_drop. Qed.

Lemma at_addr_app mem a b1 b2 : at_addr mem a (b1 ++ b2) <-> at_addr mem a b1 /\ at_addr mem (a + Z.of_nat (length b1)) b2.
Proof.
  unfold at_addr. rewrite length_app, slice_app. split.
  - intros [Ha H]. apply app_inj_1 in H as [H1 H2].
    + split; [done|]. split; [lia|]. by replace (Z.to_nat (a + Z.of_nat (length b1))) with (Z.to_nat a + length b1)%nat by lia.
    + apply (f_equal length) in H. rewrite !length_app in H. unfold slice in *. rewrite !length_take, !length_drop in *. lia.
  - intros [[Ha H1] [_ H2]]. split; [done|]. rewrite H1.
    replace (Z.to_nat (a + Z.of_nat (length b1))) with (Z.to_nat a + length b1)%nat in H2 by lia. by rewrite H2.
Qed.

Lemma at_addr_peek mem a b n : at_addr mem a b -> b <> [] -> n = Z.of_nat (length b) -> peek mem a n = Some b.
Proof.
  intros Hb Hne ->. pose proof (at_addr_bound _ _ _ Hb Hne). destruct Hb as [Ha Hs].
  rewrite peek_Some by lia. by rewrite Nat2Z.id, Hs.
Qed.

Lemma at_addr_aget mem a x : at_addr mem a [x] -> aget mem a = Some x.
Proof.
  intros [Ha Hs]. rewrite <- (Z2Nat.id a) by done. rewrite aget_lookup. apply (f_equal (.!! 0%nat)) in Hs.
  rewrite lookup_slice in Hs. cbn [length] in Hs. case_decide; [|lia]. by rewrite Nat.add_0_r in Hs.
Qed.

(** A word that is stored in big-endian order is read back. *)
Lemma be32_put x : 0 <= x < 2 ^ 32 -> u32 (GET_UINT32_BE (PUT_UINT32_BE x) 0) = x.
Proof.
  intros Hx. unfold GET_UINT32_BE, PUT_UINT32_BE. cbn [nth Nat.add]. rewrite be_bytes by apply u8_byte.
  unfold be_word. cbn [foldl]. rewrite !Z.shiftr_div_pow2 by lia. unfold wrap. change (2 ^ 8) with 256.
  assert (((((0 * 256 + x / 2 ^ 24 mod 256) * 256 + x / 2 ^ 16 mod 256) * 256 + x / 256 mod 256) * 256 + x mod 256) = x) as ->.
  { change (2 ^ 24) with 16777216. change (2 ^ 16) with 65536. Z.to_euclidean_division_equations. lia. }
  by apply Z.mod_small.
Qed.

Lemma at_addr_be32 mem a x : at_addr mem a (PUT_UINT32_BE x) -> 0 <= x < 2 ^ 32 -> get_be32 mem a = Some x.
Proof. intros Ha Hx. unfold get_be32. rewrite (at_addr_peek _ _ (PUT_UINT32_BE x)), mbind_Some by done. by rewrite be32_put. Qed.

(** ** Moving in chunks *)

(** The first [t] bytes of a move to a lower address, then the others. *)
Lemma move_front mem (d s t n : nat) : (d < s)%nat -> (t <= n)%nat -> (s + n <= length mem)%nat ->
  let mem1 := blit mem d (slice mem s t) in blit mem1 (d + t) (slice mem1 (s + t) (n - t)) = blit mem d (slice mem s n).
Proof.
  intros Hd Ht Hs mem1. assert (length (slice mem s t) = t) as L1 by (apply length_slice; lia).
  assert (length mem1 = length mem) as L2 by (apply length_blit; lia).
  assert (length (slice mem s n) = n) as L4 by (apply length_slice; lia).
  assert (length (slice mem1 (s + t) (n - t)) = (n - t)%nat) as L3 by (apply length_slice; lia).
  apply list_eq. intros i. rewrite !lookup_blit, L3, L4, !lookup_slice by lia. unfold mem1. rewrite !lookup_blit, L1, !lookup_slice by lia.
  repeat case_decide; try lia; try done; f_equal; lia.
Qed.

(** The last [t] bytes of a move to a higher address, then the others. *)
Lemma move_back mem (d s t n : nat) : (s < d)%nat -> (t <= n)%nat -> (d + n <= length mem)%nat ->
  let mem1 := blit mem (d + (n - t)) (slice mem (s + (n - t)) t) in blit mem1 d (slice mem1 s (n - t)) = blit mem d (slice mem s n).
Proof.
  intros Hd Ht Hs mem1. assert (length (slice mem (s + (n - t)) t) = t) as L1 by (apply length_slice; lia).
  assert (length mem1 = length mem) as L2 by (apply length_blit; lia).
  assert (length (slice mem s n) = n) as L4 by (apply length_slice; lia).
  assert (length (slice mem1 s (n - t)) = (n - t)%nat) as L3 by (apply length_slice; lia).
  apply list_eq. intros i. rewrite !lookup_blit, L3, L4, !lookup_slice by lia. unfold mem1. rewrite !lookup_blit, L1, !lookup_slice by lia.
  repeat case_decide; try lia; try done; f_equal; lia.
Qed.

(** The size of a chunk. *)
Ltac chunk t n chunksz :=
  set (t := Z.to_nat (if chunksz <? Z.of_nat n then chunksz else Z.of_nat n));
  assert ((0 < t <= n)%nat) by (unfold t; case_if; lia);
  replace (if chunksz <? Z.of_nat n then chunksz else Z.of_nat n) with (Z.of_nat t) by (unfold t; case_if; lia);
  clearbody t.

Lemma wd_loop_forward fuel : forall mem (d s n : nat) chunksz,
  (d < s)%nat -> (s + n <= length mem)%nat -> 0 < chunksz -> (n < fuel)%nat ->
  memmove_wd_loop fuel mem (Z.of_nat d) (Z.of_nat s) (Z.of_nat n) chunksz = Some (blit mem d (slice mem s n)).
Proof.
  induction fuel as [|fuel IH]; intros mem d s n chunksz Hds Hs Hc Hf; [lia|]. cbn [memmove_wd_loop]. case_if.
  2: { replace n with 0%nat by lia. by rewrite blit_nil. }
  chunk t n chunksz. rewrite (proj2 (Z.ltb_ge (Z.of_nat s) (Z.of_nat d))) by lia.
  rewrite memmove_blit, mbind_Some by lia. rewrite (proj2 (Z.ltb_lt (Z.of_nat d) (Z.of_nat s))) by lia.
  rewrite <- !Nat2Z.inj_add, <- Nat2Z.inj_sub by lia.
  rewrite IH by (rewrite ?length_blit by (rewrite length_slice; lia); lia). f_equal. by apply move_front; lia.
Qed.

Lemma wd_loop_backward fuel : forall mem (d s n : nat) chunksz,
  (s < d)%nat -> (d + n <= length mem)%nat -> 0 < chunksz -> (n < fuel)%nat ->
  memmove_wd_loop fuel mem (Z.of_nat (d + n)) (Z.of_nat (s + n)) (Z.of_nat n) chunksz = Some (blit mem d (slice mem s n)).
Proof.
  induction fuel as [|fuel IH]; intros mem d s n chunksz Hds Hs Hc Hf; [lia|]. cbn [memmove_wd_loop]. case_if.
  2: { replace n with 0%nat by lia. by rewrite blit_nil. }
  chunk t n chunksz. rewrite (proj2 (Z.ltb_lt (Z.of_nat (s + n)) (Z.of_nat (d + n)))) by lia.
  replace (Z.of_nat (d + n) - Z.of_nat t) with (Z.of_nat (d + (n - t))) by lia.
  replace (Z.of_nat (s + n) - Z.of_nat t) with (Z.of_nat (s + (n - t))) by lia.
  rewrite memmove_blit, mbind_Some by lia.
  rewrite (proj2 (Z.ltb_ge (Z.of_nat (d + (n - t))) (Z.of_nat (s + (n - t))))) by lia.
  rewrite <- Nat2Z.inj_sub by lia.
  rewrite IH by (rewrite ?length_blit by (rewrite length_slice; lia); lia). f_equal. by apply move_back; lia.
Qed.

(** Moving in chunks, forwards or backwards, is one move. *)
Lemma memmove_wd_blit `{ImageConfig} mem (d s n : nat) chunksz :
  (d + n <= length mem)%nat -> (s + n <= length mem)%nat -> 0 < chunksz ->
  memmove_wd mem (Z.of_nat d) (Z.of_nat s) (Z.of_nat n) chunksz = Some (blit mem d (slice mem s n)).
Proof.
  intros Hd Hs Hc. unfold memmove_wd. rewrite !Nat2Z.id. case_if.
  { assert (d = s) as -> by lia. f_equal. apply list_eq. intros i. rewrite lookup_blit, length_slice, lookup_slice by (rewrite ?length_slice; lia).
    repeat case_decide; try lia; try done. f_equal. lia. }
  destruct CONFIG_WATCHDOG; [|by apply memmove_blit]. case_if.
  - rewrite <- !Nat2Z.inj_add. apply wd_loop_backward; lia.
  - apply wd_loop_forward; lia.
Qed.

(** ** What is in a header *)

Record image_header_t := mk_image_header {
  ih_magic : Z; ih_hcrc : Z; ih_time : Z; ih_size : Z; ih_load : Z; ih_ep : Z; ih_dcrc : Z;
  ih_os : Z; ih_arch : Z; ih_type : Z; ih_comp : Z; ih_name : list Z
}.

(** The header in memory, with the words in network byte order. *)
Definition header_bytes (h : image_header_t) : list Z :=
  PUT_UINT32_BE (ih_magic h) ++ PUT_UINT32_BE (ih_hcrc h) ++ PUT_UINT32_BE (ih_time h) ++ PUT_UINT32_BE (ih_size h) ++
  PUT_UINT32_BE (ih_load h) ++ PUT_UINT32_BE (ih_ep h) ++ PUT_UINT32_BE (ih_dcrc h) ++
  [ih_os h] ++ [ih_arch h] ++ [ih_type h] ++ [ih_comp h] ++ ih_name h.

Definition with_hcrc (h : image_header_t) (crc : Z) : image_header_t :=
  mk_image_header (ih_magic h) crc (ih_time h) (ih_size h) (ih_load h) (ih_ep h) (ih_dcrc h)
    (ih_os h) (ih_arch h) (ih_type h) (ih_comp h) (ih_name h).

Record header_ok (h : image_header_t) : Prop := {
  ho_words : word32 (ih_magic h) /\ word32 (ih_hcrc h) /\ word32 (ih_time h) /\ word32 (ih_size h) /\ word32 (ih_load h) /\
    word32 (ih_ep h) /\ word32 (ih_dcrc h);
  ho_bytes : byte_ok (ih_os h) /\ byte_ok (ih_arch h) /\ byte_ok (ih_type h) /\ byte_ok (ih_comp h);
  ho_name : length (ih_name h) = 32%nat /\ Forall byte_ok (ih_name h)
}.

Lemma header_bytes_length h : header_ok h -> length (header_bytes h) = 64%nat.
Proof. intros [_ _ [Hn _]]. unfold header_bytes. rewrite !length_app, !length_put, Hn. reflexivity. Qed.

Lemma header_bytes_ok h : header_ok h -> Forall byte_ok (header_bytes h).
Proof.
  intros [_ (H1 & H2 & H3 & H4) [_ Hn]]. unfold header_bytes. rewrite !Forall_app. split_and!; try apply put_bytes; try done; by constructor.
Qed.

Section Fields.
Context (mem : list Z) (a : Z) (h : image_header_t).
Hypothesis Hh : at_addr mem a (header_bytes h).
Hypothesis Hok : header_ok h.

(** The reads of all fields. *)
Lemma header_fields :
  image_get_magic mem a = Some (ih_magic h) /\ image_get_hcrc mem a = Some (ih_hcrc h) /\ image_get_time mem a = Some (ih_time h) /\
  image_get_size mem a = Some (ih_size h) /\ image_get_load mem a = Some (ih_load h) /\ image_get_ep mem a = Some (ih_ep h) /\
  image_get_dcrc mem a = Some (ih_dcrc h) /\ image_get_os mem a = Some (ih_os h) /\ image_get_arch mem a = Some (ih_arch h) /\
  image_get_type mem a = Some (ih_type h) /\ image_get_comp mem a = Some (ih_comp h) /\ image_get_name mem a = Some (ih_name h).
Proof.
  pose proof Hh as H. unfold header_bytes in H. rewrite !at_addr_app in H. cbn [length PUT_UINT32_BE Z.of_nat Pos.of_succ_nat Pos.succ] in H.
  destruct Hok as [(W1 & W2 & W3 & W4 & W5 & W6 & W7) _ [Hn _]]. rewrite <- !Z.add_assoc in H. cbn [Z.add Pos.add Pos.succ] in H.
  destruct H as (H1 & H2 & H3 & H4 & H5 & H6 & H7 & H8 & H9 & H10 & H11 & H12).
  split_and!; try (by apply at_addr_be32); try (by apply at_addr_aget).
  apply at_addr_peek; [done|intros E; by rewrite E in Hn|by rewrite Hn].
Qed.

Lemma header_peek : peek mem a 64 = Some (header_bytes h).
Proof.
  pose proof (header_bytes_length h Hok) as Hl. apply at_addr_peek; [done|intros E; by rewrite E in Hl|by rewrite Hl].
Qed.
End Fields.

(** Clearing the checksum in the copy of the header. *)
Lemma image_set_hcrc_bytes h crc : image_set_hcrc (header_bytes h) crc = header_bytes (with_hcrc h crc).
Proof. reflexivity. Qed.

(** ** Components of a multi-file image *)

Section Multi.
Context `{ImageConfig}.
Context (mem : list Z).

Lemma multi_count_words fuel : forall size i count c, multi_count_loop mem fuel size i count = Some c ->
  count <= c /\ forall j, 0 <= j < c - count -> exists s, get_be32 mem (size + 4 * (i + j)) = Some s /\ s <> 0.
Proof.
  induction fuel as [|fuel IH]; intros size i count c E; [done|]. cbn [multi_count_loop] in E.
  destruct (get_be32 mem (size + 4 * i)) as [s|] eqn:Es; [|done]. rewrite mbind_Some in E. destruct (Z.eqb_spec s 0).
  { injection E as <-. split; [lia|]. intros j Hj. lia. }
  destruct (IH _ _ _ _ E) as [Hc Hj]. split; [lia|]. intros j Hjc. destruct (decide (j = 0)) as [->|].
  - exists s. rewrite Z.add_0_r. by split.
  - destruct (Hj (j - 1)) as (s' & Es' & Hs'); [lia|]. exists s'. by replace (i + j) with (i + 1 + (j - 1)) by lia.
Qed.

Lemma multi_offset_total fuel : forall size i idx offset,
  0 <= i <= idx -> (Z.to_nat (idx - i) < fuel)%nat -> (forall j, i <= j < idx -> is_Some (get_be32 mem (size + 4 * j))) ->
  is_Some (multi_offset_loop mem fuel size i idx offset).
Proof.
  induction fuel as [|fuel IH]; intros size i idx offset Hi Hf Hj; [lia|]. cbn [multi_offset_loop]. case_if; [|done].
  destruct (Hj i) as [s ->]; [lia|]. rewrite mbind_Some. apply IH; [lia|lia|]. intros j Hji. apply Hj. lia.
Qed.

(** When the table of sizes ends within the memory, every component is found. *)
Lemma multi_getimg_total hdr idx : 0 <= idx -> is_Some (image_multi_count mem hdr) -> is_Some (image_multi_getimg mem hdr idx).
Proof.
  intros Hi [c Hc]. unfold image_multi_getimg. rewrite Hc, mbind_Some. cbv zeta. case_if; [|done].
  destruct (multi_count_words _ _ _ _ _ Hc) as [_ Hw].
  destruct (Hw idx) as (s & Es & _); [lia|]. rewrite Z.add_0_l in Es. rewrite Es, mbind_Some.
  destruct (multi_offset_total (S (Z.to_nat idx)) (image_get_data hdr) 0 idx 0) as [o ->]; [lia|lia| |done].
  intros j Hj. destruct (Hw j) as (s' & Es' & _); [lia|]. by eexists.
Qed.

Lemma contents_total hdr n : forall i, 0 <= i -> is_Some (image_multi_count mem hdr) -> is_Some (contents_loop mem hdr i n).
Proof.
  induction n as [|n IH]; intros i Hi Hc; cbn [contents_loop]; [done|].
  destruct (multi_getimg_total hdr i Hi Hc) as [c ->]. rewrite mbind_Some. destruct (IH (i + 1)) as [cs ->]; [lia|done|done].
Qed.

Lemma table_entry_total table id : Exists (fun t => te_id t < 0) table -> is_Some (get_table_entry table id).
Proof.
  induction table as [|t table IH]; intros He; [by apply Exists_nil in He|]. cbn [get_table_entry]. apply Exists_cons in He as [Ht|Ht].
  - by rewrite (proj2 (Z.leb_gt 0 (te_id t))).
  - repeat case_if; auto.
Qed.

Lemma table_name_total table msg id : Exists (fun t => te_id t < 0) table -> is_Some (get_table_entry_name table msg id).
Proof. intros He. unfold get_table_entry_name. by destruct (table_entry_total table id He) as [t ->]. Qed.

(** Every table has an end. *)
Lemma tables_end : Exists (fun t => te_id t < 0) uimage_arch /\ Exists (fun t => te_id t < 0) uimage_os /\
  Exists (fun t => te_id t < 0) uimage_type /\ Exists (fun t => te_id t < 0) uimage_comp.
Proof.
  assert (forall (table : list table_entry_t) e, last table = Some e -> te_id e < 0 -> Exists (fun t => te_id t < 0) table) as Hl.
  { intros table e Hl He. apply Exists_exists. exists e. split; [by apply last_Some_elem_of|done]. }
  split_and!; (apply (Hl _ (te (-1) "" "")); [|done]); [done| |done..].
  unfold uimage_os. by destruct CONFIG_LYNXKDI, CONFIG_CMD_ELF, CONFIG_INTEGRITY, CONFIG_BOOTM_OPENRTOS.
Qed.

(** The table of sizes is only read for types that have one. *)
Definition contents_ok (a : Z) (h : image_header_t) : Prop :=
  ih_type h = IH_TYPE_MULTI \/ ih_type h = IH_TYPE_SCRIPT -> is_Some (image_multi_count mem a).

Lemma print_contents_total a h :
  at_addr mem a (header_bytes h) -> header_ok h -> contents_ok a h -> is_Some (image_print_contents mem a).
Proof.
  intros Ha Hok Hc. destruct (header_fields mem a h Ha Hok) as (_ & _ & E3 & E4 & E5 & E6 & _ & E8 & E9 & E10 & E11 & E12).
  destruct tables_end as (T1 & T2 & T3 & T4). unfold image_print_contents, image_get_data_size, image_check_type.
  rewrite E12, E3, !E8, !mbind_Some. unfold genimg_get_os_name, genimg_get_arch_name, genimg_get_type_name, genimg_get_comp_name.
  destruct (table_name_total uimage_os (str "Unknown OS") (ih_os h) T2) as [? ->]. rewrite mbind_Some, E9, mbind_Some.
  destruct (table_name_total uimage_arch (str "Unknown Architecture") (ih_arch h) T1) as [? ->]. rewrite mbind_Some, !E10, !mbind_Some.
  destruct (table_name_total uimage_type (str "Unknown Image") (ih_type h) T3) as [? ->]. rewrite mbind_Some, E11, mbind_Some.
  destruct (table_name_total uimage_comp (str "Unknown Compression") (ih_comp h) T4) as [? ->].
  rewrite mbind_Some, E4, mbind_Some, E5, mbind_Some, E6, !mbind_Some. case_if; [|done].
  destruct Hc as [c Hc]; [lia|]. rewrite Hc, mbind_Some. apply contents_total; [lia|by eexists].
Qed.
End Multi.

(** ** What is accepted *)

Section Accept.
Context `{ImageConfig}.

Definition hcrc_ok (h : image_header_t) : bool := crc_spec 0 (header_bytes (with_hcrc h 0)) =? ih_hcrc h.
Definition dcrc_ok (h : image_header_t) (data : list Z) : bool := crc_spec 0 data =? ih_dcrc h.

(** A header [h] with its data, somewhere in the memory. *)
Record image_at (mem : list Z) (a : Z) (h : image_header_t) (data : list Z) : Prop := {
  ia_header : header_ok h;
  ia_bytes : at_addr mem a (header_bytes h ++ data);
  ia_data : Forall byte_ok data;
  ia_size : Z.of_nat (length data) = ih_size h;
  ia_small : ih_size h < 2 ^ 31;
  ia_addr : a + 64 + ih_size h < 2 ^ 64
}.

Context (mem : list Z) (a : Z) (h : image_header_t) (data : list Z).
Hypothesis Himg : image_at mem a h data.
Hypothesis Hmem : Forall byte_ok mem.

Lemma image_header_at : at_addr mem a (header_bytes h).
Proof. pose proof (ia_bytes _ _ _ _ Himg) as Hb. by apply at_addr_app in Hb as [? _]. Qed.

Lemma image_data_at : at_addr mem (a + 64) data.
Proof.
  pose proof (ia_bytes _ _ _ _ Himg) as Hb. apply at_addr_app in Hb as [_ Hb]. by rewrite header_bytes_length in Hb by apply Himg.
Qed.

Lemma image_hcrc : image_check_hcrc mem a = Some (hcrc_ok h).
Proof.
  pose proof (ia_header _ _ _ _ Himg) as Hok. unfold image_check_hcrc, image_get_header_size.
  rewrite (header_peek mem a h image_header_at Hok), mbind_Some, image_set_hcrc_bytes.
  assert (header_ok (with_hcrc h 0)) as Hok0 by (destruct Hok as [(?&?&?&?&?&?&?) ? ?]; split; cbn; try done; split_and!; try done).
  rewrite crc32_spec, mbind_Some; [|done|by apply header_bytes_ok|by rewrite header_bytes_length].
  destruct (header_fields mem a h image_header_at Hok) as (_ & -> & _). rewrite mbind_Some. unfold hcrc_ok. do 2 f_equal. f_equal.
  apply take_ge. by rewrite header_bytes_length.
Qed.

Lemma image_dcrc : image_check_dcrc mem a = Some (dcrc_ok h data).
Proof.
  pose proof (ia_header _ _ _ _ Himg) as Hok. destruct (ho_words _ Hok) as (_ & _ & _ & W4 & _). pose proof image_data_at as [Ha Hd].
  pose proof (ia_size _ _ _ _ Himg). pose proof (ia_addr _ _ _ _ Himg). pose proof (ia_small _ _ _ _ Himg).
  unfold image_check_dcrc, image_get_data, image_get_header_size, image_get_data_size. rewrite wrap_small by (unfold word32 in *; lia).
  destruct (header_fields mem a h image_header_at Hok) as (_ & _ & _ & -> & _ & _ & -> & _). rewrite mbind_Some.
  assert (take (Z.to_nat (ih_size h)) (drop (Z.to_nat (a + 64)) mem) = data) as Et
    by (transitivity (slice mem (Z.to_nat (a + 64)) (length data)); [unfold slice; f_equal; lia|done]).
  assert (Z.of_nat (length (drop (Z.to_nat (a + 64)) mem)) >= ih_size h) as Hl.
  { apply (f_equal length) in Et. rewrite length_take in Et. lia. }
  assert (Forall byte_ok (drop (Z.to_nat (a + 64)) mem)) as Hb by (by apply Forall_drop).
  assert (0 <= ih_size h) by (unfold word32 in *; lia).
  unfold CHUNKSZ_CRC32. destruct CONFIG_WATCHDOG.
  - unfold crc32_wd. rewrite crc32_wd_loop_spec by (done || lia). by rewrite mbind_Some, Et.
  - unfold crc32_nowd. rewrite crc32_spec by (done || lia). by rewrite mbind_Some, Et.
Qed.

Definition arch_ok (h : image_header_t) (arch : Z) : bool := (ih_arch h =? arch) || ((ih_arch h =? IH_ARCH_ARM) && (arch =? IH_ARCH_ARM64)).

(** A kernel is accepted exactly when the magic number, the checksum of the
    header, the checksum of the data (unless it is not verified) and the
    architecture are right. *)
Lemma image_get_kernel_spec verify : contents_ok mem a h ->
  image_get_kernel mem a verify =
  Some (if (ih_magic h =? IH_MAGIC) && hcrc_ok h && ((verify =? 0) || dcrc_ok h data) && arch_ok h IH_ARCH_DEFAULT then Some a else None).
Proof.
  intros Hc. pose proof (ia_header _ _ _ _ Himg) as Hok. unfold image_get_kernel, image_check_magic, image_check_target_arch, image_check_arch.
  destruct (header_fields mem a h image_header_at Hok) as (-> & _ & _ & _ & _ & _ & _ & _ & -> & _). rewrite !mbind_Some.
  rewrite image_hcrc, image_dcrc. destruct (print_contents_total mem a h image_header_at Hok Hc) as [cs ->].
  destruct (ih_magic h =? IH_MAGIC); [|done]. rewrite !mbind_Some. cbn [negb andb]. destruct (hcrc_ok h); [|done]. cbn [negb andb].
  destruct (verify =? 0); cbn [negb orb]; rewrite mbind_Some; [|destruct (dcrc_ok h data); [|done]]; cbn [negb andb];
    unfold arch_ok; by destruct (_ || _).
Qed.

Lemma image_get_ramdisk_spec arch verify : contents_ok mem a h ->
  image_get_ramdisk mem a arch verify =
  Some (if (ih_magic h =? IH_MAGIC) && hcrc_ok h && ((verify =? 0) || dcrc_ok h data) &&
           ((ih_os h =? IH_OS_LINUX) && arch_ok h arch && (ih_type h =? IH_TYPE_RAMDISK)) then Some a else None).
Proof.
  intros Hc. pose proof (ia_header _ _ _ _ Himg) as Hok. unfold image_get_ramdisk, image_check_magic, image_check_arch, image_check_os, image_check_type.
  destruct (header_fields mem a h image_header_at Hok) as (-> & _ & _ & _ & _ & _ & _ & -> & -> & -> & _). rewrite !mbind_Some.
  rewrite image_hcrc, image_dcrc. destruct (print_contents_total mem a h image_header_at Hok Hc) as [cs ->].
  destruct (ih_magic h =? IH_MAGIC); [|done]. rewrite !mbind_Some. cbn [negb andb]. destruct (hcrc_ok h); [|done]. cbn [negb andb].
  fold (arch_ok h arch). generalize (arch_ok h arch). intros b.
  destruct (verify =? 0); cbn [negb orb]; rewrite mbind_Some; [|destruct (dcrc_ok h data); [|done]]; cbn [negb andb];
    by destruct (ih_os h =? IH_OS_LINUX), b, (ih_type h =? IH_TYPE_RAMDISK).
Qed.
End Accept.

(** ** Building a multi-file image *)

(** The size of a component in the file, a multiple of four bytes. *)
Definition round4 (n : Z) : Z := 4 * ((n + 3) / 4).
Definition pad4 (b : list Z) : list Z := b ++ replicate (Z.to_nat (round4 (Z.of_nat (length b)) - Z.of_nat (length b))) 0.

(** All components but the last are padded. *)
Fixpoint multi_files (comps : list (list Z)) : list Z :=
  match comps with
  | [] => []
  | [c] => c
  | c :: comps => pad4 c ++ multi_files comps
  end.

Definition multi_sizes (comps : list (list Z)) : list Z := concat ((fun c => PUT_UINT32_BE (Z.of_nat (length c))) <$> comps).

(** The sizes, a zero and the components. *)
Definition multi_payload (comps : list (list Z)) : list Z := multi_sizes comps ++ PUT_UINT32_BE 0 ++ multi_files comps.

Lemma round4_bound n : 0 <= n -> n <= round4 n <= n + 3.
Proof. unfold round4. intros Hn. Z.to_euclidean_division_equations. lia. Qed.

Lemma round4_mask s : 0 <= s < 2 ^ 32 - 3 -> Z.land (u32 (s + 3)) (u32 (Z.lnot 3)) = round4 s.
Proof. intros Hs. rewrite wrap_small by lia. apply (land_mask 32 (s + 3) 2); lia. Qed.

Lemma length_pad4 c : Z.of_nat (length (pad4 c)) = round4 (Z.of_nat (length c)).
Proof.
  unfold pad4. rewrite length_app, length_replicate. pose proof (round4_bound (Z.of_nat (length c)) ltac:(lia)). lia.
Qed.

Lemma length_multi_sizes comps : length (multi_sizes comps) = (4 * length comps)%nat.
Proof. induction comps as [|c comps IH]; [done|]. unfold multi_sizes in *. cbn [fmap list_fmap concat]. rewrite length_app, IH. cbn [length PUT_UINT32_BE]. lia. Qed.

(** A component fits in the table: its size is neither 0, which ends the table,
    nor so large that rounding it up overflows. *)
Definition comp_ok (c : list Z) : Prop := 0 < Z.of_nat (length c) < 2 ^ 32 - 3.

Section Payload.
Context (mem : list Z).

(** The words of the table. *)
Lemma multi_sizes_lookup comps size (i : nat) c :
  at_addr mem size (multi_sizes comps) -> Forall comp_ok comps -> comps !! i = Some c ->
  get_be32 mem (size + 4 * Z.of_nat i) = Some (Z.of_nat (length c)).
Proof.
  revert size i. induction comps as [|c0 comps IH]; intros size i Ha Hok Hi; [done|]. apply Forall_cons in Hok as [Hc Hok].
  unfold multi_sizes in Ha. cbn [fmap list_fmap concat] in Ha. apply at_addr_app in Ha as [H0 Ha]. cbn [length PUT_UINT32_BE] in Ha.
  destruct i as [|i]; cbn [lookup list_lookup] in Hi.
  - injection Hi as <-. rewrite Z.add_0_r. apply at_addr_be32; [done|]. unfold comp_ok in Hc. lia.
  - specialize (IH (size + 4) i Ha Hok Hi). rewrite <- IH. f_equal. lia.
Qed.

Lemma multi_count_sizes comps : forall fuel size i count,
  at_addr mem (size + 4 * i) (multi_sizes comps ++ PUT_UINT32_BE 0) -> Forall comp_ok comps -> (length comps < fuel)%nat ->
  multi_count_loop mem fuel size i count = Some (count + Z.of_nat (length comps)).
Proof.
  induction comps as [|c comps IH]; intros [|fuel] size i count Ha Hok Hf; try (cbn [length] in Hf; lia); cbn [multi_count_loop].
  - rewrite (at_addr_be32 _ _ 0) by done. rewrite mbind_Some. f_equal. cbn [length Z.of_nat]. lia.
  - apply Forall_cons in Hok as [Hc Hok]. unfold multi_sizes in Ha. cbn [fmap list_fmap concat] in Ha. rewrite <- app_assoc in Ha.
    apply at_addr_app in Ha as [H0 Ha]. unfold comp_ok in Hc. rewrite (at_addr_be32 _ _ (Z.of_nat (length c))) by (done || lia).
    rewrite mbind_Some. rewrite (proj2 (Z.eqb_neq _ 0)) by lia. rewrite IH; [f_equal; cbn [length]; lia| |done|cbn [length] in Hf; lia].
    cbn [length PUT_UINT32_BE] in Ha. by replace (size + 4 * (i + 1)) with (size + 4 * i + Z.of_nat 4) by lia.
Qed.

(** The bytes in front of component [idx]. *)
Definition files_before (comps : list (list Z)) : Z := foldr (fun c n => round4 (Z.of_nat (length c)) + n) 0 comps.

Lemma files_before_nonneg comps : 0 <= files_before comps.
Proof. induction comps as [|c comps IH]; [done|]. cbn [files_before foldr]. pose proof (round4_bound (Z.of_nat (length c)) ltac:(lia)). unfold files_before in *. lia. Qed.

Lemma multi_offset_files comps size (Ha : at_addr mem size (multi_sizes comps)) (Hok : Forall comp_ok comps) : forall fuel (k i : nat) offset,
  (i + k <= length comps)%nat -> (k < fuel)%nat -> 0 <= offset -> offset + files_before (take k (drop i comps)) < 2 ^ 64 ->
  multi_offset_loop mem fuel size (Z.of_nat i) (Z.of_nat (i + k)) offset = Some (offset + files_before (take k (drop i comps))).
Proof.
  induction fuel as [|fuel IH]; intros k i offset Hk Hf Ho Hb; [lia|]. cbn [multi_offset_loop]. case_if.
  2: { replace k with 0%nat by lia. rewrite take_0. f_equal. cbn [files_before foldr]. lia. }
  destruct k as [|k]; [lia|]. destruct (lookup_lt_is_Some_2 comps i) as [c Hc]; [lia|].
  rewrite (multi_sizes_lookup comps size i c Ha Hok Hc), mbind_Some. rewrite (drop_S comps c i Hc) in Hb |- *.
  rewrite firstn_cons in *. cbn [files_before foldr] in Hb |- *. fold (files_before (take k (drop (S i) comps))) in *.
  pose proof (files_before_nonneg (take k (drop (S i) comps))) as Hn.
  assert (comp_ok c) as Hcc by (rewrite Forall_forall in Hok; apply Hok; by eapply list_elem_of_lookup_2). unfold comp_ok in Hcc.
  pose proof (round4_bound (Z.of_nat (length c)) ltac:(lia)). rewrite round4_mask, wrap_small by lia.
  replace (Z.of_nat i + 1) with (Z.of_nat (S i)) by lia. replace (i + S k)%nat with (S i + k)%nat by lia.
  rewrite IH; [f_equal; lia|lia|lia|lia|lia].
Qed.

(** A component within the padded files. *)
Lemma multi_files_at comps : forall a (i : nat) c,
  at_addr mem a (multi_files comps) -> comps !! i = Some c -> at_addr mem (a + files_before (take i comps)) c.
Proof.
  induction comps as [|c0 comps IH]; intros a i c Ha Hi; [done|]. destruct i as [|i].
  - injection Hi as <-. cbn [take firstn files_before foldr]. rewrite Z.add_0_r. destruct comps; [done|].
    cbn [multi_files] in Ha. apply at_addr_app in Ha as [Ha _]. unfold pad4 in Ha. by apply at_addr_app in Ha as [? _].
  - destruct comps as [|c1 comps]; [done|]. cbn [multi_files] in Ha. apply at_addr_app in Ha as [_ Ha]. rewrite length_pad4 in Ha.
    specialize (IH _ i c Ha Hi). rewrite firstn_cons. cbn [files_before foldr].
    by replace (a + (round4 (Z.of_nat (length c0)) + foldr (fun c n => round4 (Z.of_nat (length c)) + n) 0 (take i (c1 :: comps))))
      with (a + round4 (Z.of_nat (length c0)) + files_before (take i (c1 :: comps))) by (unfold files_before; lia).
Qed.
End Payload.

Lemma multi_payload_count mem hdr comps :
  at_addr mem (hdr + 64) (multi_payload comps) -> 0 <= hdr -> Z.of_nat (length mem) < 2 ^ 64 -> Forall comp_ok comps ->
  image_get_data hdr = hdr + 64 /\ hdr + 64 + (Z.of_nat (length comps) + 1) * 4 <= Z.of_nat (length mem) /\
  image_multi_count mem hdr = Some (Z.of_nat (length comps)).
Proof.
  intros Ha Hh Hm Hok. unfold multi_payload in Ha. rewrite app_assoc in Ha. apply at_addr_app in Ha as [Ha _].
  assert (hdr + 64 + (Z.of_nat (length comps) + 1) * 4 <= Z.of_nat (length mem)) as Hb.
  { pose proof (at_addr_bound _ _ _ Ha) as Hb. rewrite length_app, length_multi_sizes in Hb. cbn [length PUT_UINT32_BE] in Hb.
    assert (multi_sizes comps ++ PUT_UINT32_BE 0 <> []) as Hne by (by destruct (multi_sizes comps)). specialize (Hb Hne). lia. }
  assert (image_get_data hdr = hdr + 64) as Hd by (unfold image_get_data, image_get_header_size; rewrite wrap_small; lia).
  split_and!; [done|done|]. unfold image_multi_count. rewrite Hd. rewrite (multi_count_sizes mem comps); [done|by rewrite Z.add_0_r|done|].
  assert (S (length comps) <= length mem / 4)%nat; [|lia]. apply Nat.div_le_lower_bound; lia.
Qed.

Lemma multi_getimg_payload mem hdr comps :
  at_addr mem (hdr + 64) (multi_payload comps) -> 0 <= hdr -> Z.of_nat (length mem) < 2 ^ 64 -> Forall comp_ok comps ->
  (forall (i : nat) c, comps !! i = Some c ->
     exists data, image_multi_getimg mem hdr (Z.of_nat i) = Some (data, Z.of_nat (length c)) /\ at_addr mem data c) /\
  (forall i, Z.of_nat (length comps) <= i -> image_multi_getimg mem hdr i = Some (0, 0)).
Proof.
  intros Ha Hh Hm Hok. destruct (multi_payload_count mem hdr comps Ha Hh Hm Hok) as (Hd & Hb & Hc).
  unfold multi_payload in Ha. apply at_addr_app in Ha as [Hs Ha].
  apply at_addr_app in Ha as [_ Hf]. rewrite length_multi_sizes in Hf. cbn [length PUT_UINT32_BE] in Hf.
  replace (hdr + 64 + Z.of_nat (4 * length comps) + Z.of_nat 4) with (hdr + 64 + (Z.of_nat (length comps) + 1) * 4) in Hf by lia.
  set (base := hdr + 64 + (Z.of_nat (length comps) + 1) * 4) in *.
  assert (u64 base = base) as Eb by (apply wrap_small; lia).
  split; intros i; unfold image_multi_getimg; rewrite Hc, mbind_Some, Hd; fold base; rewrite Eb; cbv zeta.
  - intros c Hi. pose proof (lookup_lt_Some _ _ _ Hi) as Hlt. rewrite (proj2 (Z.ltb_lt (Z.of_nat i) _)) by lia.
    rewrite (multi_sizes_lookup mem comps (hdr + 64) i c Hs Hok Hi), mbind_Some.
    pose proof (multi_files_at mem comps base i c Hf Hi) as Hat. pose proof (files_before_nonneg (take i comps)).
    assert (comp_ok c) as Hcc by (rewrite Forall_forall in Hok; apply Hok; by eapply list_elem_of_lookup_2). unfold comp_ok in Hcc.
    assert (base + files_before (take i comps) + Z.of_nat (length c) <= Z.of_nat (length mem)) as Hbd.
    { apply at_addr_bound in Hat; [done|]. intros ->. cbn [length] in Hcc. lia. }
    rewrite Nat2Z.id. pose proof (multi_offset_files mem comps (hdr + 64) Hs Hok (S i) i 0 0) as Ho.
    rewrite drop_0 in Ho. cbn [Nat.add] in Ho. change (Z.of_nat 0) with 0 in Ho. rewrite Ho, mbind_Some by lia. rewrite Z.add_0_l, wrap_small by lia. by eexists.
  - intros Hi. by rewrite (proj2 (Z.ltb_ge i _)).
Qed.

(** ** The ramdisk *)

Section Ramdisk.
Context `{ImageConfig}.
Context (env_get : list Z -> option (option (list Z))).

(** What the caller of [boot_ramdisk_high] gets when the ramdisk was moved. *)
Definition ramdisk_moved (l l' : lmb) (lm lr : list lmb_property) (mem mem' : list Z) (rd_data rd_len limit start : Z) : Prop :=
  (exists m, m ∈ lm /\ fits rd_len 0x1000 limit m start) /\ free_at lr rd_len start /\
  mem' = blit mem (Z.to_nat start) (slice mem (Z.to_nat rd_data) (Z.to_nat rd_len)) /\
  (free_at lr (lmb_align_up rd_len 0x1000) start -> start + lmb_align_up rd_len 0x1000 < 2 ^ 64 ->
   exists lr', blocks (reserved l') lr' /\
     forall a, covered lr' a <-> covered lr a \/ start <= a < start + lmb_align_up rd_len 0x1000).

Lemma align_up_pos n k : 0 < n -> 0 <= k < 64 -> n + 2 ^ k <= 2 ^ 64 -> 0 < lmb_align_up n (2 ^ k).
Proof.
  intros Hn Hk Hb. assert (0 < 2 ^ k) by (apply Z.pow_pos_nonneg; lia). unfold lmb_align_up. rewrite wrap_small by lia.
  rewrite land_mask_pow2 by lia. apply Z.mul_pos_pos; [done|]. apply Z.div_str_pos. lia.
Qed.

Lemma boot_ramdisk_high_spec l lm lr mem rd_data rd_len end_ limit :
  blocks (memory l) lm -> blocks (reserved l) lr ->
  Forall (fun m => lp_end m <= Z.of_nat (length mem)) lm ->
  0 < rd_data -> 0 < rd_len -> rd_data + rd_len <= Z.of_nat (length mem) -> Z.of_nat (length mem) < 2 ^ 63 ->
  ramdisk_hint env_get = Some (limit, true) -> limit = 0 \/ rd_len <= limit < 2 ^ 64 ->
  exists ret start e l' mem', boot_ramdisk_high env_get l mem rd_data rd_len end_ = Some (ret, start, e, l', mem') /\
    memory l' = memory l /\
    ((ret = 0 /\ e = start + rd_len /\ ramdisk_moved l l' lm lr mem mem' rd_data rd_len limit start) \/
     (ret = -1 /\ start = 0 /\ mem' = mem /\
      (length lr = 8%nat \/ forall m b, m ∈ lm -> fits rd_len 0x1000 limit m b -> ~ free_at lr rd_len b))).
Proof.
  intros Hm Hr Hend Hd Hlen Hbd H64 Hlim Hl. unfold boot_ramdisk_high. rewrite Hlim.
  rewrite mbind_Some. rewrite (proj2 (Z.eqb_neq rd_data 0)) by lia. cbn [negb].
  replace (if negb (limit =? 0) then lmb_alloc_base l rd_len 4096 limit else lmb_alloc l rd_len 4096)
    with (lmb_alloc_base l rd_len (2 ^ 12) limit) by (by destruct (Z.eqb_spec limit 0) as [->|]).
  destruct (lmb_alloc_spec l lm lr rd_len 12 limit) as (start & l' & -> & Hmem & Hok & Hno); [done..|lia|done|]. rewrite mbind_Some.
  case_if.
  { do 5 eexists. split; [done|]. split; [done|]. right. auto. }
  destruct Hok as ((m & Hin & Hfit) & Hfree & _ & c & Hc & Hadd); [done|].
  assert (lp_end m <= Z.of_nat (length mem)) as Hme by (by rewrite Forall_forall in Hend; apply Hend).
  pose proof Hfit as (H0 & _ & _ & He & _).
  rewrite <- (Z2Nat.id start), <- (Z2Nat.id rd_data), <- (Z2Nat.id rd_len) by lia.
  rewrite memmove_wd_blit by (unfold CHUNKSZ; lia). rewrite mbind_Some, !Z2Nat.id by lia. rewrite (wrap_small 64 (start + _)) by lia.
  do 5 eexists. split; [done|]. split; [done|]. left. split_and!; [done|done|]. split_and!; [by exists m|done|done|].
  intros Hfree' Hb'. destruct (add_region_blocks (reserved l) lr (mk_property start (lmb_align_up rd_len (2 ^ 12))) Hr) as (c' & rgn & Hadd' & Hres).
  - split; cbn [lp_base lp_size lp_end]; [lia|]. split; [|done]. apply align_up_pos; lia.
  - done.
  - cbn [lp_base lp_size] in Hadd'. rewrite Hadd in Hadd'. injection Hadd' as <- <-.
    destruct Hres as [(Hneg & _)|(_ & lr' & Hb & Hcov)]; [lia|]. by exists lr'.
Qed.
End Ramdisk.

(** ** Correctness *)

(** The name of the entry stands for its number, also in upper case, and so does
    the name that is printed for its number. *)
Definition name_ok (table : list table_entry_t) (t : table_entry_t) : bool :=
  (te_id t <? 0) ||
  (bool_decide (get_table_entry_id table (te_sname t) = Some (te_id t)) &&
   bool_decide (get_table_entry_id table (toupper <$> te_sname t) = Some (te_id t)) &&
   bool_decide ((n ← genimg_get_short_name table (te_id t); get_table_entry_id table n) = Some (te_id t))).

Lemma names_roundtrip `{ImageConfig} :
  forallb (name_ok uimage_arch) uimage_arch = true /\ forallb (name_ok uimage_os) uimage_os = true /\
  forallb (name_ok uimage_type) uimage_type = true /\ forallb (name_ok uimage_comp) uimage_comp = true.
Proof.
  unfold uimage_os. split_and!; [| |vm_compute; reflexivity..]; [vm_compute; reflexivity|].
  destruct CONFIG_LYNXKDI, CONFIG_CMD_ELF, CONFIG_INTEGRITY, CONFIG_BOOTM_OPENRTOS; vm_compute; reflexivity.
Qed.

(** The message for an unknown number fits in its 30 bytes. *)
Lemma unknown_msg_fits `{ImageConfig} category : unknown_msg (replicate 30 0) category = Some (str "Unknown " ++ genimg_get_cat_desc category).
Proof. destruct category; vm_compute; reflexivity. Qed.

(** C29: a legacy kernel in memory is accepted exactly when its magic number, the
    checksum of its header, its architecture and, unless verification is off, the
    checksum of its data are right; when an accepted image is changed within four
    consecutive bytes of its data, verification rejects it. *)
Theorem legacy_kernel_checked `{ImageConfig} mem a h data verify :
  image_at mem a h data -> Forall byte_ok mem -> contents_ok mem a h ->
  image_get_kernel mem a verify =
    Some (if (ih_magic h =? IH_MAGIC) && hcrc_ok h && ((verify =? 0) || dcrc_ok h data) && arch_ok h IH_ARCH_DEFAULT then Some a else None) /\
  forall pre w1 w2 post mem', data = pre ++ w1 ++ post -> length w1 = length w2 -> (length w1 <= 4)%nat -> w1 <> w2 ->
    image_at mem' a h (pre ++ w2 ++ post) -> Forall byte_ok mem' -> contents_ok mem' a h ->
    verify <> 0 -> image_get_kernel mem a verify = Some (Some a) -> image_get_kernel mem' a verify = Some None.
Proof.
  intros Himg Hmem Hc. split; [by apply image_get_kernel_spec|]. intros pre w1 w2 post mem' -> Hlen H4 Hne Himg' Hmem' Hc' Hv Hok.
  rewrite (image_get_kernel_spec mem a h _ Himg Hmem verify Hc) in Hok. rewrite (image_get_kernel_spec mem' a h _ Himg' Hmem' verify Hc').
  rewrite (proj2 (Z.eqb_neq verify 0)) in * by done. cbn [orb] in *.
  assert (dcrc_ok h (pre ++ w1 ++ post) = true) as Hd by (destruct (dcrc_ok h (pre ++ w1 ++ post)); [done|by rewrite andb_false_r in Hok]).
  assert (dcrc_ok h (pre ++ w2 ++ post) = false) as ->; [|by rewrite andb_false_r].
  unfold dcrc_ok in *. apply Z.eqb_eq in Hd. apply Z.eqb_neq. rewrite <- Hd. intros E. symmetry in E.
  pose proof (ia_data _ _ _ _ Himg') as Hb2. rewrite !Forall_app in Hb2. destruct Hb2 as (_ & Hw2 & _).
  revert E. by apply crc_spec_burst; [|apply Himg|..].
Qed.

(** C30: in a multi-file image that is built as the format says, every component is
    found at its index with its length and its bytes, and behind the last one
    there is none. *)
Theorem multi_image_components mem hdr comps :
  at_addr mem (hdr + 64) (multi_payload comps) -> 0 <= hdr -> Z.of_nat (length mem) < 2 ^ 64 -> Forall comp_ok comps ->
  image_multi_count mem hdr = Some (Z.of_nat (length comps)) /\
  (forall (i : nat) c, comps !! i = Some c ->
     exists data, image_multi_getimg mem hdr (Z.of_nat i) = Some (data, Z.of_nat (length c)) /\ at_addr mem data c) /\
  (forall i, Z.of_nat (length comps) <= i -> image_multi_getimg mem hdr i = Some (0, 0)).
Proof. intros Ha Hh Hm Hok. split; [by apply multi_payload_count|]. by apply multi_getimg_payload. Qed.


(** ** Examples *)

#[local] Instance example_config : ImageConfig := {|
  CONFIG_WATCHDOG := true; CONFIG_LYNXKDI := false; CONFIG_CMD_ELF := true; CONFIG_INTEGRITY := false; CONFIG_BOOTM_OPENRTOS := false;
  CONFIG_SYS_SDRAM_BASE := 0x1000; CONFIG_SYS_BOOTM_LEN := 0x4000000; bi_dram_start := 0x1000; bi_dram_size := 0x2000 |}.

(** A header for some data, with both checksums. *)
Definition make_header (type load : Z) (data : list Z) : image_header_t :=
  let h := mk_image_header IH_MAGIC 0 0 (Z.of_nat (length data)) load load (crc_spec 0 data) IH_OS_LINUX IH_ARCH_ARM64 type IH_COMP_NONE
             (str "kernel" ++ replicate 26 0) in
  with_hcrc h (crc_spec 0 (header_bytes h)).

Definition example_data : list Z := str "kernel!".
Definition example_kernel : image_header_t := make_header IH_TYPE_KERNEL 0x1000 example_data.
Definition example_memory : list Z := header_bytes example_kernel ++ example_data.

Lemma example_kernel_at data : length data = 7%nat -> Forall byte_ok data -> image_at (header_bytes example_kernel ++ data) 0 example_kernel data.
Proof.
  intros Hl Hd. assert (header_ok example_kernel) as Hok.
  { split; [vm_compute; split_and!; (done || congruence)|by vm_compute|]. split; [reflexivity|]. repeat constructor; simpl; lia. }
  split; [done| |done|by rewrite Hl|done|done].
  split; [lia|]. unfold slice. by apply take_ge.
Qed.

(** Witness: an image with a checksum of its data, and the same image with one
    byte changed. *)
Lemma legacy_kernel_checked_witness :
  image_get_kernel example_memory 0 (-1) = Some (Some 0) /\
  image_get_kernel (header_bytes example_kernel ++ str "kernel?") 0 (-1) = Some None.
Proof.
  assert (forall data, length data = 7%nat -> Forall byte_ok data -> Forall byte_ok (header_bytes example_kernel ++ data)) as Hb.
  { intros data Hl Hd. apply Forall_app. split; [|done]. apply header_bytes_ok, (example_kernel_at data Hl Hd). }
  assert (Forall byte_ok example_data /\ Forall byte_ok (str "kernel?")) as [Hd1 Hd2] by (split; repeat constructor; simpl; lia).
  assert (image_get_kernel example_memory 0 (-1) = Some (Some 0)) as Hk.
  { rewrite (proj1 (legacy_kernel_checked example_memory 0 example_kernel example_data (-1) (example_kernel_at example_data eq_refl Hd1)
      (Hb example_data eq_refl Hd1) ltac:(intros [?|?]; done))). vm_compute. reflexivity. }
  split; [done|].
  pose proof (proj2 (legacy_kernel_checked example_memory 0 example_kernel example_data (-1) (example_kernel_at example_data eq_refl Hd1)
      (Hb example_data eq_refl Hd1) ltac:(intros [?|?]; done))) as Hdamaged.
  exact (Hdamaged (str "kernel") [33] [63] [] _ eq_refl eq_refl ltac:(simpl; lia) ltac:(discriminate)
    (example_kernel_at (str "kernel?") eq_refl Hd2) (Hb (str "kernel?") eq_refl Hd2) ltac:(intros [?|?]; done) ltac:(discriminate) Hk).
Defined.

Definition example_comps : list (list Z) := [str "kernel"; str "rd"; str "dtb.."].

(** Witness: a kernel, a ramdisk and a tree; the ramdisk is the second. *)
Lemma multi_image_components_witness :
  let mem := replicate 64 7 ++ multi_payload example_comps in
  image_multi_count mem 0 = Some 3 /\ image_multi_getimg mem 0 3 = Some (0, 0) /\
  exists data, image_multi_getimg mem 0 1 = Some (data, 2) /\ at_addr mem data (str "rd").
Proof.
  intros mem. destruct (multi_image_components mem 0 example_comps) as (Hc & Hi & Hn).
  - split; [lia|]. vm_compute. reflexivity.
  - lia.
  - vm_compute. reflexivity.
  - repeat constructor; unfold comp_ok; simpl; lia.
  - split; [exact Hc|]. split; [apply Hn; simpl; lia|]. exact (Hi 1%nat (str "rd") eq_refl).
Defined.

(** An environment with one variable. *)
Definition one_variable (name value : string) (n : list Z) : option (option (list Z)) :=
  Some (if bool_decide (n = str name) then Some (str value) else None).

Definition example_bank : lmb_region := mk_region 1 0 (mk_property 0x1000 0x2000 :: replicate 8 (mk_property 0 0)).
Definition example_reserved : lmb_region := mk_region 1 0 (mk_property 0x2000 0x10 :: replicate 8 (mk_property 0 0)).

Lemma example_blocks p : block_ok p -> blocks (mk_region 1 0 (p :: replicate 8 (mk_property 0 0))) [p].
Proof.
  intros Hp. apply blocks_cons; [by exists (replicate 8 (mk_property 0 0))|simpl; lia|]. split; [by apply Forall_singleton|by repeat constructor].
Qed.


(** On a machine of 64 bits, [ffffffff] is a limit like any other: the ramdisk is
    copied.  With [no] the limit is gone, and the highest address is taken. *)
Example initrd_high_values :
  ramdisk_hint (one_variable "initrd_high" "ffffffff") = Some (0xffffffff, true) /\
  ramdisk_hint (one_variable "initrd_high" "ffffffffffffffff") = Some (0xffffffffffffffff, false) /\
  ramdisk_hint (one_variable "initrd_high" "no") = Some (LMB_ALLOC_ANYWHERE, true).
Proof. vm_compute. done. Qed.

(** A multi-file image whose table of sizes has no end within its data. *)
Definition endless_data : list Z := PUT_UINT32_BE 1 ++ PUT_UINT32_BE 1.
Definition endless_image : list Z := header_bytes (make_header IH_TYPE_MULTI 0x1000 endless_data) ++ endless_data.

(** The table is read on behind the data of the image, to the next zero or to the
    end of the memory, before the checksum of the data is looked at. *)
Example multi_table_overrun :
  image_multi_count (endless_image ++ PUT_UINT32_BE 1 ++ PUT_UINT32_BE 0) 0 = Some 3 /\
  image_get_kernel endless_image 0 1 = None.
Proof. vm_compute. done. Qed.

(** The end of an image is computed in 32 bits. *)
Example image_end_wraps :
  image_get_image_end (header_bytes (mk_image_header IH_MAGIC 0 0 0xffffffe0 0 0 0 0 0 0 0 (replicate 32 0))) 0 = Some 0x20.
Proof. vm_compute. reflexivity. Qed.
