(* ===== verification/Fit.v ===== *)
(** * FIT images ([common/image-fit.c])

    A FIT image is a flattened device tree: its node [/images] has the images,
    each with subnodes for hashes and signatures, and [/configurations] says which
    images belong together.  The file has the accessors of an image node, the
    verification of an image against its hash and signature nodes, the selection
    of a configuration and the loading of an image.

    Libfdt is not part of the program: the class [Libfdt] gives, for an address in
    the memory, the tree that libfdt finds there ([fdt] of [Rsa.v], with the calls
    that only this file makes).  A function is [None] when it reads behind a
    property, or reads or writes outside the memory.  Console output and boot
    stages are left out. *)

From S2P Require Import Prelude StringLib Strto Blocks Crc32 Sha1 Sha256 Md5 Hash Rsa ImageSig Lmb Image.
Local Open Scope Z_scope.

Definition FIT_IMAGES_PATH : list Z := str "/images".
Definition FIT_CONFS_PATH : list Z := str "/configurations".
Definition FIT_HASH_NODENAME : list Z := str "hash".
Definition ENOEXEC : Z := 8.
Definition EXDEV : Z := 18.

Inductive fit_load_op := FIT_LOAD_IGNORED | FIT_LOAD_OPTIONAL | FIT_LOAD_OPTIONAL_NON_ZERO | FIT_LOAD_REQUIRED.

(** ** The trees *)

(** [fdt_getprop_err n p]: [*lenp] when the node has no such property.
    [fdt_prop_addr n p]: the address of the bytes of the property.
    [fdt_stringlist_get n p i]: the error, or string [i] of the property. *)
Record fit_tree := mk_fit_tree {
  tree : fdt;
  fdt_path_offset : list Z -> Z;
  fdt_getprop_err : Z -> list Z -> Z;
  fdt_prop_addr : Z -> list Z -> Z;
  fdt_stringlist_count : Z -> list Z -> Z;
  fdt_stringlist_get : Z -> list Z -> Z -> Z + list Z;
  fdt_node_check_compatible : Z -> list Z -> Z
}.

(** The tree at an address of the memory, and the control tree of the program. *)
Class Libfdt := {
  fdt_at : list Z -> Z -> fit_tree;
  gd_fdt_blob : fit_tree
}.

(** [heap], [stack]: as in [ImageSig.v].  [junk]: the buffer of a digest before it
    is used. *)
Class FitConfig := {
  IMAGE_ENABLE_VERIFY : bool;
  IMAGE_ENABLE_BEST_MATCH : bool;
  IMAGE_ENABLE_TIMESTAMP : bool;
  IMAGE_ENABLE_SHA256 : bool;
  CONFIG_ARM64_SUPPORT_AARCH32 : bool;
  CONFIG_FIT_SIGNATURE_MAX_SIZE : Z;
  fit_heap : option (list Z);
  fit_stack : list Z;
  fit_junk : list Z
}.

(** ** Specifications on the command line *)

(** The return value, [*addr] and [*name]. *)
Definition fit_parse_spec (spec : list Z) (sepc addr_curr : Z) : bool * Z * option (list Z) :=
  match strchr spec sepc with
  | Some sep => (true, if 0 <? sep then fst (simple_strtoul spec 16) else addr_curr, Some (at_off spec (sep + 1)))
  | None => (false, addr_curr, None)
  end.

Definition fit_parse_conf (spec : list Z) (addr_curr : Z) : bool * Z * option (list Z) := fit_parse_spec spec 35 addr_curr.
Definition fit_parse_subimage (spec : list Z) (addr_curr : Z) : bool * Z * option (list Z) := fit_parse_spec spec 58 addr_curr.

Section Fit.
Context `{ImageConfig} `{FitConfig} `{Libfdt}.

(** ** Nodes *)

(** [for (noffset = fdt_next_node(fit, n, &ndepth); (noffset >= 0) && (ndepth > 0);
    noffset = fdt_next_node(fit, noffset, &ndepth))]: the nodes at depth 1 *)
Fixpoint depth_one (nodes : list (Z * Z)) : list Z :=
  match nodes with
  | [] => []
  | (noffset, ndepth) :: nodes =>
      if (0 <=? noffset) && (0 <? ndepth) then if ndepth =? 1 then noffset :: depth_one nodes else depth_one nodes else []
  end.

Definition fit_get_subimage_count (fit : fit_tree) (images_noffset : Z) : Z := Z.of_nat (length (depth_one (fdt_next_nodes (tree fit) images_noffset))).

Definition fit_get_desc (fit : fit_tree) (noffset : Z) : option (list Z) := fdt_getprop (tree fit) noffset (str "description").

(** The return value and [*timestamp]. *)
Definition fit_get_timestamp (fit : fit_tree) (noffset : Z) : Z * option Z :=
  match fdt_getprop (tree fit) noffset (str "timestamp") with
  | None => (-1, None)
  | Some data => if Nat.eqb (length data) 4 then (0, Some (u32 (GET_UINT32_BE data 0))) else (-2, None)
  end.

Definition fit_image_get_node (fit : fit_tree) (image_uname : list Z) : Z :=
  let images_noffset := fdt_path_offset fit FIT_IMAGES_PATH in
  if images_noffset <? 0 then images_noffset else fdt_subnode_offset (tree fit) images_noffset image_uname.

(** The property as a number: the return value and the [uint8_t]. *)
Definition get_id (fit : fit_tree) (noffset : Z) (prop : list Z) (id : list Z -> option Z) : option (Z * Z) :=
  match fdt_getprop (tree fit) noffset prop with
  | None => Some (-1, 255)
  | Some data => name ← prop_string data; v ← id name; Some (0, u8 v)
  end.

Definition fit_image_get_os (fit : fit_tree) (noffset : Z) : option (Z * Z) := get_id fit noffset (str "os") genimg_get_os_id.
Definition fit_image_get_arch (fit : fit_tree) (noffset : Z) : option (Z * Z) := get_id fit noffset (str "arch") genimg_get_arch_id.
Definition fit_image_get_type (fit : fit_tree) (noffset : Z) : option (Z * Z) := get_id fit noffset (str "type") genimg_get_type_id.
Definition fit_image_get_comp (fit : fit_tree) (noffset : Z) : option (Z * Z) := get_id fit noffset (str "compression") genimg_get_comp_id.

(** [while (cell_len--) load64 = (load64 << 32) | uimage_to_cpu( *cell++)] *)
Fixpoint cells_loop (cell_len : nat) (cell : list Z) (load64 : Z) : Z :=
  match cell_len with
  | O => load64
  | S cell_len => cells_loop cell_len (drop 4 cell) (Z.lor (u64 (Z.shiftl load64 32)) (u32 (GET_UINT32_BE cell 0)))
  end.

(** The address, or the return value -1. *)
Definition fit_image_get_address (fit : fit_tree) (noffset : Z) (name : list Z) : option Z :=
  match fdt_getprop (tree fit) noffset name with
  | None => None
  | Some cell => if 8 <? Z.of_nat (length cell) then None else Some (cells_loop (length cell / 4) cell 0)
  end.

Definition fit_image_get_load (fit : fit_tree) (noffset : Z) : option Z := fit_image_get_address fit noffset (str "load").
Definition fit_image_get_entry (fit : fit_tree) (noffset : Z) : option Z := fit_image_get_address fit noffset (str "entry").

(** The address and the size, or the return value. *)
Definition fit_image_get_data (fit : fit_tree) (noffset : Z) : Z + (Z * Z) :=
  match fdt_getprop (tree fit) noffset (str "data") with
  | None => inl (-1)
  | Some b => inr (fdt_prop_addr fit noffset (str "data"), Z.of_nat (length b))
  end.

(** [fdt32_to_cpu( *val)], an [int]. *)
Definition get_int_prop (fit : fit_tree) (noffset : Z) (name : list Z) : option (Z + Z) :=
  match fdt_getprop (tree fit) noffset name with
  | None => Some (inl (- ENOENT))
  | Some b => ws ← be_words 1 b; Some (inr (s32 (nth 0 ws 0)))
  end.

Definition fit_image_get_data_offset (fit : fit_tree) (noffset : Z) : option (Z + Z) := get_int_prop fit noffset (str "data-offset").
Definition fit_image_get_data_position (fit : fit_tree) (noffset : Z) : option (Z + Z) := get_int_prop fit noffset (str "data-position").
Definition fit_image_get_data_size (fit : fit_tree) (noffset : Z) : option (Z + Z) := get_int_prop fit noffset (str "data-size").

(** [ret = fit_image_get_data_size(...); *data = fit + offset; *size = len] *)
Definition external_data (fit : fit_tree) (noffset offset : Z) : option (Z + (Z * Z)) :=
  len ← fit_image_get_data_size fit noffset;
  Some (match len with inl ret => inl ret | inr len => inr (u64 (fdt_address (tree fit) + offset), u64 len) end).

Definition fit_image_get_data_and_size (fit : fit_tree) (noffset : Z) : option (Z + (Z * Z)) :=
  pos ← fit_image_get_data_position fit noffset;
  match pos with
  | inr offset => external_data fit noffset offset
  | inl _ =>
      off ← fit_image_get_data_offset fit noffset;
      match off with
      | inr offset => external_data fit noffset (s32 (offset + Z.land (u32 (fdt_totalsize (tree fit) + 3)) (u32 (Z.lnot 3))))
      | inl _ => Some (fit_image_get_data fit noffset)
      end
  end.

Definition fit_get_end (fit : fit_tree) : Z := u64 (fdt_address (tree fit) + fdt_totalsize (tree fit)).

(** ** Hashes *)

(** [value] and [*value_len], or -1.  [data] is an address.  MD5 takes the length
    as an [int], the others as an unsigned number. *)
Definition calculate_hash (mem : list Z) (data data_len : Z) (algo : list Z) : option (Z + list Z) :=
  if strcmp algo (str "crc32") =? 0 then
    crc ← (if CONFIG_WATCHDOG then crc32_wd else crc32_nowd) crc_table 0 data (drop (Z.to_nat data) mem) (u32 data_len) Image.CHUNKSZ_CRC32;
    Some (inr (PUT_UINT32_BE crc))
  else if strcmp algo (str "sha1") =? 0 then
    input ← peek mem data (u32 data_len);
    v ← (if CONFIG_WATCHDOG then sha1_csum_wd fit_junk input (Z.to_nat CHUNKSZ_SHA1) else Some (sha1_csum fit_junk input));
    Some (inr v)
  else if IMAGE_ENABLE_SHA256 && (strcmp algo (str "sha256") =? 0) then
    input ← peek mem data (u32 data_len);
    v ← (if CONFIG_WATCHDOG then sha256_csum_wd fit_junk input (Z.to_nat CHUNKSZ_SHA256) else Some (sha256_csum fit_junk input));
    Some (inr v)
  else if strcmp algo (str "md5") =? 0 then
    input ← peek mem data (if CONFIG_WATCHDOG then Z.max 0 data_len else u32 data_len);
    v ← (if CONFIG_WATCHDOG then md5_wd fit_junk input (Z.to_nat (64 * 1024)) else Some (md5 fit_junk input));
    Some (inr v)
  else Some (inl (-1)).

(** Whether the property [uboot-ignore] is an [int] that is not 0. *)
Definition fit_image_hash_get_ignore (fit : fit_tree) (noffset : Z) : bool :=
  match fdt_getprop (tree fit) noffset (str "uboot-ignore") with
  | Some value => Nat.eqb (length value) 4 && negb (forallb (Z.eqb 0) value)
  | None => false
  end.

Definition fit_image_check_hash (fit : fit_tree) (noffset : Z) (mem : list Z) (data size : Z) : option Z :=
  match fdt_getprop (tree fit) noffset FIT_ALGO_PROP with
  | None => Some (-1)
  | Some a =>
      algo ← prop_string a;
      if fit_image_hash_get_ignore fit noffset then Some 0
      else
        match fdt_getprop (tree fit) noffset FIT_VALUE_PROP with
        | None => Some (-1)
        | Some fit_value =>
            h ← calculate_hash mem data (s32 size) algo;
            match h with
            | inl _ => Some (-1)
            | inr value =>
                if negb (Nat.eqb (length value) (length fit_value)) then Some (-1)
                else if bool_decide (value = fit_value) then Some 0 else Some (-1)
            end
        end
  end.

(** The loop over the subnodes: false when a hash does not match, else the offset
    that ends it. *)
Fixpoint verify_loop (fit : fit_tree) (mem : list Z) (data size : Z) (verify_all : bool) (nodes : list Z) : option bool :=
  match nodes with
  | [] => Some true
  | noffset :: nodes =>
      let name := fdt_get_name (tree fit) noffset in
      if strncmp name FIT_HASH_NODENAME (length FIT_HASH_NODENAME) =? 0 then
        ret ← fit_image_check_hash fit noffset mem data size;
        if negb (ret =? 0) then Some false else verify_loop fit mem data size verify_all nodes
      else if IMAGE_ENABLE_VERIFY && verify_all && (strncmp name FIT_SIG_NODENAME (length FIT_SIG_NODENAME) =? 0) then
        _ ← fit_image_check_sig fit_heap fit_stack CONFIG_FIT_SIGNATURE_MAX_SIZE (tree gd_fdt_blob) (tree fit) noffset data
              (drop (Z.to_nat data) mem) size (-1);
        verify_loop fit mem data size verify_all nodes
      else verify_loop fit mem data size verify_all nodes
  end.

(** 1 when all is verified. *)
Definition fit_image_verify_with_data (fit : fit_tree) (image_noffset : Z) (mem : list Z) (data size : Z) : option Z :=
  '(ret, verify_all) ←
    if IMAGE_ENABLE_VERIFY then
      fit_image_verify_required_sigs fit_heap fit_stack CONFIG_FIT_SIGNATURE_MAX_SIZE (tree gd_fdt_blob) (tree fit) image_noffset data
        (drop (Z.to_nat data) mem) size (tree gd_fdt_blob)
    else Some (0, true);
  if negb (ret =? 0) then Some 0
  else
    ok ← verify_loop fit mem data size verify_all (fdt_subnodes (tree fit) image_noffset).1;
    let noffset := (fdt_subnodes (tree fit) image_noffset).2 in
    Some (if negb ok || (noffset =? - FDT_ERR_TRUNCATED) || (noffset =? - FDT_ERR_BADSTRUCTURE) then 0 else 1).

Definition fit_image_verify (fit : fit_tree) (image_noffset : Z) (mem : list Z) : option Z :=
  d ← fit_image_get_data_and_size fit image_noffset;
  match d with
  | inl _ => Some 0
  | inr (data, size) => fit_image_verify_with_data fit image_noffset mem data size
  end.

Fixpoint all_verify_loop (fit : fit_tree) (mem : list Z) (nodes : list Z) : option Z :=
  match nodes with
  | [] => Some 1
  | noffset :: nodes => v ← fit_image_verify fit noffset mem; if v =? 0 then Some 0 else all_verify_loop fit mem nodes
  end.

Definition fit_all_image_verify (fit : fit_tree) (mem : list Z) : option Z :=
  let images_noffset := fdt_path_offset fit FIT_IMAGES_PATH in
  if images_noffset <? 0 then Some 0 else all_verify_loop fit mem (depth_one (fdt_next_nodes (tree fit) images_noffset)).
(** ** Checks of an image node *)

Definition fit_image_check_os (fit : fit_tree) (noffset os : Z) : option bool :=
  '(r, image_os) ← fit_image_get_os fit noffset; Some ((r =? 0) && (os =? image_os)).

Definition fit_image_check_arch (fit : fit_tree) (noffset arch : Z) : option bool :=
  '(r, image_arch) ← fit_image_get_arch fit noffset;
  Some ((r =? 0) && ((arch =? image_arch) || ((arch =? IH_ARCH_I386) && (image_arch =? IH_ARCH_X86_64)) ||
                     ((arch =? IH_ARCH_ARM64) && (image_arch =? IH_ARCH_ARM) && CONFIG_ARM64_SUPPORT_AARCH32))).

Definition fit_image_check_target_arch (fit : fit_tree) (noffset : Z) : option bool := fit_image_check_arch fit noffset IH_ARCH_DEFAULT.

Definition fit_image_check_type (fit : fit_tree) (noffset type : Z) : option bool :=
  '(r, image_type) ← fit_image_get_type fit noffset; Some ((r =? 0) && (type =? image_type)).

Definition fit_image_check_comp (fit : fit_tree) (noffset comp : Z) : option bool :=
  '(r, image_comp) ← fit_image_get_comp fit noffset; Some ((r =? 0) && (comp =? image_comp)).

Definition fit_check_format (fit : fit_tree) : bool :=
  bool_decide (is_Some (fdt_getprop (tree fit) 0 (str "description"))) &&
  (negb IMAGE_ENABLE_TIMESTAMP || bool_decide (is_Some (fdt_getprop (tree fit) 0 (str "timestamp")))) &&
  (0 <=? fdt_path_offset fit FIT_IMAGES_PATH).

(** ** Configurations *)

(** [for (i = 0; len > 0 && (!best_match_offset || best_match_pos > i); i++)]: the
    position of the first string of [fdt_compat] that the tree [kfdt] has, if it
    is better than the best so far.  [left] are the bytes of the property that are
    left; every string takes one at least. *)
Fixpoint compat_loop (fuel : nat) (kfdt : fit_tree) (cur : list Z) (left i best_match_offset best_match_pos : Z) : option (option Z) :=
  match fuel with
  | O => None
  | S fuel =>
      if (0 <? left) && ((best_match_offset =? 0) || (i <? best_match_pos)) then
        s ← prop_string cur;
        if fdt_node_check_compatible kfdt 0 s =? 0 then Some (Some i)
        else let cur_len := strlen s + 1 in compat_loop fuel kfdt (drop (Z.to_nat cur_len) cur) (left - cur_len) (i + 1) best_match_offset best_match_pos
      else Some None
  end.

(** The loop over the configurations. *)
Fixpoint find_compat_loop (fit : fit_tree) (mem : list Z) (images_noffset : Z) (fdt_compat : list Z) (nodes : list Z)
    (best_match_offset best_match_pos : Z) : option Z :=
  match nodes with
  | [] => Some best_match_offset
  | noffset :: nodes =>
      let next := find_compat_loop fit mem images_noffset fdt_compat nodes best_match_offset best_match_pos in
      match fdt_getprop (tree fit) noffset (str "fdt") with
      | None => next
      | Some name =>
          kfdt_name ← prop_string name;
          let kfdt_noffset := fdt_subnode_offset (tree fit) images_noffset kfdt_name in
          if kfdt_noffset <? 0 then next
          else
            match fit_image_get_data fit kfdt_noffset with
            | inl _ => next
            | inr (kfdt, _) =>
                r ← compat_loop (S (length fdt_compat)) (fdt_at mem kfdt) fdt_compat (Z.of_nat (length fdt_compat)) 0 best_match_offset best_match_pos;
                match r with
                | Some i => find_compat_loop fit mem images_noffset fdt_compat nodes noffset i
                | None => next
                end
            end
      end
  end.

Definition fit_conf_find_compat (fit : fit_tree) (mem : list Z) (fdt : fit_tree) : option Z :=
  let confs_noffset := fdt_path_offset fit FIT_CONFS_PATH in
  let images_noffset := fdt_path_offset fit FIT_IMAGES_PATH in
  if (confs_noffset <? 0) || (images_noffset <? 0) then Some (-1)
  else
    match fdt_getprop (tree fdt) 0 (str "compatible") with
    | None => Some (-1)
    | Some fdt_compat =>
        r ← find_compat_loop fit mem images_noffset fdt_compat (depth_one (fdt_next_nodes (tree fit) confs_noffset)) 0 0;
        Some (if r =? 0 then -1 else r)
    end.

(** [alloc]: whether there is memory for the copy of the name. *)
Definition fit_conf_get_node (alloc : bool) (fit : fit_tree) (conf_uname : option (list Z)) : option Z :=
  let confs_noffset := fdt_path_offset fit FIT_CONFS_PATH in
  if confs_noffset <? 0 then Some confs_noffset
  else
    uname ← match conf_uname with
            | Some u => Some (inr u)
            | None => match fdt_getprop (tree fit) confs_noffset (str "default") with
                      | None => Some (inl (fdt_getprop_err fit confs_noffset (str "default")))
                      | Some b => inr <$> prop_string b
                      end
            end;
    Some (match uname with
          | inl len => len
          | inr u =>
              match strchr u 35 with
              | Some n => if alloc then fdt_subnode_offset (tree fit) confs_noffset (take (Z.to_nat n) u) else - ENOMEM
              | None => fdt_subnode_offset (tree fit) confs_noffset u
              end
          end).

Definition fit_conf_get_prop_node_count (fit : fit_tree) (noffset : Z) (prop_name : list Z) : Z := fdt_stringlist_count fit noffset prop_name.

Definition fit_conf_get_prop_node_index (fit : fit_tree) (noffset : Z) (prop_name : list Z) (index : Z) : Z :=
  match fdt_stringlist_get fit noffset prop_name index with inl len => len | inr uname => fit_image_get_node fit uname end.

Definition fit_conf_get_prop_node (fit : fit_tree) (noffset : Z) (prop_name : list Z) : Z := fit_conf_get_prop_node_index fit noffset prop_name 0.

Definition fit_image_select (fit : fit_tree) (rd_noffset : Z) (mem : list Z) (verify : Z) : option Z :=
  if negb (verify =? 0) then v ← fit_image_verify fit rd_noffset mem; Some (if v =? 0 then - EACCES else 0) else Some 0.

Definition fit_get_image_type_property (type : Z) : list Z :=
  if type =? IH_TYPE_FLATDT then str "fdt"
  else if type =? IH_TYPE_KERNEL then str "kernel"
  else if type =? IH_TYPE_RAMDISK then str "ramdisk"
  else if type =? IH_TYPE_X86_SETUP then str "setup"
  else if type =? IH_TYPE_LOADABLE then str "loadables"
  else if type =? IH_TYPE_FPGA then str "fpga"
  else if type =? IH_TYPE_STANDALONE then str "standalone"
  else str "unknown".
End Fit.

(** ** What is known of the images of a boot ([include/image.h]) *)

Record image_info_t := mk_image_info {
  i_start : Z; i_end : Z; image_start : Z; image_len : Z; i_load : Z; i_comp : Z; i_type : Z; i_os : Z; i_arch : Z
}.

(** The fields of the device tree in a FIT image and of the x86 setup, the command
    line and the board information are not used by what is modelled. *)
Record bootm_headers_t := mk_images {
  legacy_hdr_os : Z;
  legacy_hdr_os_copy : list Z;
  legacy_hdr_valid : Z;
  fit_uname_cfg : option (list Z);
  fit_hdr_os : Z;
  fit_uname_os : option (list Z);
  fit_noffset_os : Z;
  fit_hdr_rd : Z;
  fit_uname_rd : option (list Z);
  fit_noffset_rd : Z;
  os : image_info_t;
  ep : Z;
  rd_start : Z;
  rd_end : Z;
  ft_addr : Z;
  ft_len : Z;
  initrd_start : Z;
  initrd_end : Z;
  images_verify : Z;
  images_state : Z;
  images_lmb : lmb
}.

Definition set_fit_uname_cfg (i : bootm_headers_t) (v : option (list Z)) : bootm_headers_t :=
  mk_images (legacy_hdr_os i) (legacy_hdr_os_copy i) (legacy_hdr_valid i) v (fit_hdr_os i) (fit_uname_os i) (fit_noffset_os i)
    (fit_hdr_rd i) (fit_uname_rd i) (fit_noffset_rd i) (os i) (ep i) (rd_start i) (rd_end i) (ft_addr i) (ft_len i)
    (initrd_start i) (initrd_end i) (images_verify i) (images_state i) (images_lmb i).

Definition set_os (i : bootm_headers_t) (v : image_info_t) : bootm_headers_t :=
  mk_images (legacy_hdr_os i) (legacy_hdr_os_copy i) (legacy_hdr_valid i) (fit_uname_cfg i) (fit_hdr_os i) (fit_uname_os i) (fit_noffset_os i)
    (fit_hdr_rd i) (fit_uname_rd i) (fit_noffset_rd i) v (ep i) (rd_start i) (rd_end i) (ft_addr i) (ft_len i)
    (initrd_start i) (initrd_end i) (images_verify i) (images_state i) (images_lmb i).

Definition set_os_arch (i : bootm_headers_t) (v : Z) : bootm_headers_t :=
  set_os i (mk_image_info (i_start (os i)) (i_end (os i)) (image_start (os i)) (image_len (os i)) (i_load (os i)) (i_comp (os i)) (i_type (os i)) (i_os (os i)) v).

(** ** Loading an image *)

(** What a successful load returns: the offset of the node, [*datap], [*lenp],
    [*fit_unamep] and [*fit_uname_configp]. *)
Record fit_loaded := mk_loaded { l_noffset : Z; l_data : Z; l_len : Z; l_uname : option (list Z); l_config : option (list Z) }.

Section Load.
Context `{ImageConfig} `{FitConfig} `{Libfdt}.
Context (alloc : bool).

Definition fit_get_node_from_config (images : bootm_headers_t) (mem : list Z) (prop_name : list Z) (addr : Z) : option Z :=
  let fit_hdr := fdt_at mem addr in
  cfg_noffset ← fit_conf_get_node alloc fit_hdr (fit_uname_cfg images);
  if cfg_noffset <? 0 then Some (- EINVAL)
  else
    let noffset := fit_conf_get_prop_node fit_hdr cfg_noffset prop_name in
    Some (if noffset <? 0 then - ENOENT else noffset).

(** From [if (fit_uname)] to the check of the offset: an error, or the node, its
    name and the name of the configuration. *)
Definition find_node (images : bootm_headers_t) (mem : list Z) (fit : fit_tree) (fit_uname fit_uname_config : option (list Z)) (image_type : Z)
    : option (bootm_headers_t * (Z + Z * option (list Z) * option (list Z))) :=
  match fit_uname with
  | Some u =>
      let noffset := fit_image_get_node fit u in
      Some (images, if noffset <? 0 then inl (- ENOENT) else inr (noffset, fit_uname, None))
  | None =>
      cfg_noffset ← if IMAGE_ENABLE_BEST_MATCH && negb (bool_decide (is_Some fit_uname_config)) then fit_conf_find_compat fit mem gd_fdt_blob
                    else fit_conf_get_node alloc fit fit_uname_config;
      if cfg_noffset <? 0 then Some (images, inl (- ENOENT))
      else
        let base := fdt_get_name (tree fit) cfg_noffset in
        let images := if image_type =? IH_TYPE_KERNEL then set_fit_uname_cfg images (Some base) else images in
        bad ← if IMAGE_ENABLE_VERIFY && negb (images_verify images =? 0) then
                r ← fit_config_verify fit_heap fit_stack CONFIG_FIT_SIGNATURE_MAX_SIZE (tree gd_fdt_blob) (tree fit) cfg_noffset; Some (negb (r =? 0))
              else Some false;
        if (bad : bool) then Some (images, inl (- EACCES))
        else
          let noffset := fit_conf_get_prop_node fit cfg_noffset (fit_get_image_type_property image_type) in
          Some (images, if noffset <? 0 then inl (- ENOENT) else inr (noffset, Some (fdt_get_name (tree fit) noffset), Some base))
  end.

(** [a || b] *)
Definition or_else (a b : option bool) : option bool := x ← a; if (x : bool) then Some true else b.

(** [type_ok] and [os_ok] *)
Definition load_type_ok (fit : fit_tree) (noffset image_type : Z) : option bool :=
  or_else (fit_image_check_type fit noffset image_type)
    (or_else (fit_image_check_type fit noffset IH_TYPE_FIRMWARE)
       (if image_type =? IH_TYPE_KERNEL then fit_image_check_type fit noffset IH_TYPE_KERNEL_NOLOAD else Some false)).

Definition load_os_ok (fit : fit_tree) (noffset image_type : Z) : option bool :=
  if (image_type =? IH_TYPE_FLATDT) || (image_type =? IH_TYPE_FPGA) then Some true
  else
    or_else (fit_image_check_os fit noffset IH_OS_LINUX)
      (or_else (fit_image_check_os fit noffset IH_OS_U_BOOT) (fit_image_check_os fit noffset IH_OS_OPENRTOS)).

(** From [if (load_op == FIT_LOAD_IGNORED)] on: an error, or [data] and the
    memory. *)
Definition move_to_load (fit : fit_tree) (mem : list Z) (noffset addr buf len image_type : Z) (load_op : fit_load_op) : option (Z + Z * list Z) :=
  match load_op, fit_image_get_load fit noffset with
  | FIT_LOAD_IGNORED, _ => Some (inr (buf, mem))
  | FIT_LOAD_REQUIRED, None => Some (inl (- EBADF))
  | _, None => Some (inr (buf, mem))
  | _, Some load =>
      if match load_op with FIT_LOAD_OPTIONAL_NON_ZERO => load =? 0 | _ => false end then Some (inr (buf, mem))
      else
        let image_end := u64 (addr + fdt_totalsize (tree fit)) in
        let load_end := u64 (load + len) in
        if negb (image_type =? IH_TYPE_KERNEL) && (load <? image_end) && (addr <? load_end) then Some (inl (- EXDEV))
        else mem ← memmove mem load buf (Z.to_nat len); Some (inr (load, mem))
  end.

(** The checks behind the selection of the node: 0 or an error. *)
Definition load_checks (fit : fit_tree) (mem : list Z) (noffset image_type : Z) : option Z :=
  comp ← if image_type =? IH_TYPE_FLATDT then fit_image_check_comp fit noffset IH_COMP_NONE else Some true;
  if negb comp then Some (- EPROTONOSUPPORT)
  else
    type_ok ← load_type_ok fit noffset image_type;
    os_ok ← load_os_ok fit noffset image_type;
    Some (if (negb type_ok || negb os_ok) && negb (image_type =? IH_TYPE_LOADABLE) then - EIO else 0).

Definition fit_image_load (images : bootm_headers_t) (mem : list Z) (addr : Z) (fit_uname fit_uname_config : option (list Z)) (image_type : Z)
    (load_op : fit_load_op) : option (bootm_headers_t * list Z * (Z + fit_loaded)) :=
  let fit := fdt_at mem addr in
  if negb (fit_check_format fit) then Some (images, mem, inl (- ENOEXEC))
  else
    '(images, node) ← find_node images mem fit fit_uname fit_uname_config image_type;
    match node with
    | inl ret => Some (images, mem, inl ret)
    | inr (noffset, uname, base) =>
        ret ← fit_image_select fit noffset mem (images_verify images);
        if negb (ret =? 0) then Some (images, mem, inl ret)
        else
          target ← fit_image_check_target_arch fit noffset;
          if negb target then Some (images, mem, inl (- ENOEXEC))
          else
            '(_, os_arch) ← fit_image_get_arch fit noffset;
            let images := set_os_arch images os_arch in
            ret ← load_checks fit mem noffset image_type;
            if negb (ret =? 0) then Some (images, mem, inl ret)
            else
              d ← fit_image_get_data_and_size fit noffset;
              match d with
              | inl _ => Some (images, mem, inl (- ENOENT))
              | inr (buf, size) =>
                  bad ← if image_type =? IH_TYPE_FLATDT then r ← fdt_check_header mem buf; Some (negb (r =? 0)) else Some false;
                  if (bad : bool) then Some (images, mem, inl (- ENOEXEC))
                  else
                    m ← move_to_load fit mem noffset addr buf size image_type load_op;
                    match m with
                    | inl ret => Some (images, mem, inl ret)
                    | inr (data, mem) =>
                        Some (images, mem, inr (mk_loaded noffset data size uname (match fit_uname_config with Some c => Some c | None => base end)))
                    end
              end
    end.

Definition boot_get_setup_fit (images : bootm_headers_t) (mem : list Z) : option (bootm_headers_t * list Z * (Z + fit_loaded)) :=
  let addr := fit_hdr_os images in
  noffset ← fit_get_node_from_config images mem (str "setup") addr;
  if noffset <? 0 then Some (images, mem, inl noffset)
  else fit_image_load images mem addr None None IH_TYPE_X86_SETUP FIT_LOAD_REQUIRED.
End Load.

(** ** What the digests are *)

(** The digest that an algorithm gives for some bytes. *)
Definition hash_spec `{FitConfig} (algo data : list Z) : option (list Z) :=
  if bool_decide (algo = str "crc32") then Some (PUT_UINT32_BE (crc_spec 0 data))
  else if bool_decide (algo = str "sha1") then Some (fips_sha1 data)
  else if IMAGE_ENABLE_SHA256 && bool_decide (algo = str "sha256") then Some (fips_sha256 data)
  else if bool_decide (algo = str "md5") then Some (rfc_md5 data)
  else None.

Section Verified.
Context `{ImageConfig} `{FitConfig} `{Libfdt}.
Context (Hjunk : length fit_junk = 64%nat) (Hjunkb : Forall byte_ok fit_junk).

Lemma strcmp_str algo (name : string) : cstring algo -> cstring (str name) -> (strcmp algo (str name) =? 0) = bool_decide (algo = str name).
Proof.
  intros Ha Hn. pose proof (strcmp_0 algo (str name) Ha Hn) as Hs. destruct (Z.eqb_spec (strcmp algo (str name)) 0) as [E|E].
  - symmetry. apply bool_decide_eq_true_2. by apply Hs.
  - symmetry. apply bool_decide_eq_false_2. intros ->. apply E. by apply Hs.
Qed.

Section Memory.
Context (mem : list Z) (data len : Z).
Context (Hmem : Forall byte_ok mem) (Hd : 0 <= data) (Hl : 0 <= len < 2 ^ 31) (Hb : data + len <= Z.of_nat (length mem)).
Let bytes := slice mem (Z.to_nat data) (Z.to_nat len).

Lemma bytes_ok : Forall byte_ok bytes.
Proof. by apply Forall_take, Forall_drop. Qed.

Lemma bytes_length : Z.of_nat (length bytes) = len.
Proof. unfold bytes. rewrite length_slice by lia. lia. Qed.

Lemma calculate_hash_spec algo : cstring algo ->
  calculate_hash mem data len algo = Some (match hash_spec algo bytes with Some v => inr v | None => inl (-1) end).
Proof.
  intros Ha. unfold calculate_hash, hash_spec. rewrite !strcmp_str by (done || (repeat constructor; simpl; lia)).
  rewrite (wrap_small 32 len) by lia. pose proof bytes_ok as Hbo. pose proof bytes_length as Hbl.
  assert (peek mem data len = Some bytes) as Hp by (by apply peek_Some; lia).
  assert (Z.max 0 len = len) as -> by lia. rewrite !Hp. case_bool_decide.
  { assert ((if CONFIG_WATCHDOG then crc32_wd else crc32_nowd) crc_table 0 data (drop (Z.to_nat data) mem) len Image.CHUNKSZ_CRC32 =
      Some (crc_spec 0 bytes)) as ->; [|done].
    assert (Forall byte_ok (drop (Z.to_nat data) mem)) as Hbd by (by apply Forall_drop).
    assert (len <= Z.of_nat (length (drop (Z.to_nat data) mem))) as Hbound by (rewrite length_drop; lia).
    destruct CONFIG_WATCHDOG; unfold crc32_wd, crc32_nowd.
    - rewrite crc32_wd_loop_spec; [reflexivity|unfold word32; lia|exact Hbd|lia|lia|unfold Image.CHUNKSZ_CRC32; lia|lia].
    - rewrite crc32_spec; [reflexivity|unfold word32; lia|exact Hbd|lia]. }
  case_bool_decide.
  { rewrite mbind_Some. destruct CONFIG_WATCHDOG; [|by rewrite mbind_Some, sha1_csum_fips by (done || lia)].
    destruct (sha1_csum_wd_correct fit_junk bytes (Z.to_nat CHUNKSZ_SHA1)) as [-> ->]; [exact Hjunk|exact Hbo|lia|unfold CHUNKSZ_SHA1; lia..|reflexivity]. }
  destruct IMAGE_ENABLE_SHA256; cbn [andb]; [case_bool_decide|].
  { rewrite mbind_Some. destruct CONFIG_WATCHDOG; [rewrite sha256_csum_wd_fips; [reflexivity|exact Hjunk|exact Hbo|lia|unfold CHUNKSZ_SHA256; lia..]|].
    rewrite mbind_Some. pose proof (hash256_pieces fit_junk [bytes] Hjunk) as Hs. cbn [foldl concat] in Hs. rewrite app_nil_r in Hs.
    unfold sha256_csum. rewrite Hs; [done|by apply Forall_singleton|apply Forall_singleton; lia|lia]. }
  all: case_bool_decide; [|reflexivity]; destruct CONFIG_WATCHDOG; rewrite Hp, mbind_Some;
    [rewrite md5_wd_rfc; [reflexivity|exact Hjunk|exact Hjunkb|exact Hbo|lia..]|];
    rewrite mbind_Some, (md5_one fit_junk bytes); [reflexivity|exact Hjunk|exact Hjunkb|exact Hbo|lia].
Qed.
End Memory.

(** *** Hash nodes *)

Definition hash_node (fit : fit_tree) (noffset : Z) : bool := strncmp (fdt_get_name (tree fit) noffset) FIT_HASH_NODENAME 4 =? 0.

(** The node is to be ignored, or its value is the digest of the bytes. *)
Definition hash_matches (fit : fit_tree) (bytes : list Z) (noffset : Z) : bool :=
  match fdt_getprop (tree fit) noffset FIT_ALGO_PROP with
  | None => false
  | Some a =>
      fit_image_hash_get_ignore fit noffset ||
      match fdt_getprop (tree fit) noffset FIT_VALUE_PROP with
      | None => false
      | Some v => bool_decide (hash_spec (cstr a) bytes = Some v)
      end
  end.

(** The name of an algorithm ends with a NUL; the code does not check it. *)
Definition algo_terminated (fit : fit_tree) (noffset : Z) : Prop :=
  forall a, fdt_getprop (tree fit) noffset FIT_ALGO_PROP = Some a -> 0 ∈ a /\ Forall byte_ok a.

Lemma cstr_cstring b : Forall byte_ok b -> cstring (cstr b).
Proof.
  induction 1 as [|c b Hc Hb IH]; cbn [cstr]; [by constructor|]. case_if; [by constructor|]. constructor; [|done]. unfold byte_ok in Hc. lia.
Qed.

Section Data.
Context (fit : fit_tree) (mem : list Z) (data size : Z).
Context (Hmem : Forall byte_ok mem) (Hd : 0 <= data) (Hl : 0 <= size < 2 ^ 31) (Hb : data + size <= Z.of_nat (length mem)).
Let bytes := slice mem (Z.to_nat data) (Z.to_nat size).

Lemma check_hash_spec noffset : algo_terminated fit noffset ->
  fit_image_check_hash fit noffset mem data size = Some (if hash_matches fit bytes noffset then 0 else -1).
Proof.
  intros Ht. unfold fit_image_check_hash, hash_matches. destruct (fdt_getprop (tree fit) noffset FIT_ALGO_PROP) as [a|] eqn:Ea; [|done].
  destruct (Ht a Ea) as [Hnul Hab]. unfold prop_string. rewrite bool_decide_eq_true_2, mbind_Some by done.
  destruct (fit_image_hash_get_ignore fit noffset); [done|]. cbn [orb].
  destruct (fdt_getprop (tree fit) noffset FIT_VALUE_PROP) as [v|]; [|done].
  rewrite swrap_small, calculate_hash_spec by (done || lia || by apply cstr_cstring). rewrite mbind_Some. fold bytes.
  destruct (hash_spec (cstr a) bytes) as [h|].
  - destruct (Nat.eqb_spec (length h) (length v)) as [E|E]; cbn [negb].
    + case_bool_decide as E1; case_bool_decide as E2; try done; congruence.
    + rewrite bool_decide_eq_false_2; [done|]. intros [= ->]. done.
  - by rewrite bool_decide_eq_false_2.
Qed.

(** The optional signatures that are tried have no influence; [sigs_total] says
    that checking them ends. *)
Definition sigs_total (nodes : list Z) : Prop := IMAGE_ENABLE_VERIFY = true -> forall n, n ∈ nodes ->
  is_Some (fit_image_check_sig fit_heap fit_stack CONFIG_FIT_SIGNATURE_MAX_SIZE (tree gd_fdt_blob) (tree fit) n data (drop (Z.to_nat data) mem) size (-1)).

Lemma verify_loop_spec all nodes : Forall (algo_terminated fit) nodes -> sigs_total nodes ->
  verify_loop fit mem data size all nodes = Some (forallb (fun n => negb (hash_node fit n) || hash_matches fit bytes n) nodes).
Proof.
  intros Ht Hs. induction nodes as [|n nodes IH]; [done|]. apply Forall_cons in Ht as [Hn Ht]. cbn [verify_loop forallb].
  assert (sigs_total nodes) as Hs' by (intros Hv x Hx; apply Hs; [done|by right]).
  change (length FIT_HASH_NODENAME) with 4%nat. fold (hash_node fit n). destruct (hash_node fit n); cbn [negb orb].
  - rewrite check_hash_spec, mbind_Some by done. destruct (hash_matches fit bytes n); cbn [negb andb Z.eqb]; [by apply IH|done].
  - cbn [andb]. destruct IMAGE_ENABLE_VERIFY eqn:Ev; cbn [andb]; [|by apply IH]. destruct (all && _); [|by apply IH].
    destruct (Hs Ev n) as [r ->]; [by left|]. by apply IH.
Qed.
End Data.

(** The required signatures of an image: whether they verify, and whether there
    are none. *)
Definition required_sigs (fit : fit_tree) (noffset : Z) (mem : list Z) (data size : Z) : option (Z * bool) :=
  if IMAGE_ENABLE_VERIFY then
    fit_image_verify_required_sigs fit_heap fit_stack CONFIG_FIT_SIGNATURE_MAX_SIZE (tree gd_fdt_blob) (tree fit) noffset data
      (drop (Z.to_nat data) mem) size (tree gd_fdt_blob)
  else Some (0, true).

Definition tree_broken (fit : fit_tree) (noffset : Z) : bool :=
  ((fdt_subnodes (tree fit) noffset).2 =? - FDT_ERR_TRUNCATED) || ((fdt_subnodes (tree fit) noffset).2 =? - FDT_ERR_BADSTRUCTURE).

(** What is not checked by the code: the data is within the memory, and the
    strings end. *)
Record image_node_ok (fit : fit_tree) (noffset : Z) (mem : list Z) (data size : Z) : Prop := {
  in_data : fit_image_get_data_and_size fit noffset = Some (inr (data, size));
  in_bounds : 0 <= data /\ 0 <= size < 2 ^ 31 /\ data + size <= Z.of_nat (length mem);
  in_algos : Forall (algo_terminated fit) (fdt_subnodes (tree fit) noffset).1;
  in_sigs : sigs_total fit mem data size (fdt_subnodes (tree fit) noffset).1
}.

Lemma fit_image_verify_spec fit noffset mem data size ret all :
  image_node_ok fit noffset mem data size -> Forall byte_ok mem -> required_sigs fit noffset mem data size = Some (ret, all) ->
  fit_image_verify fit noffset mem =
    Some (if (ret =? 0) && negb (tree_broken fit noffset) &&
             forallb (fun n => negb (hash_node fit n) || hash_matches fit (slice mem (Z.to_nat data) (Z.to_nat size)) n) (fdt_subnodes (tree fit) noffset).1
          then 1 else 0).
Proof.
  intros Hn Hmem Hreq. destruct (in_bounds _ _ _ _ _ Hn) as (B1 & B2 & B3). unfold fit_image_verify. rewrite (in_data _ _ _ _ _ Hn), mbind_Some.
  unfold fit_image_verify_with_data. fold (required_sigs fit noffset mem data size). rewrite Hreq, mbind_Some.
  destruct (ret =? 0); cbn [negb andb]; [|done]. rewrite verify_loop_spec, mbind_Some by (done || apply Hn).
  unfold tree_broken. by destruct (forallb _ _), (_ =? - FDT_ERR_TRUNCATED), (_ =? - FDT_ERR_BADSTRUCTURE).
Qed.
End Verified.

(** ** Moves that stay in the memory *)

(** A copy that ends has stayed in the memory. *)
Lemma copy_bytes_bounds n : forall mem d s mem', copy_bytes mem d s n = Some mem' -> (0 < n)%nat -> 0 <= d /\ d + Z.of_nat n <= Z.of_nat (length mem).
Proof.
  induction n as [|n IH]; intros mem d s mem' E Hn; [lia|]. cbn [copy_bytes] in E.
  destruct (aget mem s) as [c|] eqn:Eg; [|done]. rewrite mbind_Some in E. destruct (aset mem d c) as [m1|] eqn:Es; [|done]. rewrite mbind_Some in E.
  pose proof (aset_length _ _ _ _ Es) as El. unfold aset in Es. destruct ((0 <=? d) && (d <? Z.of_nat (length mem))) eqn:Eb; [|done]. bool_to_prop.
  destruct n as [|n]; [lia|]. destruct (IH _ _ _ _ E) as (I1 & I2); [lia|]. rewrite El in *. lia.
Qed.

Lemma copy_back_bounds n : forall mem d s mem', copy_back mem d s n = Some mem' -> (0 < n)%nat -> 0 <= d - Z.of_nat n /\ d <= Z.of_nat (length mem).
Proof.
  induction n as [|n IH]; intros mem d s mem' E Hn; [lia|]. cbn [copy_back] in E.
  destruct (aget mem (s - 1)) as [c|] eqn:Eg; [|done]. rewrite mbind_Some in E. destruct (aset mem (d - 1) c) as [m1|] eqn:Es; [|done]. rewrite mbind_Some in E.
  pose proof (aset_length _ _ _ _ Es) as El. unfold aset in Es. destruct ((0 <=? d - 1) && (d - 1 <? Z.of_nat (length mem))) eqn:Eb; [|done]. bool_to_prop.
  destruct n as [|n]; [lia|]. destruct (IH _ _ _ _ E) as (I1 & I2); [lia|]. rewrite El in *. lia.
Qed.

Lemma copy_words_bounds w : forall mem d s n mem', copy_words mem d s w n = Some mem' -> (0 < w + n)%nat ->
  0 <= d /\ d + 8 * Z.of_nat w + Z.of_nat n <= Z.of_nat (length mem).
Proof.
  induction w as [|w IH]; intros mem d s n mem' E Hn; cbn [copy_words] in E; [apply copy_bytes_bounds in E; lia|].
  destruct (load8 mem s) as [c|] eqn:Eg; [|done]. rewrite mbind_Some in E. destruct (store8 mem d c) as [m1|] eqn:Es; [|done]. rewrite mbind_Some in E.
  unfold load8 in Eg. destruct ((0 <=? s) && (s + 8 <=? Z.of_nat (length mem))) eqn:Eb1; [|done]. bool_to_prop. injection Eg as <-.
  unfold store8 in Es. destruct ((0 <=? d) && (d + 8 <=? Z.of_nat (length mem))) eqn:Eb2; [|done]. bool_to_prop. injection Es as <-.
  destruct (decide (w + n = 0)%nat); [lia|]. destruct (IH _ _ _ _ _ E) as (I1 & I2); [lia|].
  rewrite !length_app, !length_take, !length_drop in I2. lia.
Qed.

(** Behind a move the bytes of the source are at the destination. *)
Lemma memmove_at mem d s n mem' : memmove mem d s n = Some mem' -> 0 <= d -> 0 <= s -> s + Z.of_nat n <= Z.of_nat (length mem) ->
  at_addr mem' d (slice mem (Z.to_nat s) n).
Proof.
  intros E Hd Hs Hb. pose proof (length_slice mem (Z.to_nat s) n ltac:(lia)) as Hl.
  destruct (decide (n = 0)%nat) as [->|Hn].
  { split; [done|]. assert (slice mem (Z.to_nat s) 0 = []) as -> by (by apply nil_length_inv). done. }
  destruct (decide (d = s)) as [->|Hne].
  { unfold memmove, memcpy in E. rewrite Z.leb_refl, Z.eqb_refl in E. injection E as <-. split; [done|]. by rewrite Hl. }
  assert (d + Z.of_nat n <= Z.of_nat (length mem)) as Hdb.
  { unfold memmove in E. destruct (d <=? s).
    - unfold memcpy in E. rewrite (proj2 (Z.eqb_neq s d)) in E by done. destruct (Z.land (Z.lor d s) 7 =? 0).
      + pose proof (Nat.div_mod_eq n 8). apply copy_words_bounds in E; lia.
      + apply copy_bytes_bounds in E; lia.
    - apply copy_back_bounds in E; lia. }
  rewrite <- (Z2Nat.id d), <- (Z2Nat.id s) in E by done. rewrite memmove_blit in E by lia. injection E as <-.
  split; [done|]. apply list_eq. intros i. rewrite lookup_slice, lookup_blit, Hl by lia.
  destruct (decide (i < n)%nat); [|rewrite lookup_ge_None_2 by lia; done]. rewrite decide_True by lia. f_equal. lia.
Qed.

(** ** What is loaded has been verified *)

Section Loaded.
Context `{ImageConfig} `{FitConfig} `{Libfdt}.
Context (alloc : bool).

(** The configuration [cfg] is the one that is asked for, its required signatures
    verify, and it names the node. *)
Definition config_selected (fit : fit_tree) (mem : list Z) (config : option (list Z)) (image_type noffset cfg : Z) : Prop :=
  (if IMAGE_ENABLE_BEST_MATCH && negb (bool_decide (is_Some config)) then fit_conf_find_compat fit mem gd_fdt_blob
   else fit_conf_get_node alloc fit config) = Some cfg /\ 0 <= cfg /\
  noffset = fit_conf_get_prop_node fit cfg (fit_get_image_type_property image_type) /\
  (IMAGE_ENABLE_VERIFY = true ->
   fit_config_verify fit_heap fit_stack CONFIG_FIT_SIGNATURE_MAX_SIZE (tree gd_fdt_blob) (tree fit) cfg = Some 0).

Lemma find_node_spec images mem fit uname config image_type images' noffset u base :
  images_verify images <> 0 ->
  find_node alloc images mem fit uname config image_type = Some (images', inr (noffset, u, base)) ->
  images_verify images' = images_verify images /\ 0 <= noffset /\
  match uname with
  | Some n => noffset = fit_image_get_node fit n
  | None => exists cfg, config_selected fit mem config image_type noffset cfg
  end.
Proof.
  intros Hv E. unfold find_node in E. destruct uname as [n|].
  { destruct (Z.ltb_spec (fit_image_get_node fit n) 0); [done|]. injection E as <- <- _ _. by split_and!. }
  destruct (if IMAGE_ENABLE_BEST_MATCH && negb (bool_decide (is_Some config)) then fit_conf_find_compat fit mem gd_fdt_blob
   else fit_conf_get_node alloc fit config) as [cfg|] eqn:Ec; [|done]. rewrite mbind_Some in E. destruct (Z.ltb_spec cfg 0) as [|Hcfg]; [done|].
  set (im := if image_type =? IH_TYPE_KERNEL then _ else images) in E.
  assert (images_verify im = images_verify images) as Him by (unfold im; by destruct (image_type =? IH_TYPE_KERNEL)).
  rewrite Him, (proj2 (Z.eqb_neq _ 0)) in E by done. cbn [negb] in E. rewrite andb_true_r in E.
  destruct (if IMAGE_ENABLE_VERIFY then _ else Some false) as [bad|] eqn:Ev; [|done]. rewrite mbind_Some in E. destruct bad; [done|].
  destruct (Z.ltb_spec (fit_conf_get_prop_node fit cfg (fit_get_image_type_property image_type)) 0); [done|]. injection E as <- <- _ _.
  split_and!; [done|done|]. exists cfg. split_and!; [done|done|done|]. intros Ht. rewrite Ht in Ev.
  destruct (fit_config_verify _ _ _ _ _ _) as [r|]; [|done]. rewrite mbind_Some in Ev. injection Ev as Er.
  apply negb_false_iff, Z.eqb_eq in Er. by subst.
Qed.

Lemma move_to_load_at fit mem noffset addr buf len image_type op data mem' :
  (forall load, fit_image_get_load fit noffset = Some load -> 0 <= load) -> 0 <= buf -> 0 <= len -> buf + len <= Z.of_nat (length mem) ->
  move_to_load fit mem noffset addr buf len image_type op = Some (inr (data, mem')) ->
  at_addr mem' data (slice mem (Z.to_nat buf) (Z.to_nat len)).
Proof.
  intros Hload Hb Hl Hbd E.
  assert (at_addr mem buf (slice mem (Z.to_nat buf) (Z.to_nat len))) as Hsame by (split; [done|]; by rewrite length_slice by lia).
  assert (forall load, fit_image_get_load fit noffset = Some load -> memmove mem load buf (Z.to_nat len) = Some mem' -> data = load ->
    at_addr mem' data (slice mem (Z.to_nat buf) (Z.to_nat len))) as Hmove.
  { intros load Hg Hm ->. apply memmove_at; [done|by apply Hload|done|lia]. }
  unfold move_to_load in E. destruct (fit_image_get_load fit noffset) as [load|], op; try (by injection E as <- <-); try done.
  all: try (destruct (load =? 0); [by injection E as <- <-|]).
  all: destruct (negb (image_type =? IH_TYPE_KERNEL) && _ && _); [done|].
  all: destruct (memmove mem load buf (Z.to_nat len)) as [m|] eqn:Em; [|done]; rewrite mbind_Some in E; injection E as <- <-; by apply (Hmove load).
Qed.

(** The nodes behind a successful load. *)
Lemma fit_image_load_inv images mem addr uname config image_type op images' mem' r :
  images_verify images <> 0 ->
  fit_image_load alloc images mem addr uname config image_type op = Some (images', mem', inr r) ->
  let fit := fdt_at mem addr in
  match uname with
  | Some n => l_noffset r = fit_image_get_node fit n
  | None => exists cfg, config_selected fit mem config image_type (l_noffset r) cfg
  end /\
  (exists v, fit_image_verify fit (l_noffset r) mem = Some v /\ v <> 0) /\
  fit_image_check_target_arch fit (l_noffset r) = Some true /\
  exists buf, fit_image_get_data_and_size fit (l_noffset r) = Some (inr (buf, l_len r)) /\
    move_to_load fit mem (l_noffset r) addr buf (l_len r) image_type op = Some (inr (l_data r, mem')).
Proof.
  intros Hv E fit. unfold fit_image_load in E. fold fit in E. destruct (negb (fit_check_format fit)); [done|].
  destruct (find_node alloc images mem fit uname config image_type) as [[im node]|] eqn:Ef; [|done]. rewrite mbind_Some in E.
  destruct node as [e|[[noffset u] base]]; [done|].
  destruct (find_node_spec _ _ _ _ _ _ _ _ _ _ Hv Ef) as (Him & Hn & Hsel).
  unfold fit_image_select in E. rewrite Him, (proj2 (Z.eqb_neq (images_verify images) 0)) in E by done. cbn [negb] in E.
  destruct (fit_image_verify fit noffset mem) as [v|] eqn:Ev; [|done]. rewrite !mbind_Some in E. destruct (Z.eqb_spec v 0) as [|Hv1]; [done|].
  change (negb (0 =? 0)) with false in E. cbv iota in E.
  destruct (fit_image_check_target_arch fit noffset) as [ta|] eqn:Et; [|done]. rewrite mbind_Some in E. destruct ta; [|done]. cbn [negb] in E.
  destruct (fit_image_get_arch fit noffset) as [[ra oa]|] eqn:Ea; [|done]. rewrite mbind_Some in E.
  destruct (load_checks fit mem noffset image_type) as [lc|] eqn:El; [|done]. rewrite mbind_Some in E. destruct (negb (lc =? 0)); [done|].
  destruct (fit_image_get_data_and_size fit noffset) as [[e|[buf size]]|] eqn:Ed; try done. rewrite mbind_Some in E.
  destruct (if image_type =? IH_TYPE_FLATDT then _ else Some false) as [bad|]; [|done]. rewrite mbind_Some in E. destruct bad; [done|].
  destruct (move_to_load fit mem noffset addr buf size image_type op) as [[e|[data m]]|] eqn:Em; try done. rewrite mbind_Some in E.
  injection E as <- <- <-. cbn [l_noffset l_len l_data]. split_and!; [by destruct uname|by exists v|done|by exists buf].
Qed.
End Loaded.

Lemma cells_nonneg n : forall cell x, 0 <= x -> 0 <= cells_loop n cell x.
Proof.
  induction n as [|n IH]; intros cell x Hx; cbn [cells_loop]; [done|]. apply IH, Z.lor_nonneg.
  split; [apply (wrap_range 64); lia|apply (wrap_range 32); lia].
Qed.

Lemma get_load_nonneg fit noffset load : fit_image_get_load fit noffset = Some load -> 0 <= load.
Proof.
  unfold fit_image_get_load, fit_image_get_address. destruct (fdt_getprop _ _ _) as [b|]; [|done]. case_if; [done|]. intros El.
  apply (inj Some) in El. rewrite <- El. by apply cells_nonneg.
Qed.

(** ** Correctness *)

(** C33: [fit_image_verify] accepts an image exactly when its required signatures
    verify, its node is not cut off, and the value of each hash node (but those to
    be ignored) is the CRC-32, SHA-1, SHA-256 or MD5 of its data. *)
Theorem fit_image_verified `{ImageConfig} `{FitConfig} `{Libfdt} fit noffset mem data size ret all :
  length fit_junk = 64%nat -> Forall byte_ok fit_junk ->
  image_node_ok fit noffset mem data size -> Forall byte_ok mem -> required_sigs fit noffset mem data size = Some (ret, all) ->
  fit_image_verify fit noffset mem =
    Some (if (ret =? 0) && negb (tree_broken fit noffset) &&
             forallb (fun n => negb (hash_node fit n) || hash_matches fit (slice mem (Z.to_nat data) (Z.to_nat size)) n) (fdt_subnodes (tree fit) noffset).1
          then 1 else 0).
Proof. intros Hj Hjb. by apply fit_image_verify_spec. Qed.

(** C32: when [fit_image_load] loads an image and verification is on, then the bytes
    that are at the returned address afterwards are those whose digests are in the
    hash nodes of the image, the required signatures of the image verify, the
    architecture is right, and, when the image was found through a configuration,
    the required signatures of that configuration verify. *)
Theorem fit_load_verified `{ImageConfig} `{FitConfig} `{Libfdt} alloc images mem addr uname config image_type op images' mem' r ret all :
  length fit_junk = 64%nat -> Forall byte_ok fit_junk -> Forall byte_ok mem -> images_verify images <> 0 ->
  fit_image_load alloc images mem addr uname config image_type op = Some (images', mem', inr r) ->
  (forall buf, fit_image_get_data_and_size (fdt_at mem addr) (l_noffset r) = Some (inr (buf, l_len r)) ->
     image_node_ok (fdt_at mem addr) (l_noffset r) mem buf (l_len r) /\
     required_sigs (fdt_at mem addr) (l_noffset r) mem buf (l_len r) = Some (ret, all)) ->
  let fit := fdt_at mem addr in
  exists bytes, at_addr mem' (l_data r) bytes /\ Z.of_nat (length bytes) = l_len r /\
    ret = 0 /\ tree_broken fit (l_noffset r) = false /\
    (forall n, n ∈ (fdt_subnodes (tree fit) (l_noffset r)).1 -> hash_node fit n = true -> hash_matches fit bytes n = true) /\
    fit_image_check_target_arch fit (l_noffset r) = Some true /\
    match uname with
    | Some n => l_noffset r = fit_image_get_node fit n
    | None => exists cfg, config_selected alloc fit mem config image_type (l_noffset r) cfg
    end.
Proof.
  intros Hj Hjb Hmem Hv E Hok fit. destruct (fit_image_load_inv alloc images mem addr uname config image_type op images' mem' r Hv E)
    as (Hsel & (v & Ev & Hv0) & Ha & buf & Hd & Hm). fold fit in Hsel, Ev, Ha, Hd, Hm. destruct (Hok buf Hd) as [Hn Hreq]. fold fit in Hn, Hreq.
  destruct (in_bounds _ _ _ _ _ Hn) as (B1 & B2 & B3).
  rewrite (fit_image_verify_spec Hj Hjb fit (l_noffset r) mem buf (l_len r) ret all Hn Hmem Hreq) in Ev.
  set (bytes := slice mem (Z.to_nat buf) (Z.to_nat (l_len r))) in *. exists bytes.
  destruct ((ret =? 0) && negb (tree_broken fit (l_noffset r)) && forallb _ _) eqn:Ec; [|injection Ev as <-; done].
  apply andb_true_iff in Ec as [Ec Ef]. apply andb_true_iff in Ec as [Er Et]. apply Z.eqb_eq in Er. apply negb_true_iff in Et.
  split_and!; [|unfold bytes; rewrite length_slice; lia|done|done| |done|done].
  - apply (move_to_load_at fit mem (l_noffset r) addr buf (l_len r) image_type op); try done; try lia. apply get_load_nonneg.
  - intros n Hin Hh. rewrite forallb_forall in Ef. specialize (Ef n). rewrite Hh in Ef. apply Ef. by apply list_elem_of_In.
Qed.

(** ** Examples *)

#[local] Instance fit_example_config : FitConfig := {|
  IMAGE_ENABLE_VERIFY := true; IMAGE_ENABLE_BEST_MATCH := false; IMAGE_ENABLE_TIMESTAMP := false; IMAGE_ENABLE_SHA256 := true;
  CONFIG_ARM64_SUPPORT_AARCH32 := false; CONFIG_FIT_SIGNATURE_MAX_SIZE := 0x10000000; fit_heap := Some (replicate 64 0);
  fit_stack := replicate 512 0; fit_junk := replicate 64 0 |}.

#[local] Instance fit_example_image_config : ImageConfig := {|
  CONFIG_WATCHDOG := false; CONFIG_LYNXKDI := false; CONFIG_CMD_ELF := true; CONFIG_INTEGRITY := false; CONFIG_BOOTM_OPENRTOS := false;
  CONFIG_SYS_SDRAM_BASE := 0; CONFIG_SYS_BOOTM_LEN := 0x4000000; bi_dram_start := 0; bi_dram_size := 0x2000 |}.

(** The first entry of a list with a node and a name. *)
Fixpoint lookup_prop {A} (l : list (Z * list Z * A)) (n : Z) (name : list Z) : option A :=
  match l with
  | [] => None
  | (n', name', v) :: l => if (n =? n') && bool_decide (name = name') then Some v else lookup_prop l n name
  end.

Definition fit_data : list Z := str "kernel".

(** The node 11 is an image with a hash, 21 a configuration without a signature. *)
Definition fit_props : list (Z * list Z * list Z) :=
  [(0, str "description", [0]); (11, str "data", fit_data); (11, str "type", str "kernel" ++ [0]); (11, str "os", str "linux" ++ [0]);
   (11, str "arch", str "arm64" ++ [0]); (11, str "load", [0; 0; 0; 32]); (12, str "algo", str "crc32" ++ [0]);
   (12, str "value", PUT_UINT32_BE (crc_spec 0 fit_data)); (20, str "default", str "conf-1" ++ [0])].

Definition example_tree : fdt := mk_fdt [] 0 (fun _ _ d => d) (lookup_prop fit_props)
  (fun n name => default (-1) (lookup_prop [(10, str "kernel-1", 11); (20, str "conf-1", 21)] n name))
  (fun n => if n =? 12 then str "hash-1" else if n =? 11 then str "kernel-1" else str "conf-1") (fun _ => []) (fun n => if n =? 11 then ([12], -1) else ([], -1))
  (fun _ _ => inl (-1)) 24 0.

Definition example_fit : fit_tree := mk_fit_tree example_tree
  (fun path => if bool_decide (path = FIT_IMAGES_PATH) then 10 else if bool_decide (path = FIT_CONFS_PATH) then 20 else -1)
  (fun _ _ => -1) (fun _ _ => 8) (fun _ _ => 1)
  (fun n prop i => if (n =? 21) && bool_decide (prop = str "kernel") then inr (str "kernel-1") else inl (-1)) (fun _ _ => 1).

(** A control tree with a key that configurations must be signed with, or without
    keys. *)
Definition control_tree (required : bool) : fit_tree := mk_fit_tree
  (mk_fdt [] 0 (fun _ _ d => d) (lookup_prop [(51, str "required", str "conf" ++ [0])])
     (fun n name => if required && bool_decide (name = FIT_SIG_NODENAME) then 50 else -1) (fun _ => str "key") (fun _ => [])
     (fun n => if n =? 50 then ([51], -1) else ([], -1)) (fun _ _ => inl (-1)) 0 0)
  (fun _ => -1) (fun _ _ => -1) (fun _ _ => 0) (fun _ _ => 0) (fun _ _ _ => inl (-1)) (fun _ _ => 1).

Definition example_libfdt (required : bool) : Libfdt := {| fdt_at := fun _ _ => example_fit; gd_fdt_blob := control_tree required |}.

Definition fit_memory : list Z := replicate 8 0 ++ fit_data ++ replicate 34 0.
Definition no_lmb : lmb := mk_lmb (mk_region 0 0 []) (mk_region 0 0 []).
Definition no_images (verify : Z) : bootm_headers_t :=
  mk_images 0 [] 0 None 0 None 0 0 None 0 (mk_image_info 0 0 0 0 0 0 0 0 0) 0 0 0 0 0 0 0 verify 1 no_lmb.

Lemma fit_memory_bytes : Forall byte_ok fit_memory.
Proof. unfold fit_memory. rewrite !Forall_app. split_and!; try (apply Forall_replicate; unfold byte_ok; lia). repeat constructor; simpl; lia. Qed.

Lemma example_node_ok (keys : bool) : image_node_ok (H1 := example_libfdt keys) example_fit 11 fit_memory 8 6.
Proof.
  split; [reflexivity|vm_compute; split_and!; (done || congruence)| |].
  - apply Forall_singleton. intros a [= <-]. split; [vm_compute; repeat constructor|repeat constructor; simpl; lia].
  - intros _ n Hn. apply list_elem_of_singleton in Hn as ->. destruct keys; vm_compute; by eexists.
Qed.

(** Witness: an image with a checksum. *)
Lemma fit_image_verified_witness : fit_image_verify (H1 := example_libfdt false) example_fit 11 fit_memory = Some 1.
Proof.
  rewrite (fit_image_verified (H1 := example_libfdt false) example_fit 11 fit_memory 8 6 0 true);
    [vm_compute; reflexivity|reflexivity|apply Forall_replicate; unfold byte_ok; lia|apply example_node_ok|apply fit_memory_bytes|reflexivity].
Defined.

(** The same image is found through the default configuration, and is moved to
    the address 32. *)
Definition example_loaded : fit_loaded := mk_loaded 11 32 6 (Some (str "kernel-1")) (Some (str "conf-1")).

Lemma example_load :
  fit_image_load (H1 := example_libfdt false) true (no_images 1) fit_memory 0 None None IH_TYPE_KERNEL FIT_LOAD_REQUIRED =
  Some (set_os_arch (set_fit_uname_cfg (no_images 1) (Some (str "conf-1"))) IH_ARCH_ARM64, blit fit_memory 32 fit_data, inr example_loaded).
Proof. vm_compute. reflexivity. Qed.

(** Witness: the bytes at the address 32. *)
Lemma fit_load_verified_witness : exists bytes, at_addr (blit fit_memory 32 fit_data) 32 bytes /\ Z.of_nat (length bytes) = 6 /\
  hash_matches example_fit bytes 12 = true.
Proof.
  destruct (fit_load_verified (H := fit_example_image_config) (H0 := fit_example_config) (H1 := example_libfdt false)
    true (no_images 1) fit_memory 0 None None IH_TYPE_KERNEL FIT_LOAD_REQUIRED _ _ _ 0 true
    ltac:(reflexivity) ltac:(apply Forall_replicate; unfold byte_ok; lia) fit_memory_bytes ltac:(discriminate) example_load) as (bytes & Hb & Hl & _ & _ & Hh & _).
  - intros buf. cbn [l_noffset l_len example_loaded]. change (fdt_at fit_memory 0) with example_fit. intros E.
    assert (buf = 8) as -> by (by injection E). split; [apply example_node_ok|reflexivity].
  - exists bytes. split_and!; [done|done|]. apply Hh; [by left|reflexivity].
Defined.

(** A key is required for configurations, and the configuration has no signature:
    it is refused.  The image is loaded all the same when its name is given, or
    when verification is off. *)
Example required_signature_skipped :
  fit_image_load (H1 := example_libfdt true) true (no_images 1) fit_memory 0 None None IH_TYPE_KERNEL FIT_LOAD_IGNORED =
    Some (set_fit_uname_cfg (no_images 1) (Some (str "conf-1")), fit_memory, inl (- EACCES)) /\
  fit_image_load (H1 := example_libfdt true) true (no_images 1) fit_memory 0 (Some (str "kernel-1")) None IH_TYPE_KERNEL FIT_LOAD_IGNORED =
    Some (set_os_arch (no_images 1) IH_ARCH_ARM64, fit_memory, inr (mk_loaded 11 8 6 (Some (str "kernel-1")) None)) /\
  fit_image_load (H1 := example_libfdt true) true (no_images 0) fit_memory 0 None None IH_TYPE_KERNEL FIT_LOAD_IGNORED =
    Some (set_os_arch (set_fit_uname_cfg (no_images 0) (Some (str "conf-1"))) IH_ARCH_ARM64, fit_memory,
      inr (mk_loaded 11 8 6 (Some (str "kernel-1")) (Some (str "conf-1")))).
Proof. vm_compute. done. Qed.

(** An image without a hash node is accepted. *)
Example no_hash_accepted :
  fit_image_verify_with_data (H1 := example_libfdt true) example_fit 21 fit_memory 8 6 = Some 1.
Proof. vm_compute. reflexivity. Qed.
