(* ===== verification/BootImages.v ===== *)
(** * Finding the images of a boot ([common/image.c], [common/image-fdt.c],
      [common/image-fit.c], [arch/arm/lib/image.c])

    The kernel, the ramdisk, the device tree and the loadable images of a [bootm]
    command: where the arguments and the environment say they are, in which of the
    formats, and what is recorded about them in the global [images].  The file also
    has the reservation and the relocation of the device tree.

    The code runs in a monad over the state of the boot ([boot_world]): a
    computation is [None] when it accesses memory out of bounds, else it returns a
    value or ends the program ([final]).  Console output, boot stages and the cache
    are left out, and so are the fields of [images] that are only written. *)

From S2P Require Import Prelude StringLib Strto Blocks Lmb Hashtable EnvStore EnvCmd Rsa ImageSig Image Fit.
Local Open Scope Z_scope.

Declare Scope boot_scope.
Delimit Scope boot_scope with boot.

(** ** The state of a boot *)

(** How control leaves the program: [hang()], a reset, the jump to Linux with the
    arguments of [armv8_switch_to_el2], or another system. *)
Inductive final :=
  | Hung
  | ResetBoard
  | EnteredLinux (args : list Z) (entry : Z) (aarch64 : bool)
  | OtherStarted.

(** [images], the environment with the memory, [load_addr] and [working_fdt]. *)
Record boot_world {C F : Type} := mk_boot {
  images : bootm_headers_t;
  w_env : @env_world C F;
  load_addr : Z;
  working_fdt : Z
}.
Arguments boot_world : clear implicits.

Definition boot (C F A : Type) : Type := boot_world C F -> option ((final + A) * boot_world C F).

Section Monad.
Context {C F : Type}.

Definition yield {A} (a : A) : boot C F A := fun w => Some (inr a, w).
Definition halt {A} (x : final) : boot C F A := fun w => Some (inl x, w).
Definition bind {A B} (m : boot C F A) (f : A -> boot C F B) : boot C F B :=
  fun w => match m w with
           | Some (inr a, w') => f a w'
           | Some (inl x, w') => Some (inl x, w')
           | None => None
           end.

Definition sysmem_of (w : boot_world C F) : list Z := sysmem (w_env w).
Definition with_images (w : boot_world C F) (i : bootm_headers_t) : boot_world C F := mk_boot C F i (w_env w) (load_addr w) (working_fdt w).
Definition with_env (w : boot_world C F) (e : env_world) : boot_world C F := mk_boot C F (images w) e (load_addr w) (working_fdt w).
Definition with_sysmem (w : boot_world C F) (m : list Z) : boot_world C F := with_env w (with_mem (w_env w) m).

Definition reads {A} (f : boot_world C F -> A) : boot C F A := fun w => Some (inr (f w), w).
Definition update (f : bootm_headers_t -> bootm_headers_t) : boot C F unit := fun w => Some (inr tt, with_images w (f (images w))).
Definition on_mem {A} (f : list Z -> option A) : boot C F A := fun w => a ← f (sysmem_of w); Some (inr a, w).
Definition set_mem (f : list Z -> option (list Z)) : boot C F unit := fun w => m ← f (sysmem_of w); Some (inr tt, with_sysmem w m).
Definition on_env {A} (f : env_world -> option A) : boot C F A := fun w => a ← f (w_env w); Some (inr a, w).
Definition set_env (f : env_world -> option (Z * env_world)) : boot C F unit := fun w => '(_, e) ← f (w_env w); Some (inr tt, with_env w e).
End Monad.

(** *** Reasoning about computations *)

Section Laws.
Context {C F : Type}.

Lemma bind_inv {A B} (m : boot C F A) (f : A -> boot C F B) w r w' :
  bind m f w = Some (r, w') ->
  (exists a w1, m w = Some (inr a, w1) /\ f a w1 = Some (r, w')) \/ (exists x, r = inl x /\ m w = Some (inl x, w')).
Proof. unfold bind. destruct (m w) as [[[x|a] w1]|]; [|eauto|done]. intros [= <- <-]. right. by exists x. Qed.

Lemma bind_run {A B} (m : boot C F A) (f : A -> boot C F B) w a w1 : m w = Some (inr a, w1) -> bind m f w = f a w1.
Proof. unfold bind. by intros ->. Qed.

(** The computation does not change [P] of the state. *)
Definition keeps {A B} (P : boot_world C F -> B) (m : boot C F A) : Prop := forall w r w', m w = Some (r, w') -> P w' = P w.

(** The computation does not end the program. *)
Definition returns {A} (m : boot C F A) : Prop := forall w x w', m w <> Some (inl x, w').

Context {B : Type} (P : boot_world C F -> B).

Lemma keeps_bind {A A'} (m : boot C F A) (f : A -> boot C F A') : keeps P m -> (forall a, keeps P (f a)) -> keeps P (bind m f).
Proof.
  intros Hm Hf w r w' E. apply bind_inv in E as [(a & w1 & E1 & E2)|(x & -> & E1)].
  - rewrite (Hf a _ _ _ E2). by apply (Hm _ _ _ E1).
  - by apply (Hm _ _ _ E1).
Qed.

Lemma keeps_yield {A} (a : A) : keeps P (yield a).
Proof. by intros w r w' [= <- <-]. Qed.
Lemma keeps_halt {A} x : keeps P (halt (A := A) x).
Proof. by intros w r w' [= <- <-]. Qed.
Lemma keeps_reads {A} (f : boot_world C F -> A) : keeps P (reads f).
Proof. by intros w r w' [= <- <-]. Qed.
Lemma keeps_on_mem {A} (f : list Z -> option A) : keeps P (on_mem f).
Proof. intros w r w' E. unfold on_mem in E. destruct (f (sysmem_of w)); [|done]. by injection E as <- <-. Qed.
Lemma keeps_on_env {A} (f : env_world -> option A) : keeps P (on_env f).
Proof. intros w r w' E. unfold on_env in E. destruct (f (w_env w)); [|done]. by injection E as <- <-. Qed.
Lemma keeps_update f : (forall w, P (with_images w (f (images w))) = P w) -> keeps P (update f).
Proof. intros Hf w r w' [= <- <-]. apply Hf. Qed.
Lemma keeps_set_env f : (forall w e, P (with_env w e) = P w) -> keeps P (set_env f).
Proof. intros Hf w r w' E. unfold set_env in E. destruct (f (w_env w)) as [[ret e]|]; [|done]. injection E as <- <-. apply Hf. Qed.
Lemma keeps_set_mem f : (forall w e, P (with_env w e) = P w) -> keeps P (set_mem f).
Proof. intros Hf w r w' E. unfold set_mem in E. destruct (f (sysmem_of w)); [|done]. injection E as <- <-. apply Hf. Qed.
Lemma keeps_if {A} (b : bool) (m1 m2 : boot C F A) : keeps P m1 -> keeps P m2 -> keeps P (if b then m1 else m2).
Proof. by destruct b. Qed.

Lemma returns_bind {A A'} (m : boot C F A) (f : A -> boot C F A') : returns m -> (forall a, returns (f a)) -> returns (bind m f).
Proof. intros Hm Hf w x w' E. apply bind_inv in E as [(a & w1 & _ & E)|(y & _ & E)]; [by apply Hf in E|by apply Hm in E]. Qed.
Lemma returns_yield {A} (a : A) : returns (yield (C := C) (F := F) a).
Proof. by intros w x w'. Qed.
Lemma returns_reads {A} (f : boot_world C F -> A) : returns (reads f).
Proof. by intros w x w'. Qed.
Lemma returns_update f : returns (update (C := C) (F := F) f).
Proof. by intros w x w'. Qed.
Lemma returns_on_mem {A} (f : list Z -> option A) : returns (on_mem (C := C) (F := F) f).
Proof. intros w x w' E. unfold on_mem in E. by destruct (f (sysmem_of w)). Qed.
Lemma returns_on_env {A} (f : env_world -> option A) : returns (on_env (C := C) (F := F) f).
Proof. intros w x w' E. unfold on_env in E. by destruct (f (w_env w)). Qed.
Lemma returns_set_env f : returns (set_env (C := C) (F := F) f).
Proof. intros w x w' E. unfold set_env in E. by destruct (f (w_env w)) as [[??]|]. Qed.
Lemma returns_set_mem f : returns (set_mem (C := C) (F := F) f).
Proof. intros w x w' E. unfold set_mem in E. by destruct (f (sysmem_of w)). Qed.
End Laws.

Create HintDb boot.
#[export] Hint Resolve keeps_bind keeps_yield keeps_halt keeps_reads keeps_on_mem keeps_on_env keeps_set_env keeps_set_mem : boot.
#[export] Hint Resolve returns_bind returns_yield returns_reads returns_update returns_on_mem returns_on_env returns_set_env returns_set_mem : boot.

(** Goes through the code: binds, conditions and matches. *)
Ltac boot_walk :=
  repeat (intros; cbn beta iota;
    match goal with
    | |- keeps _ (let (_, _) := ?p in _) => destruct p
    | |- keeps _ (match ?x with _ => _ end) => destruct x
    | |- keeps _ (bind _ _) => apply keeps_bind
    | |- returns (let (_, _) := ?p in _) => destruct p
    | |- returns (match ?x with _ => _ end) => destruct x
    | |- returns (bind _ _) => apply returns_bind
    | |- _ => solve [auto with boot]
    end).

Notation "'let*' x := m 'in' k" := (bind m (fun x => k)) (at level 10, x binder, k at level 200) : boot_scope.
Notation "'let*' ' x := m 'in' k" := (bind m (fun x => k)) (at level 10, x strict pattern, k at level 200) : boot_scope.
Local Open Scope boot_scope.

(** ** The fields of [images] *)

Definition set_legacy (i : bootm_headers_t) (hdr : Z) (copy : list Z) : bootm_headers_t :=
  mk_images hdr copy 1 (fit_uname_cfg i) (fit_hdr_os i) (fit_uname_os i) (fit_noffset_os i) (fit_hdr_rd i) (fit_uname_rd i) (fit_noffset_rd i)
    (os i) (ep i) (rd_start i) (rd_end i) (ft_addr i) (ft_len i) (initrd_start i) (initrd_end i) (images_verify i) (images_state i) (images_lmb i).

Definition set_fit_os (i : bootm_headers_t) (hdr : Z) (uname cfg : option (list Z)) (noffset : Z) : bootm_headers_t :=
  mk_images (legacy_hdr_os i) (legacy_hdr_os_copy i) (legacy_hdr_valid i) cfg hdr uname noffset (fit_hdr_rd i) (fit_uname_rd i) (fit_noffset_rd i)
    (os i) (ep i) (rd_start i) (rd_end i) (ft_addr i) (ft_len i) (initrd_start i) (initrd_end i) (images_verify i) (images_state i) (images_lmb i).

Definition set_fit_rd (i : bootm_headers_t) (hdr : Z) (uname : option (list Z)) (noffset : Z) : bootm_headers_t :=
  mk_images (legacy_hdr_os i) (legacy_hdr_os_copy i) (legacy_hdr_valid i) (fit_uname_cfg i) (fit_hdr_os i) (fit_uname_os i) (fit_noffset_os i)
    hdr uname noffset (os i) (ep i) (rd_start i) (rd_end i) (ft_addr i) (ft_len i) (initrd_start i) (initrd_end i) (images_verify i)
    (images_state i) (images_lmb i).

Definition set_ep (i : bootm_headers_t) (v : Z) : bootm_headers_t :=
  mk_images (legacy_hdr_os i) (legacy_hdr_os_copy i) (legacy_hdr_valid i) (fit_uname_cfg i) (fit_hdr_os i) (fit_uname_os i) (fit_noffset_os i)
    (fit_hdr_rd i) (fit_uname_rd i) (fit_noffset_rd i) (os i) v (rd_start i) (rd_end i) (ft_addr i) (ft_len i) (initrd_start i) (initrd_end i)
    (images_verify i) (images_state i) (images_lmb i).

Definition set_rd (i : bootm_headers_t) (s e : Z) : bootm_headers_t :=
  mk_images (legacy_hdr_os i) (legacy_hdr_os_copy i) (legacy_hdr_valid i) (fit_uname_cfg i) (fit_hdr_os i) (fit_uname_os i) (fit_noffset_os i)
    (fit_hdr_rd i) (fit_uname_rd i) (fit_noffset_rd i) (os i) (ep i) s e (ft_addr i) (ft_len i) (initrd_start i) (initrd_end i)
    (images_verify i) (images_state i) (images_lmb i).

Definition set_ft (i : bootm_headers_t) (addr len : Z) : bootm_headers_t :=
  mk_images (legacy_hdr_os i) (legacy_hdr_os_copy i) (legacy_hdr_valid i) (fit_uname_cfg i) (fit_hdr_os i) (fit_uname_os i) (fit_noffset_os i)
    (fit_hdr_rd i) (fit_uname_rd i) (fit_noffset_rd i) (os i) (ep i) (rd_start i) (rd_end i) addr len (initrd_start i) (initrd_end i)
    (images_verify i) (images_state i) (images_lmb i).

Definition set_initrd (i : bootm_headers_t) (s e : Z) : bootm_headers_t :=
  mk_images (legacy_hdr_os i) (legacy_hdr_os_copy i) (legacy_hdr_valid i) (fit_uname_cfg i) (fit_hdr_os i) (fit_uname_os i) (fit_noffset_os i)
    (fit_hdr_rd i) (fit_uname_rd i) (fit_noffset_rd i) (os i) (ep i) (rd_start i) (rd_end i) (ft_addr i) (ft_len i) s e
    (images_verify i) (images_state i) (images_lmb i).

Definition set_state (i : bootm_headers_t) (v : Z) : bootm_headers_t :=
  mk_images (legacy_hdr_os i) (legacy_hdr_os_copy i) (legacy_hdr_valid i) (fit_uname_cfg i) (fit_hdr_os i) (fit_uname_os i) (fit_noffset_os i)
    (fit_hdr_rd i) (fit_uname_rd i) (fit_noffset_rd i) (os i) (ep i) (rd_start i) (rd_end i) (ft_addr i) (ft_len i) (initrd_start i) (initrd_end i)
    (images_verify i) v (images_lmb i).

Definition set_lmb (i : bootm_headers_t) (v : lmb) : bootm_headers_t :=
  mk_images (legacy_hdr_os i) (legacy_hdr_os_copy i) (legacy_hdr_valid i) (fit_uname_cfg i) (fit_hdr_os i) (fit_uname_os i) (fit_noffset_os i)
    (fit_hdr_rd i) (fit_uname_rd i) (fit_noffset_rd i) (os i) (ep i) (rd_start i) (rd_end i) (ft_addr i) (ft_len i) (initrd_start i) (initrd_end i)
    (images_verify i) (images_state i) v.

Definition set_os_image (i : bootm_headers_t) (start len : Z) : bootm_headers_t :=
  set_os i (mk_image_info (i_start (os i)) (i_end (os i)) start len (i_load (os i)) (i_comp (os i)) (i_type (os i)) (i_os (os i)) (i_arch (os i))).

(** ** Parameters *)

(** [boot_alloc]: whether [strdup] and the copy of a name get memory.
    [boot_junk]: what an address holds that was never written. *)
Class BootConfig := {
  CONFIG_SUPPORT_RAW_INITRD : bool;
  CONFIG_SYS_FDT_PAD : Z;
  boot_alloc : bool;
  boot_junk : Z
}.

(** What libfdt does to the memory: [fdt_open_into mem src dst len], and the entries
    of the memory reservation block with the result of [fdt_get_mem_rsv] for
    each. *)
Class BootFdt := {
  fdt_open_into : list Z -> Z -> Z -> Z -> option (Z * list Z);
  fdt_mem_rsv : list Z -> Z -> list (option (Z * Z))
}.

(** ** Addresses on the command line *)

(** [fit_parse_conf], else [fit_parse_subimage], else a number: the address and the
    names. *)
Definition parse_image_spec (spec : list Z) (default_addr : Z) (config : option (list Z)) : Z * option (list Z) * option (list Z) :=
  let '(is_conf, addr, name) := fit_parse_conf spec default_addr in
  if is_conf then (addr, name, None)
  else
    let '(is_sub, addr, name) := fit_parse_subimage spec default_addr in
    if is_sub then (addr, config, name) else (fst (simple_strtoul spec 16), config, None).

Definition genimg_get_kernel_addr_fit (load_addr : Z) (img_addr : option (list Z)) : Z * option (list Z) * option (list Z) :=
  match img_addr with None => (load_addr, None, None) | Some a => parse_image_spec a load_addr None end.

Definition genimg_get_kernel_addr (load_addr : Z) (img_addr : option (list Z)) : Z := (genimg_get_kernel_addr_fit load_addr img_addr).1.1.

Definition genimg_has_config (i : bootm_headers_t) : bool := bool_decide (is_Some (fit_uname_cfg i)).

(** The callback of the variable [loadaddr]: the new [load_addr]. *)
Definition on_loadaddr (load_addr : Z) (value : list Z) (op : env_op) : Z :=
  match op with
  | env_op_create | env_op_overwrite => fst (simple_strtoul value 16)
  | env_op_delete => load_addr
  end.

Definition FIT_RAMDISK_PROP : list Z := str "ramdisk".
Definition FIT_FDT_PROP : list Z := str "fdt".
Definition FIT_LOADABLE_PROP : list Z := str "loadables".

Section Find.
Context {C F : Type} {hooks : EnvHooks C} {config : EnvConfig}.
Context {IC : ImageConfig} {FC : FitConfig} {LF : Libfdt} {BC : BootConfig} {BF : BootFdt}.

(** [fit_image_load] on the state. *)
Definition load_fit (addr : Z) (uname cfg : option (list Z)) (image_type : Z) (op : fit_load_op) : boot C F (Z + fit_loaded) :=
  fun w => '(i, m, r) ← fit_image_load boot_alloc (images w) (sysmem_of w) addr uname cfg image_type op; Some (inr r, with_sysmem (with_images w i) m).

Definition legacy_type (i : bootm_headers_t) (type : Z) : option bool :=
  if legacy_hdr_valid i =? 0 then Some false else image_check_type (legacy_hdr_os_copy i) 0 type.

(** ** The ramdisk *)

(** What is behind an address: the return value, or [rd_data] and [rd_len]. *)
Definition ramdisk_at (rd_addr arch : Z) (cfg uname select : option (list Z)) : boot C F (Z + (Z * Z)) :=
  let* fmt := on_mem (fun m => genimg_get_format m rd_addr) in
  let* i := reads images in
  if fmt =? IMAGE_FORMAT_LEGACY then
    let* rd_hdr := on_mem (fun m => image_get_ramdisk m rd_addr arch (images_verify i)) in
    match rd_hdr with
    | None => yield (inl 1)
    | Some rd_hdr => let* len := on_mem (fun m => image_get_data_size m rd_hdr) in yield (inr (image_get_data rd_hdr, len))
    end
  else if fmt =? IMAGE_FORMAT_FIT then
    let* r := load_fit rd_addr uname cfg IH_TYPE_RAMDISK FIT_LOAD_OPTIONAL_NON_ZERO in
    match r with
    | inl _ => yield (inl 1)
    | inr r => let* _ := update (fun i => set_fit_rd i rd_addr (l_uname r) (l_noffset r)) in yield (inr (l_data r, l_len r))
    end
  else
    match select ≫= (fun s => (fun n => at_off s (n + 1)) <$> strchr s 58) with
    | Some len => if CONFIG_SUPPORT_RAW_INITRD then yield (inr (rd_addr, fst (simple_strtoul len 16))) else yield (inl 1)
    | None => yield (inl 1)
    end.

(** [rd_addr] and the names that are given, or the return value. *)
Definition ramdisk_addr (select : option (list Z)) : boot C F (Z + (Z * option (list Z) * option (list Z))) :=
  let* i := reads images in
  match select with
  | Some s =>
      let* la := reads load_addr in
      let default_addr := if bool_decide (is_Some (fit_uname_os i)) then fit_hdr_os i else la in
      yield (inr (parse_image_spec s default_addr (fit_uname_cfg i)))
  | None =>
      let rd_addr := fit_hdr_os i in
      let* rd_noffset := on_mem (fun m => fit_get_node_from_config boot_alloc i m FIT_RAMDISK_PROP rd_addr) in
      if rd_noffset =? - ENOENT then yield (inl 0)
      else if rd_noffset <? 0 then yield (inl 1)
      else yield (inr (rd_addr, fit_uname_cfg i, None))
  end.

Definition find_ramdisk (args : list (list Z)) (arch : Z) : boot C F (Z + (Z * Z)) :=
  let select := args !! 1%nat in
  let* i := reads images in
  if match select with Some s => strcmp s (str "-") =? 0 | None => false end then yield (inr (0, 0))
  else if bool_decide (is_Some select) || genimg_has_config i then
    let* a := ramdisk_addr select in
    match a with
    | inl ret => yield (inl ret)
    | inr (rd_addr, cfg, uname) => ramdisk_at rd_addr arch cfg uname select
    end
  else
    let* multi := on_mem (fun _ => legacy_type i IH_TYPE_MULTI) in
    if (multi : bool) then let* d := on_mem (fun m => image_multi_getimg m (legacy_hdr_os i) 1) in yield (inr d)
    else yield (inr (0, 0)).

(** [rd_start] and [rd_end] are the fields of [images], as in all calls. *)
Definition boot_get_ramdisk (args : list (list Z)) (arch : Z) : boot C F Z :=
  let* _ := update (fun i => set_rd i 0 0) in
  let* r := find_ramdisk args arch in
  match r with
  | inl ret => yield ret
  | inr (rd_data, rd_len) =>
      let* _ := update (fun i => if rd_data =? 0 then i else set_rd i rd_data (u64 (rd_data + rd_len))) in yield 0
  end.

(** ** The device tree *)

Definition fdt_header_totalsize (mem : list Z) (blob : Z) : option Z := get_be32 mem (blob + 4).

(** [image_get_fdt] *)
Definition image_get_fdt (mem : list Z) (fdt_addr : Z) : option (option Z) :=
  _ ← image_print_contents mem fdt_addr;
  hcrc ← image_check_hcrc mem fdt_addr;
  if negb hcrc then Some None
  else
    dcrc ← image_check_dcrc mem fdt_addr;
    if negb dcrc then Some None
    else
      type ← image_check_type mem fdt_addr IH_TYPE_FLATDT;
      if negb type then Some None
      else
        comp ← image_get_comp mem fdt_addr;
        if negb (comp =? IH_COMP_NONE) then Some None
        else
          r ← fdt_check_header mem (image_get_data fdt_addr);
          Some (if r =? 0 then Some fdt_addr else None).

(** The return value and [*datap].  [CONFIG_OF_LIBFDT_OVERLAY] is not defined. *)
Definition boot_get_fdt_fit (addr : Z) (uname config_name : option (list Z)) : boot C F (Z * Z) :=
  if bool_decide (is_Some config_name) && negb boot_alloc then yield (- ENOMEM, boot_junk)
  else
    let next_config := config_name ≫= (fun c => strchr c 35) in
    let cfg := match config_name, next_config with
               | Some c, Some n => if n =? 0 then None else Some (take (Z.to_nat n) c)
               | c, _ => c
               end in
    let* r := load_fit addr uname cfg IH_TYPE_FLATDT FIT_LOAD_OPTIONAL in
    match r with
    | inl e => yield (e, boot_junk)
    | inr r =>
        let* count := on_mem (fun m => let fit := fdt_at m addr in
          cfg_noffset ← fit_conf_get_node boot_alloc fit (l_config r); Some (fit_conf_get_prop_node_count fit cfg_noffset FIT_FDT_PROP)) in
        yield (if (count <=? 1) && negb (bool_decide (is_Some next_config)) then l_noffset r else - EBADF, l_data r)
    end.

(** How the search ends: with [return], at the labels [no_fdt] and [error], or with
    [fdt_blob]. *)
Inductive fdt_search := fdt_return (ret : Z) | no_fdt | fdt_error | fdt_blob_at (blob : Z).

(** The legacy image is moved to its load address. *)
Definition legacy_fdt_at (fdt_addr : Z) : boot C F fdt_search :=
  let* hdr := on_mem (fun m => image_get_fdt m fdt_addr) in
  match hdr with
  | None => yield no_fdt
  | Some hdr =>
      let image_data := image_get_data hdr in
      let* '(image_end, load, size) := on_mem (fun m =>
        e ← image_get_image_end m hdr; l ← image_get_load m hdr; s ← image_get_data_size m hdr; Some (e, l, s)) in
      let load_end := u64 (load + size) in
      if (load =? hdr) || (load =? image_data) then yield (fdt_blob_at load)
      else if (load <? image_end) && (hdr <? load_end) then yield fdt_error
      else let* _ := set_mem (fun m => memmove m load image_data (Z.to_nat size)) in yield (fdt_blob_at load)
  end.

Definition fdt_found_at (fdt_addr : Z) (cfg uname : option (list Z)) : boot C F fdt_search :=
  let* fmt := on_mem (fun m => genimg_get_format m fdt_addr) in
  if fmt =? IMAGE_FORMAT_LEGACY then legacy_fdt_at fdt_addr
  else if fmt =? IMAGE_FORMAT_FIT then
    let* is_fit := reads (fun w => fit_check_format (fdt_at (sysmem_of w) fdt_addr)) in
    if (is_fit : bool) then let* '(_, load) := boot_get_fdt_fit fdt_addr uname cfg in yield (fdt_blob_at load)
    else yield (fdt_blob_at fdt_addr)
  else yield no_fdt.

Definition find_fdt (select : option (list Z)) : boot C F fdt_search :=
  let* i := reads images in
  match select with
  | Some s =>
      let* la := reads load_addr in
      let default_addr := if bool_decide (is_Some (fit_uname_rd i)) then fit_hdr_rd i
                          else if bool_decide (is_Some (fit_uname_os i)) then fit_hdr_os i else la in
      let '(fdt_addr, cfg, uname) := parse_image_spec s default_addr (fit_uname_cfg i) in
      fdt_found_at fdt_addr cfg uname
  | None =>
      if genimg_has_config i then
        let fdt_addr := fit_hdr_os i in
        let* fdt_noffset := on_mem (fun m => fit_get_node_from_config boot_alloc i m FIT_FDT_PROP fdt_addr) in
        if fdt_noffset =? - ENOENT then yield (fdt_return 0)
        else if fdt_noffset <? 0 then yield (fdt_return 1)
        else fdt_found_at fdt_addr (fit_uname_cfg i) None
      else
        let* multi := on_mem (fun _ => legacy_type i IH_TYPE_MULTI) in
        if (multi : bool) then
          let* '(fdt_data, fdt_len) := on_mem (fun m => image_multi_getimg m (legacy_hdr_os i) 2) in
          if fdt_len =? 0 then yield no_fdt
          else
            let* bad := on_mem (fun m => r ← fdt_check_header m fdt_data;
              if negb (r =? 0) then Some true else s ← fdt_header_totalsize m fdt_data; Some (negb (s =? fdt_len))) in
            yield (if (bad : bool) then fdt_error else fdt_blob_at fdt_data)
        else yield no_fdt
  end.

(** [of_flat_tree] and [of_size] are the fields of [images]. *)
Definition boot_get_fdt (args : list (list Z)) : boot C F Z :=
  let* _ := update (fun i => set_ft i 0 0) in
  let select := args !! 2%nat in
  let* r := find_fdt select in
  match r with
  | fdt_return ret => yield ret
  | fdt_blob_at blob =>
      let* size := on_mem (fun m => fdt_header_totalsize m blob) in
      let* _ := update (fun i => set_ft i blob size) in yield 0
  | no_fdt => yield (if bool_decide (is_Some select) then 1 else 0)
  | fdt_error => yield 1
  end.

(** [cmd/fdt.c] *)
Definition set_working_fdt_addr (addr : Z) : boot C F unit :=
  let* _ := (fun w => Some (inr tt, mk_boot C F (images w) (w_env w) (load_addr w) addr)) in
  set_env (env_set_hex (str "fdtaddr") addr).

Fixpoint reserve_list (l : lmb) (rsv : list (option (Z * Z))) : option lmb :=
  match rsv with
  | [] => Some l
  | None :: rsv => reserve_list l rsv
  | Some (addr, size) :: rsv => '(_, l) ← lmb_reserve l addr size; reserve_list l rsv
  end.

Definition boot_fdt_add_mem_rsv_regions (blob : Z) : boot C F unit :=
  let* i := reads images in
  let* l := on_mem (fun m =>
    r ← fdt_check_header m blob; if negb (r =? 0) then Some (images_lmb i) else reserve_list (images_lmb i) (fdt_mem_rsv m blob)) in
  update (fun i => set_lmb i l).

(** [of_start] and whether the tree stays where it is, or [None] for an allocation
    error. *)
Definition fdt_place (l : lmb) (e : @env_world C F) (fdt_blob of_len : Z) : option (option (Z * bool) * lmb) :=
  s ← env_get e (str "fdt_high");
  '(of_start, in_place, l) ←
    match s with
    | Some s =>
        let desired_addr := fst (simple_strtoul s 16) in
        if desired_addr =? u64 (Z.lnot 0) then '(_, l) ← lmb_reserve l fdt_blob of_len; Some (fdt_blob, true, l)
        else if negb (desired_addr =? 0) then '(a, l) ← lmb_alloc_base l of_len 0x1000 desired_addr; Some (a, false, l)
        else '(a, l) ← lmb_alloc l of_len 0x1000; Some (a, false, l)
    | None =>
        ms ← env_get_bootm_mapsize (env_get e); low ← env_get_bootm_low (env_get e);
        '(a, l) ← lmb_alloc_base l of_len 0x1000 (u64 (ms + low)); Some (a, false, l)
    end;
  Some (if of_start =? 0 then None else Some (of_start, in_place), l).

(** [fdt_set_totalsize] *)
Definition fdt_set_totalsize (mem : list Z) (blob size : Z) : option (list Z) := store_bytes mem (blob + 4) (PUT_UINT32_BE size).

(** The return value, [*of_flat_tree] and [*of_size]. *)
Definition boot_relocate_fdt (fdt_blob of_size : Z) : boot C F (Z * Z * Z) :=
  if of_size =? 0 then yield (0, fdt_blob, of_size)
  else
    let* hdr := on_mem (fun m => fdt_check_header m fdt_blob) in
    if negb (hdr =? 0) then yield (1, fdt_blob, of_size)
    else
      let of_len := u64 (of_size + CONFIG_SYS_FDT_PAD) in
      let* i := reads images in
      let* '(place, l) := on_env (fun e => fdt_place (images_lmb i) e fdt_blob of_len) in
      let* _ := update (fun i => set_lmb i l) in
      match place with
      | None => yield (1, fdt_blob, of_size)
      | Some (of_start, true) =>
          let* _ := set_mem (fun m => fdt_set_totalsize m of_start of_len) in
          let* _ := set_working_fdt_addr of_start in yield (0, of_start, of_len)
      | Some (of_start, false) =>
          let* '(err, m) := on_mem (fun m => fdt_open_into m fdt_blob of_start of_len) in
          let* _ := set_mem (fun _ => Some m) in
          if negb (err =? 0) then yield (1, fdt_blob, of_size)
          else let* _ := set_working_fdt_addr of_start in yield (0, of_start, of_len)
      end.

(** ** Loadable images *)

(** No handler is registered for the target.  [fuel]: the strings of the property
    are in the memory, with one byte at least. *)
Fixpoint loadable_loop (fuel : nat) (addr conf_noffset index : Z) : boot C F Z :=
  match fuel with
  | O => fun _ => None
  | S fuel =>
      let* uname := reads (fun w => fdt_stringlist_get (fdt_at (sysmem_of w) addr) conf_noffset FIT_LOADABLE_PROP index) in
      match uname with
      | inl _ => yield 0
      | inr uname =>
          let* i := reads images in
          let* r := load_fit addr (Some uname) (fit_uname_cfg i) IH_TYPE_LOADABLE FIT_LOAD_OPTIONAL_NON_ZERO in
          match r with
          | inl e => yield e
          | inr r =>
              let* _ := update (fun i => set_fit_uname_cfg i (l_config r)) in
              let* noffset := reads (fun w => fit_image_get_node (fdt_at (sysmem_of w) addr) uname) in
              if noffset <? 0 then yield noffset
              else
                let* t := on_mem (fun m => fit_image_get_type (fdt_at m addr) noffset) in
                if t.1 <? 0 then yield t.1 else loadable_loop fuel addr conf_noffset (index + 1)
          end
      end
  end.

Definition boot_get_loadable : boot C F Z :=
  let* i := reads images in
  if negb (genimg_has_config i) then yield 0
  else
    let addr := fit_hdr_os i in
    let* fmt := on_mem (fun m => genimg_get_format m addr) in
    if fmt =? IMAGE_FORMAT_FIT then
      let* conf_noffset := on_mem (fun m => fit_conf_get_node boot_alloc (fdt_at m addr) (fit_uname_cfg i)) in
      let* n := reads (fun w => length (sysmem_of w)) in
      loadable_loop (S n) addr conf_noffset 0
    else yield 1.

(** ** Linux images for this processor *)

Definition LINUX_ARM64_IMAGE_MAGIC : Z := 0x644d5241.
Definition SZ_2M : Z := 0x200000.

(** [n] bytes in little-endian order *)
Definition get_le (n : Z) (mem : list Z) (a : Z) : option Z := b ← peek mem a n; Some (foldr (fun x acc => x + 256 * acc) 0 b).

Definition ALIGN (x a : Z) : Z := Z.land (u64 (x + (a - 1))) (u64 (Z.lnot (a - 1))).

(** The return value and [*relocated_addr]. *)
Definition booti_setup (mem : list Z) (image : Z) (force_reloc : bool) : option (Z * Z) :=
  magic ← get_le 4 mem (image + 56);
  if negb (magic =? LINUX_ARM64_IMAGE_MAGIC) then Some (1, image)
  else
    size ← get_le 8 mem (image + 16);
    text_offset ← if size =? 0 then Some 0x80000 else get_le 8 mem (image + 8);
    flags ← get_le 8 mem (image + 24);
    let dst := if negb force_reloc && Z.testbit flags 3 then u64 (image - text_offset) else bi_dram_start in
    Some (0, u64 (ALIGN dst SZ_2M + text_offset)).

(** *** Frames *)

Section Frames.
Context {B : Type} (P : bootm_headers_t -> B).

(** [P] does not look at the fields that are set behind the search for the
    kernel. *)
Record frame : Prop := {
  fr_rd : forall i s e, P (set_rd i s e) = P i;
  fr_fit_rd : forall i h u n, P (set_fit_rd i h u n) = P i;
  fr_ft : forall i a n, P (set_ft i a n) = P i;
  fr_initrd : forall i s e, P (set_initrd i s e) = P i;
  fr_lmb : forall i l, P (set_lmb i l) = P i;
  fr_cfg : forall i c, P (set_fit_uname_cfg i c) = P i;
  fr_arch : forall i a, P (set_os_arch i a) = P i
}.

Hypothesis Hfr : frame.
Ltac frame_update :=
  apply keeps_update; intros; cbn [with_images images]; try case_if;
  rewrite ?(fr_rd Hfr), ?(fr_fit_rd Hfr), ?(fr_ft Hfr), ?(fr_initrd Hfr), ?(fr_lmb Hfr), ?(fr_cfg Hfr); reflexivity.
#[local] Hint Extern 1 (keeps _ (update _)) => frame_update : boot.

#[local] Abbreviation PW := (fun w : boot_world C F => P (images w)).

Lemma fit_image_load_frame i mem addr uname cfg image_type op i' mem' r :
  fit_image_load boot_alloc i mem addr uname cfg image_type op = Some (i', mem', r) -> P i' = P i.
Proof.
  unfold fit_image_load. case_if; [by intros [= <- _ _]|].
  destruct (find_node boot_alloc i mem (fdt_at mem addr) uname cfg image_type) as [[i1 node]|] eqn:En; [|done]. rewrite mbind_Some.
  assert (P i1 = P i) as H1.
  { unfold find_node in En. destruct uname; [by injection En as <- _|].
    destruct (if _ && _ then _ else _) as [n|]; [|done]. rewrite mbind_Some in En. destruct (n <? 0); [by injection En as <- _|].
    set (i2 := if image_type =? IH_TYPE_KERNEL then _ else i) in En.
    assert (P i2 = P i) as H2 by (unfold i2; case_if; [apply (fr_cfg Hfr)|done]).
    destruct (if _ && _ then _ else _) as [bad|]; [|done]. rewrite mbind_Some in En. destruct bad; by injection En as <- _. }
  assert (forall i2, P (set_os_arch i1 i2) = P i) as H2 by (intros i2; by rewrite (fr_arch Hfr)).
  destruct node as [e|[[n u] b]]; [intros [= <- _ _]; done|].
  destruct (fit_image_select _ _ _ _) as [v|]; [|done]. rewrite mbind_Some. case_if; [intros [= <- _ _]; done|].
  destruct (fit_image_check_target_arch _ _) as [t|]; [|done]. rewrite mbind_Some. destruct t; [|intros [= <- _ _]; done]. cbn [negb].
  destruct (fit_image_get_arch _ _) as [[ra oa]|]; [|done]. rewrite mbind_Some.
  destruct (load_checks _ _ _ _) as [lc|]; [|done]. rewrite mbind_Some. case_if; [intros [= <- _ _]; done|].
  destruct (fit_image_get_data_and_size _ _) as [[e|[buf size]]|]; [intros [= <- _ _]; done| |done]. rewrite mbind_Some.
  destruct (if image_type =? IH_TYPE_FLATDT then _ else _) as [bad|]; [|done]. rewrite mbind_Some. destruct bad; [intros [= <- _ _]; done|].
  destruct (move_to_load _ _ _ _ _ _ _ _) as [[e|[d m]]|]; [| |done]; intros [= <- _ _]; done.
Qed.

Lemma keeps_load_fit addr uname cfg image_type op : keeps PW (load_fit addr uname cfg image_type op).
Proof.
  intros w r w' E. unfold load_fit in E. destruct (fit_image_load _ _ _ _ _ _ _ _) as [[[i m] r0]|] eqn:El; [|done].
  rewrite mbind_Some in E. injection E as <- <-. by apply fit_image_load_frame in El.
Qed.
#[local] Hint Resolve keeps_load_fit : boot.

Lemma keeps_ramdisk args arch : keeps PW (boot_get_ramdisk args arch).
Proof. unfold boot_get_ramdisk, find_ramdisk, ramdisk_addr, ramdisk_at. boot_walk. Qed.

Lemma keeps_set_working_fdt addr : keeps PW (set_working_fdt_addr addr).
Proof. unfold set_working_fdt_addr. boot_walk. intros w r w' E. by injection E as <- <-. Qed.
#[local] Hint Resolve keeps_set_working_fdt : boot.

Lemma keeps_get_fdt args : keeps PW (boot_get_fdt args).
Proof. unfold boot_get_fdt, find_fdt, fdt_found_at, legacy_fdt_at, boot_get_fdt_fit. boot_walk. Qed.

Lemma keeps_loadable_loop fuel : forall addr n index, keeps PW (loadable_loop fuel addr n index).
Proof. induction fuel as [|fuel IH]; intros; cbn [loadable_loop]; [by intros w r w'|]. boot_walk. Qed.

Lemma keeps_get_loadable : keeps PW boot_get_loadable.
Proof. unfold boot_get_loadable. boot_walk. intros n. apply keeps_loadable_loop. Qed.

Lemma keeps_mem_rsv blob : keeps PW (boot_fdt_add_mem_rsv_regions blob).
Proof. unfold boot_fdt_add_mem_rsv_regions. boot_walk. Qed.

Lemma keeps_relocate_fdt blob size : keeps PW (boot_relocate_fdt blob size).
Proof. unfold boot_relocate_fdt. boot_walk. Qed.
End Frames.
End Find.
