(* ===== verification/Bootm.v ===== *)
(** * The command bootm ([common/bootm.c], [common/bootm_os.c], [cmd/bootm.c],
      [arch/arm/lib/bootm.c])

    A boot goes through states: start, find the kernel, find the other images, load
    the kernel, relocate the ramdisk and the device tree, prepare the system and
    enter it.  [do_bootm_states] runs a set of them in this order; [bootm] runs all,
    and its subcommands run one each.

    Interrupts cannot be switched on this processor ([disable_interrupts] returns 0
    and [enable_interrupts] does nothing, [arch/arm/lib/interrupts_64.c]), so the
    paths that depend on them are left out, like the flush of the cache, the console
    and the devices that are stopped before a jump.  [CONFIG_SILENT_CONSOLE],
    [CONFIG_TRACE], [CONFIG_FPGA] and ATAGs are not configured. *)

From Stdlib Require Import Sorted.
From S2P Require Import Prelude StringLib Strto Blocks Lmb Hashtable EnvStore EnvCmd Command Rsa ImageSig Image Fit BootImages.
Local Open Scope Z_scope.
Local Open Scope boot_scope.

Definition BOOTM_STATE_START : Z := 0x1.
Definition BOOTM_STATE_FINDOS : Z := 0x2.
Definition BOOTM_STATE_FINDOTHER : Z := 0x4.
Definition BOOTM_STATE_LOADOS : Z := 0x8.
Definition BOOTM_STATE_RAMDISK : Z := 0x10.
Definition BOOTM_STATE_FDT : Z := 0x20.
Definition BOOTM_STATE_OS_CMDLINE : Z := 0x40.
Definition BOOTM_STATE_OS_BD_T : Z := 0x80.
Definition BOOTM_STATE_OS_PREP : Z := 0x100.
Definition BOOTM_STATE_OS_FAKE_GO : Z := 0x200.
Definition BOOTM_STATE_OS_GO : Z := 0x400.

Definition BOOTM_ERR_RESET : Z := -1.
Definition BOOTM_ERR_OVERLAP : Z := -2.
Definition BOOTM_ERR_UNIMPLEMENTED : Z := -3.

(** [flag & bit] as a condition. *)
Definition has (states bit : Z) : bool := negb (Z.land states bit =? 0).

(** ** Parameters *)

(** A decompressor: from the memory, the place and the room for the output and the
    place and the length of the input to the return value, the length of the output
    and the memory.  It is [None] when it is not configured. *)
Definition decompressor : Type := list Z -> Z -> Z -> Z -> Z -> option (Z * Z * list Z).

(** [boot_sp]: the stack pointer.  [run_appl]: a program that is called, which may
    not return.  [other_os]: the functions for systems other than Linux; of [images]
    they read only.  [image_setup_libfdt]: the changes of the device tree for
    Linux. *)
Class BootmConfig (C F : Type) := {
  CONFIG_CMD_BOOTI : bool;
  bi_dram : list (Z * Z);
  boot_sp : Z;
  bi_arch_number : Z;
  gunzip : option decompressor;
  BZ2_bzBuffToBuffDecompress : option decompressor;
  lzmaBuffToBuffDecompress : option decompressor;
  lzop_decompress : option decompressor;
  ulz4fn : option decompressor;
  run_appl : Z -> list (list Z) -> @env_world C F -> option (option Z * @env_world C F);
  other_os : list (Z * (Z -> list (list Z) -> bootm_headers_t -> @env_world C F -> option (option Z * @env_world C F)));
  image_setup_libfdt : bootm_headers_t -> list Z -> Z -> Z -> option (Z * lmb * list Z)
}.

Section Bootm.
Context {C F : Type} {hooks : EnvHooks C} {config : EnvConfig}.
Context {IC : ImageConfig} {FC : FitConfig} {LF : Libfdt} {BC : BootConfig} {BF : BootFdt} {BM : BootmConfig C F}.

(** ** Start *)

(** [arch_lmb_reserve]: from 4 KiB below the stack to the end of its bank. *)
Fixpoint lmb_reserve_bank (l : lmb) (sp : Z) (banks : list (Z * Z)) : option lmb :=
  match banks with
  | [] => Some l
  | (start, size) :: banks =>
      let bank_end := u64 (start + size) in
      if (sp <? start) || (bank_end <=? sp) then lmb_reserve_bank l sp banks
      else '(_, l) ← lmb_reserve l sp (u64 (bank_end - sp)); Some l
  end.

Definition arch_lmb_reserve (l : lmb) : option lmb := lmb_reserve_bank l (u64 (boot_sp - 4096)) bi_dram.

Definition boot_start_lmb (l : lmb) (e : @env_world C F) : option lmb :=
  l ← lmb_init l;
  mem_start ← env_get_bootm_low (env_get e);
  mem_size ← env_get_bootm_size (env_get e);
  '(_, l) ← lmb_add l mem_start mem_size;
  arch_lmb_reserve l.

(** [memset(&images, 0, sizeof(images))] *)
Definition zero_region : lmb_region := mk_region 0 0 (replicate 9 (mk_property 0 0)).
Definition zero_images : bootm_headers_t :=
  mk_images 0 (replicate 64 0) 0 None 0 None 0 0 None 0 (mk_image_info 0 0 0 0 0 0 0 0 0) 0 0 0 0 0 0 0 0 0 (mk_lmb zero_region zero_region).

Definition set_verify (i : bootm_headers_t) (v : Z) : bootm_headers_t :=
  mk_images (legacy_hdr_os i) (legacy_hdr_os_copy i) (legacy_hdr_valid i) (fit_uname_cfg i) (fit_hdr_os i) (fit_uname_os i) (fit_noffset_os i)
    (fit_hdr_rd i) (fit_uname_rd i) (fit_noffset_rd i) (os i) (ep i) (rd_start i) (rd_end i) (ft_addr i) (ft_len i) (initrd_start i) (initrd_end i)
    v (images_state i) (images_lmb i).

Definition bootm_start : boot C F Z :=
  let* verify := on_env (fun e => env_get_yesno e (str "verify")) in
  let* l := on_env (fun e => boot_start_lmb (images_lmb zero_images) e) in
  let* _ := update (fun _ => set_state (set_lmb (set_verify zero_images verify) l) BOOTM_STATE_START) in
  yield 0.

(** ** The kernel *)

(** The data of a legacy image: [*os_data] and [*os_len], or [None] for a wrong
    type. *)
Definition legacy_os_data (mem : list Z) (hdr : Z) : option (option (Z * Z)) :=
  type ← image_get_type mem hdr;
  if (type =? IH_TYPE_KERNEL) || (type =? IH_TYPE_KERNEL_NOLOAD) || (type =? IH_TYPE_STANDALONE)
  then len ← image_get_data_size mem hdr; Some (Some (image_get_data hdr, len))
  else if type =? IH_TYPE_MULTI then Some <$> image_multi_getimg mem hdr 0
  else Some None.

(** The address of the image, or [NULL]; [*os_data] and [*os_len] are
    [images.os.image_start] and [images.os.image_len]. *)
Definition boot_get_kernel (args : list (list Z)) : boot C F (option Z) :=
  let* la := reads load_addr in
  let '(img_addr, fit_uname_config, fit_uname_kernel) := genimg_get_kernel_addr_fit la (args !! 0%nat) in
  let* _ := update (fun i => set_os_image i 0 0) in
  let* fmt := on_mem (fun m => genimg_get_format m img_addr) in
  if fmt =? IMAGE_FORMAT_LEGACY then
    let* i := reads images in
    let* hdr := on_mem (fun m => image_get_kernel m img_addr (images_verify i)) in
    match hdr with
    | None => yield None
    | Some hdr =>
        let* d := on_mem (fun m => legacy_os_data m hdr) in
        match d with
        | None => yield None
        | Some (data, len) =>
            let* copy := on_mem (fun m => peek m hdr image_get_header_size) in
            let* _ := update (fun i => set_legacy (set_os_image i data len) hdr copy) in
            yield (Some img_addr)
        end
    end
  else if fmt =? IMAGE_FORMAT_FIT then
    let* r := load_fit img_addr fit_uname_kernel fit_uname_config IH_TYPE_KERNEL FIT_LOAD_IGNORED in
    match r with
    | inl _ => yield None
    | inr r =>
        let* _ := update (fun i => set_fit_os (set_os_image i (l_data r) (l_len r)) img_addr (l_uname r) (l_config r) (l_noffset r)) in
        yield (Some img_addr)
    end
  else yield None.

Definition set_info (o : image_info_t) (end_ load comp type os arch : Z) : image_info_t :=
  mk_image_info (i_start o) end_ (image_start o) (image_len o) load comp type os arch.

(** The fields of [images.os] that the node of a FIT image gives, up to the first
    that is missing, and whether none is. *)
Definition fit_parameters (fit : fit_tree) (n : Z) (o : image_info_t) : option (bool * image_info_t) :=
  '(r, type) ← fit_image_get_type fit n;
  let o := set_info o (i_end o) (i_load o) (i_comp o) type (i_os o) (i_arch o) in
  if negb (r =? 0) then Some (false, o)
  else
    '(r, comp) ← fit_image_get_comp fit n;
    let o := set_info o (i_end o) (i_load o) comp type (i_os o) (i_arch o) in
    if negb (r =? 0) then Some (false, o)
    else
      '(r, os) ← fit_image_get_os fit n;
      let o := set_info o (i_end o) (i_load o) comp type os (i_arch o) in
      if negb (r =? 0) then Some (false, o)
      else
        '(r, arch) ← fit_image_get_arch fit n;
        let o := set_info o (i_end o) (i_load o) comp type os arch in
        if negb (r =? 0) then Some (false, o)
        else
          Some (match fit_image_get_load fit n with
                | None => (false, set_info o (fit_get_end fit) (i_load o) comp type os arch)
                | Some load => (true, set_info o (fit_get_end fit) load comp type os arch)
                end).

(** [images.os] with what the header says, and whether the header is good. *)
Definition os_parameters (mem : list Z) (os_hdr : Z) (i : bootm_headers_t) : option (bool * image_info_t) :=
  fmt ← genimg_get_format mem os_hdr;
  if fmt =? IMAGE_FORMAT_LEGACY then
    type ← image_get_type mem os_hdr; comp ← image_get_comp mem os_hdr; o ← image_get_os mem os_hdr;
    end_ ← image_get_image_end mem os_hdr; load ← image_get_load mem os_hdr; arch ← image_get_arch mem os_hdr;
    Some (true, set_info (os i) end_ load comp type o arch)
  else if fmt =? IMAGE_FORMAT_FIT then fit_parameters (fdt_at mem (fit_hdr_os i)) (fit_noffset_os i) (os i)
  else Some (false, os i).

(** The entry point: false for an error. *)
Definition find_entry : boot C F bool :=
  let* i := reads images in
  if (i_arch (os i) =? IH_ARCH_I386) || (i_arch (os i) =? IH_ARCH_X86_64) then
    let* r := (fun w => '(i, m, r) ← boot_get_setup_fit boot_alloc (images w) (sysmem_of w); Some (inr r, with_sysmem (with_images w i) m)) in
    match r with
    | inl ret => yield (ret =? - ENOENT)
    | inr r => let* _ := update (fun i => set_ep i (l_data r)) in yield true
    end
  else if negb (legacy_hdr_valid i =? 0) then
    let* e := on_mem (fun _ => image_get_ep (legacy_hdr_os_copy i) 0) in
    let* _ := update (fun i => set_ep i e) in yield true
  else if bool_decide (is_Some (fit_uname_os i)) then
    let* e := reads (fun w => fit_image_get_entry (fdt_at (sysmem_of w) (fit_hdr_os i)) (fit_noffset_os i)) in
    match e with
    | None => yield false
    | Some e => let* _ := update (fun i => set_ep i e) in yield true
    end
  else yield false.

Definition set_os_load (i : bootm_headers_t) (load type : Z) : bootm_headers_t :=
  set_os i (mk_image_info (i_start (os i)) (i_end (os i)) (image_start (os i)) (image_len (os i)) load (i_comp (os i)) type (i_os (os i)) (i_arch (os i))).

Definition set_os_start (i : bootm_headers_t) (start : Z) : bootm_headers_t :=
  set_os i (mk_image_info start (i_end (os i)) (image_start (os i)) (image_len (os i)) (i_load (os i)) (i_comp (os i)) (i_type (os i)) (i_os (os i)) (i_arch (os i))).

(** An image that runs where it is: false for an error. *)
Definition place_noload : boot C F bool :=
  let* i := reads images in
  let o := os i in
  if negb (i_type o =? IH_TYPE_KERNEL_NOLOAD) then yield true
  else if CONFIG_CMD_BOOTI && (i_arch o =? IH_ARCH_ARM64) then
    let* '(ret, image_addr) := on_mem (fun m => booti_setup m (image_start o) true) in
    if negb (ret =? 0) then yield false
    else let* _ := update (fun i => set_ep (set_os_load i image_addr IH_TYPE_KERNEL) image_addr) in yield true
  else let* _ := update (fun i => set_ep (set_os_load i (image_start o) (i_type o)) (u64 (ep i + image_start o))) in yield true.

Definition bootm_find_os (args : list (list Z)) : boot C F Z :=
  let* os_hdr := boot_get_kernel args in
  let* i := reads images in
  if image_len (os i) =? 0 then yield 1
  else
    let* '(ok, o) := on_mem (fun m => os_parameters m (default 0 os_hdr) i) in
    let* _ := update (fun i => set_os i o) in
    if negb ok then yield 1
    else
      let* ok := find_entry in
      if negb ok then yield 1
      else
        let* ok := place_noload in
        if negb ok then yield 1
        else let* _ := update (fun i => set_os_start i (default 0 os_hdr)) in yield 0.

(** ** The other images *)

Definition bootm_find_images (args : list (list Z)) : boot C F Z :=
  let* ret := boot_get_ramdisk args IH_ARCH_DEFAULT in
  if negb (ret =? 0) then yield 1
  else
    let* ret := boot_get_fdt args in
    if negb (ret =? 0) then yield 1
    else
      let* i := reads images in
      let* _ := set_working_fdt_addr (ft_addr i) in
      let* ret := boot_get_loadable in
      yield (if ret =? 0 then 0 else 1).

Definition bootm_find_other (args : list (list Z)) : boot C F Z :=
  let* i := reads images in
  let o := os i in
  if ((i_type o =? IH_TYPE_KERNEL) || (i_type o =? IH_TYPE_KERNEL_NOLOAD) || (i_type o =? IH_TYPE_MULTI)) &&
     ((i_os o =? IH_OS_LINUX) || (i_os o =? IH_OS_VXWORKS))
  then bootm_find_images args else yield 0.

(** ** Loading *)

Definition handle_decomp_error : Z := BOOTM_ERR_RESET.

(** The decompressor for a kind of compression. *)
Definition decompressor_for (comp : Z) : option decompressor :=
  if comp =? IH_COMP_GZIP then gunzip
  else if comp =? IH_COMP_BZIP2 then BZ2_bzBuffToBuffDecompress
  else if comp =? IH_COMP_LZMA then lzmaBuffToBuffDecompress
  else if comp =? IH_COMP_LZO then lzop_decompress
  else if comp =? IH_COMP_LZ4 then ulz4fn
  else None.

(** The return value, [*load_end] and the memory. *)
Definition bootm_decomp_image (mem : list Z) (comp load image_start image_len unc_len : Z) : option (Z * Z * list Z) :=
  if comp =? IH_COMP_NONE then
    if load =? image_start then Some (0, u64 (load + image_len), mem)
    else if image_len <=? unc_len then mem ← memmove_wd mem load image_start image_len CHUNKSZ; Some (0, u64 (load + image_len), mem)
    else Some (handle_decomp_error, load, mem)
  else
    match decompressor_for comp with
    | None => Some (BOOTM_ERR_UNIMPLEMENTED, load, mem)
    | Some f =>
        '(ret, len, mem) ← f mem load unc_len image_start image_len;
        Some (if negb (ret =? 0) then (handle_decomp_error, load, mem) else (0, u64 (load + len), mem))
    end.

Definition bootm_load_os : boot C F Z :=
  let* i := reads images in
  let o := os i in
  let load := i_load o in
  let* '(err, load_end, m) := on_mem (fun m => bootm_decomp_image m (i_comp o) load (image_start o) (image_len o) (u32 CONFIG_SYS_BOOTM_LEN)) in
  let* _ := set_mem (fun _ => Some m) in
  if negb (err =? 0) then yield err
  else
    let no_overlap := (i_comp o =? IH_COMP_NONE) && (load =? image_start o) in
    if negb no_overlap && (load <? i_end o) && (i_start o <? load_end) then
      yield (if negb (legacy_hdr_valid i =? 0) then BOOTM_ERR_OVERLAP else BOOTM_ERR_RESET)
    else
      let* l := on_mem (fun _ => '(_, l) ← lmb_reserve (images_lmb i) load (u64 (load_end - load)); Some l) in
      let* _ := update (fun i => set_lmb i l) in
      yield 0.

(** ** Starting the system *)

(** Code that is not modelled: it may not return. *)
Definition foreign (f : @env_world C F -> option (option Z * @env_world C F)) : boot C F Z :=
  fun w => '(r, e) ← f (w_env w); Some (match r with Some ret => inr ret | None => inl OtherStarted end, with_env w e).

Definition boot_os_fn : Type := Z -> list (list Z) -> boot C F Z.

Definition do_bootm_standalone : boot_os_fn := fun _ args =>
  let* s := on_env (fun e => env_get e (str "autostart")) in
  let* i := reads images in
  if match s with Some s => strcmp s (str "no") =? 0 | None => false end
  then let* _ := set_env (env_set_hex (str "filesize") (image_len (os i))) in yield 0
  else let* _ := foreign (run_appl (ep i) args) in yield 0.

(** [IMAGE_BOOT_GET_CMDLINE] is 0. *)
Definition image_setup_linux : boot C F Z :=
  let* i := reads images in
  let* _ := boot_fdt_add_mem_rsv_regions (ft_addr i) in
  let* '(ret, addr, of_size) := boot_relocate_fdt (ft_addr i) (ft_len i) in
  let* _ := update (fun i => set_ft i addr (ft_len i)) in
  if negb (ret =? 0) then yield ret
  else if negb (of_size =? 0) then
    let* i := reads images in
    let* '(ret, l, m) := on_mem (fun m => image_setup_libfdt i m addr of_size) in
    let* _ := set_mem (fun _ => Some m) in
    let* _ := update (fun i => set_lmb i l) in
    yield ret
  else yield 0.

(** [BOOTM_ENABLE_TAGS] is 0. *)
Definition boot_prep_linux : boot C F unit :=
  let* i := reads images in
  if negb (ft_len i =? 0) then
    let* ret := image_setup_linux in if negb (ret =? 0) then halt Hung else yield tt
  else halt Hung.

Definition boot_jump_linux (flag : Z) : boot C F unit :=
  let* i := reads images in
  if has flag BOOTM_STATE_OS_FAKE_GO then yield tt
  else if i_arch (os i) =? IH_ARCH_ARM then halt (EnteredLinux [0; bi_arch_number; ft_addr i; 0] (ep i) false)
  else halt (EnteredLinux [ft_addr i; 0; 0; 0] (ep i) true).

Definition do_bootm_linux : boot_os_fn := fun flag _ =>
  if has flag BOOTM_STATE_OS_BD_T || has flag BOOTM_STATE_OS_CMDLINE then yield (-1)
  else if has flag BOOTM_STATE_OS_PREP then let* _ := boot_prep_linux in yield 0
  else if has flag (Z.lor BOOTM_STATE_OS_GO BOOTM_STATE_OS_FAKE_GO) then let* _ := boot_jump_linux flag in yield 0
  else let* _ := boot_prep_linux in let* _ := boot_jump_linux flag in yield 0.

(** The designated initialisers of the array [boot_os]. *)
Definition boot_os : list (Z * boot_os_fn) :=
  [(IH_OS_U_BOOT, do_bootm_standalone); (IH_OS_LINUX, do_bootm_linux)] ++
  ((fun '(n, f) => (n, fun flag args w => foreign (f flag args (images w)) w)) <$> other_os).

Definition boot_os_size : Z := 1 + foldr Z.max 0 (fst <$> boot_os).

Definition find_boot_fn (n : Z) (l : list (Z * boot_os_fn)) : option boot_os_fn := (fun p => p.2.2) <$> list_find (fun p => p.1 = n) l.

(** [boot_os[os]]: [None] behind the end of the array, else the function or
    [NULL]. *)
Definition bootm_os_get_boot_func (n : Z) : option (option boot_os_fn) :=
  if (0 <=? n) && (n <? boot_os_size) then Some (find_boot_fn n boot_os) else None.

Definition boot_selected_os (args : list (list Z)) (state : Z) (boot_fn : boot_os_fn) : boot C F Z :=
  let* _ := boot_fn state args in
  let* i := reads images in
  yield (if (i_type (os i) =? IH_TYPE_STANDALONE) || (state =? BOOTM_STATE_OS_FAKE_GO) then 0 else BOOTM_ERR_RESET).

(** ** The states *)

(** [if (!ret && (states & bit)) ret = m] *)
Definition run_state (states bit ret : Z) (m : boot C F Z) : boot C F Z :=
  if (ret =? 0) && has states bit then m else yield ret.

(** The label [err]. *)
Definition bootm_finish (ret : Z) : boot C F Z := if ret =? BOOTM_ERR_RESET then halt ResetBoard else yield ret.

Definition state_ramdisk : boot C F Z :=
  let* i := reads images in
  let* e := reads w_env in
  let* '(ret, s, end_, l, m) := on_mem (fun m =>
    boot_ramdisk_high (env_get e) (images_lmb i) m (rd_start i) (u64 (rd_end i - rd_start i)) (initrd_end i)) in
  let* _ := set_mem (fun _ => Some m) in
  let* _ := update (fun i => set_initrd (set_lmb i l) s end_) in
  if ret =? 0 then
    let* _ := set_env (env_set_hex (str "initrd_start") s) in
    let* _ := set_env (env_set_hex (str "initrd_end") end_) in
    yield 0
  else yield ret.

Definition state_fdt : boot C F Z :=
  let* i := reads images in
  let* _ := boot_fdt_add_mem_rsv_regions (ft_addr i) in
  let* '(ret, addr, len) := boot_relocate_fdt (ft_addr i) (ft_len i) in
  let* _ := update (fun i => set_ft i addr len) in
  yield ret.

(** From [boot_fn = bootm_os_get_boot_func(images->os.os)] on. *)
Definition os_states (args : list (list Z)) (states : Z) : boot C F Z :=
  let* i := reads images in
  let* boot_fn := on_mem (fun _ => bootm_os_get_boot_func (i_os (os i))) in
  let need_boot_fn := has states (Z.lor (Z.lor (Z.lor (Z.lor BOOTM_STATE_OS_CMDLINE BOOTM_STATE_OS_BD_T) BOOTM_STATE_OS_PREP)
    BOOTM_STATE_OS_FAKE_GO) BOOTM_STATE_OS_GO) in
  match boot_fn with
  | None => if need_boot_fn then yield 1 else bootm_finish 0
  | Some boot_fn =>
      let* ret := run_state states BOOTM_STATE_OS_CMDLINE 0 (boot_fn BOOTM_STATE_OS_CMDLINE args) in
      let* ret := run_state states BOOTM_STATE_OS_BD_T ret (boot_fn BOOTM_STATE_OS_BD_T args) in
      let* ret := run_state states BOOTM_STATE_OS_PREP ret (boot_fn BOOTM_STATE_OS_PREP args) in
      if negb (ret =? 0) then yield ret
      else
        let* ret := run_state states BOOTM_STATE_OS_GO 0 (boot_selected_os args BOOTM_STATE_OS_GO boot_fn) in
        bootm_finish ret
  end.

(** Behind [bootm_load_os]. *)
Definition loaded_states (args : list (list Z)) (states ret : Z) : boot C F Z :=
  let* ret := run_state states BOOTM_STATE_RAMDISK ret state_ramdisk in
  let* ret := run_state states BOOTM_STATE_FDT ret state_fdt in
  if negb (ret =? 0) then yield ret else os_states args states.

Definition do_bootm_states (args : list (list Z)) (states : Z) : boot C F Z :=
  let* _ := update (fun i => set_state i (Z.lor (images_state i) states)) in
  let* ret := if has states BOOTM_STATE_START then bootm_start else yield 0 in
  let* ret := run_state states BOOTM_STATE_FINDOS ret (bootm_find_os args) in
  let* ret := run_state states BOOTM_STATE_FINDOTHER ret (bootm_find_other args) in
  if (ret =? 0) && has states BOOTM_STATE_LOADOS then
    let* ret := bootm_load_os in
    if negb (ret =? 0) && negb (ret =? BOOTM_ERR_OVERLAP) then bootm_finish ret else loaded_states args states 0
  else loaded_states args states ret.

(** ** The commands *)

(** The field [cmd] of the table holds the state. *)
Definition sub_entry (n : string) (state : Z) : cmd_tbl_t unit := mk_cmd (str n) 0 1 (fun _ _ s => (state, s)) false None None.
Definition cmd_bootm_sub : list (cmd_tbl_t unit) :=
  [sub_entry "start" BOOTM_STATE_START; sub_entry "loados" BOOTM_STATE_LOADOS; sub_entry "ramdisk" BOOTM_STATE_RAMDISK;
   sub_entry "fdt" BOOTM_STATE_FDT; sub_entry "cmdline" BOOTM_STATE_OS_CMDLINE; sub_entry "bdt" BOOTM_STATE_OS_BD_T;
   sub_entry "prep" BOOTM_STATE_OS_PREP; sub_entry "fake" BOOTM_STATE_OS_FAKE_GO; sub_entry "go" BOOTM_STATE_OS_GO].

(** The states that a subcommand runs. *)
Definition sub_states (arg : list Z) : option Z :=
  c ← find_cmd_tbl (Some arg) cmd_bootm_sub;
  let state := (cmd c 0 [] tt).1 in
  Some (if state =? BOOTM_STATE_START then Z.lor (Z.lor state BOOTM_STATE_FINDOS) BOOTM_STATE_FINDOTHER else state).

Definition do_bootm_subcommand (args : list (list Z)) : boot C F Z :=
  match args with
  | [] => fun _ => None
  | arg :: args =>
      match sub_states arg with
      | None => yield CMD_RET_USAGE
      | Some state =>
          let* i := reads images in
          if negb (Z.land state BOOTM_STATE_START =? BOOTM_STATE_START) && (state <=? images_state i) then yield CMD_RET_USAGE
          else do_bootm_states args state
      end
  end.

Definition BOOTM_STATES_ALL : Z :=
  Z.lor (Z.lor (Z.lor (Z.lor (Z.lor (Z.lor (Z.lor BOOTM_STATE_START BOOTM_STATE_FINDOS) BOOTM_STATE_FINDOTHER) BOOTM_STATE_LOADOS)
    BOOTM_STATE_RAMDISK) BOOTM_STATE_OS_PREP) BOOTM_STATE_OS_FAKE_GO) BOOTM_STATE_OS_GO.

(** Whether the first argument is no number, nor the specification of a part of a
    FIT image. *)
Definition names_subcommand (args : list (list Z)) : bool :=
  match args with
  | arg :: _ => let endp := ch (snd (simple_strtoul arg 16)) in negb (endp =? 0) && negb (endp =? 58) && negb (endp =? 35)
  | [] => false
  end.

(** [args] are the arguments behind the name of the command. *)
Definition do_bootm (args : list (list Z)) : boot C F Z :=
  if names_subcommand args then do_bootm_subcommand args else do_bootm_states args BOOTM_STATES_ALL.

Definition bootm_maybe_autostart : boot C F Z :=
  let* s := on_env (fun e => env_get e (str "autostart")) in
  if match s with Some s => strcmp s (str "yes") =? 0 | None => false end then do_bootm [] else yield 0.

(** [fit_print_contents] only prints. *)
Definition image_info (mem : list Z) (addr : Z) : option Z :=
  fmt ← genimg_get_format mem addr;
  if fmt =? IMAGE_FORMAT_LEGACY then
    magic ← image_check_magic mem addr;
    if negb magic then Some 1
    else
      hcrc ← image_check_hcrc mem addr;
      if negb hcrc then Some 1
      else _ ← image_print_contents mem addr; dcrc ← image_check_dcrc mem addr; Some (if negb dcrc then 1 else 0)
  else if fmt =? IMAGE_FORMAT_FIT then
    let fit := fdt_at mem addr in
    if negb (fit_check_format fit) then Some 1 else v ← fit_all_image_verify fit mem; Some (if v =? 0 then 1 else 0)
  else Some 1.

Fixpoint iminfo_loop (mem : list Z) (args : list (list Z)) (rcode : Z) : option Z :=
  match args with
  | [] => Some rcode
  | arg :: args => r ← image_info mem (fst (simple_strtoul arg 16)); iminfo_loop mem args (if r =? 0 then rcode else 1)
  end.

Definition do_iminfo (args : list (list Z)) : boot C F Z :=
  let* la := reads load_addr in
  on_mem (fun m => match args with [] => image_info m la | _ => iminfo_loop m args 0 end).
End Bootm.

(** ** What the states keep *)

Section Frames.
Context {C F : Type} {hooks : EnvHooks C} {config : EnvConfig}.
Context {IC : ImageConfig} {FC : FitConfig} {LF : Libfdt} {BC : BootConfig} {BF : BootFdt} {BM : BootmConfig C F}.
Context {B : Type} (P : bootm_headers_t -> B) (Hfr : frame P).

#[local] Abbreviation PW := (fun w : boot_world C F => P (images w)).
Ltac frame_update :=
  apply keeps_update; intros; cbn [with_images images]; rewrite ?(fr_ft _ Hfr), ?(fr_initrd _ Hfr), ?(fr_lmb _ Hfr); reflexivity.
#[local] Hint Extern 1 (keeps _ (update _)) => frame_update : boot.
#[local] Hint Resolve keeps_ramdisk keeps_get_fdt keeps_get_loadable keeps_set_working_fdt keeps_mem_rsv keeps_relocate_fdt : boot.

Lemma keeps_find_other args : keeps PW (bootm_find_other args).
Proof. unfold bootm_find_other, bootm_find_images. boot_walk. Qed.

Lemma keeps_load_os : keeps PW bootm_load_os.
Proof. unfold bootm_load_os. boot_walk. Qed.

Lemma keeps_state_ramdisk : keeps PW state_ramdisk.
Proof. unfold state_ramdisk. boot_walk. Qed.

Lemma keeps_state_fdt : keeps PW state_fdt.
Proof. unfold state_fdt. boot_walk. Qed.

Lemma keeps_prep_linux : keeps PW boot_prep_linux.
Proof. unfold boot_prep_linux, image_setup_linux. boot_walk. Qed.

Lemma keeps_jump_linux flag : keeps PW (boot_jump_linux flag).
Proof. unfold boot_jump_linux. boot_walk. Qed.

Lemma keeps_foreign f : keeps PW (foreign f).
Proof. intros w r w' E. unfold foreign in E. destruct (f (w_env w)) as [[r0 e]|]; [|done]. by injection E as _ <-. Qed.
#[local] Hint Resolve keeps_prep_linux keeps_jump_linux keeps_foreign : boot.

Lemma keeps_boot_fn n fn flag args : (n, fn) ∈ boot_os -> keeps PW (fn flag args).
Proof.
  unfold boot_os. rewrite elem_of_app. intros [Hin|Hin].
  - apply elem_of_cons in Hin as [[= -> ->]|Hin]; [unfold do_bootm_standalone; boot_walk|].
    apply list_elem_of_singleton in Hin as [= -> ->]. unfold do_bootm_linux. boot_walk.
  - apply list_elem_of_fmap in Hin as ([n' f] & [= -> ->] & _). intros w r w' E. by apply keeps_foreign in E.
Qed.

Lemma get_boot_func_in n fn : bootm_os_get_boot_func n = Some (Some fn) -> (n, fn) ∈ boot_os.
Proof.
  unfold bootm_os_get_boot_func, find_boot_fn. case_if; [|done]. intros E. apply (inj Some) in E.
  destruct (list_find (fun p => p.1 = n) boot_os) as [[k [n' f]]|] eqn:El; [|done]. apply (inj Some) in E. cbn in E. subst f.
  apply list_find_Some in El as (Hk & Hn & _). cbn in Hn. subst n'. by eapply list_elem_of_lookup_2.
Qed.

Lemma keeps_run_state states bit ret m : keeps PW m -> keeps PW (run_state states bit ret m).
Proof. intros Hm. unfold run_state. case_if; [done|apply keeps_yield]. Qed.

Lemma keeps_finish ret : keeps PW (bootm_finish ret).
Proof. unfold bootm_finish. boot_walk. Qed.

Lemma keeps_os_states args states : keeps PW (os_states args states).
Proof.
  unfold os_states. apply keeps_bind; [apply keeps_reads|]. intros i w r w' E.
  apply bind_inv in E as [(fn & w1 & E1 & E)|(x & -> & E1)]; [|by apply keeps_on_mem with (P := PW) in E1].
  unfold on_mem in E1. destruct (bootm_os_get_boot_func (i_os (os i))) as [[f|]|] eqn:Ef; [| |done]; injection E1 as <- <-.
  2: { destruct (has _ _); [by injection E as _ <-|by apply keeps_finish in E]. }
  apply get_boot_func_in in Ef. assert (forall st, keeps PW (f st args)) as Hf by (intros st; by apply (keeps_boot_fn (i_os (os i)))).
  refine (_ w r w' E). clear E. repeat (apply keeps_bind; [by apply keeps_run_state|intros ?]). case_if; [apply keeps_yield|].
  apply keeps_bind; [|intros ?; apply keeps_finish]. apply keeps_run_state. unfold boot_selected_os. apply keeps_bind; [apply Hf|]. boot_walk.
Qed.

Lemma keeps_loaded args states ret : keeps PW (loaded_states args states ret).
Proof.
  unfold loaded_states. apply keeps_bind; [apply keeps_run_state, keeps_state_ramdisk|]. intros r.
  apply keeps_bind; [apply keeps_run_state, keeps_state_fdt|]. intros r'. case_if; [apply keeps_yield|apply keeps_os_states].
Qed.
End Frames.

(** ** Where Linux is entered *)

Section Entry.
Context {C F : Type} {hooks : EnvHooks C} {config : EnvConfig}.
Context {IC : ImageConfig} {FC : FitConfig} {LF : Libfdt} {BC : BootConfig} {BF : BootFdt} {BM : BootmConfig C F}.

(** If the computation ends in Linux, then at the entry point that [images] had. *)
Definition linux_entry {A} (m : boot C F A) : Prop := forall w la e b w', m w = Some (inl (EnteredLinux la e b), w') -> e = ep (images w).

Lemma ep_frame : frame ep.
Proof. by split. Qed.

Lemma linux_entry_returns {A} (m : boot C F A) : returns m -> linux_entry m.
Proof. intros Hr w la e b w' E. by apply Hr in E. Qed.

Lemma linux_entry_bind {A A'} (m : boot C F A) (f : A -> boot C F A') :
  linux_entry m -> keeps (fun w => ep (images w)) m -> (forall a, linux_entry (f a)) -> linux_entry (bind m f).
Proof.
  intros Hm Hk Hf w la e b w' E. apply bind_inv in E as [(a & w1 & E1 & E2)|(x & [= <-] & E1)]; [|by eapply Hm].
  apply Hf in E2. rewrite E2. by apply Hk in E1.
Qed.

Lemma linux_entry_yield {A} (a : A) : linux_entry (yield a).
Proof. apply linux_entry_returns, returns_yield. Qed.

Lemma linux_entry_foreign f : linux_entry (foreign f).
Proof. intros w la e b w' E. unfold foreign in E. destruct (f (w_env w)) as [[[r|] e']|]; done. Qed.

Lemma returns_load_fit addr uname cfg image_type op : returns (C := C) (F := F) (load_fit addr uname cfg image_type op).
Proof. intros w x w' E. unfold load_fit in E. by destruct (fit_image_load _ _ _ _ _ _ _ _) as [[[??]?]|]. Qed.
#[local] Hint Resolve returns_load_fit : boot.

Lemma returns_start : returns (C := C) (F := F) bootm_start.
Proof. unfold bootm_start. boot_walk. Qed.

Lemma returns_find_os args : returns (bootm_find_os args).
Proof.
  unfold bootm_find_os, boot_get_kernel, find_entry, place_noload. boot_walk.
  intros w x w' E. by destruct (boot_get_setup_fit _ _ _) as [[[??]?]|].
Qed.

Lemma returns_set_working_fdt addr : returns (C := C) (F := F) (set_working_fdt_addr addr).
Proof. unfold set_working_fdt_addr. boot_walk. by intros w x w'. Qed.
#[local] Hint Resolve returns_set_working_fdt : boot.

Lemma returns_loadable fuel : forall addr n index, returns (C := C) (F := F) (loadable_loop fuel addr n index).
Proof. induction fuel as [|fuel IH]; intros; cbn [loadable_loop]; [by intros w r w'|]. boot_walk. Qed.
#[local] Hint Resolve returns_loadable : boot.

Lemma returns_find_other args : returns (C := C) (F := F) (bootm_find_other args).
Proof.
  unfold bootm_find_other, bootm_find_images, boot_get_ramdisk, find_ramdisk, ramdisk_addr, ramdisk_at, boot_get_fdt, find_fdt, fdt_found_at,
    legacy_fdt_at, boot_get_fdt_fit, boot_get_loadable. boot_walk.
Qed.

Lemma returns_load_os : returns (C := C) (F := F) bootm_load_os.
Proof. unfold bootm_load_os. boot_walk. Qed.

Lemma returns_state_ramdisk : returns (C := C) (F := F) state_ramdisk.
Proof. unfold state_ramdisk. boot_walk. Qed.

Lemma returns_relocate_fdt blob size : returns (C := C) (F := F) (boot_relocate_fdt blob size).
Proof. unfold boot_relocate_fdt. boot_walk. Qed.

Lemma returns_state_fdt : returns (C := C) (F := F) state_fdt.
Proof. unfold state_fdt, boot_fdt_add_mem_rsv_regions. boot_walk. apply returns_relocate_fdt. Qed.

Lemma returns_setup_linux : returns (C := C) (F := F) image_setup_linux.
Proof. unfold image_setup_linux, boot_fdt_add_mem_rsv_regions. boot_walk. apply returns_relocate_fdt. Qed.

Lemma linux_entry_prep : linux_entry boot_prep_linux.
Proof.
  intros w la e b w' E. unfold boot_prep_linux, bind, reads in E. cbv beta iota in E. case_match eqn:Ef; [|done].
  destruct (image_setup_linux w) as [[[x|r] w1]|] eqn:Es; [by apply returns_setup_linux in Es| |done]. by destruct (negb (r =? 0)).
Qed.

Lemma linux_entry_jump flag : linux_entry (boot_jump_linux flag).
Proof.
  intros w la e b w' E. unfold boot_jump_linux, bind, reads in E. cbv beta iota in E.
  destruct (has _ _); [done|]. destruct (i_arch (os (images w)) =? IH_ARCH_ARM); by injection E.
Qed.

Lemma linux_entry_fn n fn flag args : (n, fn) ∈ boot_os -> linux_entry (fn flag args).
Proof.
  unfold boot_os. rewrite elem_of_app. intros [Hin|Hin].
  - apply elem_of_cons in Hin as [[= -> ->]|Hin].
    + unfold do_bootm_standalone. apply linux_entry_bind; [apply linux_entry_returns, returns_on_env|apply keeps_on_env|]. intros s.
      apply linux_entry_bind; [apply linux_entry_returns, returns_reads|apply keeps_reads|]. intros i.
      case_match; [apply linux_entry_returns; boot_walk|].
      apply linux_entry_bind; [apply linux_entry_foreign|apply (keeps_foreign ep)|]. intros. apply linux_entry_yield.
    + apply list_elem_of_singleton in Hin as [= -> ->]. unfold do_bootm_linux.
      assert (forall k : boot C F Z, linux_entry k -> linux_entry (bind boot_prep_linux (fun _ => k))) as Hprep.
      { intros k Hk. apply linux_entry_bind; [apply linux_entry_prep|apply (keeps_prep_linux ep ep_frame)|done]. }
      assert (linux_entry (bind (boot_jump_linux flag) (fun _ => yield 0))) as Hjump.
      { apply linux_entry_bind; [apply linux_entry_jump|apply (keeps_jump_linux ep)|]. intros _. apply linux_entry_yield. }
      repeat case_if; auto using linux_entry_yield.
  - apply list_elem_of_fmap in Hin as ([n' f] & [= -> ->] & _). intros w la e b w' E. by apply linux_entry_foreign in E.
Qed.

Lemma linux_entry_finish ret : linux_entry (bootm_finish ret).
Proof. unfold bootm_finish. case_if; [by intros w la e b w'|apply linux_entry_yield]. Qed.

Lemma linux_entry_os args states : linux_entry (os_states args states).
Proof.
  unfold os_states. apply linux_entry_bind; [apply linux_entry_returns, returns_reads|apply keeps_reads|]. intros i.
  assert (forall fn, Some fn = Some fn -> bootm_os_get_boot_func (i_os (os i)) = Some (Some fn) -> forall st r,
    linux_entry (run_state states st r (fn st args)) /\ keeps (fun w => ep (images w)) (run_state states st r (fn st args)) /\
    linux_entry (run_state states st r (boot_selected_os args st fn)) /\ keeps (fun w => ep (images w)) (run_state states st r (boot_selected_os args st fn))) as Hfn.
  { intros fn _ Hfn st r. apply get_boot_func_in in Hfn. pose proof (linux_entry_fn _ _ st args Hfn) as Hl.
    pose proof (keeps_boot_fn ep ep_frame _ _ st args Hfn) as Hk. unfold run_state, boot_selected_os.
    split_and!; (case_if; [|auto using linux_entry_yield with boot]); try done.
    - apply linux_entry_bind; [done..|]. intros _. apply linux_entry_returns. boot_walk.
    - apply keeps_bind; [done|]. boot_walk. }
  intros w la e b w' E. apply bind_inv in E as [(fn & w1 & E1 & E2)|(x & [= <-] & E1)]; [|by apply returns_on_mem in E1].
  unfold on_mem in E1. destruct (bootm_os_get_boot_func (i_os (os i))) as [fn'|] eqn:Ef; [|done]. injection E1 as <- <-.
  destruct fn' as [fn|]; [|destruct (has _ _); [done|by apply linux_entry_finish in E2]]. specialize (Hfn fn eq_refl eq_refl).
  revert E2. apply linux_entry_bind; [apply Hfn..|]. intros r1. apply linux_entry_bind; [apply Hfn..|]. intros r2.
  apply linux_entry_bind; [apply Hfn..|]. intros r3. case_if; [apply linux_entry_yield|].
  apply linux_entry_bind; [apply Hfn..|]. intros r4. apply linux_entry_finish.
Qed.

Lemma linux_entry_loaded args states ret : linux_entry (loaded_states args states ret).
Proof.
  unfold loaded_states, run_state. apply linux_entry_bind.
  { case_if; [apply linux_entry_returns, returns_state_ramdisk|apply linux_entry_yield]. }
  { case_if; [apply (keeps_state_ramdisk ep ep_frame)|apply keeps_yield]. }
  intros r. apply linux_entry_bind.
  { case_if; [apply linux_entry_returns, returns_state_fdt|apply linux_entry_yield]. }
  { case_if; [apply (keeps_state_fdt ep ep_frame)|apply keeps_yield]. }
  intros r'. case_if; [apply linux_entry_yield|apply linux_entry_os].
Qed.
End Entry.

(** ** The kernel that is found *)

Section Found.
Context {C F : Type} {hooks : EnvHooks C} {config : EnvConfig}.
Context {IC : ImageConfig} {FC : FitConfig} {LF : Libfdt} {BC : BootConfig} {BF : BootFdt} {BM : BootmConfig C F}.

(** Steps of a computation that succeeds. *)
Lemma bind_ok {A A'} (m : boot C F A) (f : A -> boot C F A') w r w' :
  returns m -> bind m f w = Some (r, w') -> exists a w1, m w = Some (inr a, w1) /\ f a w1 = Some (r, w').
Proof. intros Hr E. apply bind_inv in E as [?|(x & _ & E)]; [done|by apply Hr in E]. Qed.

Lemma on_mem_ok {A} (f : list Z -> option A) (w w' : boot_world C F) a : on_mem f w = Some (inr a, w') -> w' = w /\ f (sysmem_of w) = Some a.
Proof. unfold on_mem. destruct (f (sysmem_of w)) as [x|]; [|done]. by intros [= <- <-]. Qed.

(** The entry point of an image that is not moved to the place of its header. *)
Lemma place_noload_ep w w' : place_noload w = Some (inr true, w') -> i_type (os (images w)) <> IH_TYPE_KERNEL_NOLOAD -> w' = w.
Proof. intros E Ht. unfold place_noload, bind, reads in E. cbv beta iota in E. rewrite (proj2 (Z.eqb_neq _ _) Ht) in E. by injection E. Qed.

(** Behind the kernel image. *)
Lemma find_os_rest args w w' :
  bootm_find_os args w = Some (inr 0, w') ->
  exists hdr w1 o w2, boot_get_kernel args w = Some (inr hdr, w1) /\ image_len (os (images w1)) <> 0 /\
    os_parameters (sysmem_of w1) (default 0 hdr) (images w1) = Some (true, o) /\
    find_entry (with_images w1 (set_os (images w1) o)) = Some (inr true, w2) /\
    exists w3, place_noload w2 = Some (inr true, w3) /\ w' = with_images w3 (set_os_start (images w3) (default 0 hdr)).
Proof.
  unfold bootm_find_os. intros E. apply bind_inv in E as [(hdr & w1 & E1 & E)|(x & ? & _)]; [|done].
  unfold bind at 1, reads in E. cbv beta iota in E. destruct (Z.eqb_spec (image_len (os (images w1))) 0) as [|Hl]; [done|].
  apply bind_ok in E as ([ok o] & w2 & E2 & E); [|apply returns_on_mem]. apply on_mem_ok in E2 as [-> E2].
  unfold bind at 1, update in E. cbv beta iota in E. destruct ok; [|done]. cbn [negb] in E.
  apply bind_inv in E as [(ok & w3 & E3 & E)|(x & ? & _)]; [|done]. destruct ok; [|done]. cbn [negb] in E.
  apply bind_inv in E as [(ok & w4 & E4 & E)|(x & ? & _)]; [|done]. destruct ok; [|done]. cbn [negb] in E.
  unfold bind, update, yield in E. apply (inj Some) in E. injection E as <-. exists hdr, w1, o, w3. split_and!; try done. by exists w4.
Qed.

Context (args : list (list Z)) (w w' : boot_world C F) (addr : Z) (cfg uname : option (list Z)).
Hypothesis Haddr : genimg_get_kernel_addr_fit (load_addr w) (args !! 0%nat) = (addr, cfg, uname).
Hypothesis Hfind : bootm_find_os args w = Some (inr 0, w').

Lemma find_os_format : genimg_get_format (sysmem_of w) addr = Some IMAGE_FORMAT_LEGACY \/ genimg_get_format (sysmem_of w) addr = Some IMAGE_FORMAT_FIT.
Proof.
  destruct (find_os_rest _ _ _ Hfind) as (hdr & w1 & o & w2 & E1 & Hl & _). unfold boot_get_kernel in E1.
  unfold bind at 1, reads in E1. cbv beta iota in E1. rewrite Haddr in E1. unfold bind at 1, update in E1. cbv beta iota in E1.
  apply bind_ok in E1 as (fmt & w3 & E3 & E1); [|apply returns_on_mem]. apply on_mem_ok in E3 as [-> E3].
  change (sysmem_of (with_images w _)) with (sysmem_of w) in E3. rewrite E3.
  destruct (Z.eqb_spec fmt IMAGE_FORMAT_LEGACY) as [->|]; [by left|]. destruct (Z.eqb_spec fmt IMAGE_FORMAT_FIT) as [->|]; [by right|].
  injection E1 as <- <-. by cbn in Hl.
Qed.

Lemma sysmem_with_images (w0 : boot_world C F) i : sysmem_of (with_images w0 i) = sysmem_of w0.
Proof. done. Qed.

Section Legacy.
Context (h : image_header_t) (data : list Z).
Hypothesis Himg : image_at (sysmem_of w) addr h data.
Hypothesis Hmem : Forall byte_ok (sysmem_of w).
Hypothesis Hc : contents_ok (sysmem_of w) addr h.
Hypothesis Hmagic : ih_magic h = IH_MAGIC.

Lemma legacy_format : genimg_get_format (sysmem_of w) addr = Some IMAGE_FORMAT_LEGACY.
Proof.
  destruct (header_fields _ _ _ (image_header_at _ _ _ _ Himg) (ia_header _ _ _ _ Himg)) as (Fm & _).
  unfold genimg_get_format, image_check_magic. by rewrite Fm, !mbind_Some, Hmagic.
Qed.

(** A kernel that is found was accepted, and its header is copied. *)
Lemma get_kernel_legacy hdr w1 :
  boot_get_kernel args w = Some (inr hdr, w1) -> image_len (os (images w1)) <> 0 ->
  hcrc_ok h = true /\ (images_verify (images w) <> 0 -> dcrc_ok h data = true) /\ arch_ok h IH_ARCH_DEFAULT = true /\
  hdr = Some addr /\ exists d len, w1 = with_images w (set_legacy (set_os_image (images w) d len) addr (header_bytes h)).
Proof.
  intros E1 Hl. unfold boot_get_kernel in E1. unfold bind at 1, reads in E1. cbv beta iota in E1. rewrite Haddr in E1.
  unfold bind at 1, update in E1. cbv beta iota in E1. apply bind_ok in E1 as (fmt & w4 & E4 & E1); [|apply returns_on_mem].
  apply on_mem_ok in E4 as [-> E4]. rewrite sysmem_with_images, legacy_format in E4. apply (inj Some) in E4 as <-.
  rewrite Z.eqb_refl in E1. unfold bind at 1, reads in E1. cbv beta iota in E1. cbn [images with_images images_verify set_os_image set_os] in E1.
  apply bind_ok in E1 as (k & w4 & E4 & E1); [|apply returns_on_mem]. apply on_mem_ok in E4 as [-> E4].
  rewrite sysmem_with_images, (image_get_kernel_spec _ _ _ _ Himg Hmem _ Hc) in E4. apply (inj Some) in E4.
  destruct (_ && arch_ok h IH_ARCH_DEFAULT) eqn:Eacc in E4; subst k; [|injection E1 as <- <-; by cbn in Hl].
  apply andb_true_iff in Eacc as [Eacc Earch]. apply andb_true_iff in Eacc as [Eacc Ed]. apply andb_true_iff in Eacc as [_ Eh].
  split; [done|]. split; [intros Hv; by rewrite (proj2 (Z.eqb_neq _ _) Hv) in Ed|]. split; [done|].
  apply bind_ok in E1 as (d & w4 & E4 & E1); [|apply returns_on_mem]. apply on_mem_ok in E4 as [-> _].
  destruct d as [[d len]|]; [|injection E1 as <- <-; by cbn in Hl].
  apply bind_ok in E1 as (copy & w4 & E4 & E1); [|apply returns_on_mem]. apply on_mem_ok in E4 as [-> E4].
  rewrite sysmem_with_images in E4. unfold image_get_header_size in E4.
  rewrite (header_peek _ _ _ (image_header_at _ _ _ _ Himg) (ia_header _ _ _ _ Himg)) in E4. apply (inj Some) in E4 as <-.
  unfold bind, update, yield in E1. cbv beta iota in E1. apply (inj Some) in E1. injection E1 as <- <-. split; [done|]. by exists d, len.
Qed.

Lemma find_os_legacy :
  hcrc_ok h = true /\ (images_verify (images w) <> 0 -> dcrc_ok h data = true) /\ arch_ok h IH_ARCH_DEFAULT = true /\
  (ih_type h <> IH_TYPE_KERNEL_NOLOAD -> ep (images w') = ih_ep h).
Proof.
  destruct (find_os_rest _ _ _ Hfind) as (hdr & w1 & o & w2 & E1 & Hl & Eo & Ee & w3 & Ep & Hw').
  destruct (get_kernel_legacy hdr w1 E1 Hl) as (Hh & Hd & Ha & -> & d & len & ->). split_and!; [done..|]. intros Ht.
  pose proof (ia_header _ _ _ _ Himg) as Hok. destruct (header_fields _ _ _ (image_header_at _ _ _ _ Himg) Hok) as (_ & _ & _ & _ & Fl & _ & _ & Fo & Fa & Ft & Fc & _).
  change (default 0 (Some addr)) with addr in Eo. unfold os_parameters in Eo. rewrite sysmem_with_images, legacy_format, mbind_Some, Z.eqb_refl in Eo.
  rewrite Ft, Fc, Fo, !mbind_Some in Eo. destruct (image_get_image_end (sysmem_of w) addr) as [end_|]; [|done]. rewrite mbind_Some, Fl, Fa, !mbind_Some in Eo.
  apply (inj Some) in Eo. injection Eo as <-.
  unfold find_entry in Ee. unfold bind at 1, reads in Ee. cbv beta iota in Ee. cbn [images with_images os set_os set_info i_arch] in Ee.
  assert ((ih_arch h =? IH_ARCH_I386) || (ih_arch h =? IH_ARCH_X86_64) = false) as Hx.
  { unfold arch_ok in Ha. unfold IH_ARCH_I386, IH_ARCH_X86_64, IH_ARCH_DEFAULT, IH_ARCH_ARM64, IH_ARCH_ARM in *. lia. }
  rewrite Hx in Ee. cbn [legacy_hdr_valid set_os set_legacy negb Z.eqb legacy_hdr_os_copy] in Ee.
  apply bind_ok in Ee as (e & w4 & E4 & Ee); [|apply returns_on_mem]. apply on_mem_ok in E4 as [-> E4].
  assert (at_addr (header_bytes h) 0 (header_bytes h)) as Hself by (split; [done|]; unfold slice; by rewrite drop_0, firstn_all).
  destruct (header_fields _ _ _ Hself Hok) as (_ & _ & _ & _ & _ & Fe & _). rewrite Fe in E4. apply (inj Some) in E4 as <-.
  unfold bind, update, yield in Ee. apply (inj Some) in Ee. injection Ee as <-.
  apply place_noload_ep in Ep; [by subst w3 w'|done].
Qed.
End Legacy.

(** A FIT image whose data is not moved. *)
Lemma fit_load_ignored i mem i' mem' r :
  fit_image_load boot_alloc i mem addr uname cfg IH_TYPE_KERNEL FIT_LOAD_IGNORED = Some (i', mem', inr r) ->
  mem' = mem /\ fit_image_check_target_arch (fdt_at mem addr) (l_noffset r) = Some true.
Proof.
  unfold fit_image_load. destruct (negb _); [done|]. destruct (find_node _ _ _ _ _ _ _) as [[i1 node]|]; [|done]. rewrite mbind_Some.
  destruct node as [e|[[n u] b]]; [done|]. destruct (fit_image_select _ _ _ _) as [v|]; [|done]. rewrite mbind_Some. destruct (negb (v =? 0)); [done|].
  destruct (fit_image_check_target_arch _ n) as [t|] eqn:Et; [|done]. rewrite mbind_Some. destruct t; [|done]. cbn [negb].
  destruct (fit_image_get_arch _ n) as [[ra oa]|]; [|done]. rewrite mbind_Some.
  destruct (load_checks _ _ _ _) as [lc|]; [|done]. rewrite mbind_Some. destruct (negb (lc =? 0)); [done|].
  destruct (fit_image_get_data_and_size _ _) as [[e|[buf size]]|]; [done| |done]. rewrite mbind_Some.
  change (IH_TYPE_KERNEL =? IH_TYPE_FLATDT) with false. cbv iota. rewrite mbind_Some. cbn [move_to_load]. rewrite mbind_Some.
  intros [= _ <- <-]. by split.
Qed.

Lemma get_kernel_fit hdr w1 :
  genimg_get_format (sysmem_of w) addr = Some IMAGE_FORMAT_FIT ->
  boot_get_kernel args w = Some (inr hdr, w1) -> image_len (os (images w1)) <> 0 ->
  exists i r, fit_image_load boot_alloc (set_os_image (images w) 0 0) (sysmem_of w) addr uname cfg IH_TYPE_KERNEL FIT_LOAD_IGNORED =
      Some (i, sysmem_of w, inr r) /\
    hdr = Some addr /\ sysmem_of w1 = sysmem_of w /\
    images w1 = set_fit_os (set_os_image i (l_data r) (l_len r)) addr (l_uname r) (l_config r) (l_noffset r).
Proof.
  intros Hfmt E1 Hl. unfold boot_get_kernel in E1. unfold bind at 1, reads in E1. cbv beta iota in E1. rewrite Haddr in E1.
  unfold bind at 1, update in E1. cbv beta iota in E1. apply bind_ok in E1 as (fmt & w4 & E4 & E1); [|apply returns_on_mem].
  apply on_mem_ok in E4 as [-> E4]. rewrite sysmem_with_images, Hfmt in E4. apply (inj Some) in E4 as <-.
  change (IMAGE_FORMAT_FIT =? IMAGE_FORMAT_LEGACY) with false in E1. rewrite Z.eqb_refl in E1. cbv iota in E1.
  apply bind_ok in E1 as (r & w4 & E4 & E1); [|apply returns_load_fit]. unfold load_fit in E4. cbn [images with_images] in E4. rewrite sysmem_with_images in E4.
  destruct (fit_image_load _ _ _ _ _ _ _ _) as [[[i m] r0]|] eqn:El; [|done]. rewrite mbind_Some in E4. injection E4 as <- <-.
  pose proof (fit_image_load_frame (fun i => image_len (os i)) ltac:(by split) _ _ _ _ _ _ _ _ _ _ El) as Hlen.
  destruct r0 as [e|r0]; [injection E1 as <- <-; cbn in Hl, Hlen; congruence|].
  destruct (fit_load_ignored _ _ _ _ _ El) as [-> _].
  unfold bind, update, yield in E1. apply (inj Some) in E1. injection E1 as <- <-. exists i, r0. by split_and!.
Qed.

Lemma fit_parameters_ok fit n o o' :
  fit_parameters fit n o = Some (true, o') ->
  fit_image_get_type fit n = Some (0, i_type o') /\ fit_image_get_arch fit n = Some (0, i_arch o').
Proof.
  unfold fit_parameters. destruct (fit_image_get_type fit n) as [[r1 ty]|]; [|done]. rewrite mbind_Some. destruct (Z.eqb_spec r1 0) as [->|]; [|done].
  destruct (fit_image_get_comp fit n) as [[r2 co]|]; [|done]. cbn [negb]. rewrite mbind_Some. destruct (Z.eqb_spec r2 0) as [->|]; [|done].
  destruct (fit_image_get_os fit n) as [[r3 oo]|]; [|done]. cbn [negb]. rewrite mbind_Some. destruct (Z.eqb_spec r3 0) as [->|]; [|done].
  destruct (fit_image_get_arch fit n) as [[r4 ar]|]; [|done]. cbn [negb]. rewrite mbind_Some. destruct (Z.eqb_spec r4 0) as [->|]; [|done].
  cbn [negb]. destruct (fit_image_get_load fit n); [|done]. by intros [= <-].
Qed.

Lemma target_arch_not_x86 fit n r ar :
  fit_image_check_target_arch fit n = Some true -> fit_image_get_arch fit n = Some (r, ar) -> (ar =? IH_ARCH_I386) || (ar =? IH_ARCH_X86_64) = false.
Proof.
  unfold fit_image_check_target_arch, fit_image_check_arch. intros Ht Ha. rewrite Ha, mbind_Some in Ht. apply (inj Some) in Ht.
  unfold IH_ARCH_I386, IH_ARCH_X86_64, IH_ARCH_DEFAULT, IH_ARCH_ARM64, IH_ARCH_ARM in *. destruct CONFIG_ARM64_SUPPORT_AARCH32; lia.
Qed.

(** The node of a FIT kernel was selected and checked as [fit_image_load] does, and
    its property gives the entry point. *)
Definition fit_kernel_checked (mem : list Z) (a verify entry : Z) (c u : option (list Z)) : Prop :=
  let fit := fdt_at mem a in
  exists n,
    (verify <> 0 ->
       match u with
       | Some u => n = fit_image_get_node fit u
       | None => exists cfg, config_selected boot_alloc fit mem c IH_TYPE_KERNEL n cfg
       end /\ exists v, fit_image_verify fit n mem = Some v /\ v <> 0) /\
    fit_image_check_target_arch fit n = Some true /\
    (fit_image_get_type fit n <> Some (0, IH_TYPE_KERNEL_NOLOAD) -> fit_image_get_entry fit n = Some entry).

Lemma find_os_fit :
  legacy_hdr_valid (images w) = 0 -> genimg_get_format (sysmem_of w) addr = Some IMAGE_FORMAT_FIT ->
  fit_kernel_checked (sysmem_of w) addr (images_verify (images w)) (ep (images w')) cfg uname.
Proof.
  intros Hnl Hfmt. destruct (find_os_rest _ _ _ Hfind) as (hdr & w1 & o & w2 & E1 & Hl & Eo & Ee & w3 & Ep & Hw').
  destruct (get_kernel_fit hdr w1 Hfmt E1 Hl) as (i & r & El & -> & Hm & Hi).
  pose proof (fit_load_ignored _ _ _ _ _ El) as [_ Ht].
  pose proof (fit_image_load_frame legacy_hdr_valid ltac:(by split) _ _ _ _ _ _ _ _ _ _ El) as Hvalid. cbn [legacy_hdr_valid set_os_image set_os] in Hvalid.
  exists (l_noffset r). split_and!; [|done|].
  { intros Hv. destruct (fit_image_load_inv boot_alloc (set_os_image (images w) 0 0) _ _ _ _ _ _ _ _ _ Hv El) as (Hs & Hver & _). by split. }
  intros Hty. change (default 0 (Some addr)) with addr in Eo. unfold os_parameters in Eo. rewrite Hm, Hfmt, mbind_Some in Eo.
  change (IMAGE_FORMAT_FIT =? IMAGE_FORMAT_LEGACY) with false in Eo. rewrite Z.eqb_refl, Hi in Eo. cbv iota in Eo.
  cbn [fit_hdr_os fit_noffset_os set_fit_os] in Eo. apply fit_parameters_ok in Eo as [Ety Ear].
  unfold find_entry in Ee. unfold bind at 1, reads in Ee. cbv beta iota in Ee. cbn [images with_images os set_os] in Ee.
  rewrite (target_arch_not_x86 _ _ _ _ Ht Ear), Hi in Ee. cbn [legacy_hdr_valid set_os set_fit_os fit_uname_os fit_hdr_os fit_noffset_os set_os_image] in Ee.
  rewrite Hvalid, Hnl in Ee. cbn [negb Z.eqb] in Ee. case_bool_decide; [|done].
  unfold bind at 1 in Ee. cbv beta iota in Ee. rewrite sysmem_with_images, Hm in Ee.
  destruct (fit_image_get_entry _ _) as [e|]; [|done]. unfold bind, update, yield in Ee. apply (inj Some) in Ee. injection Ee as <-.
  apply place_noload_ep in Ep; [by subst w3 w'|]. cbn [images with_images os set_ep set_os]. congruence.
Qed.
End Found.

(** ** The order of the states *)

Section Order.
Context {C F : Type} {hooks : EnvHooks C} {config : EnvConfig}.
Context {IC : ImageConfig} {FC : FitConfig} {LF : Libfdt} {BC : BootConfig} {BF : BootFdt} {BM : BootmConfig C F}.

Lemma loaded_states_error args states ret w : ret <> 0 -> loaded_states args states ret w = Some (inr ret, w).
Proof.
  intros Hr. unfold loaded_states, run_state, bind, yield. do 3 (rewrite (proj2 (Z.eqb_neq _ _) Hr); cbn [andb negb]). done.
Qed.

(** A boot that ends in Linux has gone through the first states without error. *)
Lemma all_states_entered args w la e b w' :
  do_bootm_states args BOOTM_STATES_ALL w = Some (inl (EnteredLinux la e b), w') ->
  exists w0 w1 w2, sysmem_of w0 = sysmem_of w /\ w_env w0 = w_env w /\ load_addr w0 = load_addr w /\
    bootm_start w0 = Some (inr 0, w1) /\ bootm_find_os args w1 = Some (inr 0, w2) /\ e = ep (images w2).
Proof.
  unfold do_bootm_states, run_state. change (has BOOTM_STATES_ALL BOOTM_STATE_START) with true.
  change (has BOOTM_STATES_ALL BOOTM_STATE_FINDOS) with true. change (has BOOTM_STATES_ALL BOOTM_STATE_FINDOTHER) with true.
  change (has BOOTM_STATES_ALL BOOTM_STATE_LOADOS) with true. cbv iota. unfold bind at 1, update. cbv beta iota.
  set (w0 := with_images w _). intros E. apply bind_ok in E as (r1 & w1 & E1 & E); [|apply returns_start].
  assert (r1 = 0) as ->.
  { unfold bootm_start in E1. apply bind_ok in E1 as (v & x1 & _ & E1); [|apply returns_on_env].
    apply bind_ok in E1 as (l & x2 & _ & E1); [|apply returns_on_env]. unfold bind, update, yield in E1. apply (inj Some) in E1. by injection E1. }
  cbn [Z.eqb andb] in E. apply bind_ok in E as (r2 & w2 & E2 & E); [|apply returns_find_os]. rewrite andb_true_r in E.
  exists w0, w1, w2. split_and!; [done..| |].
  - destruct (Z.eqb_spec r2 0) as [->|Hr2]; [done|]. exfalso.
    apply bind_ok in E as (r3 & w3 & E3 & E); [|apply returns_yield]. injection E3 as <- <-. rewrite (proj2 (Z.eqb_neq _ _) Hr2) in E. cbn [andb] in E.
    by rewrite loaded_states_error in E.
  - destruct (Z.eqb_spec r2 0) as [->|Hr2].
    + apply bind_ok in E as (r3 & w3 & E3 & E); [|apply returns_find_other]. pose proof (keeps_find_other ep ep_frame _ _ _ _ E3) as <-.
      rewrite andb_true_r in E. destruct (r3 =? 0); [|by apply linux_entry_loaded in E].
      apply bind_ok in E as (r4 & w4 & E4 & E); [|apply returns_load_os]. pose proof (keeps_load_os ep ep_frame _ _ _ E4) as <-.
      destruct (negb (r4 =? 0) && _); [by apply linux_entry_finish in E|by apply linux_entry_loaded in E].
    + apply bind_ok in E as (r3 & w3 & E3 & E); [|apply returns_yield]. injection E3 as <- <-. rewrite (proj2 (Z.eqb_neq _ _) Hr2) in E. cbn [andb] in E.
      by apply linux_entry_loaded in E.
Qed.

Lemma start_state w w' r :
  bootm_start w = Some (r, w') -> sysmem_of w' = sysmem_of w /\ load_addr w' = load_addr w /\ legacy_hdr_valid (images w') = 0 /\
    env_get_yesno (w_env w) (str "verify") = Some (images_verify (images w')) /\ images_state (images w') = BOOTM_STATE_START.
Proof.
  unfold bootm_start. intros E. apply bind_ok in E as (v & w1 & E1 & E); [|apply returns_on_env].
  unfold on_env in E1. destruct (env_get_yesno _ _) as [v'|] eqn:Ev; [|done]. injection E1 as <- <-.
  apply bind_ok in E as (l & w2 & E2 & E); [|apply returns_on_env]. unfold on_env in E2. destruct (boot_start_lmb _ _); [|done]. injection E2 as _ <-.
  unfold bind, update, yield in E. apply (inj Some) in E. injection E as _ <-. by split_and!.
Qed.

(** A sequence of subcommands without [start], with other commands between them
    that leave [images] alone: the states of those that do something, where one that
    is answered with the usage and changes nothing does not. *)
Inductive sub_trace : boot_world C F -> list Z -> boot_world C F -> Prop :=
  | trace_end w : sub_trace w [] w
  | trace_other w w1 l w2 : images w1 = images w -> sub_trace w1 l w2 -> sub_trace w l w2
  | trace_idle arg args w l w2 :
      do_bootm_subcommand (arg :: args) w = Some (inr CMD_RET_USAGE, w) -> sub_trace w l w2 -> sub_trace w l w2
  | trace_sub arg args s w r w1 l w2 :
      sub_states arg = Some s -> Some s <> sub_states (str "start") ->
      do_bootm_subcommand (arg :: args) w = Some (inr r, w1) -> (r, w1) <> (CMD_RET_USAGE, w) ->
      sub_trace w1 l w2 -> sub_trace w (s :: l) w2.

(** The states of the other subcommands. *)
Lemma sub_states_bits arg state : sub_states arg = Some state -> Some state <> sub_states (str "start") ->
  0 < state /\ has state BOOTM_STATE_START = false /\ has state BOOTM_STATE_FINDOS = false /\ has state BOOTM_STATE_FINDOTHER = false.
Proof.
  unfold sub_states at 1. destruct (find_cmd_tbl (Some arg) cmd_bootm_sub) as [c|] eqn:Ec; [|done]. rewrite mbind_Some.
  assert (c ∈ cmd_bootm_sub) as Hc.
  { unfold find_cmd_tbl in Ec. rewrite mbind_Some in Ec. revert Ec. generalize (cmd_len arg). intros len.
    assert (forall t temp n, (forall x, temp = Some x -> x ∈ cmd_bootm_sub) -> t ⊆ cmd_bootm_sub -> forall x, find_loop arg len t temp n = Some x -> x ∈ cmd_bootm_sub) as Hl.
    { induction t as [|y t IH]; intros temp n Ht Hsub x; cbn [find_loop]; [case_if; [apply Ht|done]|].
      assert (y ∈ cmd_bootm_sub) by (apply Hsub; left). assert (t ⊆ cmd_bootm_sub) by (intros z Hz; apply Hsub; by right).
      case_if; [case_if; [by intros [= <-]|]|]; apply IH; try done. by intros z [= <-]. }
    apply Hl; [|done]. intros x [= <-]. left. }
  intros [= <-] Hne. unfold sub_states in Hne. change (find_cmd_tbl (Some (str "start")) cmd_bootm_sub) with (Some (sub_entry "start" BOOTM_STATE_START)) in Hne.
  unfold cmd_bootm_sub in Hc. rewrite !elem_of_cons in Hc. destruct Hc as [->|Hc]; [done|]. clear Hne Ec.
  repeat (destruct Hc as [->|Hc]; [vm_compute; done|]). by apply not_elem_of_nil in Hc.
Qed.

Lemma single_state args state w r w' :
  has state BOOTM_STATE_START = false -> has state BOOTM_STATE_FINDOS = false -> has state BOOTM_STATE_FINDOTHER = false ->
  do_bootm_states args state w = Some (r, w') -> images_state (images w') = Z.lor (images_state (images w)) state.
Proof.
  intros H1 H2 H3 E. assert (frame images_state) as Hfr by (by split). unfold do_bootm_states, run_state in E. rewrite H1, H2, H3 in E.
  unfold bind at 1, update in E. cbv beta iota in E. set (w0 := with_images w _) in E.
  change (Z.lor (images_state (images w)) state) with (images_state (images w0)).
  refine ((_ : keeps (fun w => images_state (images w)) _) w0 r w' E). clear E.
  apply keeps_bind; [apply keeps_yield|]. intros r1. rewrite andb_false_r. apply keeps_bind; [apply keeps_yield|]. intros r2.
  rewrite andb_false_r. apply keeps_bind; [apply keeps_yield|]. intros r3. case_if; [|by apply keeps_loaded].
  apply keeps_bind; [by apply keeps_load_os|]. intros r4. case_if; [apply (keeps_finish images_state)|by apply keeps_loaded].
Qed.

(** What a subcommand other than [start] does. *)
Lemma subcommand_runs arg args s w : sub_states arg = Some s -> Some s <> sub_states (str "start") ->
  do_bootm_subcommand (arg :: args) w =
    (if s <=? images_state (images w) then Some (inr CMD_RET_USAGE, w) else do_bootm_states args s w).
Proof.
  intros Es Hne. destruct (sub_states_bits arg s Es Hne) as (_ & Hb & _). unfold do_bootm_subcommand. rewrite Es. unfold bind, reads. cbv beta iota.
  unfold has in Hb. apply negb_false_iff, Z.eqb_eq in Hb. rewrite Hb. change (0 =? BOOTM_STATE_START) with false. cbn [negb andb].
  by destruct (s <=? images_state (images w)).
Qed.

Lemma lor_ge a b : 0 <= a -> 0 <= b -> b <= Z.lor a b.
Proof.
  intros Ha Hb. assert (Z.ldiff b (Z.lor a b) = 0) as Hd by (apply Z.bits_inj'; intros n _; rewrite Z.ldiff_spec, Z.lor_spec, Z.bits_0; by destruct (Z.testbit a n), (Z.testbit b n)).
  pose proof (Z.sub_nocarry_ldiff (Z.lor a b) b Hd) as Hs. enough (0 <= Z.ldiff (Z.lor a b) b) by lia. apply Z.ldiff_nonneg. left. apply Z.lor_nonneg. lia.
Qed.

Lemma sub_trace_sorted w l w' : sub_trace w l w' -> 0 <= images_state (images w) -> StronglySorted Z.lt (images_state (images w) :: l).
Proof.
  induction 1 as [w|w w1 l w2 Hi _ IH|arg args w l w2 _ _ IH|arg args s w r w1 l w2 Es Hne E Hact _ IH]; intros H0.
  - repeat constructor.
  - rewrite <- Hi. apply IH. by rewrite Hi.
  - by apply IH.
  - rewrite (subcommand_runs arg args s w Es Hne) in E. destruct (Z.leb_spec s (images_state (images w))) as [|Hlt]; [by injection E as <- <-|].
    destruct (sub_states_bits arg s Es Hne) as (Hs0 & H1 & H2 & H3). rewrite (single_state args s w _ _ H1 H2 H3 E) in IH.
    specialize (IH ltac:(apply Z.lor_nonneg; lia)). pose proof (lor_ge (images_state (images w)) s H0 ltac:(lia)) as Hle.
    inversion_clear IH as [|x k Hsort Hall]. assert (Forall (Z.lt s) l) as Hl by (eapply Forall_impl; [exact Hall|]; simpl; lia).
    constructor; [by constructor|]. constructor; [done|]. eapply Forall_impl; [exact Hl|]. simpl. lia.
Qed.
End Order.

(** ** The kernel and the ramdisk in the memory *)

Lemma blit_at mem (d : Z) b : 0 <= d -> d + Z.of_nat (length b) <= Z.of_nat (length mem) -> at_addr (blit mem (Z.to_nat d) b) d b.
Proof.
  intros Hd Hl. split; [done|]. apply list_eq. intros i. rewrite lookup_slice, lookup_blit by lia. repeat case_decide; try lia.
  - f_equal. lia.
  - symmetry. apply lookup_ge_None. lia.
Qed.

Lemma at_addr_blit mem a b d c :
  at_addr mem a b -> 0 <= d -> d + Z.of_nat (length c) <= Z.of_nat (length mem) ->
  a + Z.of_nat (length b) <= d \/ d + Z.of_nat (length c) <= a -> at_addr (blit mem (Z.to_nat d) c) a b.
Proof.
  intros [Ha Hs] Hd Hl Hdis. split; [done|]. rewrite <- Hs at 2. apply list_eq. intros i. rewrite !lookup_slice. case_decide; [|done].
  rewrite lookup_blit by lia. case_decide; [lia|done].
Qed.

Lemma slice_at mem s n : 0 <= s -> 0 <= n -> s + n <= Z.of_nat (length mem) -> at_addr mem s (slice mem (Z.to_nat s) (Z.to_nat n)).
Proof. intros. split; [done|]. by rewrite length_slice by lia. Qed.

(** The allocation keeps away from a range that is covered. *)
Lemma free_covered lr size b base len :
  free_at lr size b -> (forall a, base <= a < base + len -> covered lr a) -> 0 < len -> 0 < size -> b + size <= base \/ base + len <= b.
Proof.
  intros Hf Hc Hl Hs. destruct (Z.le_gt_cases (b + size) base); [by left|]. destruct (Z.le_gt_cases (base + len) b); [by right|]. exfalso.
  assert (covered lr (Z.max b base)) as Hcov by (apply Hc; lia). apply Exists_exists in Hcov as (p & Hin & Hp).
  unfold free_at in Hf. rewrite Forall_forall in Hf. specialize (Hf p Hin). unfold disjoint_blocks, in_block, lp_end in *. cbn [lp_base lp_size] in *. lia.
Qed.

Lemma digits_not_nil base fuel n : digits (S fuel) base n <> [].
Proof. cbn [digits]. destruct (n <? base); [done|]. intros E. by apply app_nil in E as [_ ?]. Qed.

Section Env.
Context {C F : Type} {hooks : EnvHooks C} {hooks_ok : EnvHooksOk C} {config : EnvConfig}.

(** The table is imported and has room for [n] more variables. *)
Definition env_room (e : @env_world C F) (n : Z) : Prop :=
  env_ready (st e) = true /\ exists vs m, htab_ok (env_htab (st e)) vs m /\ nused vs + n <= size (env_htab (st e)).

Lemma env_set_hex_room e n name v :
  env_room e (n + 1) -> 0 <= n -> cstring name -> strchr name 61 = None -> ch name <> 45 ->
  exists r e', env_set_hex name v e = Some (r, e') /\ env_room e' n /\ sysmem e' = sysmem e.
Proof.
  intros (Hr & vs & m & Hok & Hroom) Hn Hname Heq Hdash. unfold env_set_hex.
  destruct (env_set_map e vs m name (digits 16 16 v) Hr Hok ltac:(lia) Hname Heq Hdash) as (r & e' & vs' & m' & -> & Hok' & Hr' & Hm & Hu & Hsz & _).
  { apply digits_not_nil. }
  exists r, e'. split_and!; [done| |done]. split; [done|]. exists vs', m'. split; [done|]. lia.
Qed.
End Env.

Section Placed.
Context {C F : Type} {hooks : EnvHooks C} {hooks_ok : EnvHooksOk C} {config : EnvConfig}.
Context {IC : ImageConfig} {FC : FitConfig} {LF : Libfdt} {BC : BootConfig} {BF : BootFdt} {BM : BootmConfig C F}.

(** An image that is not compressed and can be loaded: it fits, its place is in the
    memory, is not reserved and does not overlap the image. *)
Record loadable_kernel (w : boot_world C F) (lr : list lmb_property) : Prop := {
  lk_comp : i_comp (os (images w)) = IH_COMP_NONE;
  lk_moved : i_load (os (images w)) <> image_start (os (images w));
  lk_len : 0 < image_len (os (images w)) <= u32 CONFIG_SYS_BOOTM_LEN;
  lk_start : 0 <= image_start (os (images w)) /\ image_start (os (images w)) + image_len (os (images w)) <= Z.of_nat (length (sysmem_of w));
  lk_load : 0 <= i_load (os (images w)) /\ i_load (os (images w)) + image_len (os (images w)) <= Z.of_nat (length (sysmem_of w));
  lk_apart : i_end (os (images w)) <= i_load (os (images w)) \/ i_load (os (images w)) + image_len (os (images w)) <= i_start (os (images w));
  lk_free : Forall (disjoint_blocks (mk_property (i_load (os (images w))) (image_len (os (images w))))) lr;
  lk_small : Z.of_nat (length (sysmem_of w)) < 2 ^ 63
}.

(** The data of the kernel. *)
Definition kernel_data (w : boot_world C F) : list Z := slice (sysmem_of w) (Z.to_nat (image_start (os (images w)))) (Z.to_nat (image_len (os (images w)))).

Lemma load_os_spec w lr :
  blocks (reserved (images_lmb (images w))) lr -> (length lr < 8)%nat -> loadable_kernel w lr ->
  exists l' lr', bootm_load_os w = Some (inr 0, with_images (with_sysmem w (blit (sysmem_of w) (Z.to_nat (i_load (os (images w)))) (kernel_data w))) (set_lmb (images w) l')) /\
    memory l' = memory (images_lmb (images w)) /\ blocks (reserved l') lr' /\
    forall a, covered lr' a <-> covered lr a \/ i_load (os (images w)) <= a < i_load (os (images w)) + image_len (os (images w)).
Proof.
  intros Hb Hlen [K1 K2 K3 [K4 K4'] [K5 K5'] K6 K7 K8]. unfold bootm_load_os, bind, reads, on_mem, set_mem, update, yield. cbv beta iota.
  set (o := os (images w)) in *. unfold bootm_decomp_image. rewrite K1, Z.eqb_refl, (proj2 (Z.eqb_neq _ _) K2), (proj2 (Z.leb_le _ _)) by lia.
  pose proof (memmove_wd_blit (sysmem_of w) (Z.to_nat (i_load o)) (Z.to_nat (image_start o)) (Z.to_nat (image_len o)) CHUNKSZ
    ltac:(lia) ltac:(lia) ltac:(unfold CHUNKSZ; lia)) as Hmv. rewrite !Z2Nat.id in Hmv by lia. rewrite Hmv. fold (kernel_data w).
  rewrite !mbind_Some. cbn [Z.eqb negb andb]. rewrite (wrap_small 64 (i_load o + image_len o)) by lia.
  replace ((i_load o <? i_end o) && (i_start o <? i_load o + image_len o)) with false by lia.
  rewrite Z.add_simpl_l, wrap_small by lia. unfold lmb_reserve.
  destruct (add_region_blocks (reserved (images_lmb (images w))) lr (mk_property (i_load o) (image_len o)) Hb) as (ret & rgn & Hadd & Hres).
  { split; cbn [lp_base lp_size lp_end]; [lia|]. unfold lp_end. cbn [lp_base lp_size]. lia. }
  { done. }
  cbn [lp_base lp_size] in Hadd. rewrite Hadd, !mbind_Some. destruct Hres as [(_ & _ & Hfull & _)|(_ & lr' & Hb' & Hcov)]; [lia|].
  exists (mk_lmb (memory (images_lmb (images w))) rgn), lr'. by split_and!.
Qed.

(** A ramdisk that can be moved. *)
Record movable_ramdisk (w : boot_world C F) (limit : Z) : Prop := {
  mr_start : 0 < rd_start (images w);
  mr_end : rd_start (images w) < rd_end (images w) <= Z.of_nat (length (sysmem_of w));
  mr_small : Z.of_nat (length (sysmem_of w)) < 2 ^ 63;
  mr_hint : ramdisk_hint (env_get (w_env w)) = Some (limit, true);
  mr_limit : limit = 0 \/ rd_end (images w) - rd_start (images w) <= limit < 2 ^ 64
}.

Lemma state_ramdisk_spec w lm lr limit :
  blocks (memory (images_lmb (images w))) lm -> blocks (reserved (images_lmb (images w))) lr ->
  Forall (fun m => lp_end m <= Z.of_nat (length (sysmem_of w))) lm -> movable_ramdisk w limit -> env_room (w_env w) 2 ->
  let rd := rd_start (images w) in let len := rd_end (images w) - rd in
  exists ret w', state_ramdisk w = Some (inr ret, w') /\ os (images w') = os (images w) /\
    ((ret = 0 /\ exists l', initrd_end (images w') = initrd_start (images w') + len /\
        ramdisk_moved (images_lmb (images w)) l' lm lr (sysmem_of w) (sysmem_of w') rd len limit (initrd_start (images w'))) \/
     (ret = -1 /\ sysmem_of w' = sysmem_of w /\
        (length lr = 8%nat \/ forall m b, m ∈ lm -> fits len 0x1000 limit m b -> ~ free_at lr len b))).
Proof.
  intros Hm Hr Hend [R1 [R2 R2'] R3 R4 R5] Hroom rd len.
  destruct (boot_ramdisk_high_spec (env_get (w_env w)) (images_lmb (images w)) lm lr (sysmem_of w) rd len (initrd_end (images w)) limit
    Hm Hr Hend R1 ltac:(unfold len, rd; lia) ltac:(unfold len, rd; lia) R3 R4 R5) as (ret & start & e & l' & mem' & Eh & _ & Hcase).
  unfold state_ramdisk, bind, reads, on_mem. cbv beta iota. fold rd. rewrite (wrap_small 64 (rd_end (images w) - rd)) by (unfold rd; lia).
  fold len. rewrite Eh, mbind_Some. unfold set_mem at 1, update at 1. rewrite mbind_Some. cbv beta iota.
  destruct Hcase as [(-> & -> & Hmoved)|(-> & -> & -> & Hno)].
  - cbn [Z.eqb]. set (w1 := with_images (with_sysmem w mem') _).
    destruct (env_set_hex_room (w_env w1) 1 (str "initrd_start") start) as (r1 & e1 & E1 & Hroom1 & Hm1);
      [done|lia|repeat constructor; simpl; lia|done|done|].
    destruct (env_set_hex_room e1 0 (str "initrd_end") (start + len)) as (r2 & e2 & E2 & _ & Hm2);
      [done|lia|repeat constructor; simpl; lia|done|done|].
    unfold set_env. rewrite E1, mbind_Some. cbv beta iota. cbn [w_env with_env]. rewrite E2, mbind_Some. cbv beta iota.
    eexists 0, _. split; [done|]. split; [done|]. left. split; [done|]. exists l'. split; [done|].
    unfold sysmem_of at 2. cbn [w_env with_env]. by rewrite Hm2, Hm1.
  - cbn [Z.eqb]. eexists (-1), _. split; [done|]. split; [done|]. right. by split_and!.
Qed.

(** No state of the system. *)
Lemma os_states_none args w :
  0 <= i_os (os (images w)) < boot_os_size -> os_states args (Z.lor BOOTM_STATE_LOADOS BOOTM_STATE_RAMDISK) w = Some (inr 0, w).
Proof.
  intros Hos. unfold os_states, bind at 1, reads. cbv beta iota. unfold bind at 1, on_mem, bootm_os_get_boot_func.
  rewrite (proj2 (andb_true_iff _ _)) by (split; [apply Z.leb_le|apply Z.ltb_lt]; lia). rewrite mbind_Some. cbv beta iota.
  by destruct (find_boot_fn _ _).
Qed.

(** The table with the kernel in it. *)
Definition with_kernel (w : boot_world C F) (lr lr' : list lmb_property) : Prop :=
  forall a, covered lr' a <-> covered lr a \/ i_load (os (images w)) <= a < i_load (os (images w)) + image_len (os (images w)).

Lemma load_then_ramdisk args w w1 ret w2 :
  0 <= i_os (os (images w2)) < boot_os_size ->
  bootm_load_os (with_images w (set_state (images w) (Z.lor (images_state (images w)) (Z.lor BOOTM_STATE_LOADOS BOOTM_STATE_RAMDISK)))) = Some (inr 0, w1) ->
  state_ramdisk w1 = Some (inr ret, w2) ->
  do_bootm_states args (Z.lor BOOTM_STATE_LOADOS BOOTM_STATE_RAMDISK) w = Some (inr ret, w2).
Proof.
  intros Hos E1 E2. unfold do_bootm_states. unfold bind at 1, update. cbv beta iota.
  change (has (Z.lor BOOTM_STATE_LOADOS BOOTM_STATE_RAMDISK) BOOTM_STATE_START) with false. cbv iota.
  unfold bind at 1, yield at 1. cbv beta iota. unfold run_state. change (has (Z.lor BOOTM_STATE_LOADOS BOOTM_STATE_RAMDISK) BOOTM_STATE_FINDOS) with false.
  change (has (Z.lor BOOTM_STATE_LOADOS BOOTM_STATE_RAMDISK) BOOTM_STATE_FINDOTHER) with false. cbn [Z.eqb andb].
  unfold bind at 1, yield at 1. cbv beta iota. cbn [Z.eqb andb]. unfold bind at 1, yield at 1. cbv beta iota.
  change ((0 =? 0) && has (Z.lor BOOTM_STATE_LOADOS BOOTM_STATE_RAMDISK) BOOTM_STATE_LOADOS) with true. cbv iota.
  rewrite (bind_run _ _ _ _ _ E1). change (negb (0 =? 0) && negb (0 =? BOOTM_ERR_OVERLAP)) with false. cbv iota.
  unfold loaded_states, run_state. change ((0 =? 0) && has (Z.lor BOOTM_STATE_LOADOS BOOTM_STATE_RAMDISK) BOOTM_STATE_RAMDISK) with true. cbv iota.
  rewrite (bind_run _ _ _ _ _ E2). change (has (Z.lor BOOTM_STATE_LOADOS BOOTM_STATE_RAMDISK) BOOTM_STATE_FDT) with false. rewrite andb_false_r.
  unfold bind, yield. cbv beta iota. destruct (Z.eqb_spec ret 0) as [->|]; [|done]. cbn [negb]. by apply os_states_none.
Qed.

Lemma placed_spec args w lm lr limit :
  blocks (memory (images_lmb (images w))) lm -> blocks (reserved (images_lmb (images w))) lr -> (length lr < 8)%nat ->
  Forall (fun m => lp_end m <= Z.of_nat (length (sysmem_of w))) lm ->
  loadable_kernel w lr -> movable_ramdisk w limit -> env_room (w_env w) 2 -> 0 <= i_os (os (images w)) < boot_os_size ->
  let load := i_load (os (images w)) in let size := image_len (os (images w)) in
  let rd := rd_start (images w) in let len := rd_end (images w) - rd in
  load + size <= rd \/ rd + len <= load ->
  exists ret w' lr', do_bootm_states args (Z.lor BOOTM_STATE_LOADOS BOOTM_STATE_RAMDISK) w = Some (inr ret, w') /\
    at_addr (sysmem_of w') load (kernel_data w) /\ with_kernel w lr lr' /\
    ((ret = 0 /\ let start := initrd_start (images w') in
        at_addr (sysmem_of w') start (slice (sysmem_of w) (Z.to_nat rd) (Z.to_nat len)) /\ initrd_end (images w') = start + len /\
        (load + size <= start \/ start + len <= load) /\ free_at lr' len start) \/
     (ret = -1 /\ (length lr' = 8%nat \/ forall m b, m ∈ lm -> fits len 0x1000 limit m b -> ~ free_at lr' len b))).
Proof.
  intros Hm Hr Hlen Hend Hk Hrd Hroom Hos load size rd len Hapart.
  set (w0 := with_images w (set_state (images w) (Z.lor (images_state (images w)) (Z.lor BOOTM_STATE_LOADOS BOOTM_STATE_RAMDISK)))).
  destruct (load_os_spec w0 lr Hr Hlen) as (l1 & lr1 & E1 & Hmem1 & Hb1 & Hcov); [by destruct Hk; split|]. change (memory (images_lmb (images w0))) with (memory (images_lmb (images w))) in Hmem1.
  change (kernel_data w0) with (kernel_data w) in E1. change (sysmem_of w0) with (sysmem_of w) in E1. change (i_load (os (images w0))) with load in E1.
  set (mem1 := blit (sysmem_of w) (Z.to_nat load) (kernel_data w)) in E1. set (w1 := with_images _ _) in E1.
  destruct Hk as [_ _ K3 [K4 K4'] [K5 K5'] _ _ K8]. destruct Hrd as [R1 [R2 R2'] R3 R4 R5].
  assert (length (kernel_data w) = Z.to_nat size) as Lk by (apply length_slice; lia).
  assert (length mem1 = length (sysmem_of w)) as L1 by (apply length_blit; lia).
  assert (at_addr mem1 load (kernel_data w)) as Hk1 by (apply blit_at; lia).
  assert (slice mem1 (Z.to_nat rd) (Z.to_nat len) = slice (sysmem_of w) (Z.to_nat rd) (Z.to_nat len)) as Hsame.
  { assert (length (slice (sysmem_of w) (Z.to_nat rd) (Z.to_nat len)) = Z.to_nat len) as Ls by (apply length_slice; lia).
    destruct (at_addr_blit (sysmem_of w) rd (slice (sysmem_of w) (Z.to_nat rd) (Z.to_nat len)) load (kernel_data w)) as [_ Hs]; [apply slice_at; lia|lia|lia|lia|].
    by rewrite Ls in Hs. }
  destruct (state_ramdisk_spec w1 lm lr1 limit) as (ret & w2 & E2 & Hos2 & Hcase).
  { change (memory (images_lmb (images w1))) with (memory l1). by rewrite Hmem1. }
  { done. }
  { change (sysmem_of w1) with mem1. by rewrite L1. }
  { split; change (sysmem_of w1) with mem1; rewrite ?L1; done. }
  { done. }
  change (rd_start (images w1)) with rd in Hcase. change (rd_end (images w1)) with (rd_end (images w)) in Hcase. change (sysmem_of w1) with mem1 in Hcase. fold len in Hcase.
  exists ret, w2, lr1. split; [by apply (load_then_ramdisk args w w1); [rewrite Hos2| |]|].
  destruct Hcase as [(-> & l' & He & (m & Hin & Hfit) & Hfree & Hmem2 & _)|(-> & Hmem2 & Hno)].
  - set (start := initrd_start (images w2)) in *. assert (lp_end m <= Z.of_nat (length (sysmem_of w))) as Hme by (by rewrite Forall_forall in Hend; apply Hend).
    destruct Hfit as (F0 & _ & _ & Fe & _). assert (load + size <= start \/ start + len <= load) as Hd.
    { pose proof (free_covered lr1 len start load size Hfree ltac:(intros a Ha; apply Hcov; by right) ltac:(lia) ltac:(lia)). lia. }
    assert (length (slice mem1 (Z.to_nat rd) (Z.to_nat len)) = Z.to_nat len) as Ls by (apply length_slice; lia).
    rewrite Hmem2. split_and!; [apply at_addr_blit; [done|lia|lia|lia]|done|]. left. split; [done|]. cbv zeta. fold start.
    split_and!; [|done|done|done].
    rewrite <- Hsame. apply blit_at; lia.
  - rewrite Hmem2. split_and!; [done|done|]. by right.
Qed.
End Placed.

(** ** Correctness *)

(** C34: when [bootm] is given an address (or nothing) and Linux is started, the
    kernel at that address was checked, with [verify] from the environment.  A legacy
    image has right checksums of its header and, when [verify] is not 0, of its data,
    and is for this processor; for a FIT image the checks of [fit_image_load] were
    passed.  Linux is entered at the entry point that this image names (if it is not
    of the kind that runs where it is), whatever the other images are. *)
Theorem linux_started_checked {C F : Type} `{EnvHooks C} `{EnvConfig} `{ImageConfig} `{FitConfig} `{Libfdt} `{BootConfig} `{BootFdt}
    `{!BootmConfig C F} args (w w' : boot_world C F) la entry aarch64 addr cfg uname :
  names_subcommand args = false -> genimg_get_kernel_addr_fit (load_addr w) (args !! 0%nat) = (addr, cfg, uname) ->
  do_bootm args w = Some (inl (EnteredLinux la entry aarch64), w') ->
  exists verify, env_get_yesno (w_env w) (str "verify") = Some verify /\
    (forall h data, image_at (sysmem_of w) addr h data -> Forall byte_ok (sysmem_of w) -> contents_ok (sysmem_of w) addr h -> ih_magic h = IH_MAGIC ->
       hcrc_ok h = true /\ (verify <> 0 -> dcrc_ok h data = true) /\ arch_ok h IH_ARCH_DEFAULT = true /\
       (ih_type h <> IH_TYPE_KERNEL_NOLOAD -> entry = ih_ep h)) /\
    (genimg_get_format (sysmem_of w) addr = Some IMAGE_FORMAT_LEGACY \/
     genimg_get_format (sysmem_of w) addr = Some IMAGE_FORMAT_FIT /\ fit_kernel_checked (sysmem_of w) addr verify entry cfg uname).
Proof.
  intros Hsub Haddr E. unfold do_bootm in E. rewrite Hsub in E.
  apply all_states_entered in E as (w0 & w1 & w2 & Hm0 & He0 & Hl0 & E1 & E2 & ->).
  destruct (start_state _ _ _ E1) as (Hm1 & Hl1 & Hnl & Hv & _). rewrite He0 in Hv. rewrite Hm0 in Hm1. rewrite <- Hl0, <- Hl1 in Haddr.
  exists (images_verify (images w1)). rewrite <- Hm1. split_and!; [done| |].
  - intros h data Hi Hb Hc Hmg. by apply (find_os_legacy args w1 w2 addr cfg uname Haddr E2 h data).
  - destruct (find_os_format args w1 w2 addr cfg uname Haddr E2) as [|Hf]; [by left|right]. split; [done|]. by eapply find_os_fit.
Qed.


(** C36: the subcommands of [bootm] run in order.  In any sequence of them without a
    [start], with other commands between, the states of those that do something are
    strictly increasing, and all are behind those that were run before; a subcommand
    that would break the order is answered with the usage and changes nothing. *)
Theorem subcommands_in_order {C F : Type} `{EnvHooks C} `{EnvConfig} `{ImageConfig} `{FitConfig} `{Libfdt} `{BootConfig} `{BootFdt}
    `{!BootmConfig C F} (w w' : boot_world C F) l :
  sub_trace w l w' -> 0 <= images_state (images w) ->
  StronglySorted Z.lt (images_state (images w) :: l) /\
  forall arg args s, sub_states arg = Some s -> Some s <> sub_states (str "start") -> s <= images_state (images w) ->
    do_bootm_subcommand (arg :: args) w = Some (inr CMD_RET_USAGE, w).
Proof.
  intros Ht Hst0. split; [by eapply sub_trace_sorted|]. intros arg args s Es Hne Hle.
  rewrite (subcommand_runs arg args s w Es Hne), (proj2 (Z.leb_le _ _)) by lia. done.
Qed.

(** ** Examples *)

#[local] Instance boot_image_config : ImageConfig := {|
  CONFIG_WATCHDOG := false; CONFIG_LYNXKDI := false; CONFIG_CMD_ELF := false; CONFIG_INTEGRITY := false; CONFIG_BOOTM_OPENRTOS := false;
  CONFIG_SYS_SDRAM_BASE := 0; CONFIG_SYS_BOOTM_LEN := 0x4000000; bi_dram_start := 0; bi_dram_size := 0x3000 |}.

#[local] Instance boot_fit_config : FitConfig := {|
  IMAGE_ENABLE_VERIFY := true; IMAGE_ENABLE_BEST_MATCH := false; IMAGE_ENABLE_TIMESTAMP := false; IMAGE_ENABLE_SHA256 := true;
  CONFIG_ARM64_SUPPORT_AARCH32 := false; CONFIG_FIT_SIGNATURE_MAX_SIZE := 0x10000000; fit_heap := None; fit_stack := []; fit_junk := [] |}.

#[local] Instance boot_libfdt : Libfdt := {| fdt_at := fun _ _ => control_tree false; gd_fdt_blob := control_tree false |}.

#[local] Instance boot_config : BootConfig := {| CONFIG_SUPPORT_RAW_INITRD := false; CONFIG_SYS_FDT_PAD := 0x3000; boot_alloc := true; boot_junk := 7 |}.

#[local] Instance boot_fdt : BootFdt := {| fdt_open_into := fun m _ _ _ => Some (0, m); fdt_mem_rsv := fun _ _ => [] |}.

#[local] Instance boot_bootm_config : BootmConfig unit (list Z) := {|
  CONFIG_CMD_BOOTI := true; bi_dram := []; boot_sp := 0; bi_arch_number := 0; gunzip := None; BZ2_bzBuffToBuffDecompress := None;
  lzmaBuffToBuffDecompress := None; lzop_decompress := None; ulz4fn := None; run_appl := fun _ _ e => Some (Some 0, e); other_os := [];
  image_setup_libfdt := fun i m _ _ => Some (0, images_lmb i, m) |}.

#[local] Instance boot_hooks : EnvHooks unit := no_hooks.
#[local] Instance boot_env_config : EnvConfig := small_config false.

(** A memory with a kernel at 16, a device tree at 88 and room for the kernel at
    128, and an environment that leaves the tree where it is. *)
Definition boot_data : list Z := str "kernel!".
Definition boot_kernel : image_header_t := make_header IH_TYPE_KERNEL 128 boot_data.
Definition boot_tree : list Z := concat (PUT_UINT32_BE <$> [0xd00dfeed; 40; 40; 40; 40; 17; 16; 0; 0; 0]).
Definition boot_memory : list Z := replicate 16 0 ++ header_bytes boot_kernel ++ boot_data ++ [0] ++ boot_tree ++ replicate 32 0.

Definition boot_env : @env_world unit (list Z) :=
  let e := mk_world (mk_store var_table ENV_VALID true false 0 []) 1 [] [] in
  mk_world (st (match env_set (str "fdt_high") (Some (str "ffffffffffffffff")) e with Some (_, e) => e | None => e end)) 1 [] boot_memory.

Definition boot_example : boot_world unit (list Z) := mk_boot _ _ zero_images boot_env 16 0.
Definition boot_args : list (list Z) := [str "10"; str "-"; str "58"].

Lemma boot_memory_bytes : Forall byte_ok boot_memory.
Proof.
  assert (forallb (fun b => (0 <=? b) && (b <? 256)) boot_memory = true) as Hb by (vm_compute; reflexivity).
  rewrite forallb_forall in Hb. apply Forall_forall. intros x Hx%list_elem_of_In. specialize (Hb x Hx). unfold byte_ok. lia.
Qed.

Lemma boot_kernel_at : image_at boot_memory 16 boot_kernel boot_data.
Proof.
  assert (header_ok boot_kernel) as Hok.
  { split; [vm_compute; split_and!; (done || congruence)|by vm_compute|]. split; [reflexivity|]. repeat constructor; simpl; lia. }
  split; [done|split; [lia|by vm_compute]|repeat constructor; simpl; lia|by vm_compute|by vm_compute|by vm_compute].
Qed.

(** Witness: the kernel at 16 is started at 128 with the tree at 88. *)
Lemma linux_started_checked_witness :
  exists w', do_bootm boot_args boot_example = Some (inl (EnteredLinux [88; 0; 0; 0] 128 true), w') /\
    exists verify, env_get_yesno boot_env (str "verify") = Some verify /\
      hcrc_ok boot_kernel = true /\ (verify <> 0 -> dcrc_ok boot_kernel boot_data = true).
Proof.
  assert (fst <$> do_bootm boot_args boot_example = Some (inl (EnteredLinux [88; 0; 0; 0] 128 true))) as E by (vm_compute; reflexivity).
  destruct (do_bootm boot_args boot_example) as [[r w']|] eqn:E'; [|discriminate]. injection E as ->. exists w'. split; [reflexivity|].
  destruct (linux_started_checked boot_args boot_example w' [88; 0; 0; 0] 128 true 16 None None eq_refl eq_refl E') as (verify & Hv & Hk & _).
  exists verify. split; [exact Hv|]. change (sysmem_of boot_example) with boot_memory in Hk.
  destruct (Hk boot_kernel boot_data boot_kernel_at boot_memory_bytes ltac:(intros [?|?]; done) eq_refl) as (H1 & H2 & _). by split.
Defined.

(** A kernel of 7 bytes at 80 that is loaded to 128, and a ramdisk from 32 to 64, in
    a memory of three pages of which the last is reserved. *)
Definition placed_images : bootm_headers_t :=
  set_lmb (set_rd (set_os zero_images (mk_image_info 16 87 80 7 128 IH_COMP_NONE IH_TYPE_KERNEL IH_OS_LINUX IH_ARCH_ARM64)) 32 64)
    (mk_lmb (mk_region 1 0 (mk_property 0 0x3000 :: replicate 8 (mk_property 0 0))) (mk_region 1 0 (mk_property 0x2000 0x1000 :: replicate 8 (mk_property 0 0)))).

Definition placed_world (mem : list Z) : boot_world unit (list Z) :=
  mk_boot _ _ placed_images (mk_world (mk_store var_table ENV_VALID true false 0 []) 1 [] mem) 0 0.

Lemma placed_loadable mem : Z.of_nat (length mem) = 0x3000 -> loadable_kernel (placed_world mem) [mk_property 0x2000 0x1000].
Proof.
  intros Hl. change mem with (sysmem_of (placed_world mem)) in Hl.
  split; rewrite ?Hl; simpl; try lia; try done. apply Forall_singleton. unfold disjoint_blocks, lp_end. simpl. lia.
Qed.

Lemma placed_movable mem : Z.of_nat (length mem) = 0x3000 -> movable_ramdisk (placed_world mem) 0x3000.
Proof.
  intros Hl. change mem with (sysmem_of (placed_world mem)) in Hl. split; rewrite ?Hl; simpl; try lia. vm_compute. reflexivity.
Qed.


Definition after (arg : list Z) (w : boot_world unit (list Z)) : boot_world unit (list Z) :=
  match do_bootm_subcommand [arg] w with Some (_, w') => w' | None => w end.
Definition sub_example : boot_world unit (list Z) := with_images (placed_world (replicate 160 5)) (set_state placed_images 7).

(** Witness: [loados] is run once; the second is refused. *)
Lemma subcommands_in_order_witness :
  let w1 := after (str "loados") sub_example in
  StronglySorted Z.lt [7; 8] /\ do_bootm_subcommand [str "loados"] w1 = Some (inr CMD_RET_USAGE, w1).
Proof.
  intros w1. assert (fst <$> do_bootm_subcommand [str "loados"] sub_example = Some (inr 0)) as E by (vm_compute; reflexivity).
  assert (do_bootm_subcommand [str "loados"] sub_example = Some (inr 0, w1)) as E1.
  { unfold w1, after. destruct (do_bootm_subcommand [str "loados"] sub_example) as [[r w]|]; [|discriminate]. by injection E as ->. }
  assert (Some 8 <> sub_states (str "start")) as Hne by (vm_compute; discriminate).
  assert (sub_states (str "loados") = Some 8) as Hs by (vm_compute; reflexivity). split.
  - refine (proj1 (subcommands_in_order sub_example w1 [8] _ ltac:(done))).
    exact (trace_sub (str "loados") [] 8 _ _ _ [] _ Hs Hne E1 ltac:(discriminate) (trace_end w1)).
  - refine (proj2 (subcommands_in_order w1 w1 [] (trace_end w1) _) _ _ 8 Hs Hne _); vm_compute; discriminate.
Defined.

(** ** What the model shows *)

(** The number of the operating system, a byte of the header, is an index into
    [boot_os], which ends with the largest number that has a function; behind it the
    array is read behind its end. *)
Example os_table_overrun :
  boot_os_size (C := unit) (F := list Z) = 18 /\ bootm_os_get_boot_func (C := unit) (F := list Z) 25 = None /\
  bootm_os_get_boot_func (C := unit) (F := list Z) 255 = None.
Proof. vm_compute. done. Qed.

(** A kernel whose load address overlaps its image: [bootm_load_os] returns an error
    without a reservation, and with a legacy image [do_bootm_states] goes on. *)
Definition overlap_images : bootm_headers_t :=
  set_state (set_os (set_legacy placed_images 16 []) (mk_image_info 16 87 80 7 70 IH_COMP_NONE IH_TYPE_KERNEL IH_OS_LINUX IH_ARCH_ARM64)) 7.

Example overlap_not_reserved :
  exists w', do_bootm_subcommand [str "loados"] (with_images sub_example overlap_images) = Some (inr 0, w') /\
    reserved (images_lmb (images w')) = reserved (images_lmb placed_images).
Proof. eexists. split; vm_compute; reflexivity. Qed.

(** A tree that is found but cannot be loaded: the pointer that [boot_get_fdt_fit] did
    not set is used, here 7. *)
Example fdt_error_ignored :
  fst <$> fdt_found_at (C := unit) (F := list Z) (LF := example_libfdt false) 88 None (Some (str "fdt-1")) boot_example = Some (inr (fdt_blob_at 7)).
Proof. vm_compute. reflexivity. Qed.

(** Among the subcommands, one that consists of hexadecimal digits is taken for an
    address when it is abbreviated. *)
Example abbreviation_is_address : names_subcommand [str "fd"] = false /\ sub_states (str "fd") = Some BOOTM_STATE_FDT.
Proof. vm_compute. done. Qed.

(** After a complete start, [images.state] has forgotten the states that found the
    images. *)
Example start_forgets_states :
  (images_state ∘ images ∘ snd) <$> do_bootm_subcommand (str "start" :: boot_args) boot_example = Some BOOTM_STATE_START.
Proof. vm_compute. reflexivity. Qed.
